(* ===== verification/_CoqProject ===== *)
-Q . S2P
Prelude.v
Kernel.v
Spinlock.v
CString.v
Kalloc.v
Sched.v
Sleeplock.v
Bytes.v
Disk.v
Memide.v
Bio.v
Bcache.v
Log.v
LogSpec.v
LogCrash.v
LogTx.v
Pipe.v
Inode.v
Io.v
Ioapic.v
Ide.v
IdeSpec.v
Console.v
Screen.v
ConsoleSpec.v
Apic.v
Mp.v
ApicSpec.v
FsTx.v
Fs.v
FsFile.v
FsWrite.v
FsContents.v
Icache.v
FsPath.v
FsDir.v
FsLink.v
Vm.v
VmSpec.v
Uspace.v
Freevm.v
UspaceSpec.v
File.v
Proc.v
Syscall.v
Exec.v
ProcSpec.v
ExitSpec.v
Sysfile.v
Trap.v
Seg.v
Main.v
Boot.v
X86.v
Asm.v
Ulib.v
Stream.v
Uprogs.v
Grep.v
Tests.v
Posix.v
Umalloc.v
MallocSpec.v
Sh.v
ShParse.v
Mkfs.v
MkfsFile.v
MkfsSpec.v
MkfsImage.v
