(* ===== verification/Prelude.v ===== *)
(** * A verification development for xv6-64

    The program is xv6, a small Unix for x86-64 multiprocessors: a kernel with
    processes, virtual memory and a logging file system, its boot loader, the user library,
    the shell and the user programs, and mkfs, which builds the file system image.
    This library models the C code of all of it in Gallina, function by function, and the assembly
    of the running system instruction by instruction, and proves what makes the parts correct.

    ** How the code is modelled

    A C integer is a [Z]; arithmetic that can leave the range of its type is
    wrapped ([u8] to [u64], [s8] to [s64]).  A structure is a record, an enumeration an inductive type.
    The kernel's global variables are the record [Kernel.world]: tables are lists of records and a pointer
    into a table is an index; physical memory, in which free pages, page tables, user pages and the
    tables of the firmware lie, is a map from addresses to bytes.  A C function is a
    definition of the same name in the state monad [K]; it returns, or stops for a reason
    ([stop]): a panic, a process that exits, a wait for something the rest of the system has not
    done, or an access the hardware faults on.

    One kernel thread is modelled at a time.  Whenever it spins, sleeps or switches, the next element of
    the script [ks_env], an arbitrary change of the state, stands for what the other threads and processors
    did in between; the theorems say which scripts they are about.  The interleaving
    of the processors' atomic actions is modelled explicitly for spin locks
    (Spinlock, module [SMP]).  Devices answer as functions of all that was sent to them before
    (class [Io.Devices]); what is assumed of one is stated where its driver is verified, on the
    registers as its standard lays them out.  The disk driver is an
    interface ([Disk.DiskDriver] with its laws [DiskLaws]), of which memide.c is proved to be
    an instance.  User programs are written against the class [Ulib.Unix] of the
    system calls.

    ** Files and sources

    - Prelude: integers, record updates, the monad, the development's tactics.  Kernel: param.h, proc.h,
      file.h, buf.h, fs.h and the global state.  Bytes: fields of on-disk structures.
    - Spinlock (spinlock.c), CString (string.c), Kalloc (kalloc.c), Sleeplock (sleeplock.c), Sched (proc.c:
      scheduler, sleep, wakeup, kill).
    - Disk, Memide (memide.c), Io (x86.h), Ide and IdeSpec (ide.c), Bio and Bcache (bio.c), Log, LogSpec, LogCrash
      and LogTx (log.c).
    - Inode and Fs (fs.c); FsTx, FsFile, FsWrite, FsContents, Icache, FsPath, FsDir and FsLink verify them: blocks
      in a transaction, file contents, the inode cache, names, paths and directories.
    - Pipe (pipe.c), File (file.c), Console (console.c, kbd.c, uart.c), Screen and ConsoleSpec: its output and its
      input.
    - Ioapic, Apic and ApicSpec (ioapic.c, lapic.c), Mp (mp.c), Seg (vm.c: segments), Main (main.c), Boot (bootmain.c).
    - X86 (a processor, with the instructions the assembly uses), Asm (swtch.S, trapasm.S, vectors.pl, usys.S,
      initcode.S).
    - Vm (vm.c: page tables), VmSpec, Uspace, UspaceSpec and Freevm: page tables as maps, user address spaces.
    - Proc (proc.c: life of a process), ProcSpec and ExitSpec; Syscall and Trap (syscall.c, trap.c), Exec (exec.c), Sysfile
      (sysfile.c, sysproc.c).
    - Ulib (ulib.c, printf.c), Umalloc and MallocSpec (umalloc.c), Uprogs (cat, wc, echo, ls, ln, rm, mkdir, kill,
      zombie, init), Grep (grep.c), Sh and ShParse (sh.c), Tests (forktest.c, stressfs.c, usertests.c); Stream and Posix,
      two instances of the system calls.
    - Mkfs (mkfs.c); MkfsFile, MkfsSpec and MkfsImage: the files, inodes and blocks of the image it builds.

    ** What is proved

    - Storage.  A transaction reaches the disk entirely or not at all, whenever the machine stops
      (LogTx), recovery can itself be interrupted (LogCrash), and begin_op's reservation can be
      exceeded by one block.  The cache is transparent (Bcache).  Writing a file is atomic and reading gives back
      what was written (FsContents); paths resolve as the directory tree on disk says (FsDir); a new entry is
      found and disturbs no other (FsLink); reference counts of inodes are exact (Icache).  The IDE driver
      serves requests in order and completes them (IdeSpec).  The image mkfs builds is a file system as these theorems
      ask for it, and every file given to mkfs is found in it with its contents (MkfsImage).
    - Concurrency.  Mutual exclusion over all interleavings, and that the sequential [acquire] is the
      sequence of these actions (Spinlock); no wakeup is lost and the scheduler is fair (Sched); sleep
      locks are handed over (Sleeplock).
    - Processes and memory.  The page allocator never hands out a page twice (Kalloc); walkpgdir agrees with the
      processor's translation, and mapping, growing, shrinking, copying of and writing to address spaces do what
      they should and nothing else (UspaceSpec); fork, exit and wait (ProcSpec, ExitSpec) keep the books: references,
      children, and every page of memory.
    - Entering and leaving the kernel (Asm).  A system call reaches the kernel with the caller's registers and arguments
      in its trap frame and returns to the caller with the result; a trap keeps the interrupted state; swtch
      switches threads and starts new processes.
    - Machine.  The boot loader loads the image its header describes (Boot); the processors of the firmware's
      table are found (Mp); interrupts are routed as asked (ApicSpec).
    - Byte streams and text.  Pipes are bounded queues (Pipe); the console's input is a line editor (ConsoleSpec) and
      its output stays on the screen (Screen); memmove and memset (CString); malloc and free keep blocks apart and
      their contents intact (MallocSpec); grep matches its
      regular expressions, and what it prints for every way its input arrives (Grep); cat and wc
      (Uprogs); printf and atoi (Ulib); the shell's parser terminates on all input and reads back printed
      commands (ShParse).  The tests of usertests.c pass on an abstract system (Posix).

    ** Bounds

    Loops that are not structurally recursive take fuel, computed from their input in the definition itself
    (the length of a line, the number of pages of a range, the entries of a queue), and the
    theorems prove that the code returns, so that the fuel is enough; ShParse proves it for all inputs.  Loops that sleep or spin
    are bounded by the length of the script, each turn using up one element ([foreverK_fuel]).  Loops that poll a device
    are bounded by the parameter [patience], with the assumption that the device
    answers within so many reads.  [Main.scheduler] takes the number of rounds to run of its endless loop.  The loops of
    umalloc.c take fuel; after [n] calls, [2 * n + 4] turns are enough (MallocSpec).

    ** Not modelled

    - The assembly that starts a processor (bootasm.S, entry.S, entryother.S): it runs in 16-bit and 32-bit mode, up to
      the first call of C code; the addresses and images the C code uses are parameters.  In the C model a context switch
      is a step of the script and a trap hands its frame to [trap]; Asm shows on memory that swtch.S and trapasm.S do so.
    - Caches of the processor, the translation lookaside buffer and weak memory ordering: memory is sequentially
      consistent, and the barrier instructions have no effect.
    - The debugging aids: the call stacks recorded in locks, and the warning of cpunum.
    - The tests of usertests.c that read or write memory they must not, run out of it or execute privileged
      instructions (nullptrtest, mem, sbrktest, validatetest, argptest, uio), and its main function: the system-call
      interface has no user memory. *)

From Stdlib Require Export ZArith Lia.
From Stdlib Require Import FunctionalExtensionality.
From stdpp Require Export base gmap strings functions numbers list.

#[global] Open Scope Z_scope.
#[export] Set Warnings "-clear-no-such-hyp".

(** ** Machine integers

    C integers are kept as [Z]; every place where the source's arithmetic can
    leave the range of its type is wrapped by one of these. *)

Definition u8 (x : Z) : Z := x mod 2 ^ 8.
Definition u16 (x : Z) : Z := x mod 2 ^ 16.
Definition u32 (x : Z) : Z := x mod 2 ^ 32.
Definition u64 (x : Z) : Z := x mod 2 ^ 64.
Definition s8 (x : Z) : Z := (x + 2 ^ 7) mod 2 ^ 8 - 2 ^ 7.
Definition s16 (x : Z) : Z := (x + 2 ^ 15) mod 2 ^ 16 - 2 ^ 15.
Definition s32 (x : Z) : Z := (x + 2 ^ 31) mod 2 ^ 32 - 2 ^ 31.
Definition s64 (x : Z) : Z := (x + 2 ^ 63) mod 2 ^ 64 - 2 ^ 63.

Lemma u32_small (x : Z) : 0 ≤ x < 2 ^ 32 → u32 x = x.
Proof. intros. unfold u32. apply Z.mod_small. lia. Qed.

Lemma u64_small (x : Z) : 0 ≤ x < 2 ^ 64 → u64 x = x.
Proof. intros. unfold u64. apply Z.mod_small. lia. Qed.

Lemma s32_small (x : Z) : - 2 ^ 31 ≤ x < 2 ^ 31 → s32 x = x.
Proof. intros. unfold s32. rewrite Z.mod_small; lia. Qed.

Lemma u32_range (x : Z) : 0 ≤ u32 x < 2 ^ 32.
Proof. unfold u32. apply Z.mod_pos_bound. lia. Qed.

Lemma u64_range (x : Z) : 0 ≤ u64 x < 2 ^ 64.
Proof. unfold u64. apply Z.mod_pos_bound. lia. Qed.

(** ** Record updates

    [r <| f := v |>] is the record [r] with field [f] replaced by [v].  A
    record opts in by an [Instance] of [Settable] that eta-expands it. *)

Class Settable (R : Type) := eta_of : R → R.
Class Setter {R T : Type} (proj : R → T) := setf : (T → T) → R → R.
Arguments setf {R T} proj {Setter} _ _ : simpl never, assert.

Ltac solve_setter :=
  lazymatch goal with
  | |- @Setter ?R ?T ?proj =>
      let i := constr:(_ : Settable R) in
      let h := eval hnf in i in
      lazymatch eval pattern proj in h with
      | ?g _ => exact (λ (f : T → T), g (λ r : R, f (proj r)))
      end
  end.

#[export] Hint Extern 1 (Setter _) => solve_setter : typeclass_instances.

Declare Scope record_scope.
#[global] Open Scope record_scope.
Notation "r <| proj := v |>" := (setf proj (λ _, v) r)
  (at level 1, left associativity, proj constr at level 1, v at level 200,
   format "r  <| proj  :=  v |>") : record_scope.
Notation "r <| proj ::= f |>" := (setf proj f r)
  (at level 1, left associativity, proj constr at level 1, f at level 200,
   format "r  <| proj  ::=  f |>") : record_scope.

(** [rsimpl] reads a field through a record update: [p (r <| q ::= f |>)]
    becomes [p r], or [f (p r)] when [p] is [q]. *)
Ltac is_field p R :=
  let i := constr:(_ : Settable R) in
  let h := eval hnf in i in
  lazymatch h with context [p] => idtac end.
(** The equation is proved for variables [f] and [r], so that no conversion
    ever compares two concrete updates. *)
Ltac field_eqn p q s E :=
  first
    [ constr_eq p q;
      assert (E : ∀ f r, p (@setf _ _ q s f r) = f (p r))
        by (intros; with_strategy transparent [setf] reflexivity)
    | assert (E : ∀ f r, p (@setf _ _ q s f r) = p r)
        by (intros; with_strategy transparent [setf] reflexivity) ].
Ltac rsimpl_step :=
  match goal with
  | |- context [?p (@setf ?R _ ?q ?s ?f ?r)] =>
      is_field p R;
      let E := fresh "E" in field_eqn p q s E; rewrite (E f r); clear E
  end.
Ltac rsimpl_hyp_step :=
  match goal with
  | X : context [?p (@setf ?R _ ?q ?s ?f ?r)] |- _ =>
      is_field p R;
      let E := fresh "E" in field_eqn p q s E; rewrite (E f r) in X; clear E
  end.
#[global] Opaque setf.
(** For small records only: every unfolded update copies its record. *)
Ltac usetf := with_strategy transparent [setf] (unfold setf).
Ltac rsimpl := repeat (rsimpl_step; cbv beta).
Ltac rsimpl_in_all := repeat (first [rsimpl_step | rsimpl_hyp_step]; cbv beta in *).

(** ** A state monad with the ways kernel code can fail to return

    [Stop] carries the reason control never comes back to the caller: [panic]
    was called, the process [Exited], the code is still [Waiting] for another
    thread (the environment has no more steps to offer), or the code performed
    a memory access the source does not guard against ([Faulted]).
    [OutOfFuel] is the bound of a loop combinator; the components prove that
    their bounds are never reached. *)

Inductive stop :=
  | Panicked (msg : string)
  | Waiting
  | Exited
  | Faulted (what : string)
  | OutOfFuel.

Inductive res (S A : Type) :=
  | Ok (a : A) (s : S)
  | Stop (r : stop) (s : S).
Arguments Ok {S A} a s.
Arguments Stop {S A} r s.

Definition M (S A : Type) := S → res S A.

Section monad.
  Context {S : Type}.

#[export] Instance M_ret : MRet (M S) := λ A a s, Ok a s.
#[export] Instance M_bind : MBind (M S) := λ A B f m s,
    match m s with
    | Ok a s' => f a s'
    | Stop r s' => Stop r s'
    end.

Definition mstop {A} (r : stop) : M S A := λ s, Stop r s.
Definition mget : M S S := λ s, Ok s s.
Definition mgets {A} (f : S → A) : M S A := λ s, Ok (f s) s.
Definition mmod (f : S → S) : M S unit := λ s, Ok tt (f s).

(** The value of an option that the source dereferences without a check. *)
Definition munwrap {A} (what : string) (o : option A) : M S A :=
  match o with Some a => mret a | None => mstop (Faulted what) end.

(** [for(x in l) body] with no early exit. *)
Fixpoint iterM {X} (f : X → M S unit) (l : list X) : M S unit :=
  match l with
  | [] => mret tt
  | x :: l' => f x ;; iterM f l'
  end.

(** [for(x in l) body] where the body may leave the loop with a result. *)
Fixpoint firstM {X R} (f : X → M S (option R)) (l : list X) : M S (option R) :=
  match l with
  | [] => mret None
  | x :: l' =>
      r ← f x;
      match r with
      | Some v => mret (Some v)
      | None => firstM f l'
      end
  end.

(** [for(;;) body] where the body may leave the loop with a result. *)
Fixpoint loopM {R} (fuel : nat) (body : M S (option R)) : M S R :=
  match fuel with
  | O => mstop OutOfFuel
  | Datatypes.S n =>
      r ← body;
      match r with
      | Some v => mret v
      | None => loopM n body
      end
  end.

Lemma bind_ok {A B} (m : M S A) (f : A → M S B) s a s' :
    m s = Ok a s' → (m ≫= f) s = f a s'.
Proof. intros H. unfold mbind, M_bind. by rewrite H. Qed.

Lemma bind_stop {A B} (m : M S A) (f : A → M S B) s r s' :
    m s = Stop r s' → (m ≫= f) s = Stop r s'.
Proof. intros H. unfold mbind, M_bind. by rewrite H. Qed.

Lemma bind_ok_inv {A B} (m : M S A) (f : A → M S B) s b s'' :
    (m ≫= f) s = Ok b s'' → ∃ a s', m s = Ok a s' ∧ f a s' = Ok b s''.
Proof. unfold mbind, M_bind. destruct (m s); naive_solver. Qed.

Lemma bind_assoc {A B C} (m : M S A) (f : A → M S B) (g : B → M S C) s :
    ((m ≫= f) ≫= g) s = (m ≫= (λ a, f a ≫= g)) s.
Proof. unfold mbind, M_bind. by destruct (m s). Qed.

Lemma iterM_app {X} (f : X → M S unit) l1 l2 s :
    iterM f (l1 ++ l2) s = (iterM f l1 ;; iterM f l2) s.
Proof.
    revert s; induction l1 as [|x l1 IH]; intros s; [done|].
    simpl. rewrite bind_assoc. unfold mbind, M_bind.
    destruct (f x s); [apply IH|done].
Qed.
End monad.

(** ** Total maps as functions *)

Section fn_maps.
  Context {A B : Type} `{EqDecision A}.

Lemma fn_insert_insert (f : A → B) a x y : <[a := x]> (<[a := y]> f) = <[a := x]> f.
Proof.
    apply functional_extensionality; intros b.
    unfold insert, fn_insert. by destruct (decide _).
Qed.

Lemma fn_insert_id (f : A → B) a x : f a = x → <[a := x]> f = f.
Proof.
    intros <-. apply functional_extensionality; intros b.
    unfold insert, fn_insert. destruct (decide _); congruence.
Qed.

Lemma fn_insert_commute (f : A → B) a b x y :
    a ≠ b → <[a := x]> (<[b := y]> f) = <[b := y]> (<[a := x]> f).
Proof.
    intros. apply functional_extensionality; intros c.
    unfold insert, fn_insert. repeat destruct (decide _); congruence.
Qed.

Lemma fn_ext (f g : A → B) : (∀ x, f x = g x) → f = g.
Proof. apply functional_extensionality. Qed.

Lemma fn_lookup_insert_case (f : A → B) a b x :
    <[a := x]> f b = if decide (a = b) then x else f b.
Proof. done. Qed.
End fn_maps.

(** ** Little-endian encodings *)

Fixpoint le_bytes (n : nat) (x : Z) : list Z :=
  match n with
  | O => []
  | S n' => x mod 256 :: le_bytes n' (x / 256)
  end.

Fixpoint le_val (l : list Z) : Z :=
  match l with
  | [] => 0
  | b :: l' => b + 256 * le_val l'
  end.

Definition is_byte (b : Z) : Prop := 0 ≤ b < 256.

Lemma length_le_bytes n x : length (le_bytes n x) = n.
Proof. revert x; induction n; intros; simpl; congruence. Qed.

Lemma le_val_bytes n x : le_val (le_bytes n x) = x mod 256 ^ Z.of_nat n.
Proof.
  revert x; induction n as [|n IH]; intros x; cbn [le_bytes le_val].
  - by rewrite Z.mod_1_r.
  - rewrite IH, Nat2Z.inj_succ, Z.pow_succ_r by lia.
    rewrite Z.rem_mul_r by lia. lia.
Qed.

Lemma le_val_bytes_small n x : 0 ≤ x < 256 ^ Z.of_nat n → le_val (le_bytes n x) = x.
Proof. intros. rewrite le_val_bytes. by apply Z.mod_small. Qed.

Lemma le_bytes_val l : Forall is_byte l → le_bytes (length l) (le_val l) = l.
Proof.
  induction 1 as [|b l Hb Hl IH]; cbn; [done|]. unfold is_byte in Hb.
  rewrite (Z.add_comm b), (Z.mul_comm 256).
  rewrite Z.div_add_l, (Z.div_small b), Z.add_0_r by lia.
  rewrite Z.add_comm, Z.mod_add, Z.mod_small by lia. congruence.
Qed.

Lemma le_bytes_range n x : Forall is_byte (le_bytes n x).
Proof.
  revert x; induction n as [|n IH]; intros x; constructor; [|apply IH].
  unfold is_byte. apply Z.mod_pos_bound. lia.
Qed.

Lemma le_val_range l : Forall is_byte l → 0 ≤ le_val l < 256 ^ Z.of_nat (length l).
Proof.
  induction 1 as [|b l Hb Hl IH]; cbn [le_val length]; [lia|]. unfold is_byte in Hb.
  rewrite Nat2Z.inj_succ, Z.pow_succ_r by lia. lia.
Qed.

(** ** C strings *)

(** The bytes of a string literal, and with the terminator the compiler adds. *)
Fixpoint chars (s : string) : list Z :=
  match s with
  | EmptyString => []
  | String a s => Z.of_N (Ascii.N_of_ascii a) :: chars s
  end.
Definition cstr (s : string) : list Z := chars s ++ [0].

(** ** Lists *)

Lemma alter_is_insert {A} (f : A → A) (i : nat) (l : list A) x :
  l !! i = Some x → alter f i l = <[i := f x]> l.
Proof.
  intros Hx. rewrite list_insert_alter. apply list_alter_ext; [|done].
  intros y Hy. congruence.
Qed.

Lemma alter_alter {A} (f g : A → A) (i : nat) (l : list A) :
  alter f i (alter g i l) = alter (λ x, f (g x)) i l.
Proof. revert i; induction l as [|x l IH]; intros [|i]; cbn; f_equal; auto. Qed.

Lemma filter_ext_on {A} (P Q : A → Prop) `{∀ x, Decision (P x), ∀ x, Decision (Q x)} (l : list A) :
  (∀ x, x ∈ l → P x ↔ Q x) → filter P l = filter Q l.
Proof.
  induction l as [|x l IH]; intros Hpq; [done|]. rewrite !filter_cons.
  rewrite IH by (intros; apply Hpq; set_solver). specialize (Hpq x ltac:(left)).
  repeat case_decide; naive_solver.
Qed.

Lemma filter_all {A} (P : A → Prop) `{∀ x, Decision (P x)} (l : list A) : (∀ x, x ∈ l → P x) → filter P l = l.
Proof.
  induction l as [|x l IH]; intros Hp; [done|].
  rewrite filter_cons_True, IH; [done|intros; apply Hp; set_solver|apply Hp; left].
Qed.
