(* ===== verification/Kernel.v ===== *)
(** * The kernel's data: constants, structures and the global state

    One [Record] per C structure of the kernel, with the source's field names
    (prefixed where two structures share one), and the record [world] of the
    kernel's global variables.  A pointer into one of the kernel's fixed tables
    ([ptable.proc], [ftable.file], [icache.inode], [bcache.buf]) is the index
    of the slot; a null pointer is [None].  Addresses of locks and of sleep
    channels are the inductive types [lockid] and [chan]: the source only ever
    compares them for equality. *)

From S2P Require Import Prelude.

(** ** param.h, memlayout.h, mmu.h, fs.h, file.h, buf.h, pipe.c *)

Definition NPROC : nat := 64.
Definition KSTACKSIZE : Z := 4096.
Definition NCPU : nat := 8.
Definition NOFILE : nat := 16.
Definition NFILE : nat := 100.
Definition NINODE : nat := 50.
Definition NDEV : Z := 10.
Definition ROOTDEV : Z := 1.
Definition MAXARG : Z := 32.
Definition MAXOPBLOCKS : Z := 10.
Definition LOGSIZE : Z := MAXOPBLOCKS * 3.
Definition NBUF : nat := Z.to_nat (MAXOPBLOCKS * 3).
Definition FSSIZE : Z := 1000.

Definition EXTMEM : Z := 0x100000.
Definition PHYSTOP : Z := 0xE000000.
Definition KERNBASE : Z := 0xFFFF800000000000.
Definition V2P (a : Z) : Z := u64 (a - KERNBASE).
Definition P2V (a : Z) : Z := u64 (a + KERNBASE).

Definition PGSIZE : Z := 4096.
Definition PGROUNDUP (sz : Z) : Z :=
  Z.land (u64 (sz + (PGSIZE - 1))) (u64 (Z.lnot (PGSIZE - 1))).
Definition PGROUNDDOWN (a : Z) : Z := Z.land a (u64 (Z.lnot (PGSIZE - 1))).

Definition BSIZE : Z := 512.
Definition NDIRECT : Z := 12.
Definition NINDIRECT : Z := BSIZE / 4.
Definition MAXFILE : Z := NDIRECT + NINDIRECT.
Definition PIPESIZE : Z := 512.

Definition B_VALID : Z := 0x2.
Definition B_DIRTY : Z := 0x4.

(** ** Identities of locks, sleep-locks and sleep channels *)

Inductive slid := SL_buf (b : nat) | SL_inode (i : nat).
#[export] Instance slid_eq_dec : EqDecision slid.
Proof. solve_decision. Defined.

Inductive lockid :=
  | L_ptable | L_tickslock | L_kmem | L_ftable | L_icache | L_bcache | L_log
  | L_ide | L_cons | L_input
  | L_pipe (p : Z)
  | L_slk (s : slid).
#[export] Instance lockid_eq_dec : EqDecision lockid.
Proof. solve_decision. Defined.

Inductive chan :=
  | C_proc (p : nat) | C_ticks | C_log | C_input_r
  | C_pipe_nread (p : Z) | C_pipe_nwrite (p : Z)
  | C_buf (b : nat)
  | C_slk (s : slid).
#[export] Instance chan_eq_dec : EqDecision chan.
Proof. solve_decision. Defined.

(** ** spinlock.h, sleeplock.h *)

(** The [pcs] array, a debugging record of the call stack, is left out. *)
Record spinlock := mk_spinlock {
  locked : Z;
  lk_name : string;
  lk_cpu : option nat
}.
#[export] Instance eta_spinlock : Settable spinlock := λ r,
  mk_spinlock (locked r) (lk_name r) (lk_cpu r).

(** The inner spin lock of sleep-lock [s] is the lock [L_slk s]. *)
Record sleeplock := mk_sleeplock {
  slocked : Z;
  sl_name : string;
  sl_pid : Z
}.
#[export] Instance eta_sleeplock : Settable sleeplock := λ r,
  mk_sleeplock (slocked r) (sl_name r) (sl_pid r).

(** ** proc.h, x86.h *)

(** The CPU the modelled kernel thread runs on: the scheduling fields of
    [struct cpu], with the interrupt flag of its EFLAGS register, its page
    table base CR3 and the kernel stack top of its task state segment. *)
Record cpu := mk_cpu {
  cpu_id : nat;
  ncli : Z;
  intena : bool;
  IF : bool;
  cr3 : Z;
  tss_rsp0 : Z
}.
#[export] Instance eta_cpu : Settable cpu := λ r,
  mk_cpu (cpu_id r) (ncli r) (intena r) (IF r) (cr3 r) (tss_rsp0 r).

Inductive procstate := UNUSED | EMBRYO | SLEEPING | RUNNABLE | RUNNING | ZOMBIE.
#[export] Instance procstate_eq_dec : EqDecision procstate.
Proof. solve_decision. Defined.

(** Where a saved context resumes: [forkret] for a process that never ran,
    inside [sched] for one that gave up its CPU. *)
Inductive code := K_forkret | K_sched.

Record context := mk_context {
  r15 : Z; r14 : Z; r13 : Z; r12 : Z; rbx : Z; rbp : Z; rip : code
}.

Record trapframe := mk_trapframe {
  tf_rax : Z; tf_rbx : Z; tf_rcx : Z; tf_rdx : Z; tf_rbp : Z; tf_rsi : Z;
  tf_rdi : Z; tf_r8 : Z; tf_r9 : Z; tf_r10 : Z; tf_r11 : Z; tf_r12 : Z;
  tf_r13 : Z; tf_r14 : Z; tf_r15 : Z;
  tf_trapno : Z; tf_err : Z;
  tf_rip : Z; tf_cs : Z; tf_rflags : Z; tf_rsp : Z; tf_ss : Z
}.
#[export] Instance eta_trapframe : Settable trapframe := λ r,
  mk_trapframe (tf_rax r) (tf_rbx r) (tf_rcx r) (tf_rdx r) (tf_rbp r) (tf_rsi r)
    (tf_rdi r) (tf_r8 r) (tf_r9 r) (tf_r10 r) (tf_r11 r) (tf_r12 r)
    (tf_r13 r) (tf_r14 r) (tf_r15 r)
    (tf_trapno r) (tf_err r)
    (tf_rip r) (tf_cs r) (tf_rflags r) (tf_rsp r) (tf_ss r).

Record proc := mk_proc {
  sz : Z;
  pgdir : Z;
  kstack : Z;
  state : procstate;
  pid : Z;
  parent : option nat;
  tf : trapframe;
  p_context : context;
  p_chan : option chan;
  killed : Z;
  ofile : list (option nat);
  cwd : option nat;
  p_name : list Z
}.
#[export] Instance eta_proc : Settable proc := λ r,
  mk_proc (sz r) (pgdir r) (kstack r) (state r) (pid r) (parent r) (tf r)
    (p_context r) (p_chan r) (killed r) (ofile r) (cwd r) (p_name r).

Lemma proc_eq p q :
  sz p = sz q → pgdir p = pgdir q → kstack p = kstack q → state p = state q →
  pid p = pid q → parent p = parent q → tf p = tf q → p_context p = p_context q →
  p_chan p = p_chan q → killed p = killed q → ofile p = ofile q → cwd p = cwd q →
  p_name p = p_name q → p = q.
Proof. destruct p, q; cbn; intros; by subst. Qed.

(** ** kalloc.c, pipe.c, file.h *)

Record kmem := mk_kmem { use_lock : bool; freelist : Z }.
#[export] Instance eta_kmem : Settable kmem := λ r,
  mk_kmem (use_lock r) (freelist r).

(** The [lock] of the pipe at address [p] is the lock [L_pipe p]. *)
Record pipe := mk_pipe {
  pdata : list Z;
  nread : Z;
  nwrite : Z;
  readopen : Z;
  writeopen : Z
}.
#[export] Instance eta_pipe : Settable pipe := λ r,
  mk_pipe (pdata r) (nread r) (nwrite r) (readopen r) (writeopen r).

Inductive ftype := FD_NONE | FD_PIPE | FD_INODE.
#[export] Instance ftype_eq_dec : EqDecision ftype.
Proof. solve_decision. Defined.

Record file := mk_file {
  f_type : ftype;
  f_ref : Z;
  readable : Z;
  writable : Z;
  f_pipe : Z;
  f_ip : option nat;
  f_off : Z
}.
#[export] Instance eta_file : Settable file := λ r,
  mk_file (f_type r) (f_ref r) (readable r) (writable r) (f_pipe r) (f_ip r) (f_off r).

Record inode := mk_inode {
  i_dev : Z;
  i_inum : Z;
  i_ref : Z;
  i_flags : Z;
  i_type : Z;
  i_major : Z;
  i_minor : Z;
  i_nlink : Z;
  i_size : Z;
  i_addrs : list Z
}.
#[export] Instance eta_inode : Settable inode := λ r,
  mk_inode (i_dev r) (i_inum r) (i_ref r) (i_flags r) (i_type r) (i_major r)
    (i_minor r) (i_nlink r) (i_size r) (i_addrs r).

(** ** buf.h, bio.c, log.c, fs.h *)

(** A disk block or the [data] of a buffer: [BSIZE] bytes. *)
Abbreviation block := (list Z) (only parsing).

(** [prev] and [next] are buffer indices; the index [NBUF] is [&bcache.head].
    The sleep-lock of buffer [b] is [SL_buf b]. *)
Record buf := mk_buf {
  b_flags : Z;
  b_dev : Z;
  blockno : Z;
  refcnt : Z;
  b_prev : nat;
  b_next : nat;
  b_data : block
}.
#[export] Instance eta_buf : Settable buf := λ r,
  mk_buf (b_flags r) (b_dev r) (blockno r) (refcnt r) (b_prev r) (b_next r) (b_data r).

Record log := mk_log {
  log_start : Z;
  log_size : Z;
  outstanding : Z;
  committing : Z;
  log_dev : Z;
  lh_n : Z;
  lh_block : list Z
}.
#[export] Instance eta_log : Settable log := λ r,
  mk_log (log_start r) (log_size r) (outstanding r) (committing r) (log_dev r)
    (lh_n r) (lh_block r).

Record superblock := mk_superblock {
  sb_size : Z;
  sb_nblocks : Z;
  sb_ninodes : Z;
  sb_nlog : Z;
  sb_logstart : Z;
  sb_inodestart : Z;
  sb_bmapstart : Z
}.

(** ** console.c, kbd.c, uart.c, file.c's device table *)

(** The console's variables and the state of its devices: the keyboard's and
    the serial port's pending input, the bytes sent out on the serial port, the
    cells of the screen's memory and the position of its cursor.  The [lock]s
    of [cons] and [input] are [L_cons] and [L_input]. *)
Record console := mk_console {
  panicked : Z;
  cons_locking : Z;
  in_buf : list Z;
  in_r : Z;
  in_w : Z;
  in_e : Z;
  kbd_shift : Z;
  uart : Z;
  kbd_pending : list Z;
  uart_pending : list Z;
  serial_out : list Z;
  crt : list Z;
  crt_pos : Z
}.
#[export] Instance eta_console : Settable console := λ r,
  mk_console (panicked r) (cons_locking r) (in_buf r) (in_r r) (in_w r) (in_e r) (kbd_shift r)
    (uart r) (kbd_pending r) (uart_pending r) (serial_out r) (crt r) (crt_pos r).

(** The functions the kernel puts in [devsw]. *)
Inductive devfn := F_consoleread | F_consolewrite.
Record devsw := mk_devsw { dev_read : option devfn; dev_write : option devfn }.
#[export] Instance eta_devsw : Settable devsw := λ r, mk_devsw (dev_read r) (dev_write r).

(** ** mp.c, lapic.c, ioapic.c, ide.c *)

(** What the kernel did to the hardware around it: port input and output, single
    bytes and strings, memory-mapped registers, and the loads of the
    processor's model-specific and table registers. *)
Inductive ioev :=
  | IoIn (port v : Z) | IoOut (port v : Z)
  | IoIns (port : Z) (l : list Z) | IoOuts (port : Z) (l : list Z)
  | IoRd (addr v : Z) | IoWr (addr v : Z)
  | IoMsr (r v : Z) | IoLgdt (addr size : Z) | IoLtr (sel : Z).

(** The fields of an element of [cpus] that start-up uses. *)
Record percpu := mk_percpu { apicid : Z; started : Z; cpu_local : Z }.
#[export] Instance eta_percpu : Settable percpu := λ r, mk_percpu (apicid r) (started r) (cpu_local r).

(** The variables of the drivers; [qnext] of buffer [b] is element [b] of the
    list of that name. *)
Record hw := mk_hw {
  lapic : Z;
  ioapic : Z;
  ioapicid : Z;
  ncpu : Z;
  cpus : list percpu;
  havedisk1 : Z;
  idequeue : option nat;
  qnext : list (option nat)
}.
#[export] Instance eta_hw : Settable hw := λ r,
  mk_hw (lapic r) (ioapic r) (ioapicid r) (ncpu r) (cpus r) (havedisk1 r) (idequeue r) (qnext r).

(** ** The kernel's global state *)

(** [w_hist] is a ghost: the disk writes performed so far, oldest first.  No
    definition that models code reads it.  [w_idtr] is the address in the
    interrupt descriptor table register, which [lidt] loads, and [w_io] what has
    been done to the devices, oldest first. *)
Record world := mk_world {
  w_cpu : cpu;
  w_proc : option nat;
  w_locks : lockid → spinlock;
  w_slocks : slid → sleeplock;
  w_procs : list proc;
  w_initproc : option nat;
  w_nextpid : Z;
  w_mem : gmap Z Z;
  w_kmem : kmem;
  w_pipes : gmap Z pipe;
  w_files : list file;
  w_inodes : list inode;
  w_bufs : list buf;
  w_disk : list block;
  w_disksize : Z;
  w_hist : list (Z * block);
  w_log : log;
  w_sb : superblock;
  w_ticks : Z;
  w_kpml4 : Z;
  w_kpdpt : Z;
  w_cons : console;
  w_devsw : list devsw;
  w_first : Z;
  w_idt : Z;
  w_idtr : Z;
  w_hw : hw;
  w_io : list ioev
}.
#[export] Instance eta_world : Settable world := λ r,
  mk_world (w_cpu r) (w_proc r) (w_locks r) (w_slocks r) (w_procs r) (w_initproc r)
    (w_nextpid r) (w_mem r) (w_kmem r) (w_pipes r) (w_files r) (w_inodes r) (w_bufs r)
    (w_disk r) (w_disksize r) (w_hist r) (w_log r) (w_sb r) (w_ticks r)
    (w_kpml4 r) (w_kpdpt r) (w_cons r) (w_devsw r) (w_first r) (w_idt r) (w_idtr r) (w_hw r) (w_io r).

(** Worlds are compared field by field; the tactic [weq] leaves the fields that
    differ. *)
Lemma world_eq w w' :
  w_cpu w = w_cpu w' → w_proc w = w_proc w' → w_locks w = w_locks w' → w_slocks w =
  w_slocks w' → w_procs w = w_procs w' → w_initproc w = w_initproc w' → w_nextpid w
  = w_nextpid w' → w_mem w = w_mem w' → w_kmem w = w_kmem w' → w_pipes w = w_pipes
  w' → w_files w = w_files w' → w_inodes w = w_inodes w' → w_bufs w = w_bufs w' →
  w_disk w = w_disk w' → w_disksize w = w_disksize w' → w_hist w = w_hist w' → w_log w = w_log w' → w_sb w = w_sb
  w' → w_ticks w = w_ticks w' →
  w_kpml4 w = w_kpml4 w' → w_kpdpt w = w_kpdpt w' → w_cons w = w_cons w' → w_devsw w = w_devsw w' →
  w_first w = w_first w' → w_idt w = w_idt w' → w_idtr w = w_idtr w' →
  w_hw w = w_hw w' → w_io w = w_io w' → w = w'.
Proof. destruct w, w'; cbn; intros; by subst. Qed.


(** The kernel's globals as the loader leaves them: zeroed ([nextpid] and
    [forkret]'s [first] start at 1), on CPU [c] with interrupts disabled. *)
Definition zero_tf : trapframe :=
  mk_trapframe 0 0 0 0 0 0 0 0 0 0 0 0 0 0 0 0 0 0 0 0 0 0.
Definition zero_proc : proc :=
  mk_proc 0 0 0 UNUSED 0 None zero_tf (mk_context 0 0 0 0 0 0 K_forkret) None 0
    (replicate NOFILE None) None (replicate 16 0).
Definition zero_file : file := mk_file FD_NONE 0 0 0 0 None 0.
Definition zero_inode : inode := mk_inode 0 0 0 0 0 0 0 0 0 (replicate 13 0).
Definition zero_block : block := replicate (Z.to_nat BSIZE) 0.
Definition zero_buf : buf := mk_buf 0 0 0 0 0 0 zero_block.
Definition zero_console : console :=
  mk_console 0 0 (replicate 128 0) 0 0 0 0 0 [] [] [] (replicate 2000 0) 0.
Definition zero_hw : hw :=
  mk_hw 0 0 0 0 (replicate NCPU (mk_percpu 0 0 0)) 0 None (replicate NBUF None).
Definition bss (c : nat) (disk : list block) : world :=
  mk_world (mk_cpu c 0 false false 0 0) None
    (λ _, mk_spinlock 0 EmptyString None) (λ _, mk_sleeplock 0 EmptyString 0)
    (replicate NPROC zero_proc) None 1 ∅ (mk_kmem false 0) ∅
    (replicate NFILE zero_file) (replicate NINODE zero_inode)
    (replicate (S NBUF) zero_buf) disk 0 [] (mk_log 0 0 0 0 0 0 (replicate (Z.to_nat LOGSIZE) 0))
    (mk_superblock 0 0 0 0 0 0 0) 0 0 0
    zero_console (replicate (Z.to_nat NDEV) (mk_devsw None None)) 1 0 0 zero_hw [].

(** ** Kernel code

    Kernel code runs in the state [kstate]: the global variables and the
    environment's script, the list of what the other threads of the kernel
    will have done to the state each time the modelled thread gives up its
    CPU or spins on a lock another CPU holds. *)

Abbreviation env := (list (world → world)) (only parsing).

Record kstate := KS { ks_w : world; ks_env : env }.

Abbreviation K := (M kstate) (only parsing).

Definition panic {A} (msg : string) : K A := mstop (Panicked msg).
Definition getw {A} (f : world → A) : K A := λ s, Ok (f (ks_w s)) s.
Definition modw (f : world → world) : K unit := λ s, Ok tt (KS (f (ks_w s)) (ks_env s)).

(** [for(;;) body]: every iteration that does not leave the loop sleeps, and a
    sleep takes a step of the environment's script, so the script's length
    bounds the number of iterations. *)
Definition foreverK {R} (body : K (option R)) : K R := λ s,
  loopM (S (length (ks_env s))) body s.

Lemma ok_world_eq {A} (a : A) w w' e : w = w' → Ok a (KS w e) = Ok a (KS w' e).
Proof. by intros ->. Qed.

(** [weq] compares two worlds, or two results, by their fields.  It only ever
    compares syntactically: conversion would unfold every update. *)
Ltac weq :=
  try apply ok_world_eq;
  apply world_eq; cbn [ks_w ks_env]; rsimpl;
  try lazymatch goal with |- ?x = ?x => exact eq_refl end.

(** [krun] runs the monad's plumbing in the goal. *)
Ltac krun :=
  unfold mbind, M_bind, mret, M_ret, getw, modw, panic, mstop, munwrap;
  cbn [ks_w ks_env negb andb orb fst snd]; rsimpl.

Lemma bind_getw {A B} (f : world → A) (k : A → K B) w e :
  (getw f ≫= k) (KS w e) = k (f w) (KS w e).
Proof. done. Qed.
Lemma bind_modw {B} (f : world → world) (k : unit → K B) w e :
  (modw f ≫= k) (KS w e) = k tt (KS (f w) e).
Proof. done. Qed.
Lemma bind_ret {A B} (a : A) (k : A → K B) s : (mret a ≫= k) s = k a s.
Proof. done. Qed.
Lemma bind_bind {A B C} (m : K A) (f : A → K B) (g : B → K C) s :
  ((m ≫= f) ≫= g) s = (m ≫= λ a, f a ≫= g) s.
Proof. apply bind_assoc. Qed.
Lemma bind_munwrap {A B} s (a : A) (k : A → K B) st : (munwrap s (Some a) ≫= k) st = k a st.
Proof. done. Qed.
Create Rewrite HintDb kernel.
#[export] Hint Rewrite @bind_getw @bind_modw @bind_ret @bind_bind @bind_munwrap : kernel.

(** [kstep] runs the reads and writes at the head of the goal's computation;
    [kcall H] runs a call whose result is known by [H]. *)
Ltac kstep :=
  repeat (first [progress autorewrite with kernel | progress cbv iota]; cbv beta); rsimpl.
Tactic Notation "kcall" constr(H) := rewrite (bind_ok _ _ _ _ _ H).

Lemma getw_eq {A} (f : world → A) w e : getw f (KS w e) = Ok (f w) (KS w e).
Proof. done. Qed.

Lemma modw_eq f w e : modw f (KS w e) = Ok tt (KS (f w) e).
Proof. done. Qed.

(** The result of a computation, when it returns, leaves a shorter script. *)
Definition consumes {A} (m : K A) (P : A → Prop) : Prop :=
  ∀ s a s', m s = Ok a s' → P a → (length (ks_env s') < length (ks_env s))%nat.

Lemma foreverK_fuel {R} (body : K (option R)) :
  consumes body (λ r, r = None) →
  (∀ s s', body s ≠ Stop OutOfFuel s') →
  ∀ s s', foreverK body s ≠ Stop OutOfFuel s'.
Proof.
  intros Hc Hf s s'. unfold foreverK.
  assert (Hn : (length (ks_env s) < S (length (ks_env s)))%nat) by lia.
  revert Hn. generalize (S (length (ks_env s))) as n.
  intros n; revert s; induction n as [|n IH]; intros s Hn; [lia|].
  simpl. unfold mbind, M_bind.
  destruct (body s) as [[v|] s1|r s1] eqn:E; [done| |].
  - apply IH. pose proof (Hc _ _ _ E eq_refl). lia.
  - intros [= -> ->]. by eapply Hf.
Qed.

(** The first address after the kernel's image, a symbol of the linker script. *)
Class KernelImage := kend : Z.

(** ** Page arithmetic *)

Lemma page_mask : u64 (Z.lnot (PGSIZE - 1)) = Z.shiftl (Z.ones 52) 12.
Proof. reflexivity. Qed.

Lemma land_page_mask a : 0 ≤ a < 2 ^ 64 → Z.land a (u64 (Z.lnot (PGSIZE - 1))) = a / PGSIZE * PGSIZE.
Proof.
  intros Ha. rewrite page_mask.
  replace (a / PGSIZE * PGSIZE) with (Z.shiftl (Z.land (Z.shiftr a 12) (Z.ones 52)) 12).
  - apply Z.bits_inj'. intros i Hi.
    rewrite Z.land_spec, !Z.shiftl_spec by lia.
    destruct (Z.le_gt_cases 12 i).
    + rewrite Z.land_spec, Z.shiftr_spec by lia. by replace (i - 12 + 12) with i by lia.
    + rewrite (Z.testbit_neg_r (Z.ones 52)), (Z.testbit_neg_r (Z.land _ _)) by lia.
      by rewrite andb_false_r.
  - rewrite Z.land_ones, Z.shiftl_mul_pow2, Z.shiftr_div_pow2 by lia.
    unfold PGSIZE. change (2 ^ 12) with 4096. rewrite Z.mod_small; [done|].
    split; [apply Z.div_pos; lia|]. apply Z.div_lt_upper_bound; lia.
Qed.

Lemma PGROUNDDOWN_eq a : 0 ≤ a < 2 ^ 64 → PGROUNDDOWN a = a / PGSIZE * PGSIZE.
Proof. apply land_page_mask. Qed.

Lemma PGROUNDUP_eq a :
  0 ≤ a → a + (PGSIZE - 1) < 2 ^ 64 → PGROUNDUP a = (a + (PGSIZE - 1)) / PGSIZE * PGSIZE.
Proof.
  intros H1 H2. unfold PGROUNDUP. unfold PGSIZE in *.
  rewrite (u64_small (a + _)) by lia. apply land_page_mask. lia.
Qed.

Lemma PGROUNDUP_spec a :
  0 ≤ a → a + (PGSIZE - 1) < 2 ^ 64 →
  PGROUNDUP a mod PGSIZE = 0 ∧ a ≤ PGROUNDUP a < a + PGSIZE.
Proof.
  intros H1 H2. rewrite PGROUNDUP_eq by done. unfold PGSIZE in *.
  split; [by apply Z.mod_mul|].
  pose proof (Z.div_mod (a + (4096 - 1)) 4096).
  pose proof (Z.mod_pos_bound (a + (4096 - 1)) 4096). lia.
Qed.
