(* ===== verification/Spinlock.v ===== *)
(** * spinlock.c: spin locks and the nesting of interrupt disabling

    [acquire] and [release] as run by one kernel thread, and, in the module
    [SMP], the same two routines split into their atomic actions and
    interleaved by any number of CPUs, for the mutual exclusion theorem. *)

From S2P Require Import Prelude Kernel.

(** ** pushcli and popcli *)

Definition cli (c : cpu) : cpu := c <| IF := false |>.
Definition sti (c : cpu) : cpu := c <| IF := true |>.

Definition pushcli_on (c : cpu) : cpu :=
  let eflags := IF c in
  let c1 := cli c in
  let c2 := if ncli c1 =? 0 then c1 <| intena := eflags |> else c1 in
  c2 <| ncli := s32 (ncli c2 + 1) |>.

Definition popcli_on (c : cpu) : string + cpu :=
  if IF c then inl "popcli - interruptible" else
  let c1 := c <| ncli := s32 (ncli c - 1) |> in
  if ncli c1 <? 0 then inl "popcli" else
  if (ncli c1 =? 0) && intena c1 then inr (sti c1) else inr c1.

Arguments pushcli_on : simpl never.
Arguments popcli_on : simpl never.

Definition pushcli : K unit := modw (λ w, w <| w_cpu ::= pushcli_on |>).

Definition popcli : K unit :=
  c ← getw w_cpu;
  match popcli_on c with
  | inl msg => panic msg
  | inr c' => modw (λ w, w <| w_cpu := c' |>)
  end.

(** ** The lock *)

Definition initlock_val (name : string) : spinlock := mk_spinlock 0 name None.

Definition initlock (lk : lockid) (name : string) : K unit :=
  modw (λ w, w <| w_locks ::= λ f, <[lk := initlock_val name]> f |>).

Definition holding_by (l : spinlock) (c : nat) : bool :=
  negb (locked l =? 0) && bool_decide (lk_cpu l = Some c).

Definition holding (lk : lockid) : K bool :=
  getw (λ w, holding_by (w_locks w lk) (cpu_id (w_cpu w))).

(** [xchg(&lk->locked, 1)]: the old value, and the lock with the word set. *)
Definition xchg_locked (l : spinlock) : Z * spinlock := (locked l, l <| locked := 1 |>).

(** [while(xchg(&lk->locked, 1) != 0) ;] — a failed attempt lets the other
    CPUs take one step of the script. *)
Fixpoint spin (lk : lockid) (e : env) (w : world) : res kstate unit :=
  let '(old, l') := xchg_locked (w_locks w lk) in
  let w1 := w <| w_locks ::= λ f, <[lk := l']> f |> in
  if old =? 0 then Ok tt (KS w1 e)
  else match e with
       | [] => Stop Waiting (KS w1 [])
       | f :: e' => spin lk e' (f w1)
       end.

Definition acquire (lk : lockid) : K unit :=
  pushcli ;;
  h ← holding lk;
  if (h : bool) then panic "acquire" else
  (λ s, spin lk (ks_env s) (ks_w s)) ;;
  modw (λ w, w <| w_locks ::= λ f,
                <[lk := (w_locks w lk) <| lk_cpu := Some (cpu_id (w_cpu w)) |>]> f |>).

Definition release (lk : lockid) : K unit :=
  h ← holding lk;
  if negb h then panic "release" else
  modw (λ w, w <| w_locks ::= λ f, <[lk := (w_locks w lk) <| lk_cpu := None |>]> f |>) ;;
  modw (λ w, w <| w_locks ::= λ f, <[lk := (w_locks w lk) <| locked := 0 |>]> f |>) ;;
  popcli.

(** ** Invariant of the interrupt nesting: a positive depth means disabled *)

Definition cpu_ok (c : cpu) : Prop :=
  0 ≤ ncli c < 2 ^ 31 - 1 ∧ (0 < ncli c → IF c = false).

(** The lock as [acquire] leaves it, and as [release] leaves it. *)
Definition taken (l : spinlock) (c : nat) : spinlock := mk_spinlock 1 (lk_name l) (Some c).
Definition freed (l : spinlock) : spinlock := mk_spinlock 0 (lk_name l) None.

Lemma pushcli_on_IF c : IF (pushcli_on c) = false.
Proof. unfold pushcli_on, cli. cbv zeta. by destruct (_ =? 0); rsimpl. Qed.

Lemma pushcli_on_id c : cpu_id (pushcli_on c) = cpu_id c.
Proof. unfold pushcli_on, cli. cbv zeta. by destruct (_ =? 0); rsimpl. Qed.

Lemma pushcli_on_ncli c : cpu_ok c → ncli (pushcli_on c) = ncli c + 1.
Proof.
  intros [? _]. unfold pushcli_on.
  destruct (_ =? 0); rsimpl; rewrite s32_small; unfold cli; rsimpl; lia.
Qed.

Lemma popcli_pushcli_on c :
  cpu_ok c →
  popcli_on (pushcli_on c) = inr (if ncli c =? 0 then c <| intena := IF c |> else c).
Proof.
  intros [Hn Hi]. destruct c as [i n e f r t]; simpl in *.
  unfold popcli_on, pushcli_on, cli, sti; usetf; simpl.
  destruct (Z.eqb_spec n 0) as [->|Hne]; simpl.
  - by destruct f.
  - rewrite (s32_small (n + 1)) by lia.
    rewrite Z.add_simpl_r, (s32_small n) by lia.
    rewrite (proj2 (Z.ltb_ge n 0)) by lia.
    rewrite (proj2 (Z.eqb_neq n 0)) by lia. simpl.
    rewrite Hi by lia. done.
Qed.

(** What a successful [acquire] of a free lock does, and a [release]. *)
Definition acquired (lk : lockid) (w : world) : world :=
  w <| w_cpu ::= pushcli_on |>
    <| w_locks ::= λ f, <[lk := taken (f lk) (cpu_id (w_cpu w))]> f |>.

Definition released (lk : lockid) (w : world) : world :=
  w <| w_cpu ::= λ c, match popcli_on c with inr c' => c' | inl _ => c end |>
    <| w_locks ::= λ f, <[lk := freed (f lk)]> f |>.

Lemma spin_free lk w e :
  locked (w_locks w lk) = 0 →
  spin lk e w = Ok tt (KS (w <| w_locks ::= λ f, <[lk := (f lk) <| locked := 1 |>]> f |>) e).
Proof. intros H. destruct e; cbn; by rewrite H. Qed.

Lemma acquire_free lk w e :
  locked (w_locks w lk) = 0 →
  acquire lk (KS w e) = Ok tt (KS (acquired lk w) e).
Proof.
  intros H0. unfold acquire, pushcli, holding. krun. unfold holding_by. rewrite H0. cbn [negb andb Z.eqb].
  rewrite spin_free by done. cbn [ks_w ks_env]. rsimpl. rewrite pushcli_on_id.
  unfold acquired. weq. by rewrite fn_lookup_insert, fn_insert_insert.
Qed.

(** Acquiring a lock this CPU already holds is the panic of [acquire]. *)
Lemma acquire_held lk w e :
  holding_by (w_locks w lk) (cpu_id (w_cpu w)) = true →
  acquire lk (KS w e) = Stop (Panicked "acquire") (KS (w <| w_cpu ::= pushcli_on |>) e).
Proof.
  intros H. unfold acquire, pushcli, holding. krun. by rewrite pushcli_on_id, H.
Qed.

Lemma release_held lk w e c' :
  locked (w_locks w lk) ≠ 0 →
  lk_cpu (w_locks w lk) = Some (cpu_id (w_cpu w)) →
  popcli_on (w_cpu w) = inr c' →
  release lk (KS w e) = Ok tt (KS (released lk w) e).
Proof.
  intros Hl Hc Hp.
  unfold release, holding, popcli, holding_by. krun.
  rewrite (proj2 (Z.eqb_neq _ _) Hl), Hc, bool_decide_true by done. cbn [negb andb].
  cbn [ks_w ks_env]. rsimpl. rewrite Hp. unfold released. weq.
  - by rewrite Hp.
  - by rewrite fn_insert_insert, fn_lookup_insert.
Qed.

Lemma release_not_held lk w e :
  holding_by (w_locks w lk) (cpu_id (w_cpu w)) = false →
  release lk (KS w e) = Stop (Panicked "release") (KS w e).
Proof.
  intros H. unfold release, holding. krun. by rewrite H.
Qed.

(** The lock word clear and no CPU recorded, as between two critical sections. *)
Definition lock_free (w : world) (lk : lockid) : Prop :=
  locked (w_locks w lk) = 0 ∧ lk_cpu (w_locks w lk) = None.

(** The CPU after a balanced [pushcli], [popcli]. *)
Definition balanced (c : cpu) : cpu := if ncli c =? 0 then c <| intena := IF c |> else c.

Lemma balanced_ok c : cpu_ok c → cpu_ok (balanced c).
Proof. unfold balanced, cpu_ok. by destruct (ncli c =? 0); rsimpl. Qed.

Lemma balanced_idemp c : balanced (balanced c) = balanced c.
Proof.
  unfold balanced. destruct (ncli c =? 0) eqn:E; [|by rewrite E].
  rsimpl. rewrite E. by destruct c; usetf.
Qed.

Lemma balanced_id c : cpu_id (balanced c) = cpu_id c.
Proof. unfold balanced. by destruct (ncli c =? 0); rsimpl. Qed.

Lemma balanced_IF c : IF (balanced c) = IF c.
Proof. unfold balanced. by destruct (ncli c =? 0); rsimpl. Qed.

Lemma balanced_ncli c : ncli (balanced c) = ncli c.
Proof. unfold balanced. by destruct (ncli c =? 0); rsimpl. Qed.

Lemma pushcli_balanced c : pushcli_on (balanced c) = pushcli_on c.
Proof.
  unfold balanced. destruct (ncli c =? 0) eqn:E; [|done].
  unfold pushcli_on, cli. rsimpl. rewrite E. by destruct c; usetf.
Qed.

Lemma freed_taken w lk c : lock_free w lk → freed (taken (w_locks w lk) c) = w_locks w lk.
Proof. intros [H1 H2]. unfold freed, taken. destruct (w_locks w lk); cbn in *; congruence. Qed.

Lemma freed_free w lk : lock_free w lk → freed (w_locks w lk) = w_locks w lk.
Proof. intros [H1 H2]. unfold freed. destruct (w_locks w lk); cbn in *; congruence. Qed.

(** [release] at the end of a critical section entered with CPU state [c]. *)
Lemma release_taken lk w e l c :
  cpu_ok c → w_cpu w = pushcli_on c → w_locks w lk = taken l (cpu_id c) →
  release lk (KS w e) =
    Ok tt (KS (w <| w_cpu := balanced c |> <| w_locks ::= <[lk := freed l]> |>) e).
Proof.
  intros Hok Hc Hl. erewrite release_held.
  - unfold released. weq; by rewrite ?Hl, ?Hc, ?popcli_pushcli_on.
  - by rewrite Hl.
  - rewrite Hl, Hc. cbn. by rewrite pushcli_on_id.
  - rewrite Hc. by apply popcli_pushcli_on.
Qed.

(** [release] at the end of a critical section on [lk] entered in [w], whose
    body has left the CPU and the locks alone. *)
Lemma release_within lk w w1 e :
  cpu_ok (w_cpu w) → lock_free w lk →
  w_cpu w1 = w_cpu (acquired lk w) → w_locks w1 = w_locks (acquired lk w) →
  release lk (KS w1 e) =
    Ok tt (KS (w1 <| w_cpu := balanced (w_cpu w) |> <| w_locks := w_locks w |>) e).
Proof.
  unfold acquired. intros Hc Hl H1 H2. rsimpl_in_all.
  rewrite (release_taken lk w1 e (w_locks w lk) (w_cpu w) Hc H1) by
    (by rewrite H2, fn_lookup_insert).
  weq. rewrite H2, fn_insert_insert. apply fn_insert_id. by rewrite freed_free.
Qed.

(** Between critical sections the saved flag [intena] of a CPU is the flag it
    would save next; the first [acquire] makes it so. *)
Definition calm (w : world) : Prop := cpu_ok (w_cpu w) ∧ balanced (w_cpu w) = w_cpu w.

Lemma balanced_calm w : cpu_ok (w_cpu w) → calm (w <| w_cpu ::= balanced |>).
Proof. intros H. split; rsimpl; [by apply balanced_ok|apply balanced_idemp]. Qed.

Lemma acquire_balanced lk w e :
  acquire lk (KS (w <| w_cpu ::= balanced |>) e) = acquire lk (KS w e).
Proof.
  unfold acquire, pushcli. kstep. do 2 f_equal. weq. apply pushcli_balanced.
Qed.

Lemma calm_acquired lk w :
  cpu_ok (w_cpu w) → ncli (w_cpu w) < 2 ^ 31 - 2 → calm (acquired lk w).
Proof.
  intros Hc Hlt. unfold acquired, calm. rsimpl. pose proof (pushcli_on_ncli _ Hc) as Hn.
  assert (0 ≤ ncli (w_cpu w)) by apply Hc. split.
  - split; [lia|]. intros _. apply pushcli_on_IF.
  - unfold balanced. by rewrite (proj2 (Z.eqb_neq _ _)) by lia.
Qed.

(** [release] at the end of a critical section entered in a calm world. *)
Lemma release_calm lk w w1 e :
  calm w → lock_free w lk →
  w_cpu w1 = w_cpu (acquired lk w) → w_locks w1 = w_locks (acquired lk w) →
  release lk (KS w1 e) = Ok tt (KS (w1 <| w_cpu := w_cpu w |> <| w_locks := w_locks w |>) e).
Proof. intros [Hc Hb] Hl H1 H2. rewrite (release_within lk w) by done. by rewrite Hb. Qed.

Lemma lock_free_acquired lk lk' w : lk ≠ lk' → lock_free w lk → lock_free (acquired lk' w) lk.
Proof. intros Hne. unfold lock_free, acquired. rsimpl. by rewrite fn_lookup_insert_ne. Qed.

(** ** All CPUs at once

    The atomic actions of [acquire] and [release] on one lock, each CPU at its
    own program counter.  A step is one access to shared memory (or to the
    CPU's own interrupt state), so a run of [step] is an interleaving of the
    CPUs' accesses; [holding]'s two reads are two steps. *)

Module SMP.

Inductive pc :=
  | Idle                       (* not using the lock *)
  | A_chk_locked | A_chk_cpu   (* acquire: if(holding(lk)) *)
  | A_xchg                     (* acquire: while(xchg(&lk->locked, 1) != 0) *)
  | A_setcpu                   (* acquire: lk->cpu = cpu *)
  | Crit                       (* between acquire and release *)
  | R_chk_locked | R_chk_cpu   (* release: if(!holding(lk)) *)
  | R_clearcpu                 (* release: lk->cpu = 0 *)
  | R_unlock                   (* release: movl $0, lk->locked *)
  | R_popcli                   (* release: popcli() *)
  | Dead (msg : string).       (* panic(msg) *)

Record mstate := mk_mstate {
  m_lock : spinlock;
  m_pc : nat → pc;
  m_cpu : nat → cpu
}.

Definition goto (m : mstate) (c : nat) (p : pc) : mstate :=
  mk_mstate (m_lock m) (<[c := p]> (m_pc m)) (m_cpu m).
Definition set_lock (m : mstate) (l : spinlock) : mstate :=
  mk_mstate l (m_pc m) (m_cpu m).
Definition set_cpu (m : mstate) (c : nat) (x : cpu) : mstate :=
  mk_mstate (m_lock m) (m_pc m) (<[c := x]> (m_cpu m)).

(** The next action of CPU [c]; [Crit] to [R_chk_locked] is the call of
    [release], [Idle] to [A_chk_locked] the call of [acquire]. *)
Definition act (c : nat) (m : mstate) : mstate :=
  let l := m_lock m in
  match m_pc m c with
  | Idle => goto (set_cpu m c (pushcli_on (m_cpu m c))) c A_chk_locked
  | A_chk_locked => goto m c (if locked l =? 0 then A_xchg else A_chk_cpu)
  | A_chk_cpu =>
      goto m c (if bool_decide (lk_cpu l = Some c) then Dead "acquire" else A_xchg)
  | A_xchg =>
      let '(old, l') := xchg_locked l in
      goto (set_lock m l') c (if old =? 0 then A_setcpu else A_xchg)
  | A_setcpu => goto (set_lock m (l <| lk_cpu := Some c |>)) c Crit
  | Crit => goto m c R_chk_locked
  | R_chk_locked => goto m c (if locked l =? 0 then Dead "release" else R_chk_cpu)
  | R_chk_cpu =>
      goto m c (if bool_decide (lk_cpu l = Some c) then R_clearcpu else Dead "release")
  | R_clearcpu => goto (set_lock m (l <| lk_cpu := None |>)) c R_unlock
  | R_unlock => goto (set_lock m (l <| locked := 0 |>)) c R_popcli
  | R_popcli =>
      match popcli_on (m_cpu m c) with
      | inl msg => goto m c (Dead msg)
      | inr x => goto (set_cpu m c x) c Idle
      end
  | Dead _ => m
  end.

(** Any CPU may act next. *)
Inductive step : mstate → mstate → Prop :=
  | step_cpu c m : step m (act c m).

(** Every CPU outside the lock, the lock as [initlock] leaves it. *)
Definition initial (m : mstate) : Prop :=
  (∃ name, m_lock m = initlock_val name) ∧
  (∀ c, m_pc m c = Idle ∧ cpu_ok (m_cpu m c)).

Definition reachable (m : mstate) : Prop := ∃ m0, initial m0 ∧ rtc step m0 m.

(** The program counters at which a CPU has the lock word, and those at which
    it is also recorded in [lk->cpu]. *)
Definition owns (p : pc) : bool :=
  match p with
  | A_setcpu | Crit | R_chk_locked | R_chk_cpu | R_clearcpu | R_unlock => true
  | _ => false
  end.
Definition recorded (p : pc) : bool :=
  match p with
  | Crit | R_chk_locked | R_chk_cpu | R_clearcpu => true
  | _ => false
  end.

(** The invariant: the lock word says whether there is an owner, the owner is
    unique, [lk->cpu] names it exactly while it is recorded, and every CPU
    inside the code has pushed one level of interrupt disabling. *)
Record inv (m : mstate) (h : option nat) : Prop := {
  inv_owner : ∀ c, owns (m_pc m c) = true ↔ h = Some c;
  inv_word : locked (m_lock m) = match h with Some _ => 1 | None => 0 end;
  inv_cpu : lk_cpu (m_lock m) =
            c ← h; if recorded (m_pc m c) then Some c else None;
  inv_alive : ∀ c msg, m_pc m c ≠ Dead msg;
  inv_cli : ∀ c, match m_pc m c with
                 | Idle => cpu_ok (m_cpu m c)
                 | _ => ∃ x, cpu_ok x ∧ m_cpu m c = pushcli_on x
                 end
}.

Lemma inv_initial m : initial m → inv m None.
Proof.
  intros [[name Hl] Hc]. split; rewrite ?Hl; try done.
  - intros c. by rewrite (proj1 (Hc c)).
  - intros c msg. by rewrite (proj1 (Hc c)).
  - intros c. rewrite (proj1 (Hc c)). apply Hc.
Qed.

Lemma popcli_after_pushcli x :
  cpu_ok x → ∃ y, popcli_on (pushcli_on x) = inr y ∧ cpu_ok y.
Proof.
  intros Hx. rewrite popcli_pushcli_on by done.
  eexists; split; [done|]. by destruct (ncli x =? 0).
Qed.

(** The owner after CPU [c] acts. *)
Definition next_owner (c : nat) (m : mstate) (h : option nat) : option nat :=
  match m_pc m c with
  | A_xchg => if locked (m_lock m) =? 0 then Some c else h
  | R_unlock => None
  | _ => h
  end.

Ltac fn_cases :=
  repeat match goal with
  | |- context [<[?a := _]> _ ?b] => rewrite (fn_lookup_insert_case _ a b)
  | H : context [<[?a := _]> _ ?b] |- _ => rewrite (fn_lookup_insert_case _ a b) in H
  | |- context [decide (?a = ?b)] => destruct (decide (a = b)); subst
  | H : context [decide (?a = ?b)] |- _ => destruct (decide (a = b)); subst
  end.

(** A move between program counters of the same standing, the lock alone. *)
Lemma inv_goto c m h p :
  inv m h →
  owns p = owns (m_pc m c) → recorded p = recorded (m_pc m c) →
  m_pc m c ≠ Idle → p ≠ Idle → (∀ msg, p ≠ Dead msg) →
  inv (goto m c p) h.
Proof.
  intros [Ho Hw Hc Ha Hi] Hpo Hpr Hne Hnp Hnd. unfold goto; split; cbn; try done.
  - intros c'. fn_cases; [rewrite Hpo|]; apply Ho.
  - rewrite Hc. destruct h as [c'|]; cbn; [|done]. fn_cases; [by rewrite Hpr|done].
  - intros c' msg. fn_cases; naive_solver.
  - intros c'. fn_cases; [|apply Hi]. specialize (Hi c').
    destruct (m_pc m c'), p; naive_solver.
Qed.

Lemma inv_owned c m h : inv m h → owns (m_pc m c) = true → h = Some c.
Proof. intros H. apply (inv_owner _ _ H). Qed.

(** Case analysis on the thread that moves. *)
Ltac actors := intros ?; try intros ?; fn_cases; naive_solver.

Lemma inv_act c m h : inv m h → inv (act c m) (next_owner c m h).
Proof.
  intros HI. pose proof HI as [Ho Hw Hc Ha Hi].
  assert (Hoc := inv_owned c _ _ HI). assert (Hac := Ha c). assert (Hic := Hi c).
  unfold act, next_owner.
  destruct (m_pc m c) eqn:Epc; cbn in Hoc, Hac, Hic |- *.
  - (* Idle *)
    split; cbn; rsimpl; try done.
    + intros c'. fn_cases; [|apply Ho]. rewrite <- (Ho c'), Epc. done.
    + rewrite Hc. destruct h as [c'|]; cbn; [|done]. fn_cases; [|done]. by rewrite Epc.
    + actors.
    + actors.
  - destruct (_ =? 0); apply inv_goto; rewrite ?Epc; done.
  - rewrite bool_decide_false; [apply inv_goto; rewrite ?Epc; done|].
    rewrite Hc. destruct h as [c'|]; cbn; [|done]. destruct (recorded _) eqn:Er; [|done].
    intros [= ->]. by rewrite Epc in Er.
  - (* A_xchg *)
    destruct h as [c'|]; rewrite Hw; cbn.
    + assert (Hl : set_lock m ((m_lock m) <| locked := 1 |>) = m).
      { destruct m as [[]]; cbn in *. by subst. }
      rewrite Hl. by apply inv_goto; rewrite ?Epc.
    + split; cbn; rsimpl; try done.
      * intros c'. fn_cases; [naive_solver|]. rewrite (Ho c'). naive_solver.
      * rewrite Hc. cbn. by rewrite fn_lookup_insert.
      * actors.
      * actors.
  - (* A_setcpu *)
    rewrite Hoc in * by done. split; cbn; rsimpl; try done.
    + intros c'. fn_cases; [naive_solver|]. apply Ho.
    + by rewrite fn_lookup_insert.
    + actors.
    + actors.
  - by apply inv_goto; rewrite ?Epc.
  - (* R_chk_locked *)
    rewrite Hoc in * by done. rewrite Hw. by apply inv_goto; rewrite ?Epc.
  - (* R_chk_cpu *)
    rewrite Hoc in * by done. rewrite Hc. cbn. rewrite Epc. cbn.
    rewrite bool_decide_true by done. by apply inv_goto; rewrite ?Epc.
  - (* R_clearcpu *)
    rewrite Hoc in * by done. split; cbn; rsimpl; try done.
    + intros c'. fn_cases; [naive_solver|]. apply Ho.
    + by rewrite fn_lookup_insert.
    + actors.
    + actors.
  - (* R_unlock *)
    rewrite Hoc in * by done. cbn in Hc. rewrite Epc in Hc. split; cbn; rsimpl; try done.
    + intros c'. fn_cases; [naive_solver|]. rewrite (Ho c'). naive_solver.
    + actors.
    + actors.
  - (* R_popcli *)
    destruct Hic as (x & Hx & ->). destruct (popcli_after_pushcli x Hx) as (y & -> & Hy).
    split; cbn; rsimpl; try done.
    + intros c'. fn_cases; [|apply Ho]. rewrite <- (Ho c'), Epc. done.
    + rewrite Hc. destruct h as [c'|]; cbn; [|done]. fn_cases; [|done]. by rewrite Epc.
    + actors.
    + actors.
  - naive_solver.
Qed.

Lemma inv_reachable m : reachable m → ∃ h, inv m h.
Proof.
  intros (m0 & H0 & Hr). apply inv_initial in H0. revert H0. generalize (@None nat).
  induction Hr as [|m1 m2 m3 Hs _ IH]; intros h Hi; [eauto|].
  destruct Hs. eapply IH, inv_act, Hi.
Qed.
(** The CPUs act in the order of a schedule. *)
Definition run (sched : list nat) (m : mstate) : mstate :=
  foldl (λ m c, act c m) m sched.

Lemma run_steps sched m : rtc step m (run sched m).
Proof.
  revert m; induction sched as [|c sched IH]; intros m; [done|].
  simpl. eapply rtc_l; [constructor|apply IH].
Qed.

(** C5: a spin lock excludes.  However the memory accesses of any number of
    CPUs running [acquire] and [release] interleave, two CPUs are never both
    between the two calls; neither call ever panics; and the CPU inside has its
    interrupts disabled and is the one [lk->cpu] names. *)
Theorem mutual_exclusion m :
  reachable m →
  (∀ c1 c2, m_pc m c1 = Crit → m_pc m c2 = Crit → c1 = c2) ∧
  (∀ c msg, m_pc m c ≠ Dead msg) ∧
  (∀ c, m_pc m c = Crit → IF (m_cpu m c) = false ∧ lk_cpu (m_lock m) = Some c).
Proof.
  intros [h [Ho _ Hc Ha Hi]]%inv_reachable. split_and!; [|done|].
  - intros c1 c2 H1 H2. pose proof (Ho c1) as O1. pose proof (Ho c2) as O2.
    rewrite H1 in O1. rewrite H2 in O2. naive_solver.
  - intros c HC. pose proof (Ho c) as O1. specialize (Hi c). rewrite HC in O1, Hi.
    destruct Hi as (x & _ & ->). split; [apply pushcli_on_IF|].
    rewrite Hc, (proj1 O1 eq_refl). cbn. by rewrite HC.
Qed.

(** What the actions of [acquire] do when no other CPU acts. *)
Lemma run_acquire_free c m :
  m_pc m c = Idle → locked (m_lock m) = 0 →
  run [c; c; c; c] m =
    mk_mstate (taken (m_lock m) c) (<[c := Crit]> (m_pc m))
              (<[c := pushcli_on (m_cpu m c)]> (m_cpu m)).
Proof.
  intros Hp H0. destruct m as [l p x]; cbn in *.
  unfold act at 4; cbn. rewrite Hp. unfold goto, set_cpu; cbn.
  unfold act at 3; cbn. rewrite fn_lookup_insert, H0. unfold goto; cbn.
  unfold act at 2; cbn. rewrite fn_lookup_insert, H0. unfold goto, set_lock; cbn.
  unfold act; cbn. rewrite fn_lookup_insert. unfold goto, set_lock; cbn.
  by rewrite !fn_insert_insert.
Qed.

Lemma run_acquire_held c m :
  m_pc m c = Idle → holding_by (m_lock m) c = true →
  m_pc (run [c; c; c] m) c = Dead "acquire".
Proof.
  intros Hp [H1%negb_true_iff H2%bool_decide_eq_true]%andb_prop.
  destruct m as [l p x]; cbn in *.
  unfold act at 3; cbn. rewrite Hp. unfold goto, set_cpu; cbn.
  unfold act at 2; cbn. rewrite fn_lookup_insert, H1. unfold goto; cbn.
  unfold act; cbn. rewrite !fn_lookup_insert, H2.
  rewrite bool_decide_true by done. cbn. by rewrite fn_lookup_insert.
Qed.

Definition demo_cpu (c : nat) : cpu := mk_cpu c 0 false true 0 0.
Definition demo : mstate := mk_mstate (initlock_val "demo") (λ _, Idle) demo_cpu.

Lemma mutual_exclusion_witness :
  m_pc (run [0; 1; 1; 0; 1; 0; 1; 0]%nat demo) 1%nat = Crit ∧
  IF (m_cpu (run [0; 1; 1; 0; 1; 0; 1; 0]%nat demo) 1%nat) = false.
Proof.
  split; [reflexivity|].
  apply (mutual_exclusion (run [0; 1; 1; 0; 1; 0; 1; 0]%nat demo)); [|reflexivity].
  exists demo. split; [|apply run_steps].
  split; [by exists "demo"%string|]. intros c. repeat split; simpl; lia.
Defined.
End SMP.



(** [acquire] and [release] balance.  From a state where interrupts are
    off at a positive depth, acquiring a free lock and releasing it returns,
    leaves every lock as it was, and gives back the CPU's interrupt flag and
    depth; only the saved flag [intena] is rewritten, and only at depth 0. *)
Lemma acquire_release lk w e :
  cpu_ok (w_cpu w) →
  locked (w_locks w lk) = 0 → lk_cpu (w_locks w lk) = None →
  (acquire lk ;; release lk) (KS w e) =
    Ok tt (KS (w <| w_cpu ::= balanced |>) e).
Proof.
  intros Hok H0 Hn. erewrite bind_ok by by apply acquire_free.
  rewrite (release_taken _ _ _ (w_locks w lk) (w_cpu w)); [|done..|].
  - unfold acquired. weq.
    rewrite fn_insert_insert. apply fn_insert_id. unfold freed. by destruct (w_locks w lk); cbn in *; subst.
  - unfold acquired. rsimpl. by rewrite fn_lookup_insert.
Qed.

Lemma acquire_release_witness :
  (acquire L_kmem ;; release L_kmem) (KS (bss 0 []) []) = Ok tt (KS (bss 0 []) []).
Proof.
  rewrite (acquire_release L_kmem (bss 0 []) []);
    [reflexivity|repeat split; simpl; lia|reflexivity|reflexivity].
Defined.
