(* ===== verification/CString.v ===== *)
(** * string.c: the kernel's memory and string routines

    [memset], [memmove], [memcpy] and [memcmp] act on the byte-addressed
    kernel memory, where source and destination may overlap.  The string
    routines act on arrays of bytes: [s] is the array behind the pointer, and
    an access past its end is the error [None]. *)

From S2P Require Import Prelude Kernel.

(** ** Byte-addressed memory *)

Abbreviation mem := (gmap Z Z) (only parsing).

Definition rd (m : mem) (a : Z) : Z := default 0 (m !! a).
Definition wr (m : mem) (a v : Z) : mem := <[a := v]> m.

(** [rep stosb]: the low byte of [data], [cnt] times. *)
Fixpoint stosb (m : mem) (addr data : Z) (cnt : nat) : mem :=
  match cnt with
  | O => m
  | S cnt' => stosb (wr m addr (u8 data)) (addr + 1) data cnt'
  end.

(** [rep stosl]: the low 32 bits of [data], little-endian, [cnt] times. *)
Fixpoint stosl (m : mem) (addr data : Z) (cnt : nat) : mem :=
  match cnt with
  | O => m
  | S cnt' =>
      let m1 := wr m addr (u8 data) in
      let m2 := wr m1 (addr + 1) (u8 (Z.shiftr data 8)) in
      let m3 := wr m2 (addr + 2) (u8 (Z.shiftr data 16)) in
      let m4 := wr m3 (addr + 3) (u8 (Z.shiftr data 24)) in
      stosl m4 (addr + 4) data cnt'
  end.

Definition memset (m : mem) (dst c n : Z) : mem :=
  if (dst mod 4 =? 0) && (n mod 4 =? 0) then
    let c := Z.land c 0xFF in
    let data := u32 (Z.lor (Z.lor (Z.lor (Z.shiftl c 24) (Z.shiftl c 16)) (Z.shiftl c 8)) c) in
    stosl m dst data (Z.to_nat (n / 4))
  else stosb m dst c (Z.to_nat n).

(** [while(n-- > 0) { if( *s1 != *s2) return *s1 - *s2; s1++, s2++; } return 0;] *)
Fixpoint memcmp_n (m : mem) (s1 s2 : Z) (n : nat) : Z :=
  match n with
  | O => 0
  | S n' =>
      if rd m s1 =? rd m s2 then memcmp_n m (s1 + 1) (s2 + 1) n'
      else rd m s1 - rd m s2
  end.
Definition memcmp (m : mem) (v1 v2 n : Z) : Z := memcmp_n m v1 v2 (Z.to_nat n).

(** [while(n-- > 0) *--d = *--s;] *)
Fixpoint copy_down (m : mem) (d s : Z) (n : nat) : mem :=
  match n with
  | O => m
  | S n' => copy_down (wr m (d - 1) (rd m (s - 1))) (d - 1) (s - 1) n'
  end.

(** [while(n-- > 0) *d++ = *s++;] *)
Fixpoint copy_up (m : mem) (d s : Z) (n : nat) : mem :=
  match n with
  | O => m
  | S n' => copy_up (wr m d (rd m s)) (d + 1) (s + 1) n'
  end.

Definition memmove (m : mem) (dst src n : Z) : mem :=
  if (src <? dst) && (src + n >? dst)
  then copy_down m (dst + n) (src + n) (Z.to_nat n)
  else copy_up m dst src (Z.to_nat n).

Definition memcpy (m : mem) (dst src n : Z) : mem := memmove m dst src n.

(** ** Strings in byte arrays *)

(** [while(n > 0 && *p && *p == *q) n--, p++, q++;
     if(n == 0) return 0; return ( uchar)*p - ( uchar)*q;] *)
Fixpoint strncmp (p q : list Z) (n : nat) : option Z :=
  match n with
  | O => Some 0
  | S n' =>
      a ← head p; b ← head q;
      if negb (a =? 0) && (a =? b) then strncmp (tail p) (tail q) n'
      else Some (u8 a - u8 b)
  end.

(** The first loop of [strncpy]: [while(n-- > 0 && ( *s++ = *t++) != 0);] from
    index [i] of [s]; the second loop then zeroes what is left of the [n]
    bytes. *)
Fixpoint strncpy_at (s : list Z) (i : nat) (t : list Z) (n : nat) : option (list Z) :=
  match n with
  | O => Some s
  | S n' =>
      c ← head t; _ ← s !! i;
      let s' := <[i := c]> s in
      if c =? 0 then
        if decide (i + n ≤ length s)%nat
        then Some (take (S i) s' ++ replicate n' 0 ++ drop (S i + n') s')
        else None
      else strncpy_at s' (S i) (tail t) n'
  end.
Definition strncpy (s t : list Z) (n : Z) : option (list Z) :=
  strncpy_at s 0 t (Z.to_nat n).

(** [while(--n > 0 && ( *s++ = *t++) != 0); *s = 0;] with [n] already known
    positive; [n] here is the value after the decrement. *)
Fixpoint safestrcpy_at (s : list Z) (i : nat) (t : list Z) (n : nat) : option (list Z) :=
  match n with
  | O => _ ← s !! i; Some (<[i := 0]> s)
  | S n' =>
      c ← head t; _ ← s !! i;
      let s' := <[i := c]> s in
      if c =? 0 then _ ← s !! S i; Some (<[S i := 0]> s')
      else safestrcpy_at s' (S i) (tail t) n'
  end.
Definition safestrcpy (s t : list Z) (n : Z) : option (list Z) :=
  if n <=? 0 then Some s else safestrcpy_at s 0 t (Z.to_nat (n - 1)).

Fixpoint strlen (s : list Z) : option Z :=
  match s with
  | [] => None
  | c :: s' => if c =? 0 then Some 0 else n ← strlen s'; Some (n + 1)
  end.

(** ** Facts *)

Lemma rd_wr m a v b : rd (wr m a v) b = if decide (a = b) then v else rd m b.
Proof. unfold rd, wr. rewrite lookup_insert. by case_decide. Qed.

Lemma rd_wr_eq m a v : rd (wr m a v) a = v.
Proof. rewrite rd_wr. by rewrite decide_True. Qed.

Lemma rd_wr_ne m a v b : a ≠ b → rd (wr m a v) b = rd m b.
Proof. intros. rewrite rd_wr. by rewrite decide_False. Qed.

Lemma stosb_spec m addr data cnt a :
  rd (stosb m addr data cnt) a =
    if decide (addr ≤ a < addr + Z.of_nat cnt) then u8 data else rd m a.
Proof.
  revert m addr; induction cnt as [|cnt IH]; intros m addr; cbn [stosb].
  - rewrite decide_False by lia. done.
  - rewrite IH, rd_wr. repeat case_decide; try done; lia.
Qed.

(** A word whose four bytes are all [u8 c] fills like the byte [c]. *)
Definition fill_word (data v : Z) : Prop :=
  u8 data = v ∧ u8 (Z.shiftr data 8) = v ∧ u8 (Z.shiftr data 16) = v ∧ u8 (Z.shiftr data 24) = v.

Lemma stosl_spec m addr data v cnt a :
  fill_word data v →
  rd (stosl m addr data cnt) a =
    if decide (addr ≤ a < addr + 4 * Z.of_nat cnt) then v else rd m a.
Proof.
  intros (H0 & H1 & H2 & H3).
  revert m addr; induction cnt as [|cnt IH]; intros m addr; cbn [stosl].
  - rewrite decide_False by lia. done.
  - rewrite IH, !rd_wr, H0, H1, H2, H3. repeat case_decide; try done; lia.
Qed.

(** The word [memset] builds from a byte, checked on all 256 bytes. *)
Definition word_of_byte (b : Z) : Z :=
  u32 (Z.lor (Z.lor (Z.lor (Z.shiftl b 24) (Z.shiftl b 16)) (Z.shiftl b 8)) b).

Lemma word_of_byte_fill b : 0 ≤ b < 256 → fill_word (word_of_byte b) b.
Proof.
  intros Hb.
  assert (Hall : Forall (λ b, fill_word (word_of_byte b) b) (seqZ 0 256)).
  { apply (bool_decide_unpack _). vm_compute. exact I. }
  rewrite Forall_forall in Hall. apply Hall, elem_of_seqZ. lia.
Qed.

Lemma land_255 c : Z.land c 0xFF = u8 c.
Proof. change 0xFF with (Z.ones 8). by rewrite Z.land_ones by lia. Qed.

Lemma u8_range c : 0 ≤ u8 c < 256.
Proof. unfold u8. apply Z.mod_pos_bound. lia. Qed.

Lemma memset_bytes m dst c n a :
  0 ≤ n →
  rd (memset m dst c n) a = if decide (dst ≤ a < dst + n) then u8 c else rd m a.
Proof.
  intros Hn. unfold memset. destruct (_ && _) eqn:E.
  - apply andb_prop in E as [_ E%Z.eqb_eq]. cbv zeta.
    rewrite land_255. fold (word_of_byte (u8 c)).
    rewrite (stosl_spec _ _ _ (u8 c)) by apply word_of_byte_fill, u8_range.
    rewrite Z2Nat.id by (apply Z.div_pos; lia).
    pose proof (Z.div_mod n 4). repeat case_decide; try done; lia.
  - rewrite stosb_spec, Z2Nat.id by lia. done.
Qed.

(** [memset] fills exactly the [n] bytes from [dst] with the low byte of
    [c] and changes nothing else, whether it takes the word-wise or the
    byte-wise path. *)
Lemma memset_spec m dst c n a :
  0 ≤ n →
  rd (memset m dst c n) a = if decide (dst ≤ a < dst + n) then u8 c else rd m a.
Proof. apply memset_bytes. Qed.

Lemma memset_spec_witness :
  rd (memset ∅ 1003 0x1FF 6) 1005 = 255 ∧ rd (memset ∅ 1000 0x1FF 8) 1007 = 255 ∧
  rd (memset ∅ 1000 0x1FF 8) 1008 = 0.
Proof. split_and!; rewrite memset_spec by lia; reflexivity. Defined.

Lemma copy_up_spec m d s n a :
  (s < d → s + Z.of_nat n ≤ d) →
  rd (copy_up m d s n) a =
    if decide (d ≤ a < d + Z.of_nat n) then rd m (a - d + s) else rd m a.
Proof.
  revert m d s; induction n as [|n IH]; intros m d s Hov; cbn [copy_up].
  - rewrite decide_False by lia. done.
  - rewrite IH by lia. rewrite !rd_wr.
    repeat case_decide; try done; try lia; try (f_equal; lia).
Qed.

Lemma copy_down_spec m d s n a :
  s ≤ d →
  rd (copy_down m d s n) a =
    if decide (d - Z.of_nat n ≤ a < d) then rd m (a - d + s) else rd m a.
Proof.
  revert m d s; induction n as [|n IH]; intros m d s Hov; cbn [copy_down].
  - rewrite decide_False by lia. done.
  - rewrite IH by lia. rewrite !rd_wr.
    repeat case_decide; try done; try lia; try (f_equal; lia).
Qed.

Lemma memmove_bytes m dst src n a :
  0 ≤ n →
  rd (memmove m dst src n) a =
    if decide (dst ≤ a < dst + n) then rd m (a - dst + src) else rd m a.
Proof.
  intros Hn. unfold memmove. destruct (_ && _) eqn:E.
  - apply andb_prop in E as [H1%Z.ltb_lt H2%Z.gtb_lt].
    rewrite copy_down_spec, Z2Nat.id by lia.
    repeat case_decide; try done; try lia. f_equal; lia.
  - apply andb_false_iff in E. rewrite Z.ltb_ge, Z.gtb_ltb, Z.ltb_ge in E.
    rewrite copy_up_spec, Z2Nat.id by lia. done.
Qed.

(** [memmove] copies.  After the call the [n] bytes at [dst] are the bytes
    that were at [src] before it, however the two ranges overlap, and every
    other byte is unchanged. *)
Lemma memmove_spec m dst src n a :
  0 ≤ n →
  rd (memmove m dst src n) a =
    if decide (dst ≤ a < dst + n) then rd m (a - dst + src) else rd m a.
Proof. apply memmove_bytes. Qed.

(** An overlapping copy by one byte, upwards. *)
Lemma memmove_spec_witness :
  rd (memmove {[10 := 1; 11 := 2; 12 := 3]} 11 10 3) 13 = 3 ∧
  rd (memmove {[10 := 1; 11 := 2; 12 := 3]} 11 10 3) 12 = 2.
Proof. split_and!; rewrite memmove_spec by lia; reflexivity. Defined.

(** ** Words in memory *)

Definition rd_bytes (m : mem) (a : Z) (n : nat) : list Z :=
  (λ i, rd m (a + Z.of_nat i)) <$> seq 0 n.

Fixpoint wr_bytes (m : mem) (a : Z) (l : list Z) : mem :=
  match l with
  | [] => m
  | b :: l' => wr_bytes (wr m a b) (a + 1) l'
  end.

Definition load64 (m : mem) (a : Z) : Z := le_val (rd_bytes m a 8).
Definition store64 (m : mem) (a v : Z) : mem := wr_bytes m a (le_bytes 8 v).

Lemma rd_wr_bytes m a l b :
  rd (wr_bytes m a l) b =
    if decide (a ≤ b < a + Z.of_nat (length l)) then l !!! Z.to_nat (b - a) else rd m b.
Proof.
  revert m a; induction l as [|x l IH]; intros m a; cbn [wr_bytes length].
  - rewrite decide_False by lia. done.
  - rewrite IH, rd_wr. destruct (decide (a = b)) as [->|].
    + rewrite !decide_False, decide_True by lia. by rewrite Z.sub_diag.
    + destruct (decide (a + 1 ≤ b < a + 1 + Z.of_nat (length l))).
      * rewrite decide_True by lia.
        by replace (Z.to_nat (b - a)) with (S (Z.to_nat (b - (a + 1)))) by lia.
      * rewrite decide_False by lia. done.
Qed.

Lemma rd_bytes_ext m m' a n :
  (∀ b, a ≤ b < a + Z.of_nat n → rd m b = rd m' b) → rd_bytes m a n = rd_bytes m' a n.
Proof.
  intros H. unfold rd_bytes. apply list_fmap_ext. intros i x [? ?]%lookup_seq.
  apply H. lia.
Qed.

Lemma rd_wr_bytes_same m a l : rd_bytes (wr_bytes m a l) a (length l) = l.
Proof.
  apply list_eq_same_length with (length l); [done|by unfold rd_bytes; rewrite length_fmap, length_seq|].
  intros i x y Hi H1 H2. unfold rd_bytes in H1.
  rewrite list_lookup_fmap, lookup_seq_lt in H1 by done. cbn in H1.
  injection H1 as <-. rewrite rd_wr_bytes, decide_True by lia.
  replace (Z.to_nat (a + Z.of_nat i - a)) with i by lia. by apply list_lookup_total_correct.
Qed.

Lemma load64_store64 m a v : 0 ≤ v < 2 ^ 64 → load64 (store64 m a v) a = v.
Proof.
  intros. unfold load64, store64.
  rewrite <- (length_le_bytes 8 v) at 2. rewrite rd_wr_bytes_same.
  apply le_val_bytes_small. lia.
Qed.

Lemma load64_ext m m' a :
  (∀ b, a ≤ b < a + 8 → rd m b = rd m' b) → load64 m a = load64 m' a.
Proof. intros. unfold load64. f_equal. apply rd_bytes_ext. intros; apply H; lia. Qed.

Lemma rd_store64_ne m a v b : ¬ (a ≤ b < a + 8) → rd (store64 m a v) b = rd m b.
Proof.
  intros. unfold store64. rewrite rd_wr_bytes, length_le_bytes, decide_False by lia. done.
Qed.

Lemma rd_bytes_fn m a n (f : nat → Z) :
  (∀ i, (i < n)%nat → rd m (a + Z.of_nat i) = f i) → rd_bytes m a n = f <$> seq 0 n.
Proof. intros H. apply list_fmap_ext. intros i x [-> ?]%lookup_seq. apply H. lia. Qed.

Lemma length_rd_bytes m a n : length (rd_bytes m a n) = n.
Proof. unfold rd_bytes. by rewrite length_fmap, length_seq. Qed.

Lemma rd_bytes_lookup m a n i x : rd_bytes m a n !! i = Some x → rd m (a + Z.of_nat i) = x.
Proof.
  unfold rd_bytes. rewrite list_lookup_fmap. destruct (seq 0 n !! i) eqn:E; [|done]. apply lookup_seq in E as [-> _].
  by intros [= <-].
Qed.

Lemma rd_bytes_split m a n k : rd_bytes m a (n + k) = rd_bytes m a n ++ rd_bytes m (a + Z.of_nat n) k.
Proof.
  unfold rd_bytes. rewrite seq_app, fmap_app. f_equal. rewrite Nat.add_0_l, <- (Nat.add_0_r n) at 1.
  rewrite <- fmap_add_seq, <- list_fmap_compose. apply list_fmap_ext. intros i x _. cbn. f_equal. lia.
Qed.

Lemma wr_bytes_1 m a b : wr_bytes m a [b] = wr m a b.
Proof. done. Qed.

Lemma load64_zero m a : (∀ b, a ≤ b < a + 8 → rd m b = 0) → load64 m a = 0.
Proof.
  intros H. unfold load64. replace (rd_bytes m a 8) with (replicate 8 0); [done|].
  symmetry. apply list_eq_same_length with 8%nat; [done|by unfold rd_bytes; rewrite length_fmap, length_seq|].
  intros j x y Hj H1 H2. apply lookup_replicate in H2 as [-> _]. unfold rd_bytes in H1.
  rewrite list_lookup_fmap, lookup_seq_lt in H1 by done. cbn in H1. injection H1 as <-. apply H. lia.
Qed.

(** The components that follow reason with the lemmas above. *)
#[global] Opaque rd wr memset memmove load64 store64 rd_bytes wr_bytes.
