(* ===== verification/Kalloc.v ===== *)
(** * kalloc.c: the physical page allocator

    The free list is threaded through the free pages themselves: the first
    word of a free page, in [w_mem], is the address of the next one.  The
    specification is a plain list of page addresses. *)

From S2P Require Import Prelude Kernel Spinlock CString.

Section kalloc.
  (** [end], the first address after the kernel image, comes from the linker. *)
  Context {image : KernelImage}.

Definition kfree (v : Z) : K unit :=
  if negb (v mod PGSIZE =? 0) || (v <? kend) || (V2P v >=? PHYSTOP) then panic "kfree" else
  modw (λ w, w <| w_mem ::= λ m, memset m v 1 PGSIZE |>) ;;
  ul ← getw (λ w, use_lock (w_kmem w));
  (if (ul : bool) then acquire L_kmem else mret tt) ;;
  modw (λ w, w <| w_mem ::= λ m, store64 m v (freelist (w_kmem w)) |>) ;;
  modw (λ w, w <| w_kmem ::= λ k, k <| freelist := v |> |>) ;;
  ul ← getw (λ w, use_lock (w_kmem w));
  if (ul : bool) then release L_kmem else mret tt.

Definition kalloc : K Z :=
  ul ← getw (λ w, use_lock (w_kmem w));
  (if (ul : bool) then acquire L_kmem else mret tt) ;;
  r ← getw (λ w, freelist (w_kmem w));
  (if r =? 0 then panic "Out of memory!"
   else modw (λ w, w <| w_kmem ::= λ k, k <| freelist := load64 (w_mem w) r |> |>)) ;;
  ul ← getw (λ w, use_lock (w_kmem w));
  (if (ul : bool) then release L_kmem else mret tt) ;;
  mret r.

(** [for(; p + PGSIZE <= vend; p += PGSIZE) kfree(p);] *)
Fixpoint freerange_loop (fuel : nat) (p vend : Z) : K unit :=
  if p + PGSIZE <=? vend then
    match fuel with
    | O => mstop OutOfFuel
    | S n => kfree p ;; freerange_loop n (p + PGSIZE) vend
    end
  else mret tt.

Definition freerange (vstart vend : Z) : K unit :=
  let p := PGROUNDUP vstart in
  freerange_loop (Z.to_nat ((vend - p) / PGSIZE)) p vend.

Definition kinit1 (vstart vend : Z) : K unit :=
  initlock L_kmem "kmem" ;;
  modw (λ w, w <| w_kmem ::= λ k, k <| use_lock := false |> |>) ;;
  modw (λ w, w <| w_kmem ::= λ k, k <| freelist := 0 |> |>) ;;
  freerange vstart vend.

Definition kinit2 : K unit :=
  modw (λ w, w <| w_kmem ::= λ k, k <| use_lock := true |> |>).

(** ** The invariant *)

(** The addresses [kfree] accepts. *)
Definition page_ok (v : Z) : Prop :=
  v mod PGSIZE = 0 ∧ kend ≤ v ∧ V2P v < PHYSTOP ∧ 0 < v < 2 ^ 64.

(** The list of pages reached from the free-list pointer [p]. *)
Fixpoint chain (m : mem) (p : Z) (l : list Z) : Prop :=
  match l with
  | [] => p = 0
  | v :: l' => p = v ∧ chain m (load64 m v) l'
  end.

Record free_pages (w : world) (l : list Z) : Prop := {
  fp_chain : chain (w_mem w) (freelist (w_kmem w)) l;
  fp_nodup : NoDup l;
  fp_ok : Forall page_ok l
}.

(** The lock is not held and the CPU's interrupt state is sane. *)
Definition ready (w : world) (lk : lockid) : Prop := lock_free w lk ∧ cpu_ok (w_cpu w).

(** The world after a possibly locked section on [w_mem] and [w_kmem]. *)
Definition kmem_step (w : world) (m : mem) (fl : Z) : world :=
  w <| w_mem := m |> <| w_kmem ::= λ k, k <| freelist := fl |> |>
    <| w_cpu ::= λ c, if use_lock (w_kmem w) then balanced c else c |>.

Lemma chain_ext m m' p l :
  (∀ v b, v ∈ l → v ≤ b < v + 8 → rd m b = rd m' b) → chain m p l → chain m' p l.
Proof.
  revert p; induction l as [|v l IH]; intros p Hext; cbn; [done|].
  intros [-> Hc]. split; [done|].
  rewrite <- (load64_ext m) by (intros; apply (Hext v); [left|done]).
  apply IH; [|done]. intros; eapply Hext; [by right|done].
Qed.

(** Two pages either coincide or share no byte. *)
Lemma pages_apart v v' b :
  v mod PGSIZE = 0 → v' mod PGSIZE = 0 → v ≠ v' →
  v ≤ b < v + PGSIZE → ¬ (v' ≤ b < v' + PGSIZE).
Proof.
  unfold PGSIZE. intros H H' Hne Hb Hb'.
  pose proof (Z.div_mod v 4096). pose proof (Z.div_mod v' 4096). lia.
Qed.

Lemma kfree_eq w e v :
  page_ok v → ready w L_kmem →
  kfree v (KS w e) =
    Ok tt (KS (kmem_step w (store64 (memset (w_mem w) v 1 PGSIZE) v (freelist (w_kmem w))) v) e).
Proof.
  intros (H1 & H2 & H3 & H4) [[Hl Hn] Hc]. unfold kfree.
  rewrite H1. rewrite (proj2 (Z.ltb_ge v kend)) by lia.
  rewrite Z.geb_leb, (proj2 (Z.leb_gt PHYSTOP (V2P v))) by lia. cbn [negb orb Z.eqb].
  unfold kmem_step. krun. destruct (use_lock (w_kmem w)) eqn:Eu.
  - rewrite acquire_free by done. krun. unfold acquired at 1. rsimpl. rewrite Eu.
    rewrite (release_taken _ _ _ (w_locks w L_kmem) (w_cpu w)) by
      (done || by unfold acquired; rsimpl; rewrite ?fn_lookup_insert).
    unfold acquired. weq.
    rewrite fn_insert_insert. apply fn_insert_id.
    unfold freed. destruct (w_locks w L_kmem); cbn in *; by subst.
  - krun. rewrite Eu. weq.
Qed.
Lemma kfree_bad w e v :
  v mod PGSIZE ≠ 0 ∨ v < kend ∨ PHYSTOP ≤ V2P v →
  kfree v (KS w e) = Stop (Panicked "kfree") (KS w e).
Proof.
  intros H. unfold kfree.
  destruct (Z.eqb_spec (v mod PGSIZE) 0), (Z.ltb_spec v kend), (Z.geb_spec (V2P v) PHYSTOP);
    try done; lia.
Qed.

Lemma kalloc_eq w e r :
  freelist (w_kmem w) = r → r ≠ 0 → ready w L_kmem →
  kalloc (KS w e) = Ok r (KS (kmem_step w (w_mem w) (load64 (w_mem w) r)) e).
Proof.
  intros Hr Hne [[Hl Hn] Hc]. unfold kalloc, kmem_step. krun.
  destruct (use_lock (w_kmem w)) eqn:Eu.
  - rewrite acquire_free by done. krun.
    assert (Ek : w_kmem (acquired L_kmem w) = w_kmem w) by (unfold acquired; by rsimpl).
    rewrite !Ek, Hr, (proj2 (Z.eqb_neq r 0)) by done. krun.
    rewrite Ek, Eu.
    rewrite (release_taken _ _ _ (w_locks w L_kmem) (w_cpu w)) by
      (done || by unfold acquired; rsimpl; rewrite ?fn_lookup_insert).
    unfold acquired. weq.
    rewrite fn_insert_insert. apply fn_insert_id.
    unfold freed. destruct (w_locks w L_kmem); cbn in *; by subst.
  - krun. rewrite Hr, (proj2 (Z.eqb_neq r 0)) by done. krun. rewrite Eu. weq.
Qed.

Lemma kalloc_empty w e :
  freelist (w_kmem w) = 0 → ready w L_kmem →
  ∃ w', kalloc (KS w e) = Stop (Panicked "Out of memory!") (KS w' e).
Proof.
  intros Hr [[Hl Hn] Hc]. unfold kalloc. krun. destruct (use_lock (w_kmem w)) eqn:Eu.
  - rewrite acquire_free by done. krun.
    assert (Ek : w_kmem (acquired L_kmem w) = w_kmem w) by (unfold acquired; by rsimpl).
    rewrite Ek, Hr. eauto.
  - krun. rewrite Hr. eauto.
Qed.

Lemma kmem_step_ready w m fl lk : ready w lk → ready (kmem_step w m fl) lk.
Proof.
  intros [[? ?] ?]. unfold ready, lock_free, kmem_step. rsimpl. split; [done|].
  destruct (use_lock _); [by apply balanced_ok|done].
Qed.

(** Writing inside page [v] keeps the chain through other pages. *)
Lemma chain_write m m' p l v :
  v mod PGSIZE = 0 → v ∉ l → Forall page_ok l →
  (∀ b, ¬ (v ≤ b < v + PGSIZE) → rd m' b = rd m b) →
  chain m p l → chain m' p l.
Proof.
  intros Hv Hnin Hok Hm. apply chain_ext. intros v' b Hin Hb.
  symmetry. apply Hm. rewrite Forall_forall in Hok.
  destruct (Hok v' Hin) as (Hal & _).
  apply pages_apart with v'; try done; [set_solver|]. unfold PGSIZE. lia.
Qed.

Lemma kfree_mem_frame m v p b :
  ¬ (v ≤ b < v + PGSIZE) → rd (store64 (memset m v 1 PGSIZE) v p) b = rd m b.
Proof.
  intros Hb. unfold PGSIZE in *. rewrite rd_store64_ne by lia.
  rewrite memset_bytes, decide_False by lia. done.
Qed.
(** ** The allocator against its specification *)

Lemma kfree_pushes w e v l :
  free_pages w l → ready w L_kmem → page_ok v → v ∉ l →
  ∃ w', kfree v (KS w e) = Ok tt (KS w' e) ∧
        free_pages w' (v :: l) ∧ ready w' L_kmem.
Proof.
  intros [Hc Hnd Hok] Hr Hv Hnin. eexists. split; [by apply kfree_eq|].
  split; [|by apply kmem_step_ready]. split; unfold kmem_step; rsimpl.
  - destruct Hv as (Hal & _). split; [done|].
    assert (Hfl : 0 ≤ freelist (w_kmem w) < 2 ^ 64).
    { destruct l as [|v' l]; cbn in Hc; [lia|]. destruct Hc as [-> _].
      inversion Hok as [|?? (_ & _ & _ & ?)]; subst. lia. }
    rewrite load64_store64 by done.
    apply (chain_write (w_mem w) _ _ l v); try done. intros; by apply kfree_mem_frame.
  - by constructor.
  - by constructor.
Qed.

Lemma kalloc_pops w e v l :
  free_pages w (v :: l) → ready w L_kmem →
  ∃ w', kalloc (KS w e) = Ok v (KS w' e) ∧
        free_pages w' l ∧ ready w' L_kmem ∧ w_mem w' = w_mem w.
Proof.
  intros [[Hp Hc] Hnd Hok] Hr.
  inversion Hok as [|?? (_ & _ & _ & ?)]; inversion Hnd; subst.
  eexists. split; [apply kalloc_eq; [done|lia|done]|].
  split; [|split; [by apply kmem_step_ready|unfold kmem_step; by rsimpl]].
  split; unfold kmem_step; rsimpl; done.
Qed.

(** The specification's state: the free pages, most recently freed first, and
    the pages handed out. *)
Record pool := mk_pool { p_free : list Z; p_live : list Z }.

Inductive kop := Alloc | Free (v : Z).

(** A client may free only what it holds; allocation fails when no page is free. *)
Definition spec_op (o : kop) (p : pool) : option (option Z * pool) :=
  match o with
  | Alloc =>
      match p_free p with
      | [] => None
      | v :: l => Some (Some v, mk_pool l (v :: p_live p))
      end
  | Free v =>
      if decide (v ∈ p_live p)
      then Some (None, mk_pool (v :: p_free p) (list_difference (p_live p) [v]))
      else None
  end.

Fixpoint spec_run (os : list kop) (p : pool) : option (list (option Z) * pool) :=
  match os with
  | [] => Some ([], p)
  | o :: os' =>
      '(r, p1) ← spec_op o p;
      '(rs, p2) ← spec_run os' p1;
      Some (r :: rs, p2)
  end.

(** The same operations by the code. *)
Definition run_op (o : kop) : K (option Z) :=
  match o with
  | Alloc => v ← kalloc; mret (Some v)
  | Free v => kfree v ;; mret None
  end.

Fixpoint run_ops (os : list kop) : K (list (option Z)) :=
  match os with
  | [] => mret []
  | o :: os' => r ← run_op o; rs ← run_ops os'; mret (r :: rs)
  end.

(** No page is at once free and handed out, or in either list twice. *)
Definition pool_ok (p : pool) : Prop :=
  NoDup (p_free p ++ p_live p) ∧ Forall page_ok (p_free p ++ p_live p).

Lemma pool_ok_op o p r p' : pool_ok p → spec_op o p = Some (r, p') → pool_ok p'.
Proof.
  intros [Hnd Hok] Hs. destruct p as [fr lv], o as [|v]; cbn in *.
  - destruct fr as [|v fr]; simplify_eq. cbn in *. unfold pool_ok; cbn.
    assert (HP : fr ++ v :: lv ≡ₚ v :: fr ++ lv) by (symmetry; apply Permutation_middle).
    by rewrite HP.
  - case_decide as Hin; simplify_eq. unfold pool_ok; cbn.
    apply NoDup_app in Hnd as (H1 & H2 & H3). apply Forall_app in Hok as [H4 H5].
    split.
    + constructor.
      * rewrite elem_of_app, list_elem_of_difference. set_solver.
      * apply NoDup_app; split_and!; [done| |by apply NoDup_list_difference].
        intros x Hx. rewrite list_elem_of_difference. naive_solver.
    + rewrite Forall_forall in H5. constructor; [by apply H5|].
      apply Forall_app. split; [done|]. apply Forall_forall.
      intros x. rewrite list_elem_of_difference. naive_solver.
Qed.
Lemma run_op_refines o w e p r p' :
  free_pages w (p_free p) → ready w L_kmem → pool_ok p →
  spec_op o p = Some (r, p') →
  ∃ w', run_op o (KS w e) = Ok r (KS w' e) ∧ free_pages w' (p_free p') ∧ ready w' L_kmem.
Proof.
  intros Hfp Hr [Hnd Hok] Hs. destruct p as [fr lv], o as [|v]; cbn in *.
  - destruct fr as [|v fr]; simplify_eq.
    destruct (kalloc_pops w e v fr) as (w' & Hk & Hfp' & Hr' & _); [done..|].
    exists w'. by rewrite (bind_ok _ _ _ _ _ Hk).
  - case_decide as Hin; simplify_eq. apply NoDup_app in Hnd as (_ & Hd & _).
    apply Forall_app in Hok as [_ Hok]. rewrite Forall_forall in Hok.
    destruct (kfree_pushes w e v fr) as (w' & Hk & Hfp' & Hr'); [done|done|by apply Hok|naive_solver|].
    exists w'. by rewrite (bind_ok _ _ _ _ _ Hk).
Qed.

(** C15: the page allocator refines its specification.  Whatever sequence of
    [kalloc]s and [kfree]s of pages the clients hold is run, the code returns
    the pages the specification returns, the free list threaded through memory
    ends up holding exactly the specification's free pages, and no page is ever
    free and handed out at once, or handed out twice. *)
Theorem allocator_refines os w e p rs p' :
  free_pages w (p_free p) → ready w L_kmem → pool_ok p →
  spec_run os p = Some (rs, p') →
  ∃ w', run_ops os (KS w e) = Ok rs (KS w' e) ∧
        free_pages w' (p_free p') ∧ ready w' L_kmem ∧ pool_ok p'.
Proof.
  revert w p rs; induction os as [|o os IH]; intros w p rs Hfp Hr Hok Hs; cbn in Hs.
  { simplify_eq. by exists w. }
  apply bind_Some in Hs as ([r p1] & H1 & Hs).
  apply bind_Some in Hs as ([rs' p2] & H2 & Hs). simplify_eq.
  destruct (run_op_refines o w e p r p1) as (w1 & Hk1 & Hfp1 & Hr1); [done..|].
  destruct (IH w1 p1 rs') as (w2 & Hk2 & Hrest); [done..|by eapply pool_ok_op|done|].
  exists w2. split; [|done]. cbn.
  by rewrite (bind_ok _ _ _ _ _ Hk1), (bind_ok _ _ _ _ _ Hk2).
Qed.

(** ** Initialisation *)

(** The [n] pages from [p] upwards. *)
Definition pages_from (p : Z) (n : nat) : list Z := (λ i, p + Z.of_nat i * PGSIZE) <$> seq 0 n.

Lemma pages_from_S p n : pages_from p (S n) = p :: pages_from (p + PGSIZE) n.
Proof.
  unfold pages_from. cbn [seq fmap list_fmap]. f_equal; [lia|].
  rewrite <- (fmap_S_seq 0 n), <- list_fmap_compose. apply list_fmap_ext. intros; cbn. lia.
Qed.

Lemma elem_of_pages_from p n v :
  v ∈ pages_from p n ↔ ∃ i, (i < n)%nat ∧ v = p + Z.of_nat i * PGSIZE.
Proof.
  unfold pages_from. rewrite list_elem_of_fmap. setoid_rewrite elem_of_seq.
  split; intros (i & ? & ?); exists i; split; try done; lia.
Qed.

Lemma freerange_loop_spec n w e p vend l :
  free_pages w l → ready w L_kmem →
  Forall page_ok (pages_from p n) → (∀ v, v ∈ l → v < p) →
  p + Z.of_nat n * PGSIZE ≤ vend < p + Z.of_nat n * PGSIZE + PGSIZE →
  ∃ w', freerange_loop n p vend (KS w e) = Ok tt (KS w' e) ∧
        free_pages w' (reverse (pages_from p n) ++ l) ∧ ready w' L_kmem.
Proof.
  revert w p l; induction n as [|n IH]; intros w p l Hfp Hr Hok Hlt Hv; cbn [freerange_loop].
  - rewrite (proj2 (Z.leb_gt _ _)) by (unfold PGSIZE in *; lia). by exists w.
  - rewrite (proj2 (Z.leb_le _ _)) by (unfold PGSIZE in *; lia).
    rewrite pages_from_S in *. inversion Hok as [|?? Hp Hok']; subst.
    destruct (kfree_pushes w e p l) as (w1 & Hk & Hfp1 & Hr1); [done..| |].
    { intros Hin%Hlt. lia. }
    destruct (IH w1 (p + PGSIZE) (p :: l)) as (w2 & Hk2 & Hfp2 & Hr2); [done..| | |].
    { intros v [->|?]%elem_of_cons; [unfold PGSIZE; lia|].
      pose proof (Hlt v). unfold PGSIZE. naive_solver lia. }
    { lia. }
    exists w2. rewrite (bind_ok _ _ _ _ _ Hk). split; [done|].
    by rewrite reverse_cons, <- (assoc_L (++)).
Qed.

Lemma kinit1_spec w e vstart vend :
  cpu_ok (w_cpu w) → 0 < vstart → kend ≤ vstart →
  vstart + (PGSIZE - 1) ≤ vend → KERNBASE ≤ vstart → vend ≤ KERNBASE + PHYSTOP →
  let p := PGROUNDUP vstart in
  let n := Z.to_nat ((vend - p) / PGSIZE) in
  ∃ w', kinit1 vstart vend (KS w e) = Ok tt (KS w' e) ∧
        free_pages w' (reverse (pages_from p n)) ∧ ready w' L_kmem ∧
        (∀ v, v ∈ pages_from p n ↔ v mod PGSIZE = 0 ∧ vstart ≤ v ∧ v + PGSIZE ≤ vend).
Proof.
  intros Hc H1 H2 H3 H4 H5 p n.
  destruct (PGROUNDUP_spec vstart) as [Hal Hup];
    [lia|unfold PGSIZE, KERNBASE, PHYSTOP in *; lia|]. fold p in Hal, Hup.
  assert (Hn : Z.of_nat n = (vend - p) / PGSIZE).
  { unfold n. rewrite Z2Nat.id; [done|]. apply Z.div_pos; unfold PGSIZE in *; lia. }
  pose proof (Z.div_mod (vend - p) PGSIZE) as Hdm.
  pose proof (Z.mod_pos_bound (vend - p) PGSIZE) as Hmb.
  assert (Hmem : ∀ v, v ∈ pages_from p n ↔ v mod PGSIZE = 0 ∧ vstart ≤ v ∧ v + PGSIZE ≤ vend).
  { intros v. rewrite elem_of_pages_from. unfold PGSIZE in *. split.
    - intros (i & Hi & ->). rewrite Z.mod_add by lia. lia.
    - intros (Ha & Hs & He). exists (Z.to_nat ((v - p) / 4096)).
      pose proof (Z.div_mod v 4096). pose proof (Z.div_mod p 4096).
      assert (E : (v - p) = 4096 * (v / 4096 - p / 4096)) by lia.
      rewrite E, Z.mul_comm, Z.div_mul by lia. lia. }
  set (w0 := w <| w_locks ::= <[L_kmem := initlock_val "kmem"]> |>
               <| w_kmem ::= λ k, k <| use_lock := false |> |>
               <| w_kmem ::= λ k, k <| freelist := 0 |> |>).
  destruct (freerange_loop_spec n w0 e p vend []) as (w' & Hk & Hfp & Hr').
  - split; subst w0; rsimpl; [done|constructor|constructor].
  - subst w0. split; [|by rsimpl]. split; rsimpl; by rewrite fn_lookup_insert.
  - apply Forall_forall. intros v (Ha & Hs & He)%Hmem.
    unfold page_ok, V2P, KERNBASE, PHYSTOP, PGSIZE in *.
    rewrite u64_small by lia. lia.
  - by intros v Hv%elem_of_nil.
  - unfold PGSIZE in *. lia.
  - exists w'. rewrite app_nil_r in Hfp. split; [|done].
    unfold kinit1, initlock. krun. exact Hk.
Qed.
(** [kinit1] gives the allocator every whole page of the range it is
    called with, each exactly once, and nothing else. *)
Lemma kinit1_frees_range w e vstart vend :
  cpu_ok (w_cpu w) → 0 < vstart → kend ≤ vstart →
  vstart + (PGSIZE - 1) ≤ vend → KERNBASE ≤ vstart → vend ≤ KERNBASE + PHYSTOP →
  let p := PGROUNDUP vstart in
  let n := Z.to_nat ((vend - p) / PGSIZE) in
  ∃ w', kinit1 vstart vend (KS w e) = Ok tt (KS w' e) ∧
        free_pages w' (reverse (pages_from p n)) ∧ ready w' L_kmem ∧
        (∀ v, v ∈ pages_from p n ↔ v mod PGSIZE = 0 ∧ vstart ≤ v ∧ v + PGSIZE ≤ vend).
Proof. apply kinit1_spec. Qed.
End kalloc.

(** A kernel that ends one megabyte into the mapping, with a region of three
    pages and some change above it. *)
Definition demo_end : Z := KERNBASE + EXTMEM + 100.
#[local] Instance demo_image : KernelImage := demo_end.
Definition demo_top : Z := KERNBASE + EXTMEM + 4 * PGSIZE + 50.

Lemma kinit1_frees_range_witness :
  ∃ w', kinit1 demo_end demo_top (KS (bss 0 []) []) = Ok tt (KS w' []) ∧
        free_pages w'
          [KERNBASE + EXTMEM + 3 * PGSIZE; KERNBASE + EXTMEM + 2 * PGSIZE;
           KERNBASE + EXTMEM + PGSIZE].
Proof.
  destruct (kinit1_frees_range (bss 0 []) [] demo_end demo_top) as (w' & Hk & Hf & _);
    [repeat split; simpl; lia|vm_compute; done..|].
  exists w'. split; [exact Hk|exact Hf].
Defined.

Lemma allocator_refines_witness :
  ∃ w w', kinit1 demo_end demo_top (KS (bss 0 []) []) = Ok tt (KS w []) ∧
    run_ops [Alloc; Alloc; Free (KERNBASE + EXTMEM + 3 * PGSIZE); Alloc] (KS w []) =
      Ok [Some (KERNBASE + EXTMEM + 3 * PGSIZE); Some (KERNBASE + EXTMEM + 2 * PGSIZE); None;
          Some (KERNBASE + EXTMEM + 3 * PGSIZE)] (KS w' []) ∧
    free_pages w' [KERNBASE + EXTMEM + PGSIZE].
Proof.
  destruct (kinit1_spec (bss 0 []) [] demo_end demo_top)
    as (w & Hk & Hf & Hr & _); [repeat split; simpl; lia|vm_compute; done..|].
  destruct (allocator_refines
              [Alloc; Alloc; Free (KERNBASE + EXTMEM + 3 * PGSIZE); Alloc] w []
              (mk_pool [KERNBASE + EXTMEM + 3 * PGSIZE; KERNBASE + EXTMEM + 2 * PGSIZE;
                        KERNBASE + EXTMEM + PGSIZE] [])
              [Some (KERNBASE + EXTMEM + 3 * PGSIZE); Some (KERNBASE + EXTMEM + 2 * PGSIZE); None;
               Some (KERNBASE + EXTMEM + 3 * PGSIZE)]
              (mk_pool [KERNBASE + EXTMEM + PGSIZE]
                 [KERNBASE + EXTMEM + 3 * PGSIZE; KERNBASE + EXTMEM + 2 * PGSIZE]))
    as (w' & Hrun & Hf' & _); [exact Hf|exact Hr| |reflexivity|].
  - split; [apply (bool_decide_unpack _); vm_compute; exact I|].
    destruct Hf as [_ _ Hok]. by rewrite app_nil_r.
  - exists w, w'. split_and!; [exact Hk|exact Hrun|exact Hf'].
Defined.
