(* ===== verification/Sched.v ===== *)
(** * proc.c, first part: the scheduler, sleeping and waking

    [scheduler], [sched], [yield], [sleep], [wakeup] and [kill], with the
    address-space switches of vm.c they use.  Giving up the CPU ([swtch] to
    the scheduler's context) takes steps of the environment's script until the
    process is found RUNNABLE again; the scheduler's [swtch] to a process takes
    the one step in which that process runs. *)

From Stdlib Require Import Sorted.
From S2P Require Import Prelude Kernel Spinlock.

(** ** Access to the process table *)

Definition myproc : K nat :=
  p ← getw w_proc; munwrap "proc" p.

Definition getp (i : nat) : K proc :=
  p ← getw (λ w, w_procs w !! i); munwrap "ptable.proc" p.

Definition modp (i : nat) (f : proc → proc) : K unit :=
  modw (λ w, w <| w_procs ::= alter f i |>).

(** ** vm.c: switching address spaces *)

Definition lcr3 (v : Z) : K unit := modw (λ w, w <| w_cpu ::= λ c, c <| cr3 := v |> |>).

Definition switchuvm (i : nat) : K unit :=
  pushcli ;;
  p ← getp i;
  if pgdir p =? 0 then panic "switchuvm: no pgdir" else
  let stktop := u64 (kstack p + KSTACKSIZE) in
  modw (λ w, w <| w_cpu ::= λ c, c <| tss_rsp0 := stktop |> |>) ;;
  lcr3 (V2P (pgdir p)) ;;
  popcli.

Definition switchkvm : K unit :=
  k ← getw w_kpml4; lcr3 (V2P k).

(** ** Waking *)

Definition wake_one (c : chan) (p : proc) : proc :=
  if bool_decide (state p = SLEEPING) && bool_decide (p_chan p = Some c)
  then p <| state := RUNNABLE |> else p.

Definition wakeup1 (c : chan) : K unit :=
  modw (λ w, w <| w_procs ::= fmap (wake_one c) |>).

Definition wakeup (c : chan) : K unit :=
  acquire L_ptable ;; wakeup1 c ;; release L_ptable.

Definition kill (pid0 : Z) : K Z :=
  acquire L_ptable ;;
  procs ← getw w_procs;
  match list_find (λ p, pid p = pid0) procs with
  | Some (i, p) =>
      modp i (λ p, p <| killed := 1 |>) ;;
      (if decide (state p = SLEEPING) then modp i (λ p, p <| state := RUNNABLE |>) else mret tt) ;;
      release L_ptable ;;
      mret 0
  | None => release L_ptable ;; mret (-1)
  end.

(** ** Giving up the CPU *)

(** The scheduler's [proc = p; switchuvm(p); p->state = RUNNING;]. *)
Definition dispatch (i : nat) : K unit :=
  modw (λ w, w <| w_proc := Some i |>) ;;
  switchuvm i ;;
  modp i (λ p, p <| state := RUNNING |>).

Definition take_step (f : world → world) (e : env) : K unit := λ s, Ok tt (KS (f (ks_w s)) e).

(** [swtch(&proc->context, cpu->scheduler)]: the others run until a scheduler
    finds process [i] RUNNABLE and switches to it. *)
Fixpoint resume (i : nat) (e : env) : K unit :=
  match e with
  | [] => mstop Waiting
  | f :: e' =>
      take_step f e' ;;
      p ← getp i;
      if decide (state p = RUNNABLE) then dispatch i else resume i e'
  end.

Definition swtch_scheduler (i : nat) : K unit := λ s, resume i (ks_env s) s.

Definition sched : K unit :=
  h ← holding L_ptable;
  if negb h then panic "sched ptable.lock" else
  n ← getw (λ w, ncli (w_cpu w));
  if negb (n =? 1) then panic "sched locks" else
  i ← myproc;
  p ← getp i;
  if decide (state p = RUNNING) then panic "sched running" else
  fl ← getw (λ w, IF (w_cpu w));
  if (fl : bool) then panic "sched interruptible" else
  ia ← getw (λ w, intena (w_cpu w));
  swtch_scheduler i ;;
  modw (λ w, w <| w_cpu ::= λ c, c <| intena := ia |> |>).

Definition yield : K unit :=
  acquire L_ptable ;;
  i ← myproc;
  modp i (λ p, p <| state := RUNNABLE |>) ;;
  sched ;;
  release L_ptable.

Definition sleep (c : chan) (lk : option lockid) : K unit :=
  pr ← getw w_proc;
  match pr with
  | None => panic "sleep"
  | Some i =>
      match lk with
      | None => panic "sleep without lk"
      | Some lk =>
          (if decide (lk = L_ptable) then mret tt else acquire L_ptable ;; release lk) ;;
          modp i (λ p, p <| p_chan := Some c |>) ;;
          modp i (λ p, p <| state := SLEEPING |>) ;;
          sched ;;
          j ← myproc;
          modp j (λ p, p <| p_chan := None |>) ;;
          if decide (lk = L_ptable) then mret tt else release L_ptable ;; acquire lk
      end
  end.

(** ** The scheduler *)

(** [swtch(&cpu->scheduler, p->context)]: the process runs until it switches
    back; that is one step of the script. *)
Definition run_process : K unit := λ s,
  match ks_env s with
  | [] => Stop Waiting s
  | f :: e => Ok tt (KS (f (ks_w s)) e)
  end.

(** The loop over the table from slot [i] on, [n] slots left.  The result is
    the counter [skipped] and, as a ghost, the slots dispatched in order. *)
Fixpoint scheduler_scan (n i : nat) (skipped : Z) (ran : list nat) : K (Z * list nat) :=
  match n with
  | O => mret (skipped, ran)
  | S n' =>
      p ← getp i;
      if decide (state p = RUNNABLE) then
        dispatch i ;;
        run_process ;;
        switchkvm ;;
        modw (λ w, w <| w_proc := None |>) ;;
        scheduler_scan n' (S i) 0 (ran ++ [i])
      else scheduler_scan n' (S i) (skipped + 1) ran
  end.

(** One iteration of [for(;;)]; [hlt] has no effect on the kernel's state. *)
Definition scheduler_iter (skipped : Z) : K (Z * list nat) :=
  modw (λ w, w <| w_cpu ::= sti |>) ;;
  acquire L_ptable ;;
  '(skipped', ran) ← scheduler_scan NPROC 0 skipped [];
  release L_ptable ;;
  if skipped' >? Z.of_nat NPROC then mret (0, ran) else mret (skipped', ran).

(** ** Facts *)

(** The CPU after [switchuvm(p)]. *)
Definition enter_uvm (p : proc) (c : cpu) : cpu :=
  (balanced c) <| tss_rsp0 := u64 (kstack p + KSTACKSIZE) |> <| cr3 := V2P (pgdir p) |>.

Lemma enter_uvm_id p c : cpu_id (enter_uvm p c) = cpu_id c.
Proof. unfold enter_uvm. rsimpl. apply balanced_id. Qed.
Lemma enter_uvm_IF p c : IF (enter_uvm p c) = IF c.
Proof. unfold enter_uvm. rsimpl. apply balanced_IF. Qed.
Lemma enter_uvm_ncli p c : ncli (enter_uvm p c) = ncli c.
Proof. unfold enter_uvm. rsimpl. apply balanced_ncli. Qed.

Lemma popcli_enter c t r :
  cpu_ok c →
  popcli_on ((pushcli_on c) <| tss_rsp0 := t |> <| cr3 := r |>) =
    inr ((balanced c) <| tss_rsp0 := t |> <| cr3 := r |>).
Proof.
  intros Hc. pose proof (popcli_pushcli_on c Hc) as H.
  revert H. unfold balanced, popcli_on. rsimpl. destruct (IF (pushcli_on c)); [done|].
  destruct (_ <? 0); [done|]. destruct (_ && _); intros [= <-]; by destruct (pushcli_on c); usetf.
Qed.

Lemma getp_eq i p w e : w_procs w !! i = Some p → getp i (KS w e) = Ok p (KS w e).
Proof. intros H. unfold getp. krun. by rewrite H. Qed.

Lemma switchuvm_eq i p w e :
  w_procs w !! i = Some p → pgdir p ≠ 0 → cpu_ok (w_cpu w) →
  switchuvm i (KS w e) = Ok tt (KS (w <| w_cpu ::= enter_uvm p |>) e).
Proof.
  intros Hp Hg Hc. unfold switchuvm, pushcli, getp, lcr3, popcli. krun. rewrite Hp. krun.
  rewrite (proj2 (Z.eqb_neq _ _) Hg). krun. rewrite popcli_enter by done. unfold enter_uvm. weq.
Qed.

(** The world once the scheduler has dispatched process [i], whose slot is [p]. *)
Definition dispatched (i : nat) (p : proc) (w : world) : world :=
  w <| w_proc := Some i |> <| w_cpu ::= enter_uvm p |>
    <| w_procs ::= alter (λ p, p <| state := RUNNING |>) i |>.

Lemma dispatch_eq i p w e :
  w_procs w !! i = Some p → pgdir p ≠ 0 → cpu_ok (w_cpu w) →
  dispatch i (KS w e) = Ok tt (KS (dispatched i p w) e).
Proof.
  intros Hp Hg Hc. unfold dispatch, modp. krun.
  rewrite (switchuvm_eq i p) by (rsimpl; done). unfold dispatched. weq.
Qed.

(** The state in which a scheduler holds the process table: [ptable.lock] held
    by this CPU, one level of interrupt disabling. *)
Definition in_sched (w : world) : Prop :=
  w_locks w L_ptable = taken (w_locks w L_ptable) (cpu_id (w_cpu w)) ∧
  ncli (w_cpu w) = 1 ∧ IF (w_cpu w) = false.

Lemma in_sched_cpu_ok w : in_sched w → cpu_ok (w_cpu w).
Proof. intros (_ & Hn & Hi). unfold cpu_ok. rewrite Hn. split; [lia|done]. Qed.

Lemma in_sched_holding w : in_sched w → holding_by (w_locks w L_ptable) (cpu_id (w_cpu w)) = true.
Proof. intros (H & _ & _). rewrite H. unfold holding_by. cbn. by rewrite bool_decide_true. Qed.

Lemma dispatched_in_sched i p w : in_sched w → in_sched (dispatched i p w).
Proof.
  intros (H1 & H2 & H3). unfold in_sched, dispatched. rsimpl.
  by rewrite enter_uvm_id, enter_uvm_ncli, enter_uvm_IF.
Qed.

(** What another thread's turn must do: come back with the process table
    locked by the CPU that resumes, and leave the table's size alone. *)
Definition turn_ok (f : world → world) : Prop :=
  ∀ w, in_sched w → in_sched (f w) ∧ length (w_procs (f w)) = length (w_procs w).

(** The outermost [popcli] gives back the saved interrupt flag, and the next
    [pushcli] saves it again. *)
Definition popped (c : cpu) : cpu := c <| ncli := 0 |> <| IF := intena c |>.

Lemma popcli_outermost c : ncli c = 1 → IF c = false → popcli_on c = inr (popped c).
Proof.
  intros Hn Hi. destruct c as [? n a f ??]; cbn in *; subst.
  unfold popcli_on, popped, sti. usetf. cbn. by destruct a.
Qed.

Lemma pushcli_popped c : ncli c = 1 → IF c = false → pushcli_on (popped c) = c.
Proof.
  intros Hn Hi. destruct c as [? n a f ??]; cbn in *; subst.
  unfold pushcli_on, popped, cli. usetf. by cbn.
Qed.

Lemma popped_ok c : cpu_ok (popped c).
Proof. unfold cpu_ok, popped. rsimpl. lia. Qed.

Lemma release_outermost lk w e l :
  w_locks w lk = taken l (cpu_id (w_cpu w)) → ncli (w_cpu w) = 1 → IF (w_cpu w) = false →
  release lk (KS w e) =
    Ok tt (KS (w <| w_cpu ::= popped |> <| w_locks ::= <[lk := freed l]> |>) e).
Proof.
  intros Hl Hn Hi. rewrite (release_taken lk w e l (popped (w_cpu w))).
  - weq. unfold balanced, popped. rsimpl. cbn [Z.eqb]. by destruct (w_cpu w); usetf.
  - apply popped_ok.
  - by rewrite pushcli_popped.
  - rewrite Hl. unfold popped. by rsimpl.
Qed.

(** What [sleep] has done when it switches away: the process is on the channel
    and off the CPU, [lk] is free and the process table is locked. *)
Definition asleep (c : chan) (lk : lockid) (i : nat) (w : world) : world :=
  w <| w_locks ::= λ f, <[lk := freed (f lk)]>
                          (<[L_ptable := taken (f L_ptable) (cpu_id (w_cpu w))]> f) |>
    <| w_procs ::= alter (λ p, p <| p_chan := Some c |> <| state := SLEEPING |>) i |>.

(** What [sleep] returns with, when the others leave [w1]. *)
Definition woken (lk : lockid) (i : nat) (p1 : proc) (ia : bool) (w1 : world) : world :=
  w1 <| w_proc := Some i |>
     <| w_cpu ::= λ c, (enter_uvm p1 c) <| intena := ia |> |>
     <| w_locks ::= λ f, <[lk := taken (f lk) (cpu_id (w_cpu w1))]>
                           (<[L_ptable := freed (f L_ptable)]> f) |>
     <| w_procs ::= alter (λ p, p <| state := RUNNING |> <| p_chan := None |>) i |>.

(** The caller of [sleep]: running process [i], holding only [lk]. *)
Record sleeper (lk : lockid) (i : nat) (p : proc) (w : world) : Prop := {
  sl_proc : w_proc w = Some i;
  sl_slot : w_procs w !! i = Some p;
  sl_ne : lk ≠ L_ptable;
  sl_held : w_locks w lk = taken (w_locks w lk) (cpu_id (w_cpu w));
  sl_ptable : lock_free w L_ptable;
  sl_ncli : ncli (w_cpu w) = 1;
  sl_IF : IF (w_cpu w) = false
}.

(** [sleep] trades [lk] for the process table. *)
Definition traded (lk : lockid) (w : world) : world :=
  w <| w_locks ::= λ f, <[lk := freed (f lk)]>
                          (<[L_ptable := taken (f L_ptable) (cpu_id (w_cpu w))]> f) |>.

Lemma sleep_trade lk i p w e :
  sleeper lk i p w →
  (acquire L_ptable ;; release lk) (KS w e) = Ok tt (KS (traded lk w) e).
Proof.
  intros [H1 H2 H3 H4 H5 H6 H7].
  assert (Hc : cpu_ok (w_cpu w)) by (split; [lia|done]).
  rewrite (bind_ok _ _ _ _ _ (acquire_free L_ptable w e (proj1 H5))).
  rewrite (release_taken lk _ _ (w_locks w lk) (w_cpu w)).
  - unfold traded, acquired. weq. unfold balanced. by rewrite H6.
  - done.
  - unfold acquired. by rsimpl.
  - unfold acquired. rsimpl. by rewrite fn_lookup_insert_ne.
Qed.

Lemma asleep_eq c lk i w :
  (traded lk w) <| w_procs ::= alter (λ p, p <| p_chan := Some c |>) i |>
                <| w_procs ::= alter (λ p, p <| state := SLEEPING |>) i |> = asleep c lk i w.
Proof. unfold asleep, traded. weq. apply alter_alter. Qed.

Lemma asleep_slot c lk i p w :
  w_procs w !! i = Some p →
  w_procs (asleep c lk i w) !! i = Some (p <| p_chan := Some c |> <| state := SLEEPING |>).
Proof. intros H. unfold asleep. rsimpl. by rewrite list_lookup_alter_eq, H. Qed.

Lemma asleep_in_sched c lk i p w : sleeper lk i p w → in_sched (asleep c lk i w).
Proof.
  intros [H1 H2 H3 H4 H5 H6 H7]. unfold in_sched, asleep. rsimpl.
  by rewrite fn_lookup_insert_ne, fn_lookup_insert by done.
Qed.

Lemma resume_eq i f e w p1 :
  in_sched (f w) → w_procs (f w) !! i = Some p1 → state p1 = RUNNABLE → pgdir p1 ≠ 0 →
  swtch_scheduler i (KS w (f :: e)) = Ok tt (KS (dispatched i p1 (f w)) e).
Proof.
  intros Hs1 Hp1 Hst1 Hg1. unfold swtch_scheduler. cbn [resume ks_env].
  rewrite (bind_ok (take_step f e) _ _ tt (KS (f w) e)) by done.
  kcall (getp_eq i p1 (f w) e Hp1). rewrite decide_True by done.
  apply dispatch_eq; try done. by apply in_sched_cpu_ok.
Qed.

Lemma sched_resumes i p w f e p1 :
  in_sched w → w_proc w = Some i → w_procs w !! i = Some p → state p ≠ RUNNING →
  in_sched (f w) → w_procs (f w) !! i = Some p1 → state p1 = RUNNABLE → pgdir p1 ≠ 0 →
  sched (KS w (f :: e)) =
    Ok tt (KS ((dispatched i p1 (f w)) <| w_cpu ::= λ c, c <| intena := intena (w_cpu w) |> |>) e).
Proof.
  intros Hs Hpr Hp Hst Hs1 Hp1 Hst1 Hg1. unfold sched, holding, myproc. kstep.
  rewrite in_sched_holding by done. destruct Hs as (_ & Hn & Hi). cbn [negb]. kstep.
  rewrite Hn. cbn [Z.eqb Pos.eqb negb]. kstep. rewrite Hpr. cbn [munwrap]. kstep.
  kcall (getp_eq i p w (f :: e) Hp).
  rewrite decide_False by done. kstep. rewrite Hi. kstep.
  by rewrite (bind_ok _ _ _ _ _ (resume_eq i f e w p1 Hs1 Hp1 Hst1 Hg1)).
Qed.

Lemma sleep_resumes c lk i p w f e p1 :
  sleeper lk i p w →
  let w1 := f (asleep c lk i w) in
  in_sched w1 → w_procs w1 !! i = Some p1 → state p1 = RUNNABLE → pgdir p1 ≠ 0 →
  lock_free w1 lk →
  sleep c (Some lk) (KS w (f :: e)) = Ok tt (KS (woken lk i p1 (intena (w_cpu w)) w1) e).
Proof.
  intros Hsl w1 Hs1 Hp1 Hst1 Hg1 [Hf1 Hf2]. pose proof Hsl as [H1 H2 H3 H4 H5 H6 H7].
  unfold sleep, modp, myproc. kstep. rewrite H1, !decide_False by done.
  kcall (sleep_trade lk i p w (f :: e) Hsl). kstep. rewrite asleep_eq.
  kcall (sched_resumes i _ _ f e p1 (asleep_in_sched c _ _ _ _ Hsl) H1
           (asleep_slot c lk i p w H2) ltac:(by rsimpl) Hs1 Hp1 Hst1 Hg1).
  fold w1. kstep. unfold dispatched at 1. rsimpl. cbn [munwrap]. kstep.
  replace (intena (w_cpu (asleep c lk i w))) with (intena (w_cpu w)) by (unfold asleep; by rsimpl).
  pose proof (dispatched_in_sched i p1 w1 Hs1) as (Hd1 & Hd2 & Hd3).
  erewrite bind_ok; last first.
  { apply (release_outermost _ _ _ (w_locks w1 L_ptable)); by rsimpl. }
  rewrite acquire_free; last first.
  { rsimpl. rewrite fn_lookup_insert_ne by done. unfold dispatched. by rsimpl. }
  revert Hd2 Hd3. unfold acquired, woken, dispatched. intros Hd2 Hd3. rsimpl_in_all. weq.
  - by rewrite pushcli_popped by (rsimpl; done).
  - rewrite fn_lookup_insert_ne by done. unfold popped. rsimpl.
    by rewrite enter_uvm_id.
  - by rewrite alter_alter.
Qed.

(** ** Sleeping and waking *)

Lemma wakeup_eq c w e :
  cpu_ok (w_cpu w) → lock_free w L_ptable →
  wakeup c (KS w e) =
    Ok tt (KS (w <| w_cpu ::= balanced |> <| w_procs ::= fmap (wake_one c) |>) e).
Proof.
  intros Hc Hl. unfold wakeup, wakeup1. kcall (acquire_free L_ptable w e (proj1 Hl)). kstep.
  rewrite (release_within L_ptable w) by (done || by rsimpl). unfold acquired. weq.
Qed.

(** Another thread's turn as the kernel code it runs. *)
Definition as_turn (m : K unit) (w : world) : world :=
  match m (KS w []) with
  | Ok _ s | Stop _ s => ks_w s
  end.

(** A waker: the scheduler lets go of the process table, the thread takes the
    lock, changes the memory the condition lives in, wakes the channel, lets go
    of the lock, and its own later switch takes the process table again. *)
Definition waker (c : chan) (lk : lockid) (h : gmap Z Z → gmap Z Z) : K unit :=
  release L_ptable ;;
  acquire lk ;;
  modw (λ w, w <| w_mem ::= h |>) ;;
  wakeup c ;;
  release lk ;;
  acquire L_ptable.

Lemma balanced_nested c : ncli c = 1 → balanced c = c.
Proof. intros H. unfold balanced. by rewrite H. Qed.

Lemma waker_turn c lk h w :
  in_sched w → lk ≠ L_ptable → lock_free w lk →
  as_turn (waker c lk h) w =
    w <| w_mem ::= h |> <| w_procs ::= fmap (wake_one c) |>.
Proof.
  intros (Hl & Hn & Hi) Hne [Hf1 Hf2]. unfold as_turn, waker.
  kcall (release_outermost L_ptable w [] (w_locks w L_ptable) Hl Hn Hi).
  erewrite bind_ok; last first.
  { apply acquire_free. rsimpl. by rewrite fn_lookup_insert_ne. }
  kstep. erewrite bind_ok; last first.
  { apply wakeup_eq.
    - unfold acquired. rsimpl. rewrite pushcli_popped by done. split; [lia|done].
    - unfold acquired, lock_free. rsimpl.
      by rewrite fn_lookup_insert_ne, fn_lookup_insert by done. }
  erewrite bind_ok; last first.
  { apply (release_outermost _ _ _ (w_locks w lk)); unfold acquired; rsimpl;
      rewrite pushcli_popped, balanced_nested by done; try done.
    rewrite fn_lookup_insert. unfold popped. rsimpl. by rewrite fn_lookup_insert_ne. }
  rewrite acquire_free; last first.
  { unfold acquired. rsimpl. by rewrite !fn_lookup_insert_ne, fn_lookup_insert by done. }
  cbn [ks_w]. unfold acquired. weq.
  - by rewrite !pushcli_popped, balanced_nested.
  - apply fn_ext; intros x. rewrite !fn_lookup_insert_case.
    repeat case_decide; subst; try done. by apply freed_free.
Qed.

(** What [sleep] returns with when the turn that wakes it leaves [w1]: the CPU
    with the process's address space, the locks as they were, and every sleeper
    on the channel woken. *)
Definition in_uvm (p : proc) (c : cpu) : cpu :=
  c <| tss_rsp0 := u64 (kstack p + KSTACKSIZE) |> <| cr3 := V2P (pgdir p) |>.

Definition slept (c : chan) (i : nat) (p : proc) (w w1 : world) : world :=
  w1 <| w_proc := Some i |> <| w_cpu := in_uvm p (w_cpu w) |> <| w_locks := w_locks w |>
     <| w_procs := alter (λ p, p <| state := RUNNING |> <| p_chan := None |>) i
                     (wake_one c <$> w_procs w) |>.

Lemma slept_slot c i p w w1 :
  w_procs w !! i = Some p →
  w_procs (slept c i p w w1) !! i = Some (p <| state := RUNNING |> <| p_chan := None |>).
Proof.
  intros Hp. unfold slept. rsimpl. rewrite list_lookup_alter_eq, list_lookup_fmap, Hp. cbn.
  f_equal. unfold wake_one. destruct (_ && _); apply proc_eq; by rsimpl.
Qed.

Lemma sleep_turn c lk i p w f e :
  sleeper lk i p w → pgdir p ≠ 0 →
  let w0 := asleep c lk i w in
  w_cpu (f w0) = w_cpu w → w_locks (f w0) = w_locks w0 →
  w_procs (f w0) = wake_one c <$> w_procs w0 →
  sleep c (Some lk) (KS w (f :: e)) = Ok tt (KS (slept c i p w (f w0)) e).
Proof.
  intros Hsl Hg w0 Hcpu Hlocks Hprocs. pose proof Hsl as [H1 H2 H3 H4 H5 H6 H7].
  pose proof (asleep_slot c lk i p w H2) as Hslot. fold w0 in Hslot.
  assert (Hc0 : w_cpu w0 = w_cpu w) by (unfold w0, asleep; by rsimpl).
  set (q := p <| p_chan := Some c |> <| state := SLEEPING |>) in *.
  assert (Hwake : wake_one c q = q <| state := RUNNABLE |>).
  { unfold wake_one, q. rsimpl. by rewrite !bool_decide_true. }
  rewrite (sleep_resumes c lk i p w f e (q <| state := RUNNABLE |>) Hsl); fold w0.
  - unfold woken, slept. weq.
    + rewrite Hcpu. unfold enter_uvm, in_uvm, q. rsimpl. rewrite balanced_nested by done.
      by destruct (w_cpu w); usetf.
    + rewrite Hlocks, Hcpu. unfold w0, asleep. rsimpl. apply fn_ext; intros x.
      rewrite !fn_lookup_insert_case. repeat case_decide; subst; try done.
      by rewrite (freed_taken w) by done.
    + rewrite Hprocs. unfold w0, asleep. rsimpl. apply list_eq; intros j.
      destruct (decide (j = i)) as [->|].
      * rewrite !list_lookup_alter_eq, !list_lookup_fmap, list_lookup_alter_eq, H2. cbn.
        fold q. rewrite Hwake. unfold q, wake_one. rsimpl. f_equal.
        destruct (_ && _); apply proc_eq; by rsimpl.
      * by rewrite !list_lookup_alter_ne, !list_lookup_fmap, list_lookup_alter_ne by done.
  - pose proof (asleep_in_sched c lk i p w Hsl) as (Ha & Hb & Hc). fold w0 in Ha, Hb, Hc.
    unfold in_sched. by rewrite Hlocks, Hcpu, <- Hc0.
  - by rewrite Hprocs, list_lookup_fmap, Hslot, <- Hwake.
  - by rsimpl.
  - unfold q. by rsimpl.
  - unfold lock_free. rewrite Hlocks. unfold w0, asleep. rsimpl. by rewrite fn_lookup_insert.
Qed.

Lemma resume_waits i w e :
  Forall (λ f, ∀ w, ∃ p, w_procs (f w) !! i = Some p ∧ state p ≠ RUNNABLE) e →
  ∃ w', resume i e (KS w e) = Stop Waiting (KS w' []).
Proof.
  intros He. revert w. induction He as [|f e Hf _ IH]; intros w; cbn [resume].
  { eexists. reflexivity. }
  destruct (Hf w) as (p & Hp & Hst).
  rewrite (bind_ok (take_step f e) _ _ tt (KS (f w) e)) by done.
  kcall (getp_eq i p (f w) e Hp). rewrite decide_False by done. apply IH.
Qed.

Lemma sched_waits i p w e :
  in_sched w → w_proc w = Some i → w_procs w !! i = Some p → state p ≠ RUNNING →
  Forall (λ f, ∀ w, ∃ p, w_procs (f w) !! i = Some p ∧ state p ≠ RUNNABLE) e →
  ∃ w', sched (KS w e) = Stop Waiting (KS w' []).
Proof.
  intros Hs Hpr Hp Hst He. unfold sched, holding, myproc. kstep.
  rewrite in_sched_holding by done. destruct Hs as (_ & Hn & Hi). cbn [negb]. kstep.
  rewrite Hn. cbn [Z.eqb Pos.eqb negb]. kstep. rewrite Hpr. cbn [munwrap]. kstep.
  kcall (getp_eq i p w e Hp). rewrite decide_False by done. kstep. rewrite Hi. kstep.
  destruct (resume_waits i w e He) as (w' & Hw). exists w'. by apply bind_stop.
Qed.


(** A running process 1 that holds the lock [tickslock] and nothing else. *)
Definition demo_proc : proc :=
  zero_proc <| state := RUNNING |> <| pid := 1 |> <| pgdir := 4096 |>.
Definition demo_running : world :=
  (bss 0 []) <| w_proc := Some 1%nat |>
    <| w_procs ::= <[1%nat := demo_proc]> |>
    <| w_cpu := mk_cpu 0 1 true false 0 0 |>
    <| w_locks ::= <[L_tickslock := mk_spinlock 1 EmptyString (Some 0%nat)]> |>.

Lemma demo_sleeper : sleeper L_tickslock 1 demo_proc demo_running.
Proof. by repeat split. Qed.


(** ** The scheduler is fair *)

(** Every RUNNABLE process has a page table. *)
Definition runnable_mapped (w : world) : Prop :=
  ∀ j p, w_procs w !! j = Some p → state p = RUNNABLE → pgdir p ≠ 0.

(** What a process does with its turn on the CPU: it comes back through [sched],
    and it does not stop another process that is ready to run (only a scheduler
    moves a process out of RUNNABLE). *)
Record polite (f : world → world) : Prop := {
  po_sched w : in_sched w → in_sched (f w);
  po_size w : length (w_procs (f w)) = length (w_procs w);
  po_mapped w : runnable_mapped w → runnable_mapped (f w);
  po_others w i j p :
    w_proc w = Some i → j ≠ i → w_procs w !! j = Some p → state p = RUNNABLE →
    ∃ p', w_procs (f w) !! j = Some p' ∧ state p' = RUNNABLE
}.

(** The world after the turn [f] of process [i], back in the scheduler's loop. *)
Definition after_turn (i : nat) (p : proc) (f : world → world) (w : world) : world :=
  (f (dispatched i p w)) <| w_cpu ::= λ c, c <| cr3 := V2P (w_kpml4 (f (dispatched i p w))) |> |>
                         <| w_proc := None |>.

Lemma after_turn_in_sched i p f w : polite f → in_sched w → in_sched (after_turn i p f w).
Proof.
  intros Hf Hs. pose proof (po_sched f Hf _ (dispatched_in_sched i p w Hs)) as (H1 & H2 & H3).
  unfold in_sched, after_turn. by rsimpl.
Qed.

Lemma after_turn_size i p f w :
  polite f → length (w_procs (after_turn i p f w)) = length (w_procs w).
Proof.
  intros Hf. unfold after_turn. rsimpl. rewrite (po_size f Hf). unfold dispatched. rsimpl.
  apply length_alter.
Qed.

Lemma after_turn_mapped i p f w :
  polite f → runnable_mapped w → runnable_mapped (after_turn i p f w).
Proof.
  intros Hf Hm j q. unfold after_turn. rsimpl. apply (po_mapped f Hf).
  intros j' q'. unfold dispatched. rsimpl. destruct (decide (j' = i)) as [->|].
  - rewrite list_lookup_alter_eq. destruct (w_procs w !! i); cbn; [|done].
    intros [= <-]. by rsimpl.
  - rewrite list_lookup_alter_ne by done. apply Hm.
Qed.

Lemma after_turn_others i p f w j q :
  polite f → j ≠ i → w_procs w !! j = Some q → state q = RUNNABLE →
  ∃ q', w_procs (after_turn i p f w) !! j = Some q' ∧ state q' = RUNNABLE.
Proof.
  intros Hf Hne Hj Hst. unfold after_turn. rsimpl.
  apply (po_others f Hf _ i j q); try done; unfold dispatched; rsimpl.
  by rewrite list_lookup_alter_ne.
Qed.

Lemma scan_turn n i p f w e sk ran :
  in_sched w → w_procs w !! i = Some p → state p = RUNNABLE → pgdir p ≠ 0 →
  scheduler_scan (S n) i sk ran (KS w (f :: e)) =
    scheduler_scan n (S i) 0 (ran ++ [i]) (KS (after_turn i p f w) e).
Proof.
  intros Hs Hp Hst Hg. cbn [scheduler_scan]. kcall (getp_eq i p w (f :: e) Hp).
  rewrite decide_True by done.
  kcall (dispatch_eq i p w (f :: e) Hp Hg (in_sched_cpu_ok w Hs)).
  rewrite (bind_ok run_process _ _ tt (KS (f (dispatched i p w)) e)) by done.
  unfold switchkvm, lcr3. kstep. done.
Qed.

Lemma scan_skip n i p w e sk ran :
  w_procs w !! i = Some p → state p ≠ RUNNABLE →
  scheduler_scan (S n) i sk ran (KS w e) = scheduler_scan n (S i) (sk + 1) ran (KS w e).
Proof.
  intros Hp Hst. cbn [scheduler_scan]. kcall (getp_eq i p w e Hp).
  by rewrite decide_False by done.
Qed.

Lemma scan_fair n i w e sk ran :
  in_sched w → length (w_procs w) = (i + n)%nat → (n ≤ length e)%nat →
  Forall polite e → runnable_mapped w →
  ∃ sk' new w' e',
    scheduler_scan n i sk ran (KS w e) = Ok (sk', ran ++ new) (KS w' e') ∧
    in_sched w' ∧ Sorted.StronglySorted Nat.lt new ∧ Forall (λ j, i ≤ j)%nat new ∧
    (∀ j p, (i ≤ j)%nat → w_procs w !! j = Some p → state p = RUNNABLE → j ∈ new).
Proof.
  revert i w e sk ran; induction n as [|n IH]; intros i w e sk ran Hs Hlen He Hpol Hm.
  { exists sk, [], w, e. rewrite app_nil_r. split_and!; try done; try constructor.
    intros j p Hj Hp%lookup_lt_Some. lia. }
  destruct (lookup_lt_is_Some_2 (w_procs w) i) as [p Hp]; [lia|].
  destruct (decide (state p = RUNNABLE)) as [Hst|Hst].
  - destruct e as [|f e]; [cbn in He; lia|].
    inversion Hpol as [|?? Hf Hpol']; subst.
    edestruct (IH (S i) (after_turn i p f w) e 0 (ran ++ [i])) as
      (sk' & new & w' & e' & Hrun & Hs' & Hsort & Hge & Hall).
    { by apply after_turn_in_sched. }
    { rewrite after_turn_size by done. lia. }
    { cbn in He. lia. }
    { done. }
    { by apply after_turn_mapped. }
    exists sk', (i :: new), w', e'.
    rewrite (scan_turn _ _ p) by (done || by eapply Hm).
    rewrite Hrun, <- (assoc_L (++)). split_and!; try done.
    + constructor; [done|]. eapply Forall_impl; [exact Hge|]. cbn; lia.
    + constructor; [done|]. eapply Forall_impl; [exact Hge|]. cbn; lia.
    + intros j q Hj Hq Hsq. destruct (decide (j = i)) as [->|]; [left|right].
      destruct (after_turn_others i p f w j q) as (q' & Hq' & Hsq'); [done..|].
      eapply Hall; [lia|done|done].
  - edestruct (IH (S i) w e (sk + 1) ran) as
      (sk' & new & w' & e' & Hrun & Hs' & Hsort & Hge & Hall); [done|lia|lia|done|done|].
    exists sk', new, w', e'. rewrite (scan_skip _ _ p) by done. split_and!; try done.
    + eapply Forall_impl; [exact Hge|]. cbn; lia.
    + intros j q Hj Hq Hsq. destruct (decide (j = i)) as [->|]; [congruence|].
      eapply Hall; [lia|done|done].
Qed.


(** A process that goes to sleep on its turn. *)
Definition demo_turn (w : world) : world :=
  match w_proc w with
  | Some i => w <| w_procs ::= alter (λ p, p <| state := SLEEPING |>) i |>
  | None => w
  end.

Lemma demo_turn_polite : polite demo_turn.
Proof.
  split; intros w; unfold demo_turn; destruct (w_proc w) as [k|] eqn:Hk; try done.
  - rsimpl. by rewrite length_alter.
  - intros Hm j p. rsimpl. destruct (decide (j = k)) as [->|].
    + rewrite list_lookup_alter_eq. destruct (_ !! _); [|done]. intros [= <-]. by rsimpl.
    + rewrite list_lookup_alter_ne by done. apply Hm.
  - intros i j p [= <-] Hne Hj Hst. rsimpl. exists p. by rewrite list_lookup_alter_ne by done.
Qed.

(** Two processes are ready to run, in slots 1 and 5. *)
Definition demo_ready : world :=
  (bss 0 []) <| w_procs ::= <[1%nat := demo_proc <| state := RUNNABLE |>]> |>
             <| w_procs ::= <[5%nat := demo_proc <| state := RUNNABLE |>]> |>.


(** ** Killing *)

(** What [kill] does to the process it finds: mark it, and wake it if it
    sleeps. *)
Definition mark_killed (p : proc) : proc :=
  if decide (state p = SLEEPING) then p <| killed := 1 |> <| state := RUNNABLE |>
  else p <| killed := 1 |>.

Lemma kill_finds n i p w e :
  cpu_ok (w_cpu w) → lock_free w L_ptable →
  list_find (λ p, pid p = n) (w_procs w) = Some (i, p) →
  kill n (KS w e) =
    Ok 0 (KS (w <| w_cpu ::= balanced |> <| w_procs ::= alter mark_killed i |>) e).
Proof.
  intros Hc Hl Hf. unfold kill, modp. kcall (acquire_free L_ptable w e (proj1 Hl)). kstep.
  replace (w_procs (acquired L_ptable w)) with (w_procs w) by (unfold acquired; by rsimpl).
  rewrite Hf. pose proof (proj1 (list_find_Some _ _ _ _) Hf) as (Hp & _).
  destruct (decide (state p = SLEEPING)) as [Hs|Hs]; kstep;
    (erewrite bind_ok; [|apply (release_within L_ptable w); done || by rsimpl]);
    unfold mret, M_ret, acquired; weq; rewrite ?alter_alter;
    apply list_alter_ext; try done; intros q Hq; replace q with p by congruence;
    unfold mark_killed; case_decide; by rewrite ?Hs.
Qed.

Lemma kill_misses n w e :
  cpu_ok (w_cpu w) → lock_free w L_ptable →
  list_find (λ p, pid p = n) (w_procs w) = None →
  kill n (KS w e) = Ok (-1) (KS (w <| w_cpu ::= balanced |>) e).
Proof.
  intros Hc Hl Hf. unfold kill. kcall (acquire_free L_ptable w e (proj1 Hl)). kstep.
  replace (w_procs (acquired L_ptable w)) with (w_procs w) by (unfold acquired; by rsimpl).
  rewrite Hf. kcall (release_within L_ptable w (acquired L_ptable w) e Hc Hl eq_refl eq_refl).
  unfold mret, M_ret, acquired. weq.
Qed.
