(* ===== verification/Sleeplock.v ===== *)
(** * sleeplock.c: locks that are held across sleeps

    The four operations, what they do when the lock is free, and how a waiting
    [acquiresleep] gets the lock when its holder calls [releasesleep]. *)

From S2P Require Import Prelude Kernel Spinlock Sched.

Definition modslk (s : slid) (f : sleeplock → sleeplock) : K unit :=
  modw (λ w, w <| w_slocks ::= λ g, <[s := f (g s)]> g |>).

Definition initsleeplock (s : slid) (name : string) : K unit :=
  initlock (L_slk s) "sleep lock" ;;
  modslk s (λ l, l <| sl_name := name |>) ;;
  modslk s (λ l, l <| slocked := 0 |>) ;;
  modslk s (λ l, l <| sl_pid := 0 |>).

Definition acquiresleep (s : slid) : K unit :=
  acquire (L_slk s) ;;
  foreverK (
    l ← getw (λ w, slocked (w_slocks w s));
    if l =? 0 then mret (Some tt)
    else sleep (C_slk s) (Some (L_slk s)) ;; mret None) ;;
  modslk s (λ l, l <| slocked := 1 |>) ;;
  i ← myproc;
  p ← getp i;
  modslk s (λ l, l <| sl_pid := pid p |>) ;;
  release (L_slk s).

Definition releasesleep (s : slid) : K unit :=
  acquire (L_slk s) ;;
  modslk s (λ l, l <| slocked := 0 |>) ;;
  modslk s (λ l, l <| sl_pid := 0 |>) ;;
  wakeup (C_slk s) ;;
  release (L_slk s).

Definition holdingsleep (s : slid) : K bool :=
  acquire (L_slk s) ;;
  r ← getw (λ w, negb (slocked (w_slocks w s) =? 0));
  release (L_slk s) ;;
  mret r.

(** ** What the operations do *)

(** A thread between critical sections: nothing disabled, no lock pending. *)
Definition at_ease (w : world) : Prop := calm w ∧ ncli (w_cpu w) = 0.

Definition held_by (l : sleeplock) (n : Z) : sleeplock := mk_sleeplock 1 (sl_name l) n.
Definition let_go (l : sleeplock) : sleeplock := mk_sleeplock 0 (sl_name l) 0.

Definition slock_set (s : slid) (l : sleeplock) (w : world) : world :=
  w <| w_slocks ::= <[s := l]> |>.

Lemma holdingsleep_eq s w e :
  calm w → lock_free w (L_slk s) →
  holdingsleep s (KS w e) = Ok (negb (slocked (w_slocks w s) =? 0)) (KS w e).
Proof.
  intros Hc Hl. unfold holdingsleep. kcall (acquire_free (L_slk s) w e (proj1 Hl)). kstep.
  kcall (release_calm (L_slk s) w (acquired (L_slk s) w) e Hc Hl eq_refl eq_refl).
  unfold mret, M_ret. unfold acquired. rsimpl. weq.
Qed.

(** The processes a wakeup on [c] leaves. *)
Definition wake_all (c : chan) (w : world) : world := w <| w_procs ::= fmap (wake_one c) |>.

(** The end of a critical section on [lk], entered in [w], that wakes [c]. *)
Lemma wake_release lk c w w1 e :
  at_ease w → lock_free w lk → lock_free w L_ptable → lk ≠ L_ptable →
  w_cpu w1 = w_cpu (acquired lk w) → w_locks w1 = w_locks (acquired lk w) →
  (wakeup c ;; release lk) (KS w1 e) =
    Ok tt (KS (wake_all c (w1 <| w_cpu := w_cpu w |> <| w_locks := w_locks w |>)) e).
Proof.
  intros [Hc Hn] Hl Hp Hne H1 H2.
  destruct (calm_acquired lk w (proj1 Hc) ltac:(lia)) as [Hc1 Hb1].
  erewrite bind_ok; [|apply wakeup_eq]; last first.
  { unfold lock_free. rewrite H2. apply (lock_free_acquired L_ptable); done. }
  { by rewrite H1. }
  rewrite (release_calm lk w); [|done|done|rsimpl; by rewrite H1, Hb1|by rsimpl].
  unfold wake_all. weq.
Qed.

Lemma releasesleep_eq s w e :
  at_ease w → lock_free w (L_slk s) → lock_free w L_ptable →
  releasesleep s (KS w e) =
    Ok tt (KS (wake_all (C_slk s) (slock_set s (let_go (w_slocks w s)) w)) e).
Proof.
  intros Ha Hl Hp. unfold releasesleep, modslk, wake_all, slock_set.
  kcall (acquire_free (L_slk s) w e (proj1 Hl)). kstep.
  rewrite (wake_release (L_slk s) (C_slk s) w) by (done || by rsimpl).
  unfold wake_all, acquired. weq. rewrite !fn_lookup_insert, !fn_insert_insert.
  unfold let_go. by f_equal.
Qed.

Lemma acquiresleep_free s i p w e :
  calm w → lock_free w (L_slk s) → slocked (w_slocks w s) = 0 →
  w_proc w = Some i → w_procs w !! i = Some p →
  acquiresleep s (KS w e) =
    Ok tt (KS (slock_set s (held_by (w_slocks w s) (pid p)) w) e).
Proof.
  intros Hc Hl H0 Hi Hp. unfold acquiresleep, modslk, slock_set, myproc.
  kcall (acquire_free (L_slk s) w e (proj1 Hl)).
  erewrite bind_ok; last first.
  { unfold foreverK. cbn [loopM ks_env]. kstep.
    replace (slocked _) with 0 by (unfold acquired; by rsimpl). kstep. done. }
  kstep. unfold acquired at 1. rsimpl. rewrite Hi. cbn [munwrap]. kstep.
  erewrite bind_ok; [|apply (getp_eq i p); unfold acquired; by rsimpl]. kstep.
  rewrite (release_calm (L_slk s) w); try done; rsimpl; try done.
  unfold acquired. weq. rewrite !fn_lookup_insert, !fn_insert_insert.
  unfold held_by. by f_equal.
Qed.

(** ** Waiting for the holder *)

(** The holder's turn: it runs, calls [releasesleep], and switches away. *)
Definition releaser (s : slid) : K unit :=
  release L_ptable ;; releasesleep s ;; acquire L_ptable.

Lemma popped_calm w : in_sched w → calm (w <| w_cpu ::= popped |>).
Proof.
  intros (_ & Hn & Hi). unfold calm. rsimpl. split; [apply popped_ok|].
  unfold balanced, popped. rsimpl. cbn [Z.eqb]. by destruct (w_cpu w); usetf.
Qed.

Lemma releaser_turn s w :
  in_sched w → lock_free w (L_slk s) →
  as_turn (releaser s) w = wake_all (C_slk s) (slock_set s (let_go (w_slocks w s)) w).
Proof.
  intros Hs Hl. pose proof (popped_calm w Hs) as [Hc1 Hc2].
  destruct Hs as (Hp & Hn & Hi). unfold as_turn, releaser.
  kcall (release_outermost L_ptable w [] (w_locks w L_ptable) Hp Hn Hi).
  erewrite bind_ok; [|apply releasesleep_eq]; last first.
  { unfold lock_free. rsimpl. by rewrite fn_lookup_insert. }
  { unfold lock_free. rsimpl. by rewrite fn_lookup_insert_ne. }
  { unfold at_ease, calm. rsimpl_in_all. split; [done|]. unfold popped. by rsimpl. }
  rewrite acquire_free; last first.
  { unfold wake_all, slock_set. rsimpl. by rewrite fn_lookup_insert. }
  cbn [ks_w]. unfold acquired, wake_all, slock_set. weq.
  - by rewrite pushcli_popped.
  - rewrite fn_insert_insert, fn_lookup_insert. apply fn_insert_id.
    rewrite Hp at 2. unfold popped. by rsimpl.
Qed.


(** Process 1 runs while process 7 holds the lock of inode 0. *)
Definition demo_wait : world :=
  (bss 0 []) <| w_proc := Some 1%nat |> <| w_procs ::= <[1%nat := demo_proc]> |>
    <| w_slocks ::= <[SL_inode 0 := mk_sleeplock 1 "inode" 7]> |>.

