(* ===== verification/Bytes.v ===== *)
(** * Structures laid over arrays of bytes

    The kernel reads and writes the fields of on-disk structures through
    pointers into a buffer's data.  [get n off d] reads the [n]-byte
    little-endian field at offset [off] of the bytes [d]; [put n off v d]
    writes it; [splice off s d] overwrites [d] with the bytes [s] from [off]
    on. *)

From S2P Require Import Prelude.

Definition slice (off n : nat) (d : list Z) : list Z := take n (drop off d).
Definition splice (off : nat) (s d : list Z) : list Z :=
  take off d ++ s ++ drop (off + length s) d.

Definition get (n off : nat) (d : list Z) : Z := le_val (slice off n d).
Definition put (n off : nat) (v : Z) (d : list Z) : list Z := splice off (le_bytes n v) d.

Lemma length_splice off s d :
  (off + length s ≤ length d)%nat → length (splice off s d) = length d.
Proof. intros H. unfold splice. rewrite !length_app, length_take, length_drop. lia. Qed.

Lemma splice_bytes off s d :
  Forall is_byte s → Forall is_byte d → Forall is_byte (splice off s d).
Proof.
  intros Hs Hd. unfold splice.
  repeat apply Forall_app_2; [by apply Forall_take|done|by apply Forall_drop].
Qed.

Lemma lookup_splice off s d k :
  (off + length s ≤ length d)%nat →
  splice off s d !! k =
    if decide (off ≤ k < off + length s)%nat then s !! (k - off)%nat else d !! k.
Proof.
  intros Hd. unfold splice. case_decide as Hk.
  - rewrite lookup_app_r by (rewrite length_take; lia). rewrite length_take, Nat.min_l by lia.
    by rewrite lookup_app_l by lia.
  - destruct (decide (k < off)%nat).
    + rewrite lookup_app_l by (rewrite length_take; lia). by rewrite lookup_take_lt by lia.
    + rewrite lookup_app_r by (rewrite length_take; lia). rewrite length_take, Nat.min_l by lia.
      rewrite lookup_app_r by lia. rewrite lookup_drop. f_equal. lia.
Qed.

Lemma lookup_slice off n d k :
  slice off n d !! k = if decide (k < n)%nat then d !! (off + k)%nat else None.
Proof.
  unfold slice. case_decide.
  - by rewrite lookup_take_lt, lookup_drop by done.
  - rewrite lookup_take_ge by lia. done.
Qed.

Lemma length_slice off n d : (off + n ≤ length d)%nat → length (slice off n d) = n.
Proof. intros H. unfold slice. rewrite length_take, length_drop. lia. Qed.

Lemma slice_bytes off n d : Forall is_byte d → Forall is_byte (slice off n d).
Proof. intros H. by apply Forall_take, Forall_drop. Qed.

(** Reading back what was written there, and reading elsewhere. *)
Lemma slice_splice off s d :
  (off + length s ≤ length d)%nat → slice off (length s) (splice off s d) = s.
Proof.
  intros Hd. apply list_eq; intros k. rewrite lookup_slice.
  destruct (decide (k < length s)%nat) as [Hk|Hk].
  - rewrite lookup_splice by done. rewrite decide_True by lia. f_equal. lia.
  - symmetry. apply lookup_ge_None. lia.
Qed.

Lemma slice_splice_ne off s d off' n :
  (off + length s ≤ length d)%nat → (off' + n ≤ off ∨ off + length s ≤ off')%nat →
  slice off' n (splice off s d) = slice off' n d.
Proof.
  intros Hd Ho. apply list_eq; intros k. rewrite !lookup_slice.
  destruct (decide (k < n)%nat) as [Hk|Hk]; [|done].
  rewrite lookup_splice by done. rewrite decide_False by lia. done.
Qed.

Lemma get_put n off v d :
  (off + n ≤ length d)%nat → get n off (put n off v d) = v mod 256 ^ Z.of_nat n.
Proof.
  intros Hd. unfold get, put. rewrite <- (length_le_bytes n v) at 1.
  rewrite slice_splice by (by rewrite length_le_bytes). apply le_val_bytes.
Qed.

Lemma get_put_ne n off v d n' off' :
  (off + n ≤ length d)%nat → (off' + n' ≤ off ∨ off + n ≤ off')%nat →
  get n' off' (put n off v d) = get n' off' d.
Proof.
  intros Hd Ho. unfold get, put. by rewrite slice_splice_ne by (rewrite length_le_bytes; lia).
Qed.

Lemma length_put n off v d : (off + n ≤ length d)%nat → length (put n off v d) = length d.
Proof. intros H. apply length_splice. by rewrite length_le_bytes. Qed.

Lemma put_bytes n off v d : Forall is_byte d → Forall is_byte (put n off v d).
Proof. intros H. apply splice_bytes; [apply le_bytes_range|done]. Qed.

Lemma get_range n off d :
  Forall is_byte d → (off + n ≤ length d)%nat → 0 ≤ get n off d < 256 ^ Z.of_nat n.
Proof.
  intros Hd Ho. unfold get. rewrite <- (length_slice off n d Ho) at 3.
  apply le_val_range. by apply slice_bytes.
Qed.
