(* ===== verification/Disk.v ===== *)
(** * The disk driver's interface

    The buffer cache calls one function of the driver, [iderw(b)], which
    brings buffer [b] and the disk into agreement.  [DiskDriver] is that
    function, and [DiskLaws] what the cache and the log rely on; memide.c is an
    instance (file Memide).  A write of one block reaches the disk as a whole
    or not at all. *)

From S2P Require Import Prelude Kernel Spinlock Sched Sleeplock.

Definition getb (b : nat) : K buf :=
  r ← getw (λ w, w_bufs w !! b); munwrap "bcache.buf" r.
Definition modb (b : nat) (f : buf → buf) : K unit :=
  modw (λ w, w <| w_bufs ::= alter f b |>).

Lemma getb_eq b bf w e : w_bufs w !! b = Some bf → getb b (KS w e) = Ok bf (KS w e).
Proof. intros H. unfold getb. kstep. by rewrite H. Qed.

(** ** The flags of a buffer *)

Definition has (flag flags : Z) : bool := negb (Z.land flags flag =? 0).
Definition add_flag (flag flags : Z) : Z := Z.lor flags flag.
Definition del_flag (flag flags : Z) : Z := Z.ldiff flags flag.

(** The three states of a buffer's flags. *)
Definition flags_ok (fl : Z) : Prop := fl = 0 ∨ fl = B_VALID ∨ fl = Z.lor B_VALID B_DIRTY.

(** ** The effect of a request *)

(** A write: the block on disk becomes the buffer's data. *)
Definition written (b : nat) (bf : buf) (w : world) : world :=
  w <| w_bufs ::= alter (λ x, x <| b_flags := add_flag B_VALID (del_flag B_DIRTY (b_flags bf)) |>) b |>
    <| w_disk ::= <[Z.to_nat (blockno bf) := b_data bf]> |>
    <| w_hist ::= λ h, h ++ [(blockno bf, b_data bf)] |>.

(** A read: the buffer's data becomes the block on disk. *)
Definition loaded (b : nat) (bf : buf) (d : block) (w : world) : world :=
  w <| w_bufs ::= alter (λ x, x <| b_flags := add_flag B_VALID (b_flags bf) |> <| b_data := d |>) b |>.

Class DiskDriver := iderw : nat → K unit.

Class DiskLaws (D : DiskDriver) := {
  (** The driver has been initialised for the disk it finds. *)
  disk_ready : world → Prop;
  disk_ready_frame w w' :
    w_disksize w = w_disksize w' → length (w_disk w) = length (w_disk w') →
    disk_ready w → disk_ready w';
  iderw_writes b bf w e :
    calm w → lock_free w (L_slk (SL_buf b)) → slocked (w_slocks w (SL_buf b)) ≠ 0 →
    disk_ready w → w_bufs w !! b = Some bf → b_dev bf = ROOTDEV →
    0 ≤ blockno bf < Z.of_nat (length (w_disk w)) → has B_DIRTY (b_flags bf) = true →
    iderw b (KS w e) = Ok tt (KS (written b bf w) e);
  iderw_reads b bf w e d :
    calm w → lock_free w (L_slk (SL_buf b)) → slocked (w_slocks w (SL_buf b)) ≠ 0 →
    disk_ready w → w_bufs w !! b = Some bf → b_dev bf = ROOTDEV →
    0 ≤ blockno bf → w_disk w !! Z.to_nat (blockno bf) = Some d →
    has B_DIRTY (b_flags bf) = false → has B_VALID (b_flags bf) = false →
    iderw b (KS w e) = Ok tt (KS (loaded b bf d w) e)
}.
