(* ===== verification/Memide.v ===== *)
(** * memide.c: a disk in memory

    The driver of the kernel built with the file-system image linked in.  The
    image is [w_disk], a list of blocks. *)

From S2P Require Import Prelude Kernel Spinlock Sched Sleeplock Disk.

(** [_binary_fs_img_size] is the size of the image in bytes. *)
Definition ideinit : K unit :=
  modw (λ w, w <| w_disksize := u32 (Z.of_nat (length (w_disk w)) * BSIZE) / BSIZE |>).

Definition ideintr : K unit := mret tt.

(** [p = memdisk + b->blockno*BSIZE], as the index of the block it points to. *)
Definition memdisk_at (blockno : Z) : nat := Z.to_nat (u32 (blockno * BSIZE) / BSIZE).

#[local] Instance iderw_mem : DiskDriver := λ b,
  h ← holdingsleep (SL_buf b);
  if negb h then panic "iderw: buf not locked" else
  bf ← getb b;
  if Z.land (b_flags bf) (Z.lor B_VALID B_DIRTY) =? B_VALID then panic "iderw: nothing to do" else
  if negb (b_dev bf =? 1) then panic "iderw: request not for disk 1" else
  ds ← getw w_disksize;
  if blockno bf >=? ds then panic "iderw: block out of range" else
  let p := memdisk_at (blockno bf) in
  (if has B_DIRTY (b_flags bf) then
     modb b (λ x, x <| b_flags ::= del_flag B_DIRTY |>) ;;
     modw (λ w, w <| w_disk ::= <[p := b_data bf]> |>
                  <| w_hist ::= λ h, h ++ [(blockno bf, b_data bf)] |>)
   else
     d ← getw (λ w, w_disk w !! p);
     d ← munwrap "memdisk" d;
     modb b (λ x, x <| b_data := d |>)) ;;
  modb b (λ x, x <| b_flags ::= add_flag B_VALID |>).

(** ** The driver keeps the interface's laws *)

(** The image's blocks are those [ideinit] counted, and it is small enough for
    [ideinit]'s 32-bit arithmetic. *)
Definition mem_ready (w : world) : Prop :=
  w_disksize w = Z.of_nat (length (w_disk w)) ∧ Z.of_nat (length (w_disk w)) * BSIZE < 2 ^ 32.

Lemma ideinit_ready w e :
  Z.of_nat (length (w_disk w)) * BSIZE < 2 ^ 32 →
  ∃ w', ideinit (KS w e) = Ok tt (KS w' e) ∧ mem_ready w'.
Proof.
  intros H. eexists. split; [reflexivity|]. unfold mem_ready. cbn [ks_w]. rsimpl. split; [|done].
  unfold BSIZE in *. rewrite u32_small by lia. by rewrite Z.div_mul.
Qed.

Lemma memdisk_at_small n : 0 ≤ n → n * BSIZE < 2 ^ 32 → memdisk_at n = Z.to_nat n.
Proof.
  unfold memdisk_at, BSIZE. intros H1 H2. rewrite u32_small by lia. by rewrite Z.div_mul.
Qed.

Lemma not_nothing_to_do fl :
  has B_DIRTY fl = true ∨ has B_VALID fl = false →
  (Z.land fl (Z.lor B_VALID B_DIRTY) =? B_VALID) = false.
Proof.
  intros H. apply Z.eqb_neq. intros E.
  assert (Ht : ∀ i, Z.testbit (Z.land fl (Z.lor B_VALID B_DIRTY)) i = Z.testbit B_VALID i) by
    (intros i; by rewrite E).
  unfold has in H. destruct H as [H|H].
  - apply negb_true_iff, Z.eqb_neq in H. apply H. apply Z.bits_inj'. intros i Hi.
    rewrite Z.bits_0, Z.land_spec. specialize (Ht i). rewrite Z.land_spec in Ht.
    destruct (decide (i = 2)) as [->|Hne].
    + revert Ht. cbn. by destruct (Z.testbit fl 2).
    + replace (Z.testbit B_DIRTY i) with false; [by rewrite andb_false_r|].
      symmetry. change B_DIRTY with (2 ^ 2). by apply Z.pow2_bits_false.
  - apply negb_false_iff, Z.eqb_eq in H. specialize (Ht 1).
    assert (H1 : Z.testbit (Z.land fl B_VALID) 1 = false) by (rewrite H; done).
    rewrite Z.land_spec in H1, Ht.
    change (Z.testbit B_VALID 1) with true in H1, Ht.
    change (Z.testbit (Z.lor B_VALID B_DIRTY) 1) with true in Ht. congruence.
Qed.

Lemma iderw_mem_writes b bf w e :
  calm w → lock_free w (L_slk (SL_buf b)) → slocked (w_slocks w (SL_buf b)) ≠ 0 →
  mem_ready w → w_bufs w !! b = Some bf → b_dev bf = ROOTDEV →
  0 ≤ blockno bf < Z.of_nat (length (w_disk w)) → has B_DIRTY (b_flags bf) = true →
  iderw_mem b (KS w e) = Ok tt (KS (written b bf w) e).
Proof.
  intros Hc Hl Hs [Hr1 Hr2] Hb Hd Hn Hf. unfold iderw_mem.
  kcall (holdingsleep_eq (SL_buf b) w e Hc Hl). rewrite (proj2 (Z.eqb_neq _ _) Hs). cbn [negb].
  kcall (getb_eq b bf w e Hb). rewrite not_nothing_to_do by auto.
  rewrite Hd. change (negb (ROOTDEV =? 1)) with false. kstep.
  replace (blockno bf >=? w_disksize w) with false by lia. rewrite Hf.
  rewrite memdisk_at_small by (unfold BSIZE in *; lia). unfold modb. kstep.
  unfold written, modw. cbn [ks_w ks_env]. weq. rewrite alter_alter.
  apply list_alter_ext; [|done]. intros x Hx. replace x with bf by congruence.
  by destruct bf; usetf.
Qed.

Lemma iderw_mem_reads b bf w e d :
  calm w → lock_free w (L_slk (SL_buf b)) → slocked (w_slocks w (SL_buf b)) ≠ 0 →
  mem_ready w → w_bufs w !! b = Some bf → b_dev bf = ROOTDEV →
  0 ≤ blockno bf → w_disk w !! Z.to_nat (blockno bf) = Some d →
  has B_DIRTY (b_flags bf) = false → has B_VALID (b_flags bf) = false →
  iderw_mem b (KS w e) = Ok tt (KS (loaded b bf d w) e).
Proof.
  intros Hc Hl Hs [Hr1 Hr2] Hb Hd Hn Hdk Hf1 Hf2. unfold iderw_mem.
  pose proof (lookup_lt_Some _ _ _ Hdk).
  kcall (holdingsleep_eq (SL_buf b) w e Hc Hl). rewrite (proj2 (Z.eqb_neq _ _) Hs). cbn [negb].
  kcall (getb_eq b bf w e Hb). rewrite not_nothing_to_do by auto.
  rewrite Hd. change (negb (ROOTDEV =? 1)) with false. kstep.
  replace (blockno bf >=? w_disksize w) with false by lia. rewrite Hf1.
  rewrite memdisk_at_small by (unfold BSIZE in *; lia). unfold modb. kstep.
  rewrite Hdk. cbn [munwrap]. kstep.
  unfold loaded, modw. cbn [ks_w ks_env]. weq. rewrite alter_alter.
  apply list_alter_ext; [|done]. intros x Hx. replace x with bf by congruence.
  by destruct bf; usetf.
Qed.

Lemma mem_ready_frame w w' :
  w_disksize w = w_disksize w' → length (w_disk w) = length (w_disk w') →
  mem_ready w → mem_ready w'.
Proof. intros H1 H2 [H3 H4]. split; congruence. Qed.

#[local] Instance memide_laws : DiskLaws iderw_mem := {|
  disk_ready := mem_ready;
  disk_ready_frame := mem_ready_frame;
  iderw_writes := iderw_mem_writes;
  iderw_reads := iderw_mem_reads
|}.
