(* ===== verification/Bio.v ===== *)
(** * bio.c: the buffer cache

    The cache's operations over any disk driver, and the ring of buffers in
    order of use: its links, the two loops of [bget] along them, and the
    relinking of [brelse]. *)

From S2P Require Import Prelude Kernel Spinlock Sched Sleeplock Disk.

(** [&bcache.head]. *)
Definition head : nat := NBUF.

(** Insert [b] right after the head: the four assignments [binit] and [brelse]
    share. *)
Definition link_front (b : nat) : K unit :=
  h ← getb head;
  modb b (λ x, x <| b_next := b_next h |>) ;;
  modb b (λ x, x <| b_prev := head |>) ;;
  h ← getb head;
  modb (b_next h) (λ x, x <| b_prev := b |>) ;;
  modb head (λ x, x <| b_next := b |>).

(** One iteration of [binit]'s loop. *)
Definition binit_one (b : nat) : K unit :=
  h ← getb head;
  modb b (λ x, x <| b_next := b_next h |>) ;;
  modb b (λ x, x <| b_prev := head |>) ;;
  initsleeplock (SL_buf b) "buffer" ;;
  h ← getb head;
  modb (b_next h) (λ x, x <| b_prev := b |>) ;;
  modb head (λ x, x <| b_next := b |>).

Definition binit : K unit :=
  initlock L_bcache "bcache" ;;
  modb head (λ x, x <| b_prev := head |>) ;;
  modb head (λ x, x <| b_next := head |>) ;;
  iterM binit_one (seq 0 NBUF).

Section bio.
  Context {D : DiskDriver}.

(** The two loops of [bget], along [next] and along [prev]; the ring has [NBUF]
    buffers and the head, so [NBUF + 1] tests end the loop. *)
Fixpoint find_cached (fuel b : nat) (dev bno : Z) : K (option nat) :=
  match fuel with
  | O => mstop OutOfFuel
  | S n =>
      if decide (b = head) then mret None else
      x ← getb b;
      if (b_dev x =? dev) && (blockno x =? bno) then mret (Some b)
      else find_cached n (b_next x) dev bno
  end.

Fixpoint find_unused (fuel b : nat) : K (option nat) :=
  match fuel with
  | O => mstop OutOfFuel
  | S n =>
      if decide (b = head) then mret None else
      x ← getb b;
      if (refcnt x =? 0) && (Z.land (b_flags x) B_DIRTY =? 0) then mret (Some b)
      else find_unused n (b_prev x)
  end.

Definition bget (dev bno : Z) : K nat :=
  acquire L_bcache ;;
  h ← getb head;
  r ← find_cached (S NBUF) (b_next h) dev bno;
  match r with
  | Some b =>
      modb b (λ x, x <| refcnt ::= λ n, u32 (n + 1) |>) ;;
      release L_bcache ;;
      acquiresleep (SL_buf b) ;;
      mret b
  | None =>
      h ← getb head;
      r ← find_unused (S NBUF) (b_prev h);
      match r with
      | Some b =>
          modb b (λ x, x <| b_dev := dev |>) ;;
          modb b (λ x, x <| blockno := bno |>) ;;
          modb b (λ x, x <| b_flags := 0 |>) ;;
          modb b (λ x, x <| refcnt := 1 |>) ;;
          release L_bcache ;;
          acquiresleep (SL_buf b) ;;
          mret b
      | None => panic "bget: no buffers"
      end
  end.

Definition bread (dev bno : Z) : K nat :=
  b ← bget dev bno;
  x ← getb b;
  (if negb (has B_VALID (b_flags x)) then iderw b else mret tt) ;;
  mret b.

Definition bwrite (b : nat) : K unit :=
  h ← holdingsleep (SL_buf b);
  if negb h then panic "bwrite" else
  modb b (λ x, x <| b_flags ::= add_flag B_DIRTY |>) ;;
  iderw b.
End bio.

Definition unlink_buf (b : nat) : K unit :=
  x ← getb b;
  modb (b_next x) (λ y, y <| b_prev := b_prev x |>) ;;
  x ← getb b;
  modb (b_prev x) (λ y, y <| b_next := b_next x |>).

Definition brelse (b : nat) : K unit :=
  h ← holdingsleep (SL_buf b);
  if negb h then panic "brelse" else
  releasesleep (SL_buf b) ;;
  acquire L_bcache ;;
  modb b (λ x, x <| refcnt ::= λ n, u32 (n - 1) |>) ;;
  x ← getb b;
  (if refcnt x =? 0 then unlink_buf b ;; link_front b else mret tt) ;;
  release L_bcache.

(** ** Rings of links

    [seg nx pv x l y]: from [x] the next-links lead through [l] to [y], and the
    prev-links back. *)

Fixpoint seg (nx pv : nat → nat) (x : nat) (l : list nat) (y : nat) : Prop :=
  match l with
  | [] => nx x = y ∧ pv y = x
  | z :: l => nx x = z ∧ pv z = x ∧ seg nx pv z l y
  end.

Lemma seg_app nx pv x l1 z l2 y :
  seg nx pv x (l1 ++ z :: l2) y ↔ seg nx pv x l1 z ∧ seg nx pv z l2 y.
Proof. revert x; induction l1 as [|u l1 IH]; intros x; cbn; [|rewrite IH]; tauto. Qed.

Lemma seg_frame nx pv nx' pv' x l y :
  seg nx pv x l y →
  (∀ z, z ∈ x :: l → nx' z = nx z) → (∀ z, z ∈ l ++ [y] → pv' z = pv z) →
  seg nx' pv' x l y.
Proof.
  revert x; induction l as [|z l IH]; intros x; cbn.
  - intros [H1 H2] Hn Hp. by rewrite Hn, Hp by set_solver.
  - intros (H1 & H2 & H3) Hn Hp. rewrite Hn, Hp by set_solver.
    split_and!; [done|done|]. apply IH; [done|..]; set_solver.
Qed.

Lemma seg_last nx pv x l y : seg nx pv x l y → pv y ∈ x :: l.
Proof.
  revert x; induction l as [|z l IH]; intros x; cbn.
  - intros [_ ->]. set_solver.
  - intros (_ & _ & H%IH). set_solver.
Qed.

Lemma seg_first nx pv x l y : seg nx pv x l y → nx x ∈ l ++ [y].
Proof. destruct l; cbn; [intros [-> _]|intros (-> & _)]; set_solver. Qed.

(** Redirecting the last link of a segment from [y] to [v]. *)
Lemma seg_redirect nx pv x l y v :
  seg nx pv x l y → NoDup (x :: l) → v ∉ l →
  seg (<[pv y := v]> nx) (<[v := pv y]> pv) x l v.
Proof.
  revert x; induction l as [|z l IH]; intros x; cbn [seg].
  - intros [H1 H2] _ _. by rewrite H2, !fn_lookup_insert.
  - intros (H1 & H2 & H3) [Hx Hd]%NoDup_cons Hv.
    assert (pv y ≠ x) by (intros E; apply Hx; rewrite <- E; by apply (seg_last nx)).
    assert (v ≠ z) by set_solver. rewrite !fn_lookup_insert_ne by done.
    split_and!; [done|done|]. apply IH; [done|done|set_solver].
Qed.

Lemma seg_unlink nx pv x l1 b l2 y :
  seg nx pv x (l1 ++ b :: l2) y → NoDup (x :: l1 ++ b :: l2) → y ∉ l1 ++ b :: l2 →
  seg (<[pv b := nx b]> nx) (<[nx b := pv b]> pv) x (l1 ++ l2) y.
Proof.
  intros [H1 H2]%seg_app Hd Hy.
  assert (Hd1 : NoDup (x :: l1)).
  { apply NoDup_cons in Hd as [? Hd]. apply NoDup_app in Hd as (? & _ & _).
    constructor; [set_solver|done]. }
  destruct l2 as [|v l2]; cbn in H2.
  - destruct H2 as [-> H2]. rewrite app_nil_r. apply seg_redirect; [done|done|set_solver].
  - destruct H2 as (-> & H2 & H3). pose proof (seg_last _ _ _ _ _ H1) as Hl.
    apply NoDup_cons in Hd as [Hx Hd]. apply NoDup_app in Hd as (Hd3 & Hdis & Hd2).
    apply NoDup_cons in Hd2 as [Hb Hd2]. apply NoDup_cons in Hd2 as [Hv Hd2].
    apply seg_app. split.
    + apply seg_redirect; [done|done|]. intros Hin. apply (Hdis _ Hin). set_solver.
    + apply (seg_frame nx pv); [done| |].
      * intros z Hz. apply fn_lookup_insert_ne. intros E. rewrite E in Hl.
        apply elem_of_cons in Hl as [->|Hl]; [set_solver|]. apply (Hdis _ Hl). set_solver.
      * intros z Hz. apply fn_lookup_insert_ne. set_solver.
Qed.

Lemma seg_link nx pv x l y b :
  seg nx pv x l y → b ∉ x :: l ++ [y] → x ∉ l → NoDup l → y ∉ l →
  let nx1 := <[b := nx x]> nx in
  seg (<[x := b]> nx1) (<[nx1 x := b]> (<[b := x]> pv)) x (b :: l) y.
Proof.
  intros Hs Hb Hx Hd Hy nx1. pose proof (seg_first _ _ _ _ _ Hs) as Hf.
  assert (Hbx : x ≠ b) by set_solver. assert (Hbf : nx x ≠ b) by set_solver.
  assert (Hnx1 : nx1 x = nx x) by by apply fn_lookup_insert_ne.
  assert (Hnxb : nx1 b = nx x) by apply fn_lookup_insert.
  assert (Hnb : ∀ z, z ≠ x → z ≠ b → (<[x := b]> nx1 : nat → nat) z = nx z).
  { intros z H1 H2. unfold nx1. by rewrite !fn_lookup_insert_ne by done. }
  rewrite Hnx1. cbn. rewrite fn_lookup_insert, (fn_lookup_insert_ne _ (nx x)), fn_lookup_insert by done.
  split_and!; [done|done|]. clearbody nx1.
  destruct l as [|z l]; cbn in Hs |- *.
  - destruct Hs as [<- H2]. by rewrite fn_lookup_insert, fn_lookup_insert_ne by done.
  - destruct Hs as (<- & H2 & H3). rewrite fn_lookup_insert, fn_lookup_insert_ne by done.
    split_and!; [done|done|]. apply (seg_frame nx pv); [done| |].
    + intros u Hu. apply Hnb; set_solver.
    + intros u Hu. apply NoDup_cons in Hd as [Hd _].
      assert (u ≠ nx x ∧ u ≠ b) as [? ?] by set_solver. by rewrite !fn_lookup_insert_ne by done.
Qed.

(** ** The loops of [bget] *)

Definition nxf (bs : list buf) (k : nat) : nat :=
  match bs !! k with Some x => b_next x | None => O end.
Definition pvf (bs : list buf) (k : nat) : nat :=
  match bs !! k with Some x => b_prev x | None => O end.

(** The first buffer of [l] that satisfies [P]. *)
Definition first_buf (P : buf → bool) (bs : list buf) (l : list nat) : option nat :=
  find (λ b, match bs !! b with Some x => P x | None => false end) l.

Definition matches (dev bno : Z) (x : buf) : bool := (b_dev x =? dev) && (blockno x =? bno).
Definition unused (x : buf) : bool := (refcnt x =? 0) && (Z.land (b_flags x) B_DIRTY =? 0).

Definition in_table (bs : list buf) (l : list nat) : Prop :=
  ∀ b, b ∈ l → b ≠ head ∧ is_Some (bs !! b).

Lemma find_cached_eq dev bno w e l x fuel :
  seg (nxf (w_bufs w)) (pvf (w_bufs w)) x l head → in_table (w_bufs w) l →
  (length l < fuel)%nat →
  find_cached fuel (nxf (w_bufs w) x) dev bno (KS w e) =
    Ok (first_buf (matches dev bno) (w_bufs w) l) (KS w e).
Proof.
  revert x fuel; induction l as [|z l IH]; intros x [|fuel] Hs Ht Hf; cbn in Hf; try lia;
    cbn [find_cached seg] in Hs |- *.
  - destruct Hs as [-> _]. by rewrite decide_True.
  - destruct Hs as (-> & _ & Hs). destruct (Ht z) as [Hz [y Hy]]; [set_solver|].
    rewrite decide_False by done. kcall (getb_eq z y w e Hy).
    unfold first_buf, matches. cbn [find]. rewrite Hy. destruct (_ && _); [done|].
    replace (b_next y) with (nxf (w_bufs w) z) by (unfold nxf; by rewrite Hy).
    apply IH; [done| |lia]. intros b Hb. apply Ht. set_solver.
Qed.

Lemma find_unused_eq w e l y fuel :
  seg (nxf (w_bufs w)) (pvf (w_bufs w)) head l y → in_table (w_bufs w) l →
  (length l < fuel)%nat →
  find_unused fuel (pvf (w_bufs w) y) (KS w e) =
    Ok (first_buf unused (w_bufs w) (rev l)) (KS w e).
Proof.
  revert y fuel; induction l as [|z l IH] using rev_ind; intros y [|fuel] Hs Ht Hf;
    rewrite ?length_app in Hf; cbn in Hf; try lia; cbn [find_unused].
  - destruct Hs as [_ ->]. by rewrite decide_True.
  - apply seg_app in Hs as [Hs [_ ->]]. destruct (Ht z) as [Hz [x Hx]]; [set_solver|].
    rewrite decide_False by done. kcall (getb_eq z x w e Hx).
    rewrite rev_app_distr. unfold first_buf, unused. cbn [rev app find]. rewrite Hx.
    destruct (_ && _); [done|].
    replace (b_prev x) with (pvf (w_bufs w) z) by (unfold pvf; by rewrite Hx).
    apply IH; [done| |lia]. intros b Hb. apply Ht. set_solver.
Qed.

(** ** The links under updates of one buffer *)

Lemma nxf_alter f b bs :
  (∀ x, b_next (f x) = b_next x) → nxf (alter f b bs) = nxf bs.
Proof.
  intros Hf. apply fn_ext; intros k. unfold nxf. destruct (decide (b = k)) as [->|].
  - rewrite list_lookup_alter_eq. destruct (bs !! k); cbn; [apply Hf|done].
  - by rewrite list_lookup_alter_ne.
Qed.

Lemma pvf_alter f b bs :
  (∀ x, b_prev (f x) = b_prev x) → pvf (alter f b bs) = pvf bs.
Proof.
  intros Hf. apply fn_ext; intros k. unfold pvf. destruct (decide (b = k)) as [->|].
  - rewrite list_lookup_alter_eq. destruct (bs !! k); cbn; [apply Hf|done].
  - by rewrite list_lookup_alter_ne.
Qed.

Lemma nxf_set b v bs :
  (b < length bs)%nat → nxf (alter (λ x, x <| b_next := v |>) b bs) = <[b := v]> (nxf bs).
Proof.
  intros Hb. apply fn_ext; intros k. unfold nxf. rewrite fn_lookup_insert_case.
  case_decide; subst.
  - rewrite list_lookup_alter_eq. destruct (lookup_lt_is_Some_2 _ _ Hb) as [x ->]. cbn. by rsimpl.
  - by rewrite list_lookup_alter_ne.
Qed.

Lemma pvf_set b v bs :
  (b < length bs)%nat → pvf (alter (λ x, x <| b_prev := v |>) b bs) = <[b := v]> (pvf bs).
Proof.
  intros Hb. apply fn_ext; intros k. unfold pvf. rewrite fn_lookup_insert_case.
  case_decide; subst.
  - rewrite list_lookup_alter_eq. destruct (lookup_lt_is_Some_2 _ _ Hb) as [x ->]. cbn. by rsimpl.
  - by rewrite list_lookup_alter_ne.
Qed.

Lemma nxf_lookup bs b x : bs !! b = Some x → b_next x = nxf bs b.
Proof. intros H. unfold nxf. by rewrite H. Qed.
Lemma pvf_lookup bs b x : bs !! b = Some x → b_prev x = pvf bs b.
Proof. intros H. unfold pvf. by rewrite H. Qed.

(** A buffer without its links, which is all [brelse]'s relinking keeps. *)
Definition nolinks (x : buf) : buf := x <| b_prev := O |> <| b_next := O |>.

Lemma nolinks_prev (bs : list buf) (b v : nat) : nolinks <$> alter (λ x, x <| b_prev := v |>) b bs = nolinks <$> bs.
Proof.
  apply list_eq; intros k. rewrite !list_lookup_fmap. destruct (decide (b = k)) as [->|].
  - rewrite list_lookup_alter_eq. by destruct (bs !! k).
  - by rewrite list_lookup_alter_ne.
Qed.

Lemma nolinks_next (bs : list buf) (b v : nat) : nolinks <$> alter (λ x, x <| b_next := v |>) b bs = nolinks <$> bs.
Proof.
  apply list_eq; intros k. rewrite !list_lookup_fmap. destruct (decide (b = k)) as [->|].
  - rewrite list_lookup_alter_eq. by destruct (bs !! k).
  - by rewrite list_lookup_alter_ne.
Qed.

Lemma nolinks_inv (bs bs' : list buf) b x :
  nolinks <$> bs' = nolinks <$> bs → bs' !! b = Some x →
  ∃ y, bs !! b = Some y ∧ x = y <| b_prev := b_prev x |> <| b_next := b_next x |>.
Proof.
  intros He Hx. assert (Hb : (nolinks <$> bs') !! b = Some (nolinks x)) by
    (by rewrite list_lookup_fmap, Hx).
  rewrite He, list_lookup_fmap in Hb. destruct (bs !! b) as [y|]; [|done].
  exists y. split; [done|]. cbn in Hb. unfold nolinks in Hb.
  destruct x, y; revert Hb; usetf. cbn. by intros [= -> -> -> -> ->].
Qed.

Lemma nolinks_length (bs bs' : list buf) : nolinks <$> bs' = nolinks <$> bs → length bs' = length bs.
Proof. intros H%(f_equal length). by rewrite !length_fmap in H. Qed.

Lemma bufs_upd w f : w <| w_bufs ::= f |> = w <| w_bufs := f (w_bufs w) |>.
Proof. weq. Qed.
Lemma bufs_upd2 w a f : w <| w_bufs := a |> <| w_bufs ::= f |> = w <| w_bufs := f a |>.
Proof. weq. Qed.

(** Run [getb] on a buffer the table has. *)
Ltac kgetb :=
  lazymatch goal with
  | |- context [(getb ?b ≫= ?f) (KS ?w ?e)] =>
      let x := fresh "x" in let Hx := fresh "Hx" in
      destruct (lookup_lt_is_Some_2 (w_bufs w) b) as [x Hx];
      [rsimpl; rewrite ?length_alter|kcall (getb_eq b x w e Hx)]
  end.

Lemma link_front_eq b w e :
  (b < length (w_bufs w))%nat → (head < length (w_bufs w))%nat → b ≠ head →
  (nxf (w_bufs w) head < length (w_bufs w))%nat →
  ∃ bs', link_front b (KS w e) = Ok tt (KS (w <| w_bufs := bs' |>) e) ∧
    nolinks <$> bs' = nolinks <$> w_bufs w ∧
    nxf bs' = <[head := b]> (<[b := nxf (w_bufs w) head]> (nxf (w_bufs w))) ∧
    pvf bs' = <[(<[b := nxf (w_bufs w) head]> (nxf (w_bufs w)) : nat → nat) head := b]>
                (<[b := head]> (pvf (w_bufs w))).
Proof.
  intros Hb Hh Hne Hn. unfold link_front, modb. kgetb; [done|]. kstep. kgetb; [done|]. kstep.
  rewrite (nxf_lookup _ _ _ Hx) in Hx0 |- *. rewrite (nxf_lookup _ _ _ Hx0).
  revert Hx0. rsimpl. intros Hx0. rewrite modw_eq, (bufs_upd w), !bufs_upd2. eexists. split_and!.
  - reflexivity.
  - by rewrite nolinks_next, nolinks_prev, nolinks_prev, nolinks_next.
  - rewrite nxf_set by (by rewrite !length_alter).
    rewrite !nxf_alter by (intros; by rsimpl). by rewrite nxf_set.
  - rewrite pvf_alter by (intros; by rsimpl).
    rewrite nxf_alter by (intros; by rsimpl). rewrite nxf_set by done.
    rewrite pvf_set; [rewrite pvf_set by (by rewrite length_alter)|].
    + by rewrite pvf_alter by (intros; by rsimpl).
    + rewrite !length_alter, fn_lookup_insert_ne by done. done.
Qed.

Lemma unlink_buf_eq b w e :
  (b < length (w_bufs w))%nat → nxf (w_bufs w) b ≠ b →
  (nxf (w_bufs w) b < length (w_bufs w))%nat → (pvf (w_bufs w) b < length (w_bufs w))%nat →
  ∃ bs', unlink_buf b (KS w e) = Ok tt (KS (w <| w_bufs := bs' |>) e) ∧
    nolinks <$> bs' = nolinks <$> w_bufs w ∧
    nxf bs' = <[pvf (w_bufs w) b := nxf (w_bufs w) b]> (nxf (w_bufs w)) ∧
    pvf bs' = <[nxf (w_bufs w) b := pvf (w_bufs w) b]> (pvf (w_bufs w)).
Proof.
  intros Hb Hne Hn Hp. unfold unlink_buf, modb. kgetb; [done|]. kstep. kgetb; [done|]. kstep.
  rewrite modw_eq.
  assert (E1 : b_next x0 = nxf (w_bufs w) b).
  { rewrite (nxf_lookup _ _ _ Hx0). rsimpl. by rewrite nxf_alter by (intros; by rsimpl). }
  assert (E2 : b_prev x0 = pvf (w_bufs w) b).
  { rewrite (pvf_lookup _ _ _ Hx0). rsimpl. rewrite (nxf_lookup _ _ _ Hx), pvf_set by done.
    by rewrite fn_lookup_insert_ne by done. }
  rewrite E1, E2, (nxf_lookup _ _ _ Hx), (pvf_lookup _ _ _ Hx), (bufs_upd w), !bufs_upd2.
  eexists. split_and!.
  - reflexivity.
  - by rewrite nolinks_next, nolinks_prev.
  - rewrite nxf_set by (by rewrite !length_alter). by rewrite nxf_alter by (intros; by rsimpl).
  - rewrite pvf_alter by (intros; by rsimpl). by rewrite pvf_set.
Qed.

(** [brelse]'s relinking moves [b] to the front of the ring. *)
Lemma relink_eq b l1 l2 w e :
  length (w_bufs w) = S NBUF → NoDup (l1 ++ b :: l2) → Forall (λ k, k < NBUF)%nat (l1 ++ b :: l2) →
  seg (nxf (w_bufs w)) (pvf (w_bufs w)) head (l1 ++ b :: l2) head →
  ∃ bs', (unlink_buf b ;; link_front b) (KS w e) = Ok tt (KS (w <| w_bufs := bs' |>) e) ∧
    nolinks <$> bs' = nolinks <$> w_bufs w ∧
    seg (nxf bs') (pvf bs') head (b :: l1 ++ l2) head.
Proof.
  intros Hlen Hnd Hlt Hs. rewrite Forall_forall in Hlt.
  assert (Hh : head ∉ l1 ++ b :: l2) by (intros Hin%Hlt; unfold head in Hin; lia).
  pose proof (proj1 (seg_app _ _ _ _ _ _ _) Hs) as [Hs1 Hs2].
  assert (Hb : (b < NBUF)%nat) by (apply Hlt; set_solver).
  assert (Hn : nxf (w_bufs w) b ∈ l2 ++ [head]) by (by eapply seg_first).
  assert (Hp : pvf (w_bufs w) b ∈ head :: l1) by (by eapply seg_last).
  assert (Hbound : ∀ k, k ∈ head :: l1 ++ l2 ++ [head] → (k < S NBUF)%nat).
  { intros k Hk. assert (k = head ∨ k ∈ l1 ++ b :: l2) as [->|Hk'%Hlt] by set_solver.
    - unfold head; lia.
    - lia. }
  assert (Hbh : b ≠ head) by (unfold head; lia).
  assert (Hd3 : NoDup (b :: l1 ++ l2)) by (by rewrite <- Permutation_middle in Hnd).
  destruct (unlink_buf_eq b w e) as (bs1 & Hu & Hl1 & Hn1 & Hp1).
  { lia. }
  { intros E. rewrite E in Hn. apply NoDup_cons in Hd3 as [Hd3 _]. set_solver. }
  { rewrite Hlen. apply Hbound. set_solver. }
  { rewrite Hlen. apply Hbound. set_solver. }
  pose proof (seg_unlink _ _ _ _ _ _ _ Hs) as Hs'. rewrite <- Hn1, <- Hp1 in Hs'.
  specialize (Hs' ltac:(by constructor) Hh).
  pose proof (nolinks_length _ _ Hl1) as Hlen1.
  destruct (link_front_eq b (w <| w_bufs := bs1 |>) e) as (bs2 & Hk & Hl2 & Hn2 & Hp2); rsimpl.
  { lia. }
  { unfold head; lia. }
  { done. }
  { rewrite Hlen1, Hlen. apply Hbound. apply seg_first in Hs'. set_solver. }
  exists bs2. split_and!.
  - kcall Hu. rewrite Hk. weq.
  - rewrite Hl2. by rsimpl.
  - rewrite Hn2, Hp2. rsimpl. apply NoDup_cons in Hd3 as [Hb3 Hd3].
    apply seg_link; [done| |set_solver|done|set_solver]. set_solver.
Qed.
