(* ===== verification/Bcache.v ===== *)
(** * The buffer cache's promise to its clients

    The invariant of the cache and the effect of [bread], [bwrite] and [brelse]
    on its abstract state: the blocks a client sees through [bread] are those it
    last put there, whatever the cache evicts and reads again. *)

From S2P Require Import Prelude Kernel Spinlock Sched Sleeplock Disk Memide Bio.

(** ** The abstract state

    The abstract state of the cache, as its clients see it: the contents [V] of
    every block (what [bread] shows), the set [Dt] of blocks changed in the
    cache and not yet on disk (pinned by [B_DIRTY]), and the buffers [H] the
    running thread holds, each with its block number.  [pi] is the ring in order
    of use, most recent first. *)

Definition blk (d : block) : Prop := length d = Z.to_nat BSIZE ∧ Forall is_byte d.

(** A kernel thread of a process, between critical sections. *)
Definition thread (w : world) : Prop :=
  at_ease w ∧ (∀ lk, lock_free w lk) ∧
  ∃ i p, w_proc w = Some i ∧ w_procs w !! i = Some p.

Record buf_ok (w : world) (V : list block) (Dt : gset Z) (H : gmap nat Z) (b : nat) (x : buf)
    : Prop := {
  ok_refs : refcnt x = (if H !! b is Some _ then 1 else 0) ∧
            slocked (w_slocks w (SL_buf b)) = (if H !! b is Some _ then 1 else 0);
  ok_used : (b_dev x = 0 ∧ b_flags x = 0 ∧ H !! b = None) ∨
    (b_dev x = ROOTDEV ∧ 0 ≤ blockno x ∧ V !! Z.to_nat (blockno x) = Some (b_data x) ∧
     b_flags x = (if bool_decide (blockno x ∈ Dt) then Z.lor B_VALID B_DIRTY else B_VALID) ∧
     (H !! b = None → blockno x ∉ Dt → w_disk w !! Z.to_nat (blockno x) = Some (b_data x)) ∧
     (∀ n, H !! b = Some n → blockno x = n))
}.

Definition cached (w : world) (b : nat) (n : Z) : Prop :=
  (b < NBUF)%nat ∧ ∃ x, w_bufs w !! b = Some x ∧ b_dev x = ROOTDEV ∧ blockno x = n.

Section cache.
  Context {D : DiskDriver} {L : DiskLaws D}.

Record bcache_at (pi : list nat) (w : world) (V : list block) (Dt : gset Z) (H : gmap nat Z)
    : Prop := {
  bc_len : length (w_bufs w) = S NBUF;
  bc_perm : pi ≡ₚ seq 0 NBUF;
  bc_ring : seg (nxf (w_bufs w)) (pvf (w_bufs w)) head pi head;
  bc_buf b x : (b < NBUF)%nat → w_bufs w !! b = Some x → buf_ok w V Dt H b x;
  bc_uniq b b' n : cached w b n → cached w b' n → b = b';
  bc_view n : (∀ b, ~ cached w b (Z.of_nat n)) → V !! n = w_disk w !! n;
  bc_dirty n : n ∈ Dt → ∃ b, cached w b n;
  bc_held b n : H !! b = Some n → (b < NBUF)%nat;
  bc_size : length V = length (w_disk w);
  bc_blk : Forall blk V;
  bc_ready : disk_ready w
}.

Definition bcache (w : world) (V : list block) (Dt : gset Z) (H : gmap nat Z) : Prop :=
  ∃ pi, bcache_at pi w V Dt H.
End cache.

(** What a cache operation may change besides the abstract state: the buffers,
    their locks, the disk, and the state of processes that wait for a buffer. *)
Definition roused (p p' : proc) : Prop :=
  p' = p ∨ state p = SLEEPING ∧ p' = p <| state := RUNNABLE |>.

Definition cache_only (w w' : world) : Prop :=
  ∃ bs sl dk hi ps,
    w' = w <| w_bufs := bs |> <| w_slocks := sl |> <| w_disk := dk |> <| w_hist := hi |>
           <| w_procs := ps |> ∧
    Forall2 roused (w_procs w) ps ∧ (∀ i, sl (SL_inode i) = w_slocks w (SL_inode i)) ∧
    length dk = length (w_disk w).

Lemma roused_trans p1 p2 p3 : roused p1 p2 → roused p2 p3 → roused p1 p3.
Proof.
  intros [->|[H ->]]; [done|]. intros [->|[H' _]]; [by right|]. revert H'. by rsimpl.
Qed.

Lemma roused_refl ps : Forall2 roused ps ps.
Proof. induction ps; constructor; [by left|done]. Qed.

Lemma cache_only_refl w : cache_only w w.
Proof.
  exists (w_bufs w), (w_slocks w), (w_disk w), (w_hist w), (w_procs w).
  split_and!; [weq|apply roused_refl|done..].
Qed.

Lemma cache_only_upd w f : cache_only w (w <| w_bufs ::= f |>).
Proof.
  exists (f (w_bufs w)), (w_slocks w), (w_disk w), (w_hist w), (w_procs w).
  split_and!; [weq|apply roused_refl|done..].
Qed.

Lemma cache_only_trans w1 w2 w3 : cache_only w1 w2 → cache_only w2 w3 → cache_only w1 w3.
Proof.
  intros (bs & sl & dk & hi & ps & -> & H1 & H2 & H3) (bs' & sl' & dk' & hi' & ps' & -> & H4 & H5 & H6).
  revert H4 H5 H6. rsimpl. intros H4 H5 H6.
  exists bs', sl', dk', hi', ps'. split_and!; [weq| |intros i; by rewrite H5|by rewrite H6].
  clear -H1 H4. revert ps' H4. induction H1; intros ps' H4; inversion H4; subst; constructor; eauto.
  by eapply roused_trans.
Qed.

Lemma cache_only_thread w w' : cache_only w w' → thread w → thread w'.
Proof.
  intros (bs & sl & dk & hi & ps & -> & H1 & H2 & H3) (Ha & Hl & i & p & Hi & Hp).
  unfold thread, at_ease, calm, lock_free in *. rsimpl. split_and!; [apply Ha..|apply Hl|].
  destruct (Forall2_lookup_l _ _ _ _ _ H1 Hp) as (p' & Hp' & _). eauto.
Qed.

(** ** Changing one buffer *)

Section cache_changes.
  Context {D : DiskDriver} {L : DiskLaws D}.

(** The invariant after a change to buffer [b] alone, which then holds block
    [blockno x']; the block it held before, if another, is safe on disk. *)
Lemma bc_update pi w w' V V' Dt Dt' H H' b x x' :
  bcache_at pi w V Dt H → (b < NBUF)%nat → w_bufs w !! b = Some x →
  w_bufs w' = <[b := x']> (w_bufs w) → b_prev x' = b_prev x → b_next x' = b_next x →
  (∀ b', b' ≠ b → slocked (w_slocks w' (SL_buf b')) = slocked (w_slocks w (SL_buf b')) ∧
                  H' !! b' = H !! b') →
  length (w_disk w') = length (w_disk w) → w_disksize w' = w_disksize w →
  length V' = length V → Forall blk V' →
  b_dev x' = ROOTDEV → 0 ≤ blockno x' →
  (∀ n, n ≠ Z.to_nat (blockno x') → V' !! n = V !! n ∧ w_disk w' !! n = w_disk w !! n) →
  (∀ n, n ≠ blockno x' → n ∈ Dt' ↔ n ∈ Dt) →
  (∀ b', cached w b' (blockno x') → b' = b) →
  (b_dev x = ROOTDEV → blockno x ≠ blockno x' →
     V !! Z.to_nat (blockno x) = w_disk w !! Z.to_nat (blockno x) ∧ blockno x ∉ Dt) →
  buf_ok w' V' Dt' H' b x' →
  bcache_at pi w' V' Dt' H'.
Proof.
  intros Hbc Hb Hx Hbs Hpv Hnx Hoth Hdk Hds HV HVb Hdev Hpos HVn HDn Hun Hold Hok.
  assert (Hin : ∀ b' n, cached w' b' n ↔
      (b' = b ∧ n = blockno x') ∨ (b' ≠ b ∧ cached w b' n)).
  { intros b' n. unfold cached. rewrite Hbs. destruct (decide (b' = b)) as [->|Hne].
    - rewrite list_lookup_insert_eq by (by eapply lookup_lt_Some). naive_solver.
    - rewrite list_lookup_insert_ne by done. naive_solver. }
  destruct Hbc as [H1 H2 H3 H4 H5 H6 H7 H8 H9 H10 H11]. split; try done.
  - by rewrite Hbs, length_insert.
  - eapply seg_frame; [exact H3|..]; intros z _; unfold nxf, pvf; rewrite Hbs;
      (destruct (decide (z = b)) as [->|Hne];
       [rewrite list_lookup_insert_eq by (by eapply lookup_lt_Some); by rewrite Hx
       |by rewrite list_lookup_insert_ne]).
  - intros b' y Hb' Hy. destruct (decide (b' = b)) as [->|Hne].
    { rewrite Hbs, list_lookup_insert_eq in Hy by (by eapply lookup_lt_Some). by injection Hy as <-. }
    rewrite Hbs, list_lookup_insert_ne in Hy by done.
    destruct (H4 b' y Hb' Hy) as [Hr Hu]. destruct (Hoth b' Hne) as [Ho1 Ho2].
    split; [by rewrite Ho1, Ho2|]. rewrite Ho2. destruct Hu as [?|(Hu1 & Hu2 & Hu)]; [by left|right].
    assert (Hne' : blockno y ≠ blockno x').
    { intros E. apply Hne, Hun. split; [done|]. exists y. by rewrite E in *. }
    destruct (HVn (Z.to_nat (blockno y))) as [-> ->]; [lia|].
    rewrite (bool_decide_ext _ _ (HDn _ Hne')), (HDn _ Hne'). done.
  - intros b1 b2 n [[-> ->]|[Hn1 Hc1]]%Hin [[-> E]|[Hn2 Hc2]]%Hin; try done.
    + symmetry. by apply Hun.
    + subst n. by apply Hun.
    + by eapply H5.
  - intros n Hn. destruct (decide (n = Z.to_nat (blockno x'))) as [->|Hne].
    { exfalso. apply (Hn b), Hin. left. split; [done|lia]. }
    destruct (HVn n Hne) as [-> ->].
    destruct (decide (b_dev x = ROOTDEV ∧ blockno x = Z.of_nat n)) as [[Hd E]|Hnc].
    { destruct Hold as [Ho _]; [done|lia|]. by rewrite E, Nat2Z.id in Ho. }
    apply H6. intros b' Hc. destruct (decide (b' = b)) as [->|Hne'].
    + destruct Hc as (_ & y & Hy & Hyd & Hyn). apply Hnc. by replace x with y by congruence.
    + apply (Hn b'), Hin. by right.
  - intros n Hn. destruct (decide (n = blockno x')) as [->|Hne].
    { exists b. apply Hin. by left. }
    apply HDn in Hn; [|done]. destruct (H7 n Hn) as [b' Hc]. exists b'. apply Hin. right.
    split; [|done]. intros ->. destruct Hc as (_ & y & Hy & Hyd & <-).
    replace y with x in * by congruence. by apply Hold.
  - intros b' n Hn. destruct (decide (b' = b)) as [->|Hne]; [done|].
    destruct (Hoth b' Hne) as [_ E]. rewrite E in Hn. by eapply H8.
  - by rewrite HV, Hdk.
  - by eapply disk_ready_frame.
Qed.

Lemma bc_lookup pi w V Dt H b : bcache_at pi w V Dt H → (b < NBUF)%nat → is_Some (w_bufs w !! b).
Proof. intros Hbc Hb. apply lookup_lt_is_Some. rewrite (bc_len _ _ _ _ _ Hbc). lia. Qed.

(** A held buffer shows its block. *)
Lemma bc_held_buf pi w V Dt H b n :
  bcache_at pi w V Dt H → H !! b = Some n →
  ∃ x, w_bufs w !! b = Some x ∧ (b < NBUF)%nat ∧ b_dev x = ROOTDEV ∧ blockno x = n ∧ 0 ≤ n ∧
    V !! Z.to_nat n = Some (b_data x) ∧ refcnt x = 1 ∧ slocked (w_slocks w (SL_buf b)) = 1 ∧
    b_flags x = (if bool_decide (n ∈ Dt) then Z.lor B_VALID B_DIRTY else B_VALID).
Proof.
  intros Hbc Hh. pose proof (bc_held _ _ _ _ _ Hbc _ _ Hh) as Hb.
  destruct (bc_lookup _ _ _ _ _ _ Hbc Hb) as [x Hx]. exists x.
  destruct (bc_buf _ _ _ _ _ Hbc b x Hb Hx) as [[Hr Hs] [(_ & _ & E)|(H1 & H2 & H3 & H4 & H5 & H6)]];
    [congruence|]. rewrite Hh in Hr, Hs. specialize (H6 n Hh). by subst n.
Qed.

Lemma bc_cached_uniq pi w V Dt H b x :
  bcache_at pi w V Dt H → (b < NBUF)%nat → w_bufs w !! b = Some x → b_dev x = ROOTDEV →
  ∀ b', cached w b' (blockno x) → b' = b.
Proof.
  intros Hbc Hb Hx Hd b' Hc. eapply (bc_uniq _ _ _ _ _ Hbc); [done|]. split; [done|]. by exists x.
Qed.

(** A client changes the data of a buffer it holds. *)
Lemma bc_modify pi w V Dt H b n d :
  bcache_at pi w V Dt H → H !! b = Some n → blk d →
  bcache_at pi (w <| w_bufs ::= alter (λ x, x <| b_data := d |>) b |>) (<[Z.to_nat n := d]> V) Dt H.
Proof.
  intros Hbc Hh Hd. destruct (bc_held_buf _ _ _ _ _ _ _ Hbc Hh)
    as (x & Hx & Hb & Hdev & Hn & Hpos & HV & Hr & Hs & Hf).
  eapply (bc_update pi w _ V _ Dt _ H _ b x (x <| b_data := d |>)); rsimpl; try done.
  - by apply (alter_is_insert (λ x, x <| b_data := d |>)).
  - by rewrite length_insert.
  - apply Forall_insert; [apply Hbc|done].
  - lia.
  - intros m Hm. rewrite Hn in Hm. by rewrite list_lookup_insert_ne by done.
  - by eapply bc_cached_uniq.
  - split; rewrite Hh; rsimpl; [done|]. right. rewrite Hn.
    split_and!; try done; [|naive_solver].
    rewrite list_lookup_insert_eq; [done|]. by eapply lookup_lt_Some.
Qed.

(** [log_write] pins a buffer its caller holds. *)
Lemma bc_pin pi w V Dt H b n :
  bcache_at pi w V Dt H → H !! b = Some n →
  bcache_at pi (w <| w_bufs ::= alter (λ x, x <| b_flags ::= add_flag B_DIRTY |>) b |>)
    V ({[n]} ∪ Dt) H.
Proof.
  intros Hbc Hh. destruct (bc_held_buf _ _ _ _ _ _ _ Hbc Hh)
    as (x & Hx & Hb & Hdev & Hn & Hpos & HV & Hr & Hs & Hf).
  eapply (bc_update pi w _ V _ Dt _ H _ b x (x <| b_flags ::= add_flag B_DIRTY |>)); rsimpl; try done.
  - by apply (alter_is_insert (λ x, x <| b_flags ::= add_flag B_DIRTY |>)).
  - apply Hbc.
  - lia.
  - intros m Hm. rewrite Hn in Hm. set_solver.
  - by eapply bc_cached_uniq.
  - split; rewrite Hh; rsimpl; [done|]. right. rewrite Hn, Hf.
    split_and!; try done; [|naive_solver].
    rewrite (bool_decide_true (n ∈ {[n]} ∪ Dt)) by set_solver. by destruct (bool_decide _).
Qed.

(** [bget] takes a cached buffer. *)
Lemma bc_take pi w V Dt H b n x l :
  bcache_at pi w V Dt H → (b < NBUF)%nat → w_bufs w !! b = Some x → b_dev x = ROOTDEV →
  blockno x = n → H !! b = None → slocked l = 1 →
  bcache_at pi (w <| w_bufs := <[b := x <| refcnt := 1 |>]> (w_bufs w) |>
                  <| w_slocks ::= <[SL_buf b := l]> |>) V Dt (<[b := n]> H).
Proof.
  intros Hbc Hb Hx Hdev Hn Hh Hl.
  destruct (bc_buf _ _ _ _ _ Hbc b x Hb Hx) as [_ [(E & _)|(H1 & H2 & H3 & H4 & H5 & H6)]];
    [rewrite Hdev in E; done|].
  eapply (bc_update pi w _ V _ Dt _ H _ b x (x <| refcnt := 1 |>)); rsimpl; try done.
  - intros b' Hne. rewrite fn_lookup_insert_ne by congruence. by rewrite lookup_insert_ne.
  - apply Hbc.
  - by eapply bc_cached_uniq.
  - split; rsimpl; rewrite lookup_insert_eq, ?fn_lookup_insert; [done|]. right.
    split_and!; try done; naive_solver.
Qed.

(** [bread] loads block [n] into a buffer that is neither held nor dirty. *)
Lemma bc_load pi w V Dt H b n x d l :
  bcache_at pi w V Dt H → (b < NBUF)%nat → w_bufs w !! b = Some x →
  H !! b = None → unused x = true → (∀ b', ~ cached w b' n) → 0 ≤ n → V !! Z.to_nat n = Some d →
  slocked l = 1 →
  bcache_at pi
    (w <| w_bufs := <[b := mk_buf B_VALID ROOTDEV n 1 (b_prev x) (b_next x) d]> (w_bufs w) |>
       <| w_slocks ::= <[SL_buf b := l]> |>) V Dt (<[b := n]> H).
Proof.
  intros Hbc Hb Hx Hh Hun Hnc Hpos HV Hl.
  assert (HnD : n ∉ Dt).
  { intros Hin. destruct (bc_dirty _ _ _ _ _ Hbc n Hin) as [b' Hc]. by apply (Hnc b'). }
  eapply (bc_update pi w _ V _ Dt _ H _ b x (mk_buf B_VALID ROOTDEV n 1 (b_prev x) (b_next x) d));
    rsimpl; cbn [b_prev b_next blockno b_dev]; try done.
  - intros b' Hne. rewrite fn_lookup_insert_ne by congruence. by rewrite lookup_insert_ne.
  - apply Hbc.
  - intros b' Hc. by destruct (Hnc b').
  - intros Hdev Hne.
    destruct (bc_buf _ _ _ _ _ Hbc b x Hb Hx) as [_ [(E & _)|(H1 & H2 & H3 & H4 & H5 & H6)]];
      [rewrite Hdev in E; done|].
    assert (HxD : blockno x ∉ Dt).
    { intros Hin. rewrite bool_decide_true in H4 by done. unfold unused in Hun.
      rewrite H4 in Hun. by rewrite andb_false_r in Hun. }
    split; [|done]. by rewrite H3, H5.
  - split; rsimpl; cbn [b_prev b_next blockno b_dev b_data b_flags refcnt];
      rewrite lookup_insert_eq, ?fn_lookup_insert; [done|]. right.
    rewrite (bool_decide_false _ HnD). split_and!; try done; naive_solver.
Qed.

(** The cache after a block has been written to disk. *)
Lemma bc_write pi w V Dt H b n x :
  bcache_at pi w V Dt H → H !! b = Some n → w_bufs w !! b = Some x →
  bcache_at pi
    (w <| w_bufs := <[b := x <| b_flags := B_VALID |>]> (w_bufs w) |>
       <| w_disk ::= <[Z.to_nat n := b_data x]> |> <| w_hist ::= λ h, h ++ [(n, b_data x)] |>)
    V (Dt ∖ {[n]}) H.
Proof.
  intros Hbc Hh Hx. destruct (bc_held_buf _ _ _ _ _ _ _ Hbc Hh)
    as (y & Hy & Hb & Hdev & Hn & Hpos & HV & Hr & Hs & Hf).
  replace y with x in * by congruence. clear Hy y.
  eapply (bc_update pi w _ V _ Dt _ H _ b x (x <| b_flags := B_VALID |>)); rsimpl; try done.
  - by rewrite length_insert.
  - apply Hbc.
  - lia.
  - intros m Hm. rewrite Hn in Hm. by rewrite list_lookup_insert_ne by done.
  - intros m Hm. set_solver.
  - by eapply bc_cached_uniq.
  - split; rewrite Hh; rsimpl; [done|]. right. rewrite Hn.
    rewrite (bool_decide_false (n ∈ Dt ∖ {[n]})) by set_solver.
    split_and!; try done. naive_solver.
Qed.

(** [brelse] gives up a buffer that is dirty or agrees with the disk. *)
Lemma bc_drop pi w V Dt H b n x l :
  bcache_at pi w V Dt H → H !! b = Some n → w_bufs w !! b = Some x →
  n ∈ Dt ∨ V !! Z.to_nat n = w_disk w !! Z.to_nat n → slocked l = 0 →
  bcache_at pi (w <| w_bufs := <[b := x <| refcnt := 0 |>]> (w_bufs w) |>
                  <| w_slocks ::= <[SL_buf b := l]> |>) V Dt (delete b H).
Proof.
  intros Hbc Hh Hx Hsafe Hl. destruct (bc_held_buf _ _ _ _ _ _ _ Hbc Hh)
    as (y & Hy & Hb & Hdev & Hn & Hpos & HV & Hr & Hs & Hf).
  replace y with x in * by congruence. clear Hy y.
  eapply (bc_update pi w _ V _ Dt _ H _ b x (x <| refcnt := 0 |>)); rsimpl; try done.
  - intros b' Hne. rewrite fn_lookup_insert_ne by congruence. by rewrite lookup_delete_ne.
  - apply Hbc.
  - lia.
  - by eapply bc_cached_uniq.
  - split; rsimpl; rewrite lookup_delete_eq, ?fn_lookup_insert; [done|]. right. rewrite Hn.
    split_and!; try done. intros _ HnD. destruct Hsafe as [?|<-]; done.
Qed.
End cache_changes.

(** ** [bread] *)

Section operations.
  Context {D : DiskDriver} {L : DiskLaws D}.

Lemma first_buf_Some P bs l b :
  first_buf P bs l = Some b → b ∈ l ∧ ∃ x, bs !! b = Some x ∧ P x = true.
Proof.
  intros [Hin Hp]%find_some. split; [by apply list_elem_of_In|].
  destruct (bs !! b) as [x|]; [by exists x|done].
Qed.

Lemma first_buf_None P bs l b x :
  first_buf P bs l = None → b ∈ l → bs !! b = Some x → P x = false.
Proof.
  intros Hf Hin Hx. apply list_elem_of_In in Hin. pose proof (find_none _ _ Hf b Hin) as H.
  cbv beta in H. by rewrite Hx in H.
Qed.

Lemma bc_in_table pi w V Dt H : bcache_at pi w V Dt H → in_table (w_bufs w) pi.
Proof.
  intros Hbc b Hin. rewrite (bc_perm _ _ _ _ _ Hbc), elem_of_seq in Hin.
  split; [unfold head; lia|]. eapply bc_lookup; [done|lia].
Qed.

Lemma bc_pi pi w V Dt H b : bcache_at pi w V Dt H → b ∈ pi ↔ (b < NBUF)%nat.
Proof. intros Hbc. rewrite (bc_perm _ _ _ _ _ Hbc), elem_of_seq. lia. Qed.

Lemma bc_pi_len pi w V Dt H : bcache_at pi w V Dt H → length pi = NBUF.
Proof. intros Hbc. by rewrite (bc_perm _ _ _ _ _ Hbc), length_seq. Qed.

(** When fewer blocks are dirty or held than there are buffers, [bget] finds
    one to recycle. *)
Lemma bc_room pi w V Dt H :
  bcache_at pi w V Dt H → (size Dt + size H < NBUF)%nat →
  first_buf unused (w_bufs w) (rev pi) ≠ None.
Proof.
  intros Hbc Hroom Hf.
  set (blk_of := λ b, match w_bufs w !! b with Some x => blockno x | None => 0 end).
  set (heldl := filter (λ b, is_Some (H !! b)) (seq 0 NBUF)).
  set (freel := filter (λ b, ~ is_Some (H !! b)) (seq 0 NBUF)).
  assert (Hlen : (length heldl + length freel = NBUF)%nat).
  { unfold heldl, freel. rewrite <- length_app.
    by rewrite (filter_app_complement (λ b, is_Some (H !! b)) (seq 0 NBUF)), length_seq. }
  assert (Hh : (length heldl ≤ size H)%nat).
  { rewrite <- size_dom. rewrite <- (size_list_to_set (C := gset nat) heldl).
    - apply subseteq_size. intros b. rewrite elem_of_list_to_set. unfold heldl.
      rewrite list_elem_of_filter, elem_of_dom. tauto.
    - apply NoDup_filter, NoDup_seq. }
  assert (Hdirty : ∀ b, b ∈ freel → ∃ x, w_bufs w !! b = Some x ∧ b_dev x = ROOTDEV ∧ blockno x ∈ Dt).
  { intros b [Hnone Hb]%list_elem_of_filter. apply elem_of_seq in Hb.
    destruct (bc_lookup _ _ _ _ _ b Hbc ltac:(lia)) as [x Hx]. exists x. split; [done|].
    assert (Hpi : b ∈ rev pi) by (rewrite <- Permutation_rev, (bc_pi _ _ _ _ _ b Hbc); lia).
    pose proof (first_buf_None _ _ _ _ _ Hf Hpi Hx) as Hu. unfold unused in Hu.
    destruct (bc_buf _ _ _ _ _ Hbc b x ltac:(lia) Hx) as [[Hr _] Hcase].
    assert (HN : H !! b = None) by (destruct (H !! b); [exfalso; eauto|done]).
    rewrite HN in Hr. rewrite Hr in Hu. cbn [Z.eqb andb] in Hu.
    destruct Hcase as [(_ & E & _)|(H1 & H2 & H3 & H4 & _)]; [by rewrite E in Hu|].
    split; [done|]. apply (bool_decide_eq_true (blockno x ∈ Dt)).
    destruct (bool_decide (blockno x ∈ Dt)); [done|]. by rewrite H4 in Hu. }
  assert (Hfr : (length freel ≤ size Dt)%nat).
  { rewrite <- (length_fmap blk_of freel), <- (size_list_to_set (C := gset Z) (blk_of <$> freel)).
    - apply subseteq_size. intros n. rewrite elem_of_list_to_set, list_elem_of_fmap.
      intros (b & -> & Hb). destruct (Hdirty b Hb) as (x & Hx & _ & Hin).
      unfold blk_of. by rewrite Hx.
    - apply NoDup_fmap_2_strong; [|apply NoDup_filter, NoDup_seq].
      intros b b' Hb Hb' E. destruct (Hdirty b Hb) as (x & Hx & Hd & _).
      destruct (Hdirty b' Hb') as (x' & Hx' & Hd' & _).
      unfold blk_of in E. rewrite Hx, Hx' in E.
      apply list_elem_of_filter in Hb as [_ Hb], Hb' as [_ Hb'].
      apply elem_of_seq in Hb, Hb'.
      apply (bc_uniq _ _ _ _ _ Hbc _ _ (blockno x)); (split; [lia|]); eauto. }
  lia.
Qed.

(** The end of [bget]: drop the cache lock, lock the buffer. *)
Lemma bget_tail w bs b p i e :
  at_ease w → (∀ lk, lock_free w lk) → w_proc w = Some i → w_procs w !! i = Some p →
  slocked (w_slocks w (SL_buf b)) = 0 →
  (release L_bcache ;; acquiresleep (SL_buf b) ;; mret b)
      (KS ((acquired L_bcache w) <| w_bufs := bs |>) e) =
    Ok b (KS (w <| w_bufs := bs |>
                <| w_slocks ::= <[SL_buf b := held_by (w_slocks w (SL_buf b)) (pid p)]> |>) e).
Proof.
  intros [Hc _] Hl Hi Hp Hs. erewrite bind_ok; [|apply (release_calm L_bcache w); rsimpl; try done].
  unfold acquired. erewrite bind_ok; last first.
  { apply (acquiresleep_free (SL_buf b) i p); unfold calm, lock_free; rsimpl; try done. apply Hl. }
  unfold mret, M_ret, slock_set. weq.
Qed.

Lemma bget_hit pi w V Dt H n b x p i e :
  thread w → bcache_at pi w V Dt H → first_buf (matches ROOTDEV n) (w_bufs w) pi = Some b →
  w_bufs w !! b = Some x → H !! b = None → w_proc w = Some i → w_procs w !! i = Some p →
  bget ROOTDEV n (KS w e) =
    Ok b (KS (w <| w_bufs := <[b := x <| refcnt := 1 |>]> (w_bufs w) |>
                <| w_slocks ::= <[SL_buf b := held_by (w_slocks w (SL_buf b)) (pid p)]> |>) e).
Proof.
  intros (Ha & Hl & _) Hbc Hf Hx Hh Hi Hp. unfold bget.
  pose proof (first_buf_Some _ _ _ _ Hf) as [Hin _]. apply (bc_pi _ _ _ _ _ _ Hbc) in Hin.
  destruct (bc_buf _ _ _ _ _ Hbc b x Hin Hx) as [[Hr Hs] _]. rewrite Hh in Hr, Hs.
  kcall (acquire_free L_bcache w e (proj1 (Hl L_bcache))).
  assert (Hbs : w_bufs (acquired L_bcache w) = w_bufs w) by (unfold acquired; by rsimpl).
  kgetb; [rewrite Hbs, (bc_len _ _ _ _ _ Hbc); unfold head; lia|].
  rewrite Hbs in Hx0. rewrite (nxf_lookup _ _ _ Hx0), <- Hbs.
  erewrite bind_ok; [|apply (find_cached_eq ROOTDEV n _ e pi head); rewrite ?Hbs]; last first.
  { rewrite (bc_pi_len _ _ _ _ _ Hbc). lia. }
  { by eapply bc_in_table. }
  { apply Hbc. }
  rewrite Hbs, Hf. unfold modb. kstep. rewrite bufs_upd, Hbs.
  rewrite (alter_is_insert _ _ _ _ Hx), (bget_tail w _ b p i e Ha Hl Hi Hp Hs).
  assert (Hx1 : x <| refcnt ::= λ n, u32 (n + 1) |> = x <| refcnt := 1 |>) by
    (destruct x; cbn in Hr; subst; by usetf).
  by rewrite Hx1.
Qed.

Lemma bget_miss pi w V Dt H n b x p i e :
  thread w → bcache_at pi w V Dt H → first_buf (matches ROOTDEV n) (w_bufs w) pi = None →
  first_buf unused (w_bufs w) (rev pi) = Some b →
  w_bufs w !! b = Some x → H !! b = None → w_proc w = Some i → w_procs w !! i = Some p →
  bget ROOTDEV n (KS w e) =
    Ok b (KS (w <| w_bufs := <[b := mk_buf 0 ROOTDEV n 1 (b_prev x) (b_next x) (b_data x)]> (w_bufs w) |>
                <| w_slocks ::= <[SL_buf b := held_by (w_slocks w (SL_buf b)) (pid p)]> |>) e).
Proof.
  intros (Ha & Hl & _) Hbc Hf Hu Hx Hh Hi Hp. unfold bget.
  pose proof (first_buf_Some _ _ _ _ Hu) as [Hin _].
  rewrite <- Permutation_rev in Hin. apply (bc_pi _ _ _ _ _ _ Hbc) in Hin.
  destruct (bc_buf _ _ _ _ _ Hbc b x Hin Hx) as [[Hr Hs] _]. rewrite Hh in Hr, Hs.
  kcall (acquire_free L_bcache w e (proj1 (Hl L_bcache))).
  assert (Hbs : w_bufs (acquired L_bcache w) = w_bufs w) by (unfold acquired; by rsimpl).
  kgetb; [rewrite Hbs, (bc_len _ _ _ _ _ Hbc); unfold head; lia|].
  rewrite Hbs in Hx0. rewrite (nxf_lookup _ _ _ Hx0), <- Hbs.
  erewrite bind_ok; [|apply (find_cached_eq ROOTDEV n _ e pi head); rewrite ?Hbs]; last first.
  { rewrite (bc_pi_len _ _ _ _ _ Hbc). lia. }
  { by eapply bc_in_table. }
  { apply Hbc. }
  rewrite Hbs, Hf. erewrite bind_ok; [|apply (getb_eq head x0); by rewrite Hbs].
  rewrite (pvf_lookup _ _ _ Hx0), <- Hbs.
  erewrite bind_ok; [|apply (find_unused_eq _ e pi head); rewrite ?Hbs]; last first.
  { rewrite (bc_pi_len _ _ _ _ _ Hbc). lia. }
  { by eapply bc_in_table. }
  { apply Hbc. }
  rewrite Hbs, Hu. unfold modb. kstep. rewrite (bufs_upd (acquired L_bcache w)), !bufs_upd2, Hbs, !alter_alter.
  rewrite (alter_is_insert _ _ _ _ Hx), (bget_tail w _ b p i e Ha Hl Hi Hp Hs).
  by do 5 f_equal.
Qed.

Lemma bc_not_held pi w V Dt H b n x :
  bcache_at pi w V Dt H → (b < NBUF)%nat → w_bufs w !! b = Some x →
  blockno x = n → (∀ b', H !! b' ≠ Some n) → H !! b = None.
Proof.
  intros Hbc Hb Hx Hn Hno. destruct (H !! b) as [m|] eqn:E; [|done]. exfalso.
  destruct (bc_held_buf _ _ _ _ _ _ _ Hbc E) as (y & Hy & _ & _ & Hyn & _).
  apply (Hno b). rewrite E. congruence.
Qed.

Lemma cache_only_bufs w bs b l :
  cache_only w (w <| w_bufs := bs |> <| w_slocks ::= <[SL_buf b := l]> |>).
Proof.
  exists bs, (<[SL_buf b := l]> (w_slocks w)), (w_disk w), (w_hist w), (w_procs w).
  split_and!; [weq|apply roused_refl| |done]. intros i. by rewrite fn_lookup_insert_ne.
Qed.

(** The buffer [bread] returns: the one that caches the block, or the least
    recently used one that is free to recycle. *)
Definition pick (w : world) (pi : list nat) (n : Z) : option nat :=
  match first_buf (matches ROOTDEV n) (w_bufs w) pi with
  | Some b => Some b
  | None => first_buf unused (w_bufs w) (rev pi)
  end.

Lemma bread_spec pi w V Dt H n d e :
  thread w → bcache_at pi w V Dt H → 0 ≤ n → V !! Z.to_nat n = Some d →
  (∀ b, H !! b ≠ Some n) → n ∈ Dt ∨ (size Dt + size H < NBUF)%nat →
  ∃ b w', bread ROOTDEV n (KS w e) = Ok b (KS w' e) ∧ pick w pi n = Some b ∧ H !! b = None ∧
    bcache_at pi w' V Dt (<[b := n]> H) ∧
    cache_only w w' ∧ w_disk w' = w_disk w ∧ w_hist w' = w_hist w.
Proof.
  intros Ht Hbc Hpos HV Hno Hroom. pose proof Ht as (Ha & Hl & i & p & Hi & Hp). unfold bread, pick.
  destruct (first_buf (matches ROOTDEV n) (w_bufs w) pi) as [b|] eqn:Hf.
  - pose proof (first_buf_Some _ _ _ _ Hf) as [Hin (x & Hx & Hm)].
    apply (bc_pi _ _ _ _ _ _ Hbc) in Hin. apply andb_true_iff in Hm as [Hm1%Z.eqb_eq Hm2%Z.eqb_eq].
    pose proof (bc_not_held _ _ _ _ _ _ _ _ Hbc Hin Hx Hm2 Hno) as Hh.
    kcall (bget_hit pi w V Dt H n b x p i e Ht Hbc Hf Hx Hh Hi Hp).
    set (l := held_by (w_slocks w (SL_buf b)) (pid p)).
    pose proof (bc_take pi w V Dt H b n x l Hbc Hin Hx Hm1 Hm2 Hh eq_refl) as Hbc'.
    erewrite bind_ok; [|apply (getb_eq b (x <| refcnt := 1 |>)); rsimpl;
      apply list_lookup_insert_eq; by eapply lookup_lt_Some].
    destruct (bc_held_buf _ _ _ _ _ b n Hbc' ltac:(apply lookup_insert_eq))
      as (y & Hy & _ & _ & _ & _ & _ & _ & _ & Hfl). revert Hy. rsimpl.
    rewrite list_lookup_insert_eq by (by eapply lookup_lt_Some). intros [= <-]. revert Hfl. rsimpl.
    intros ->. destruct (bool_decide (n ∈ Dt)); cbn -[NBUF]; kstep;
      (eexists b, _; split_and!; [reflexivity|done|done|exact Hbc'|apply cache_only_bufs|by rsimpl..]).
  - assert (Hnc : ∀ b', ~ cached w b' n).
    { intros b' (Hb' & y & Hy & Hyd & Hyn). apply (bc_pi _ _ _ _ _ _ Hbc) in Hb'.
      pose proof (first_buf_None _ _ _ _ _ Hf Hb' Hy) as E. unfold matches in E.
      by rewrite Hyd, Hyn, !Z.eqb_refl in E. }
    destruct Hroom as [HnD|Hroom].
    { destruct (bc_dirty _ _ _ _ _ Hbc n HnD) as [b' Hc]. by destruct (Hnc b'). }
    destruct (first_buf unused (w_bufs w) (rev pi)) as [b|] eqn:Hu;
      [|by destruct (bc_room _ _ _ _ _ Hbc Hroom)].
    pose proof (first_buf_Some _ _ _ _ Hu) as [Hin (x & Hx & Hux)].
    rewrite <- Permutation_rev in Hin. apply (bc_pi _ _ _ _ _ _ Hbc) in Hin.
    assert (Hh : H !! b = None).
    { destruct (bc_buf _ _ _ _ _ Hbc b x Hin Hx) as [[Hr _] _]. unfold unused in Hux.
      destruct (H !! b); [by rewrite Hr in Hux|done]. }
    kcall (bget_miss pi w V Dt H n b x p i e Ht Hbc Hf Hu Hx Hh Hi Hp).
    set (l := held_by (w_slocks w (SL_buf b)) (pid p)).
    set (x1 := mk_buf 0 ROOTDEV n 1 (b_prev x) (b_next x) (b_data x)).
    assert (Hx1 : <[b := x1]> (w_bufs w) !! b = Some x1) by
      (apply list_lookup_insert_eq; by eapply lookup_lt_Some).
    erewrite bind_ok; [|apply (getb_eq b x1); by rsimpl].
    change (negb (has B_VALID (b_flags x1))) with true. cbv iota.
    assert (HVd : w_disk w !! Z.to_nat n = Some d).
    { rewrite <- (bc_view _ _ _ _ _ Hbc); [done|]. intros b'. rewrite Z2Nat.id by done. apply Hnc. }
    assert (Hld : loaded b x1 d (w <| w_bufs := <[b := x1]> (w_bufs w) |>
                                   <| w_slocks ::= <[SL_buf b := l]> |>) =
      w <| w_bufs := <[b := mk_buf B_VALID ROOTDEV n 1 (b_prev x) (b_next x) d]> (w_bufs w) |>
        <| w_slocks ::= <[SL_buf b := l]> |>).
    { unfold loaded. weq. rewrite (alter_is_insert _ _ _ _ Hx1), list_insert_insert_eq. by f_equal. }
    erewrite bind_ok; [|apply (iderw_reads b x1 _ _ d); unfold calm, lock_free; rsimpl; try done].
    + rewrite Hld. kstep. eexists b, _.
      split_and!; [reflexivity|done|done|by eapply bc_load|apply cache_only_bufs|by rsimpl..].
    + apply Ha.
    + apply Hl.
    + by rewrite fn_lookup_insert.
    + eapply disk_ready_frame; [| |apply (bc_ready _ _ _ _ _ Hbc)]; by rsimpl.
Qed.

Lemma cache_only_disk w bs f g :
  length (f (w_disk w)) = length (w_disk w) →
  cache_only w (w <| w_bufs := bs |> <| w_disk ::= f |> <| w_hist ::= g |>).
Proof.
  intros Hf. exists bs, (w_slocks w), (f (w_disk w)), (g (w_hist w)), (w_procs w).
  split_and!; [weq|apply roused_refl|done|done].
Qed.

(** ** [bwrite] and [brelse] *)

Lemma has_dirty fl : flags_ok fl → has B_DIRTY (add_flag B_DIRTY fl) = true.
Proof. by intros [->|[->| ->]]. Qed.

Lemma bwrite_spec pi w V Dt H b n d e :
  thread w → bcache_at pi w V Dt H → H !! b = Some n → V !! Z.to_nat n = Some d →
  ∃ w', bwrite b (KS w e) = Ok tt (KS w' e) ∧ bcache_at pi w' V (Dt ∖ {[n]}) H ∧
    cache_only w w' ∧ w_disk w' = <[Z.to_nat n := d]> (w_disk w) ∧
    w_hist w' = w_hist w ++ [(n, d)].
Proof.
  intros (Ha & Hl & _) Hbc Hh HV. destruct (bc_held_buf _ _ _ _ _ _ _ Hbc Hh)
    as (x & Hx & Hb & Hdev & Hn & Hpos & HVx & Hr & Hs & Hf).
  replace d with (b_data x) by congruence. unfold bwrite, modb.
  kcall (holdingsleep_eq (SL_buf b) w e (proj1 Ha) (Hl _)). rewrite Hs. cbn [Z.eqb negb]. kstep.
  rewrite bufs_upd, (alter_is_insert _ _ _ _ Hx).
  set (x1 := x <| b_flags ::= add_flag B_DIRTY |>).
  assert (Hx1 : <[b := x1]> (w_bufs w) !! b = Some x1) by
    (apply list_lookup_insert_eq; by eapply lookup_lt_Some).
  assert (Hd1 : has B_DIRTY (b_flags x1) = true).
  { unfold x1. rsimpl. rewrite Hf. by destruct (bool_decide _). }
  assert (Hwr : written b x1 (w <| w_bufs := <[b := x1]> (w_bufs w) |>) =
    w <| w_bufs := <[b := x <| b_flags := B_VALID |>]> (w_bufs w) |>
      <| w_disk ::= <[Z.to_nat n := b_data x]> |> <| w_hist ::= λ h, h ++ [(n, b_data x)] |>).
  { unfold written. weq.
    - rewrite (alter_is_insert _ _ _ _ Hx1), list_insert_insert_eq. f_equal. unfold x1. rsimpl.
      rewrite Hf. destruct (bool_decide _); by destruct x; usetf.
    - unfold x1. rsimpl. by rewrite Hn.
    - unfold x1. rsimpl. by rewrite Hn. }
  rewrite (iderw_writes b x1); unfold calm, lock_free; rsimpl; try done.
  - rewrite Hwr. eexists. split_and!; [reflexivity|by eapply bc_write| |by rsimpl..].
    apply cache_only_disk. by rewrite length_insert.
  - apply Ha.
  - apply Hl.
  - lia.
  - eapply disk_ready_frame; [| |apply (bc_ready _ _ _ _ _ Hbc)]; by rsimpl.
  - unfold x1. rsimpl. rewrite Hn. rewrite <- (bc_size _ _ _ _ _ Hbc).
    apply lookup_lt_Some in HVx. lia.
Qed.

Lemma wake_all_roused c w : Forall2 roused (w_procs w) (wake_one c <$> w_procs w).
Proof.
  induction (w_procs w) as [|p ps IH]; constructor; [|done]. unfold wake_one.
  destruct (bool_decide (state p = SLEEPING)) eqn:E; cbn [andb]; [|by left].
  destruct (bool_decide (p_chan p = _)); [right|by left].
  split; [by apply bool_decide_eq_true in E|done].
Qed.

(** The invariant only looks at the buffers, their locks and the disk. *)
Lemma bcache_at_frame pi w w' V Dt H :
  w_bufs w' = w_bufs w → w_slocks w' = w_slocks w → w_disk w' = w_disk w →
  w_disksize w' = w_disksize w → bcache_at pi w V Dt H → bcache_at pi w' V Dt H.
Proof.
  intros E1 E2 E3 E4 [H1 H2 H3 H4 H5 H6 H7 H8 H9 H10 H11].
  split; unfold cached in *; rewrite ?E1, ?E3; try done.
  - intros b x Hb Hx. destruct (H4 b x Hb Hx) as [Ho1 Ho2]. split; by rewrite ?E2, ?E3.
  - eapply disk_ready_frame; [done|by rewrite E3|done].
Qed.

Lemma cached_nolinks w bs b n :
  nolinks <$> bs = nolinks <$> w_bufs w →
  cached (w <| w_bufs := bs |>) b n ↔ cached w b n.
Proof.
  intros Hl. unfold cached. rsimpl. split; intros (Hb & x & Hx & H1 & H2).
  - destruct (nolinks_inv _ _ _ _ Hl Hx) as (y & Hy & E). split; [done|]. exists y.
    split; [done|]. rewrite E in H1, H2. revert H1 H2. by rsimpl.
  - destruct (nolinks_inv _ _ _ _ (eq_sym Hl) Hx) as (y & Hy & E). split; [done|]. exists y.
    split; [done|]. rewrite E in H1, H2. revert H1 H2. by rsimpl.
Qed.

(** Relinking keeps everything but the order of the ring. *)
Lemma bc_relink pi pi' w V Dt H bs :
  bcache_at pi w V Dt H → nolinks <$> bs = nolinks <$> w_bufs w → pi' ≡ₚ pi →
  seg (nxf bs) (pvf bs) head pi' head → bcache_at pi' (w <| w_bufs := bs |>) V Dt H.
Proof.
  intros [H1 H2 H3 H4 H5 H6 H7 H8 H9 H10 H11] Hl Hpi Hs.
  split; rsimpl; try done.
  - by rewrite (nolinks_length _ _ Hl).
  - by rewrite Hpi.
  - intros b x Hb Hx. destruct (nolinks_inv _ _ _ _ Hl Hx) as (y & Hy & E).
    destruct (H4 b y Hb Hy) as [Ho1 Ho2]. rewrite E. split; by rsimpl.
  - intros b b' n Hc%(cached_nolinks w bs _ _ Hl) Hc'%(cached_nolinks w bs _ _ Hl). by eapply H5.
  - intros n Hn. apply H6. intros b Hc. by apply (Hn b), (cached_nolinks w bs _ _ Hl).
  - intros n Hn. destruct (H7 n Hn) as [b Hc]. exists b. by apply cached_nolinks.
  - eapply disk_ready_frame; [| |done]; by rsimpl.
Qed.

Lemma filter_ne_middle (l1 l2 : list nat) b :
  NoDup (l1 ++ b :: l2) → filter (λ k, k ≠ b) (l1 ++ b :: l2) = l1 ++ l2.
Proof.
  intros Hd. rewrite <- Permutation_middle in Hd. apply NoDup_cons in Hd as [Hb _].
  rewrite filter_app, filter_cons_False by (intros Hn; by apply Hn).
  assert (Hk : ∀ l : list nat, b ∉ l → filter (λ k, k ≠ b) l = l).
  { induction l as [|k l IH]; intros Hk; [done|].
    rewrite filter_cons_True by set_solver. by rewrite IH by set_solver. }
  by rewrite !Hk by set_solver.
Qed.

(** The world of [brelse] once the buffer is unlocked and unreferenced. *)
Lemma brelse_drop w V Dt H pi b n x :
  bcache_at pi w V Dt H → H !! b = Some n → w_bufs w !! b = Some x →
  n ∈ Dt ∨ V !! Z.to_nat n = w_disk w !! Z.to_nat n →
  let w1 := wake_all (C_slk (SL_buf b)) (slock_set (SL_buf b) (let_go (w_slocks w (SL_buf b))) w) in
  bcache_at pi (w1 <| w_bufs := <[b := x <| refcnt := 0 |>]> (w_bufs w) |>) V Dt (delete b H).
Proof.
  intros Hbc Hh Hx Hsafe w1.
  eapply bcache_at_frame;
    [..|by apply (bc_drop pi w V Dt H b n x (let_go (w_slocks w (SL_buf b))))];
    unfold w1, wake_all, slock_set; by rsimpl.
Qed.

Lemma cache_only_drop w c s l bs :
  (∀ i, s ≠ SL_inode i) →
  cache_only w ((wake_all c (slock_set s l w)) <| w_bufs := bs |>).
Proof.
  intros Hs. exists bs, (<[s := l]> (w_slocks w)), (w_disk w), (w_hist w), (wake_one c <$> w_procs w).
  unfold wake_all, slock_set. split_and!; [weq|apply wake_all_roused| |done].
  intros i. by rewrite fn_lookup_insert_ne.
Qed.

Lemma brelse_spec pi w V Dt H b n e :
  thread w → bcache_at pi w V Dt H → H !! b = Some n →
  n ∈ Dt ∨ V !! Z.to_nat n = w_disk w !! Z.to_nat n →
  ∃ w', brelse b (KS w e) = Ok tt (KS w' e) ∧
    bcache_at (b :: filter (λ k, k ≠ b) pi) w' V Dt (delete b H) ∧
    cache_only w w' ∧ w_disk w' = w_disk w ∧ w_hist w' = w_hist w.
Proof.
  intros (Ha & Hl & _) Hbc Hh Hsafe. destruct (bc_held_buf _ _ _ _ _ _ _ Hbc Hh)
    as (x & Hx & Hb & Hdev & Hn & Hpos & HVx & Hr & Hs & Hf).
  unfold brelse, modb.
  kcall (holdingsleep_eq (SL_buf b) w e (proj1 Ha) (Hl _)). rewrite Hs. cbn [Z.eqb negb].
  kcall (releasesleep_eq (SL_buf b) w e Ha (Hl _) (Hl _)).
  pose proof (brelse_drop w V Dt H pi b n x Hbc Hh Hx Hsafe) as Hbc1. cbv zeta in Hbc1.
  set (w1 := wake_all _ _) in *.
  assert (Hl1 : lock_free w1 L_bcache) by (unfold lock_free, w1, wake_all, slock_set; rsimpl; apply Hl).
  assert (Hc1 : calm w1) by (unfold calm, w1, wake_all, slock_set; rsimpl; apply Ha).
  assert (Hb1 : w_bufs (acquired L_bcache w1) = w_bufs w) by
    (unfold w1, acquired, wake_all, slock_set; by rsimpl).
  kcall (acquire_free L_bcache w1 e (proj1 Hl1)). kstep.
  rewrite bufs_upd, Hb1, (alter_is_insert _ _ _ _ Hx).
  replace (x <| refcnt ::= _ |>) with (x <| refcnt := 0 |>) by
    (destruct x; cbn in Hr; subst; by usetf).
  set (bs := <[b := x <| refcnt := 0 |>]> (w_bufs w)) in *.
  erewrite bind_ok; [|apply (getb_eq b (x <| refcnt := 0 |>)); rsimpl;
    apply list_lookup_insert_eq; by eapply lookup_lt_Some].
  rsimpl. cbn [Z.eqb].
  assert (Hpib : b ∈ pi) by by apply (bc_pi _ _ _ _ _ _ Hbc).
  apply list_elem_of_split in Hpib as (l1 & l2 & Hpi).
  assert (Hnd : NoDup pi) by (rewrite (bc_perm _ _ _ _ _ Hbc); apply NoDup_seq).
  destruct (relink_eq b l1 l2 ((acquired L_bcache w1) <| w_bufs := bs |>) e) as (bs' & Hre & Hnl & Hseg);
    rsimpl; rewrite <- ?Hpi.
  { unfold bs. rewrite length_insert. apply Hbc. }
  { done. }
  { apply Forall_forall. intros k. by apply (bc_pi _ _ _ _ _ _ Hbc). }
  { pose proof (bc_ring _ _ _ _ _ Hbc1) as Hring. revert Hring. by rsimpl. }
  kcall Hre. rewrite (release_calm L_bcache w1) by (done || by rsimpl).
  assert (Hw : (acquired L_bcache w1) <| w_bufs := bs |> <| w_bufs := bs' |>
      <| w_cpu := w_cpu w1 |> <| w_locks := w_locks w1 |> = w1 <| w_bufs := bs' |>) by
    (unfold acquired; weq).
  rewrite Hw. eexists. split; [reflexivity|]. rewrite Hpi, filter_ne_middle by (by rewrite <- Hpi).
  split_and!; [| |unfold w1, wake_all, slock_set; by rsimpl..].
  - assert (Hw1 : w1 <| w_bufs := bs' |> = (w1 <| w_bufs := bs |>) <| w_bufs := bs' |>) by weq.
    rewrite Hw1. apply (bc_relink pi); [done| | |done].
    + revert Hnl. by rsimpl.
    + rewrite Hpi. by rewrite Permutation_middle.
  - by apply cache_only_drop.
Qed.
End operations.

(** ** [binit] *)

Definition free_slk : sleeplock := mk_sleeplock 0 "buffer" 0.

Definition slk_ready (b : nat) (w : world) : world :=
  w <| w_locks ::= <[L_slk (SL_buf b) := initlock_val "sleep lock"]> |>
    <| w_slocks ::= <[SL_buf b := free_slk]> |>.

Lemma initsleeplock_eq b w e :
  initsleeplock (SL_buf b) "buffer" (KS w e) = Ok tt (KS (slk_ready b w) e).
Proof.
  unfold initsleeplock, initlock, modslk. kstep. rewrite modw_eq. unfold slk_ready. weq.
  rewrite !fn_lookup_insert, !fn_insert_insert. unfold free_slk. by f_equal.
Qed.

Lemma binit_one_eq b w e :
  (head < length (w_bufs w))%nat →
  binit_one b (KS w e) = link_front b (KS (slk_ready b w) e).
Proof.
  intros Hh. unfold binit_one, link_front, modb.
  assert (Hbs : w_bufs (slk_ready b w) = w_bufs w) by (unfold slk_ready; by rsimpl).
  kgetb; [done|]. kstep. erewrite bind_ok; [|apply initsleeplock_eq].
  kcall (getb_eq head x (slk_ready b w) e ltac:(by rewrite Hbs)). kstep.
  kgetb; [unfold slk_ready; rsimpl; by rewrite !length_alter|]. kstep.
  erewrite bind_ok; [|apply (getb_eq head x0); revert Hx0; unfold slk_ready; by rsimpl]. kstep.
  rewrite !modw_eq. unfold slk_ready. weq.
Qed.

Section init.
  Context {D : DiskDriver} {L : DiskLaws D}.

Record booting (w0 w : world) (k : nat) : Prop := {
  bt_eq : ∃ bs sl lo, w = w0 <| w_bufs := bs |> <| w_slocks := sl |> <| w_locks := lo |>;
  bt_bufs : nolinks <$> w_bufs w = nolinks <$> w_bufs w0;
  bt_ring : seg (nxf (w_bufs w)) (pvf (w_bufs w)) head (rev (seq 0 k)) head;
  bt_slk b : (b < k)%nat → w_slocks w (SL_buf b) = free_slk;
  bt_ino i : w_slocks w (SL_inode i) = w_slocks w0 (SL_inode i);
  bt_lock lk : lock_free w0 lk → lock_free w lk
}.

Lemma binit_step w0 w k e :
  length (w_bufs w0) = S NBUF → (k < NBUF)%nat → booting w0 w k →
  ∃ w', binit_one k (KS w e) = Ok tt (KS w' e) ∧ booting w0 w' (S k).
Proof.
  intros Hlen Hk [(bs & sl & lo & Hw) H2 H3 H4 H5 H6].
  pose proof (nolinks_length _ _ H2) as Hlw.
  rewrite binit_one_eq by (unfold head; lia).
  assert (Hbs : w_bufs (slk_ready k w) = w_bufs w) by (unfold slk_ready; by rsimpl).
  pose proof (seg_first _ _ _ _ _ H3) as Hf.
  destruct (link_front_eq k (slk_ready k w) e) as (bs' & Hr & Hn & Hnx & Hpv); rewrite ?Hbs.
  { lia. }
  { unfold head; lia. }
  { unfold head; lia. }
  { rewrite <- Permutation_rev, elem_of_app, elem_of_seq, list_elem_of_singleton in Hf.
    rewrite Hlw, Hlen. unfold head in Hf |- *. lia. }
  rewrite Hr. eexists. split; [reflexivity|]. split; unfold slk_ready; rsimpl.
  - exists bs', (<[SL_buf k := free_slk]> sl), (<[L_slk (SL_buf k) := initlock_val "sleep lock"]> lo).
    rewrite Hw. weq.
  - by rewrite Hn, Hbs.
  - rewrite seq_S, rev_app_distr. cbn [rev app Nat.add]. rewrite Hbs in Hnx, Hpv.
    rewrite Hnx, Hpv. apply seg_link; [done| | | |].
    + rewrite elem_of_cons, elem_of_app, <- Permutation_rev, elem_of_seq, list_elem_of_singleton.
      unfold head. lia.
    + rewrite <- Permutation_rev, elem_of_seq. unfold head. lia.
    + rewrite <- Permutation_rev. apply NoDup_seq.
    + rewrite <- Permutation_rev, elem_of_seq. unfold head. lia.
  - intros b Hb. rewrite fn_lookup_insert_case. case_decide as E; [done|]. apply H4.
    assert (b ≠ k) by congruence. lia.
  - intros i. by rewrite fn_lookup_insert_ne.
  - intros lk Hlk. unfold lock_free. rsimpl. rewrite fn_lookup_insert_case.
    case_decide; [done|]. by apply H6.
Qed.

Lemma binit_loop w0 w e n :
  length (w_bufs w0) = S NBUF → (n ≤ NBUF)%nat → booting w0 w 0 →
  ∃ w', iterM binit_one (seq 0 n) (KS w e) = Ok tt (KS w' e) ∧ booting w0 w' n.
Proof.
  intros Hlen Hn Hb. induction n as [|n IH]; [by exists w|].
  destruct IH as (w1 & Hr & Hb1); [lia|].
  destruct (binit_step w0 w1 n e Hlen ltac:(lia) Hb1) as (w2 & Hr2 & Hb2).
  exists w2. split; [|done]. rewrite seq_S, iterM_app. kcall Hr. cbn [Nat.add iterM]. by kcall Hr2.
Qed.

(** [binit] makes the ring and leaves an empty cache: the clients see the disk. *)
Lemma binit_spec w e :
  w_bufs w = replicate (S NBUF) zero_buf → Forall blk (w_disk w) → disk_ready w →
  (∀ lk, lock_free w lk) →
  ∃ w', binit (KS w e) = Ok tt (KS w' e) ∧
    bcache_at (rev (seq 0 NBUF)) w' (w_disk w) ∅ ∅ ∧ (∀ lk, lock_free w' lk) ∧
    ∃ bs sl lo, w' = w <| w_bufs := bs |> <| w_slocks := sl |> <| w_locks := lo |>.
Proof.
  intros Hbs Hblk Hrdy Hlk. unfold binit, initlock, modb. kstep.
  match goal with |- context [iterM _ _ (KS ?x _)] => set (w1 := x) end.
  assert (Hb1 : w_bufs w1 = <[head := zero_buf <| b_prev := head |> <| b_next := head |>]> (w_bufs w)).
  { subst w1. rsimpl. rewrite alter_alter.
    by rewrite (alter_is_insert _ _ _ zero_buf) by (by rewrite Hbs). }
  assert (Hh : w_bufs w1 !! head = Some (zero_buf <| b_prev := head |> <| b_next := head |>)).
  { rewrite Hb1. apply list_lookup_insert_eq. rewrite Hbs, length_replicate. unfold head. lia. }
  destruct (binit_loop w w1 e NBUF) as (w' & Hr & [(bs & sl & lo & Hw) H2 H3 H4 H5 H6]);
    [by rewrite Hbs, length_replicate|done| |].
  { split; try done.
    - exists (w_bufs w1), (w_slocks w), (<[L_bcache := initlock_val "bcache"]> (w_locks w)).
      subst w1. weq.
    - subst w1. rsimpl. by rewrite nolinks_next, nolinks_prev.
    - cbn. unfold nxf, pvf. rewrite Hh. by rsimpl.
    - intros b Hb. lia.
    - intros lk Hl. subst w1. unfold lock_free. rsimpl. rewrite fn_lookup_insert_case.
      by case_decide; [|apply Hl]. }
  assert (Hbuf : ∀ b x, w_bufs w' !! b = Some x →
            refcnt x = 0 ∧ b_dev x = 0 ∧ b_flags x = 0).
  { intros b x Hx. destruct (nolinks_inv _ _ _ _ H2 Hx) as (y & Hy & E).
    rewrite Hbs in Hy. apply lookup_replicate in Hy as [-> _]. rewrite E. by rsimpl. }
  assert (Hnc : ∀ b n, ~ cached w' b n).
  { intros b n (_ & x & Hx & Hd & _). destruct (Hbuf b x Hx) as (_ & E & _). by rewrite E in Hd. }
  exists w'. split_and!; [exact Hr| |intros lk; by apply H6|by exists bs, sl, lo].
  assert (Hdk : w_disk w' = w_disk w) by (rewrite Hw; by rsimpl).
  split; try done.
  - by rewrite (nolinks_length _ _ H2), Hbs, length_replicate.
  - by rewrite <- Permutation_rev.
  - intros b x Hb Hx. destruct (Hbuf b x Hx) as (E1 & E2 & E3).
    split; rewrite lookup_empty; [by rewrite H4|by left].
  - intros b b' n Hc. by destruct (Hnc b n).
  - by rewrite Hdk.
  - by rewrite Hdk.
  - eapply disk_ready_frame; [| |done]; rewrite Hw; by rsimpl.
Qed.
End init.

(** ** The operations, for the layers above

    [fs_thread w V Dt H]: a kernel thread over a cache in state [V], [Dt], [H]. *)

Section interface.
  Context {D : DiskDriver} {L : DiskLaws D}.

Definition fs_thread (w : world) (V : list block) (Dt : gset Z) (H : gmap nat Z) : Prop :=
  thread w ∧ bcache w V Dt H.

Lemma bread_ok w V Dt H n d e :
  fs_thread w V Dt H → 0 ≤ n → V !! Z.to_nat n = Some d →
  (∀ b, H !! b ≠ Some n) → n ∈ Dt ∨ (size Dt + size H < NBUF)%nat →
  ∃ b w' x, bread ROOTDEV n (KS w e) = Ok b (KS w' e) ∧ fs_thread w' V Dt (<[b := n]> H) ∧
    H !! b = None ∧ w_bufs w' !! b = Some x ∧ b_data x = d ∧ blockno x = n ∧
    cache_only w w' ∧ w_disk w' = w_disk w ∧ w_hist w' = w_hist w.
Proof.
  intros [Ht (pi & Hbc)] Hpos HV Hno Hroom.
  destruct (bread_spec pi w V Dt H n d e Ht Hbc Hpos HV Hno Hroom)
    as (b & w' & Hr & _ & Hh & Hbc' & Hc & Hdk & Hhi).
  destruct (bc_held_buf _ _ _ _ _ b n Hbc' (lookup_insert_eq _ _ _))
    as (x & Hx & _ & _ & Hxn & _ & HVx & _).
  exists b, w', x. split_and!; try done; [|congruence].
  split; [by eapply cache_only_thread|by eexists].
Qed.

Lemma held_ok w V Dt H b n :
  fs_thread w V Dt H → H !! b = Some n →
  ∃ x, w_bufs w !! b = Some x ∧ blockno x = n ∧ 0 ≤ n ∧ V !! Z.to_nat n = Some (b_data x).
Proof.
  intros [_ (pi & Hbc)] Hh.
  destruct (bc_held_buf _ _ _ _ _ b n Hbc Hh) as (x & Hx & _ & _ & Hxn & Hpos & HVx & _).
  by exists x.
Qed.

Lemma modify_ok w V Dt H b n d e :
  fs_thread w V Dt H → H !! b = Some n → blk d →
  ∃ w', modb b (λ x, x <| b_data := d |>) (KS w e) = Ok tt (KS w' e) ∧
    fs_thread w' (<[Z.to_nat n := d]> V) Dt H ∧
    cache_only w w' ∧ w_disk w' = w_disk w ∧ w_hist w' = w_hist w.
Proof.
  intros [Ht (pi & Hbc)] Hh Hd. unfold modb. rewrite modw_eq. eexists. split; [reflexivity|].
  pose proof (cache_only_upd w (alter (λ x, x <| b_data := d |>) b)) as Hc.
  split_and!; [|done|by rsimpl..]. split; [by eapply cache_only_thread|].
  eexists. by apply bc_modify.
Qed.

Lemma pin_ok w V Dt H b n e :
  fs_thread w V Dt H → H !! b = Some n →
  ∃ w', modb b (λ x, x <| b_flags ::= add_flag B_DIRTY |>) (KS w e) = Ok tt (KS w' e) ∧
    fs_thread w' V ({[n]} ∪ Dt) H ∧
    cache_only w w' ∧ w_disk w' = w_disk w ∧ w_hist w' = w_hist w.
Proof.
  intros [Ht (pi & Hbc)] Hh. unfold modb. rewrite modw_eq. eexists. split; [reflexivity|].
  pose proof (cache_only_upd w (alter (λ x, x <| b_flags ::= add_flag B_DIRTY |>) b)) as Hc.
  split_and!; [|done|by rsimpl..]. split; [by eapply cache_only_thread|].
  eexists. by apply bc_pin.
Qed.

Lemma bwrite_ok w V Dt H b n d e :
  fs_thread w V Dt H → H !! b = Some n → V !! Z.to_nat n = Some d →
  ∃ w', bwrite b (KS w e) = Ok tt (KS w' e) ∧ fs_thread w' V (Dt ∖ {[n]}) H ∧
    cache_only w w' ∧ w_disk w' = <[Z.to_nat n := d]> (w_disk w) ∧
    w_hist w' = w_hist w ++ [(n, d)].
Proof.
  intros [Ht (pi & Hbc)] Hh HV.
  destruct (bwrite_spec pi w V Dt H b n d e Ht Hbc Hh HV) as (w' & Hr & Hbc' & Hc & Hdk & Hhi).
  exists w'. split_and!; try done. split; [by eapply cache_only_thread|by eexists].
Qed.

Lemma brelse_ok w V Dt H b n e :
  fs_thread w V Dt H → H !! b = Some n →
  n ∈ Dt ∨ V !! Z.to_nat n = w_disk w !! Z.to_nat n →
  ∃ w', brelse b (KS w e) = Ok tt (KS w' e) ∧ fs_thread w' V Dt (delete b H) ∧
    cache_only w w' ∧ w_disk w' = w_disk w ∧ w_hist w' = w_hist w.
Proof.
  intros [Ht (pi & Hbc)] Hh Hs.
  destruct (brelse_spec pi w V Dt H b n e Ht Hbc Hh Hs) as (w' & Hr & Hbc' & Hc & Hdk & Hhi).
  exists w'. split_and!; try done. split; [by eapply cache_only_thread|by eexists].
Qed.
End interface.

(** ** The cache is transparent *)

(** What clients do with the cache: look at a block, or replace its contents
    and write it through. *)
Inductive cop := Look (n : Z) | Put (n : Z) (d : block).

Definition cop_block (o : cop) : Z := match o with Look n | Put n _ => n end.

Section clients.
  Context {D : DiskDriver}.

Definition run_cop (o : cop) : K (option block) :=
  match o with
  | Look n =>
      b ← bread ROOTDEV n;
      x ← getb b;
      brelse b ;;
      mret (Some (b_data x))
  | Put n d =>
      b ← bread ROOTDEV n;
      modb b (λ x, x <| b_data := d |>) ;;
      bwrite b ;;
      brelse b ;;
      mret None
  end.

Fixpoint run_cops (os : list cop) : K (list (option block)) :=
  match os with
  | [] => mret []
  | o :: os => r ← run_cop o; rs ← run_cops os; mret (r :: rs)
  end.
End clients.

(** The same on an array of blocks. *)
Definition spec_cop (o : cop) (V : list block) : option block * list block :=
  match o with
  | Look n => (V !! Z.to_nat n, V)
  | Put n d => (None, <[Z.to_nat n := d]> V)
  end.

Fixpoint spec_cops (os : list cop) (V : list block) : list (option block) * list block :=
  match os with
  | [] => ([], V)
  | o :: os => let '(r, V1) := spec_cop o V in
               let '(rs, V2) := spec_cops os V1 in (r :: rs, V2)
  end.

Definition cop_ok (size : nat) (o : cop) : Prop :=
  0 ≤ cop_block o < Z.of_nat size ∧ match o with Look _ => True | Put _ d => blk d end.

Section transparency.
  Context {D : DiskDriver} {L : DiskLaws D}.

Lemma run_cop_spec w V o e :
  fs_thread w V ∅ ∅ → w_disk w = V → cop_ok (length V) o →
  ∃ w', run_cop o (KS w e) = Ok (fst (spec_cop o V)) (KS w' e) ∧
    fs_thread w' (snd (spec_cop o V)) ∅ ∅ ∧ w_disk w' = snd (spec_cop o V).
Proof.
  intros Hf Hdk [Hn Hd].
  destruct (lookup_lt_is_Some_2 V (Z.to_nat (cop_block o))) as [d0 Hd0]; [lia|].
  destruct (bread_ok w V ∅ ∅ (cop_block o) d0 e) as
    (b & w1 & x & Hr & Hf1 & _ & Hx & Hxd & _ & _ & Hdk1 & _); [done|lia|done|done| |].
  { right. rewrite size_empty, map_size_empty. vm_compute. lia. }
  assert (Hh : (<[b := cop_block o]> ∅ : gmap nat Z) !! b = Some (cop_block o)) by apply lookup_insert_eq.
  assert (Hdel : delete b (<[b := cop_block o]> ∅ : gmap nat Z) = ∅) by
    (by rewrite delete_insert_eq, delete_empty).
  destruct o as [n|n d]; cbn [cop_block run_cop spec_cop fst snd] in *.
  - destruct (brelse_ok w1 V ∅ _ b n e Hf1 Hh) as (w2 & Hr2 & Hf2 & _ & Hdk2 & _).
    { right. by rewrite Hdk1, Hdk. }
    rewrite Hdel in Hf2. exists w2. kcall Hr. kcall (getb_eq b x w1 e Hx). kcall Hr2.
    split_and!; [by rewrite Hd0, Hxd|done|by rewrite Hdk2, Hdk1, Hdk].
  - destruct (modify_ok w1 V ∅ _ b n d e Hf1 Hh Hd) as (w2 & Hr2 & Hf2 & _ & Hdk2 & _).
    assert (HV2 : <[Z.to_nat n := d]> V !! Z.to_nat n = Some d) by
      (apply list_lookup_insert_eq; by eapply lookup_lt_Some).
    destruct (bwrite_ok w2 _ ∅ _ b n d e Hf2 Hh HV2) as (w3 & Hr3 & Hf3 & _ & Hdk3 & _).
    assert (Hdk3' : w_disk w3 = <[Z.to_nat n := d]> V) by congruence.
    destruct (brelse_ok w3 _ _ _ b n e Hf3 Hh) as (w4 & Hr4 & Hf4 & _ & Hdk4 & _).
    { right. by rewrite Hdk3'. }
    assert (Hno : (∅ : gset Z) ∖ {[n]} = ∅) by set_solver. rewrite Hdel, Hno in Hf4.
    exists w4. kcall Hr. kcall Hr2. kcall Hr3. kcall Hr4. split_and!; [done..|congruence].
Qed.

Lemma spec_cop_length o V : length (snd (spec_cop o V)) = length V.
Proof. destruct o; cbn; [done|apply length_insert]. Qed.

(** C14: the buffer cache is transparent.  Over any disk driver that keeps its
    laws, any sequence of reads and write-throughs of blocks, however many
    blocks it touches, returns what the same sequence returns on a plain array
    of blocks, and leaves the disk equal to that array. *)
Theorem cache_transparent os w V e :
  fs_thread w V ∅ ∅ → w_disk w = V → Forall (cop_ok (length V)) os →
  ∃ w', run_cops os (KS w e) = Ok (fst (spec_cops os V)) (KS w' e) ∧
    fs_thread w' (snd (spec_cops os V)) ∅ ∅ ∧ w_disk w' = snd (spec_cops os V).
Proof.
  revert w V. induction os as [|o os IH]; intros w V Hf Hdk Hos; [by exists w|].
  apply Forall_cons in Hos as [Ho Hos]. cbn [run_cops spec_cops].
  destruct (run_cop_spec w V o e Hf Hdk Ho) as (w1 & Hr1 & Hf1 & Hdk1). kcall Hr1.
  pose proof (spec_cop_length o V) as Hlen.
  destruct (spec_cop o V) as [r V1]. cbn [fst snd] in *.
  destruct (IH w1 V1 Hf1 Hdk1 ltac:(by rewrite Hlen)) as (w2 & Hr2 & Hf2 & Hdk2). kcall Hr2.
  exists w2. by destruct (spec_cops os V1).
Qed.
End transparency.

(** A process of a machine whose memory disk has three blocks, after [ideinit]
    and [binit]. *)
Definition demo_disk : list block := [zero_block; zero_block; zero_block].
Definition demo_boot : world :=
  (bss 0 demo_disk) <| w_proc := Some 1%nat |> <| w_procs ::= <[1%nat := demo_proc]> |>
    <| w_disksize := 3 |>.
Definition demo_block : block := replicate (Z.to_nat BSIZE) 7.

Lemma blk_replicate k : is_byte k → blk (replicate (Z.to_nat BSIZE) k).
Proof. intros Hk. split; [by rewrite length_replicate|by apply Forall_replicate]. Qed.

Lemma demo_boot_cache :
  ∃ w, binit (KS demo_boot []) = Ok tt (KS w []) ∧ thread w ∧ w_disk w = demo_disk ∧
       bcache (L := memide_laws) w demo_disk ∅ ∅.
Proof.
  assert (Ha : at_ease demo_boot) by (vm_compute; done).
  destruct (binit_spec (L := memide_laws) demo_boot []) as (w & Hr & Hbc & Hlk & bs & sl & lo & Hw).
  - reflexivity.
  - unfold demo_boot, demo_disk. rsimpl. assert (blk zero_block) by by apply blk_replicate. by repeat apply Forall_cons_2.
  - vm_compute. done.
  - done.
  - exists w. split_and!; [done| |by rewrite Hw|by eexists].
    split_and!; [|exact Hlk|exists 1%nat, demo_proc]; rewrite Hw; [|split; reflexivity].
    revert Ha. unfold at_ease, calm. rsimpl. exact (λ H, H).
Qed.

Lemma cache_transparent_witness :
  ∃ w w', binit (KS demo_boot []) = Ok tt (KS w []) ∧
    run_cops (D := iderw_mem) [Look 1; Put 1 demo_block; Look 2; Look 1] (KS w []) =
      Ok [Some zero_block; None; Some zero_block; Some demo_block] (KS w' []).
Proof.
  destruct demo_boot_cache as (w & Hr & Ht & Hdk & Hbc).
  destruct (cache_transparent (L := memide_laws)
    [Look 1; Put 1 demo_block; Look 2; Look 1] w demo_disk []) as (w' & Hr' & _).
  - split; [exact Ht|exact Hbc].
  - exact Hdk.
  - assert (Hblk : blk demo_block) by (apply (blk_replicate 7); unfold is_byte; lia).
    repeat (apply Forall_cons_2; [split; [cbn [cop_block]; change (length demo_disk) with 3%nat; lia|
      first [exact I|exact Hblk]]|]). apply Forall_nil_2.
  - exists w, w'. split; [exact Hr|exact Hr'].
Defined.
