(* ===== verification/Log.v ===== *)
(** * log.c: the write-ahead log, and the superblock it is found by

    The log's operations over the buffer cache.  The log header on disk is the
    array of 32-bit words [n, block[0], block[1], ...] at the start of the
    block [log.start]; reading or writing an element of [log.lh.block] beyond
    its [LOGSIZE] entries is a fault. *)

From S2P Require Import Prelude Kernel Bytes Spinlock Sched Sleeplock Disk Bio.

Definition modlog (f : log → log) : K unit := modw (λ w, w <| w_log ::= f |>).

Lemma bind_modlog {B} f (k : unit → K B) w e :
  (modlog f ≫= k) (KS w e) = k tt (KS (w <| w_log ::= f |>) e).
Proof. done. Qed.
#[export] Hint Rewrite @bind_modlog : kernel.

(** [lh.block[i]], read and written. *)
Definition get_lh (i : Z) : K Z :=
  l ← getw w_log;
  munwrap "log.lh.block" (lh_block l !! Z.to_nat i).

Definition set_lh (i v : Z) : K unit :=
  get_lh i ;; modlog (λ l, l <| lh_block ::= <[Z.to_nat i := v]> |>).

(** The fields of the header block: [hb->n] and [hb->block[i]]. *)
Definition hb_n (d : block) : Z := s32 (get 4 0 d).
Definition hb_block (i : Z) (d : block) : Z := s32 (get 4 (4 + 4 * Z.to_nat i) d).
Definition hb_set_n (v : Z) (d : block) : block := put 4 0 v d.
Definition hb_set_block (i v : Z) (d : block) : block := put 4 (4 + 4 * Z.to_nat i) v d.

(** [superblock] as it lies at the start of block 1. *)
Definition sb_of (d : block) : superblock :=
  mk_superblock (get 4 0 d) (get 4 4 d) (get 4 8 d) (get 4 12 d) (get 4 16 d) (get 4 20 d)
    (get 4 24 d).

(** A loop over [log.lh.n] entries tests at most [LOGSIZE + 1] times: an index
    past the table faults. *)
Definition log_fuel : nat := S (Z.to_nat LOGSIZE).

Section log.
  Context {D : DiskDriver}.

Definition readsb (dev : Z) : K superblock :=
  bp ← bread (u32 dev) 1;
  x ← getb bp;
  brelse bp ;;
  mret (sb_of (b_data x)).

(** The body of [install_trans]'s loop, and of [write_log]'s. *)
Definition install_one (tail : Z) : K unit :=
  l ← getw w_log;
  lbuf ← bread (u32 (log_dev l)) (u32 (log_start l + tail + 1));
  l ← getw w_log;
  n ← get_lh tail;
  dbuf ← bread (u32 (log_dev l)) (u32 n);
  x ← getb lbuf;
  modb dbuf (λ y, y <| b_data := b_data x |>) ;;
  bwrite dbuf ;;
  brelse lbuf ;;
  brelse dbuf.

Fixpoint for_lh (body : Z → K unit) (fuel : nat) (tail : Z) : K unit :=
  match fuel with
  | O => mstop OutOfFuel
  | S f =>
      n ← getw (λ w, lh_n (w_log w));
      if tail <? n then body tail ;; for_lh body f (tail + 1) else mret tt
  end.

Definition install_trans : K unit := for_lh install_one log_fuel 0.

Definition read_head : K unit :=
  l ← getw w_log;
  b ← bread (u32 (log_dev l)) (u32 (log_start l));
  x ← getb b;
  modlog (λ l, l <| lh_n := hb_n (b_data x) |>) ;;
  for_lh (λ i, x ← getb b; set_lh i (hb_block i (b_data x))) log_fuel 0 ;;
  brelse b.

Definition write_head : K unit :=
  l ← getw w_log;
  b ← bread (u32 (log_dev l)) (u32 (log_start l));
  n ← getw (λ w, lh_n (w_log w));
  modb b (λ x, x <| b_data ::= hb_set_n n |>) ;;
  for_lh (λ i, v ← get_lh i; modb b (λ x, x <| b_data ::= hb_set_block i v |>)) log_fuel 0 ;;
  bwrite b ;;
  brelse b.

Definition recover_from_log : K unit :=
  read_head ;;
  install_trans ;;
  modlog (λ l, l <| lh_n := 0 |>) ;;
  write_head.

(** [sizeof(struct logheader)]. *)
Definition sizeof_logheader : Z := 4 + 4 * LOGSIZE.

Definition initlog (dev : Z) : K unit :=
  if sizeof_logheader >=? BSIZE then panic "initlog: too big logheader" else
  initlock L_log "log" ;;
  sb ← readsb dev;
  modlog (λ l, l <| log_start := s32 (sb_logstart sb) |>) ;;
  modlog (λ l, l <| log_size := s32 (sb_nlog sb) |>) ;;
  modlog (λ l, l <| log_dev := dev |>) ;;
  recover_from_log.

Definition begin_op : K unit :=
  acquire L_log ;;
  foreverK (
    l ← getw w_log;
    if negb (committing l =? 0) then sleep C_log (Some L_log) ;; mret None
    else if lh_n l + (outstanding l + 1) * MAXOPBLOCKS >? LOGSIZE
    then sleep C_log (Some L_log) ;; mret None
    else
      modlog (λ l, l <| outstanding ::= λ n, s32 (n + 1) |>) ;;
      release L_log ;;
      mret (Some tt)).

Definition write_log_one (tail : Z) : K unit :=
  l ← getw w_log;
  to ← bread (u32 (log_dev l)) (u32 (log_start l + tail + 1));
  l ← getw w_log;
  n ← get_lh tail;
  from ← bread (u32 (log_dev l)) (u32 n);
  x ← getb from;
  modb to (λ y, y <| b_data := b_data x |>) ;;
  bwrite to ;;
  brelse from ;;
  brelse to.

Definition write_log : K unit := for_lh write_log_one log_fuel 0.

Definition commit : K unit :=
  n ← getw (λ w, lh_n (w_log w));
  if n >? 0 then
    write_log ;;
    write_head ;;
    install_trans ;;
    modlog (λ l, l <| lh_n := 0 |>) ;;
    write_head
  else mret tt.

Definition end_op : K unit :=
  acquire L_log ;;
  modlog (λ l, l <| outstanding ::= λ n, s32 (n - 1) |>) ;;
  l ← getw w_log;
  if negb (committing l =? 0) then panic "log.committing" else
  do_commit ←
    (if outstanding l =? 0 then modlog (λ l, l <| committing := 1 |>) ;; mret true
     else wakeup C_log ;; mret false);
  release L_log ;;
  if (do_commit : bool) then
    commit ;;
    acquire L_log ;;
    modlog (λ l, l <| committing := 0 |>) ;;
    wakeup C_log ;;
    release L_log
  else mret tt.

(** The absorption loop of [log_write]: the first index whose entry is [bno],
    or [log.lh.n]. *)
Fixpoint absorb (fuel : nat) (i bno : Z) : K Z :=
  match fuel with
  | O => mstop OutOfFuel
  | S f =>
      n ← getw (λ w, lh_n (w_log w));
      if i <? n then
        v ← get_lh i;
        if u32 v =? bno then mret i else absorb f (i + 1) bno
      else mret i
  end.

Definition log_write (b : nat) : K unit :=
  l ← getw w_log;
  if (lh_n l >=? LOGSIZE) || (lh_n l >=? log_size l - 1) then panic "too big a transaction" else
  if outstanding l <? 1 then panic "log_write outside of trans" else
  acquire L_log ;;
  x ← getb b;
  i ← absorb log_fuel 0 (blockno x);
  set_lh i (s32 (blockno x)) ;;
  n ← getw (λ w, lh_n (w_log w));
  (if i =? n then modlog (λ l, l <| lh_n ::= λ n, s32 (n + 1) |>) else mret tt) ;;
  modb b (λ x, x <| b_flags ::= add_flag B_DIRTY |>) ;;
  release L_log.
End log.
