(* ===== verification/LogSpec.v ===== *)
(** * The log's effect: commits, recovery, crashes

    What [write_log], [write_head], [install_trans], [commit] and
    [recover_from_log] do to the disk, as the list of block writes they issue,
    and the crash safety of [commit]: cut the list anywhere, reboot, and
    recovery leaves either none or all of the transaction. *)

From S2P Require Import Prelude Kernel Bytes Spinlock Sched Sleeplock Disk Memide Bio Bcache Log.

(** ** Lists of block writes *)

Abbreviation writes := (list (Z * block)) (only parsing).

Definition apply_write (d : list block) (x : Z * block) : list block :=
  <[Z.to_nat (fst x) := snd x]> d.
Definition apply_writes (tr : writes) (d : list block) : list block := foldl apply_write d tr.

Lemma apply_writes_cons x tr d : apply_writes (x :: tr) d = apply_writes tr (apply_write d x).
Proof. done. Qed.

Lemma apply_writes_app tr1 tr2 d :
  apply_writes (tr1 ++ tr2) d = apply_writes tr2 (apply_writes tr1 d).
Proof. apply foldl_app. Qed.

Lemma apply_writes_snoc tr n b d :
  apply_writes (tr ++ [(n, b)]) d = <[Z.to_nat n := b]> (apply_writes tr d).
Proof. by rewrite apply_writes_app. Qed.

Lemma length_apply_writes tr d : length (apply_writes tr d) = length d.
Proof.
  revert d; induction tr as [|x tr IH]; intros d; [done|].
  rewrite apply_writes_cons, IH. apply length_insert.
Qed.

Lemma apply_writes_ne tr d k :
  (∀ n b, (n, b) ∈ tr → Z.to_nat n ≠ k) → apply_writes tr d !! k = d !! k.
Proof.
  revert d; induction tr as [|[n b] tr IH]; intros d Hne; [done|].
  rewrite apply_writes_cons, IH.
  - apply list_lookup_insert_ne. apply (Hne n b). set_solver.
  - intros m c Hm. apply (Hne m c). set_solver.
Qed.

(** Writes that all agree with [V] bring [d] to agree with [V] where they
    write. *)
Lemma apply_writes_agree tr d V k :
  (∀ n b, (n, b) ∈ tr → V !! Z.to_nat n = Some b) → length d = length V →
  (∃ b, (Z.of_nat k, b) ∈ tr) → apply_writes tr d !! k = V !! k.
Proof.
  intros HV Hlen Hin. revert d Hlen. induction tr as [|[n b] tr IH] using rev_ind; intros d Hlen.
  - destruct Hin as [b Hb]. set_solver.
  - rewrite apply_writes_snoc. pose proof (HV n b ltac:(set_solver)) as Hn.
    destruct (decide (Z.to_nat n = k)) as [<-|Hne].
    + rewrite list_lookup_insert_eq; [done|]. rewrite length_apply_writes, Hlen.
      by eapply lookup_lt_Some.
    + rewrite list_lookup_insert_ne by done. apply IH; [set_solver| |done].
      destruct Hin as [b' Hb]. exists b'. apply elem_of_app in Hb as [Hb|Hb]; [done|].
      apply list_elem_of_singleton in Hb. injection Hb as <- <-. lia.
Qed.

(** ** The header block *)

(** The header [write_head] leaves in block contents [d], with [k] of the
    entries of [bl] written. *)
Fixpoint hdr_upto (bl : list Z) (k : nat) (d : block) : block :=
  match k with
  | O => hb_set_n (Z.of_nat (length bl)) d
  | S k' => match bl !! k' with
            | Some v => hb_set_block (Z.of_nat k') v (hdr_upto bl k' d)
            | None => hdr_upto bl k' d
            end
  end.
Definition hdr (bl : list Z) (d : block) : block := hdr_upto bl (length bl) d.

Definition small (n : Z) : Prop := 0 ≤ n < 2 ^ 31.

(** What the header block [d] says: the list of home blocks of a committed
    transaction, empty when there is none. *)
Definition hdr_is (d : block) (bl : list Z) : Prop :=
  hb_n d = Z.of_nat (length bl) ∧
  ∀ k v, bl !! k = Some v → hb_block (Z.of_nat k) d = v.

Lemma length_block d : blk d → length d = 512%nat.
Proof. intros [H _]. by rewrite H. Qed.

Lemma hdr_upto_blk bl k d :
  blk d → (k ≤ Z.to_nat LOGSIZE)%nat → blk (hdr_upto bl k d).
Proof.
  intros Hd. induction k as [|k IH]; intros Hk; cbn [hdr_upto].
  - destruct Hd as [Hl Hb]. split; [|by apply put_bytes]. unfold hb_set_n.
    rewrite length_put; [done|]. rewrite Hl. vm_compute. lia.
  - destruct (bl !! k) as [v|]; [|apply IH; lia]. destruct IH as [Hl Hb]; [lia|].
    split; [|by apply put_bytes]. unfold hb_set_block. rewrite length_put; [done|].
    rewrite Hl, Nat2Z.id. change (Z.to_nat BSIZE) with 512%nat.
    change (Z.to_nat LOGSIZE) with 30%nat in Hk. lia.
Qed.

Lemma hdr_upto_n bl k d :
  blk d → (k ≤ Z.to_nat LOGSIZE)%nat → small (Z.of_nat (length bl)) →
  hb_n (hdr_upto bl k d) = Z.of_nat (length bl).
Proof.
  intros Hd. induction k as [|k IH]; intros Hk Hs; cbn [hdr_upto].
  - unfold hb_n, hb_set_n. rewrite get_put by (rewrite length_block by done; lia).
    unfold small in Hs. change (256 ^ Z.of_nat 4) with (2 ^ 32).
    rewrite Z.mod_small by lia. apply s32_small. lia.
  - destruct (bl !! k) as [v|]; [|apply IH; [lia|done]].
    unfold hb_n, hb_set_block. rewrite get_put_ne; [apply IH; [lia|done]| |lia].
    rewrite length_block by (apply hdr_upto_blk; [done|lia]).
    change (Z.to_nat LOGSIZE) with 30%nat in Hk. lia.
Qed.

Lemma hdr_upto_block bl k d i v :
  blk d → (k ≤ Z.to_nat LOGSIZE)%nat → Forall small bl → (i < k)%nat → bl !! i = Some v →
  hb_block (Z.of_nat i) (hdr_upto bl k d) = v.
Proof.
  intros Hd. induction k as [|k IH]; intros Hk Hs Hi Hv; [lia|]. cbn [hdr_upto].
  assert (Hlen : length (hdr_upto bl k d) = 512%nat) by
    (apply length_block, hdr_upto_blk; [done|lia]).
  change (Z.to_nat LOGSIZE) with 30%nat in Hk, IH.
  destruct (decide (i = k)) as [->|Hne].
  - rewrite Hv. unfold hb_block, hb_set_block. rewrite Nat2Z.id, get_put by lia.
    rewrite Forall_lookup in Hs. specialize (Hs k v Hv). unfold small in Hs.
    change (256 ^ Z.of_nat 4) with (2 ^ 32).
    rewrite Z.mod_small by lia. apply s32_small. lia.
  - destruct (bl !! k) as [u|] eqn:Hu; [|apply IH; [lia|done|lia|done]].
    unfold hb_block, hb_set_block. rewrite !Nat2Z.id, get_put_ne by lia.
    pose proof (IH ltac:(lia) Hs ltac:(lia) Hv) as IH'. unfold hb_block in IH'.
    by rewrite Nat2Z.id in IH'.
Qed.

Lemma hdr_decodes bl d :
  blk d → (length bl ≤ Z.to_nat LOGSIZE)%nat → Forall small bl → hdr_is (hdr bl d) bl.
Proof.
  intros Hd Hl Hs. split.
  - apply hdr_upto_n; [done|done|]. unfold small. change (Z.to_nat LOGSIZE) with 30%nat in Hl. lia.
  - intros k v Hv. apply hdr_upto_block; try done. by eapply lookup_lt_Some.
Qed.

(** ** The log in memory *)

(** The log lives in blocks [ls] to [ls + sz - 1] of a disk of [size] blocks. *)
Record geometry (ls sz : Z) (size : nat) : Prop := {
  ge_start : 1 < ls;
  ge_size : 1 ≤ sz ≤ LOGSIZE;
  ge_fits : ls + sz ≤ Z.of_nat size;
  ge_small : Z.of_nat size < 2 ^ 31
}.

Definition home (ls sz : Z) (size : nat) (n : Z) : Prop :=
  0 ≤ n < Z.of_nat size ∧ ~ (ls ≤ n < ls + sz).

Definition log_at (w : world) (ls sz : Z) : Prop :=
  log_dev (w_log w) = ROOTDEV ∧ log_start (w_log w) = ls ∧ log_size (w_log w) = sz.

Definition lh_is (w : world) (bl : list Z) : Prop :=
  lh_n (w_log w) = Z.of_nat (length bl) ∧
  length (lh_block (w_log w)) = Z.to_nat LOGSIZE ∧
  ∀ k v, bl !! k = Some v → lh_block (w_log w) !! k = Some v.

Lemma cache_only_log w w' : cache_only w w' → w_log w' = w_log w.
Proof. intros (bs & sl & dk & hi & ps & -> & _). by rsimpl. Qed.

Lemma cache_only_log_at w w' ls sz : cache_only w w' → log_at w ls sz → log_at w' ls sz.
Proof. intros H. unfold log_at. by rewrite (cache_only_log _ _ H). Qed.

Lemma cache_only_lh w w' bl : cache_only w w' → lh_is w bl → lh_is w' bl.
Proof. intros H. unfold lh_is. by rewrite (cache_only_log _ _ H). Qed.

Lemma get_lh_eq w bl k v e :
  lh_is w bl → bl !! k = Some v → get_lh (Z.of_nat k) (KS w e) = Ok v (KS w e).
Proof. intros (_ & _ & H) Hv. unfold get_lh. kstep. rewrite Nat2Z.id, (H k v Hv). done. Qed.

(** Loops over the header's entries. *)
Lemma for_lh_spec (P : nat → world → Prop) body n k w e fuel :
  (∀ j w, (j ≤ n)%nat → P j w → lh_n (w_log w) = Z.of_nat n) →
  (∀ j w, (j < n)%nat → P j w →
     ∃ w', body (Z.of_nat j) (KS w e) = Ok tt (KS w' e) ∧ P (S j) w') →
  (k ≤ n)%nat → (n - k < fuel)%nat → P k w →
  ∃ w', for_lh body fuel (Z.of_nat k) (KS w e) = Ok tt (KS w' e) ∧ P n w'.
Proof.
  intros Hn Hstep. revert k w. induction fuel as [|fuel IH]; intros k w Hk Hf HP; [lia|].
  cbn [for_lh]. kstep. rewrite (Hn k w Hk HP). destruct (decide (k = n)) as [->|Hne].
  - rewrite Z.ltb_irrefl. by exists w.
  - rewrite (proj2 (Z.ltb_lt _ _)) by lia.
    destruct (Hstep k w) as (w1 & Hr & HP1); [lia|done|]. kcall Hr.
    replace (Z.of_nat k + 1) with (Z.of_nat (S k)) by lia. apply IH; [lia|lia|done].
Qed.

Lemma log_fuel_enough n : (n ≤ Z.to_nat LOGSIZE)%nat → (n - 0 < log_fuel)%nat.
Proof. unfold log_fuel. lia. Qed.

(** Chain the frames of the calls of a function. *)
Ltac ctrans := repeat (eapply cache_only_trans; [eassumption|]); apply cache_only_refl.

Section logspec.
  Context {D : DiskDriver} {L : DiskLaws D}.

Lemma modify_fn_ok w V Dt H b n d f e :
  fs_thread w V Dt H → H !! b = Some n → V !! Z.to_nat n = Some d → blk (f d) →
  ∃ w', modb b (λ x, x <| b_data ::= f |>) (KS w e) = Ok tt (KS w' e) ∧
    fs_thread w' (<[Z.to_nat n := f d]> V) Dt H ∧
    cache_only w w' ∧ w_disk w' = w_disk w ∧ w_hist w' = w_hist w.
Proof.
  intros Hf Hh HV Hd. destruct (held_ok _ _ _ _ _ _ Hf Hh) as (x & Hx & _ & _ & HVx).
  destruct (modify_ok w V Dt H b n (f d) e Hf Hh Hd) as (w' & Hr & Hf' & Hrest).
  exists w'. split; [|done]. rewrite <- Hr. unfold modb. rewrite !modw_eq. weq.
  rewrite !(alter_is_insert _ _ _ _ Hx). f_equal. replace d with (b_data x) by congruence.
  by destruct x; usetf.
Qed.

Lemma fs_thread_log w V Dt H f : fs_thread w V Dt H → fs_thread (w <| w_log ::= f |>) V Dt H.
Proof.
  intros [Ht (pi & Hbc)]. split.
  - unfold thread, at_ease, calm, lock_free in *. by rsimpl.
  - exists pi. eapply bcache_at_frame; [..|done]; by rsimpl.
Qed.

Lemma fs_thread_length w V Dt H : fs_thread w V Dt H → length (w_disk w) = length V.
Proof. intros [_ (pi & Hbc)]. symmetry. apply Hbc. Qed.

Lemma fs_thread_blk w V Dt H n d : fs_thread w V Dt H → V !! n = Some d → blk d.
Proof.
  intros [_ (pi & Hbc)] Hd. pose proof (bc_blk _ _ _ _ _ Hbc) as HV.
  rewrite Forall_lookup in HV. eauto.
Qed.

(** When no buffer is held, the blocks that are not dirty are those on disk. *)
Lemma fs_thread_clean w V Dt n :
  fs_thread w V Dt ∅ → Z.of_nat n ∉ Dt → V !! n = w_disk w !! n.
Proof.
  intros [_ (pi & Hbc)] Hn.
  destruct (first_buf (matches ROOTDEV (Z.of_nat n)) (w_bufs w) pi) as [b|] eqn:Hf.
  - apply first_buf_Some in Hf as [Hb (x & Hx & Hm)]. apply (bc_pi _ _ _ _ _ _ Hbc) in Hb.
    apply andb_true_iff in Hm as [Hm1%Z.eqb_eq Hm2%Z.eqb_eq].
    destruct (bc_buf _ _ _ _ _ Hbc b x Hb Hx) as [_ [(E & _)|(_ & _ & H3 & _ & H5 & _)]];
      [by rewrite E in Hm1|].
    rewrite Hm2, Nat2Z.id in H3, H5. by rewrite H3, H5.
  - apply (bc_view _ _ _ _ _ Hbc). intros b (Hb & x & Hx & Hd & Hbn).
    apply (bc_pi _ _ _ _ _ _ Hbc) in Hb. pose proof (first_buf_None _ _ _ _ _ Hf Hb Hx) as Hm.
    unfold matches in Hm. by rewrite Hd, Hbn, !Z.eqb_refl in Hm.
Qed.

(** ** [write_log] *)

Lemma diff_notin (X : gset Z) n : n ∉ X → X ∖ {[n]} = X.
Proof. set_solver. Qed.

Lemma diff_all (X Y : gset Z) : X = ∅ ∨ X = Y → X ∖ Y = ∅.
Proof. set_solver. Qed.

Lemma insert_held_ne (H : gmap nat Z) b b' n :
  H !! b = None → H !! b' = Some n → b' ≠ b.
Proof. intros H1 H2 ->. congruence. Qed.

Lemma write_log_one_ok w V Dt ls sz bl k n d e :
  fs_thread w V Dt ∅ → log_at w ls sz → lh_is w bl → geometry ls sz (length V) →
  bl !! k = Some n → home ls sz (length V) n → V !! Z.to_nat n = Some d →
  Z.of_nat k < sz - 1 → n ∈ Dt → (∀ m, m ∈ Dt → home ls sz (length V) m) → (size Dt < NBUF)%nat →
  let a := ls + 1 + Z.of_nat k in
  ∃ w', write_log_one (Z.of_nat k) (KS w e) = Ok tt (KS w' e) ∧
    fs_thread w' (<[Z.to_nat a := d]> V) Dt ∅ ∧ cache_only w w' ∧
    w_disk w' = <[Z.to_nat a := d]> (w_disk w) ∧ w_hist w' = w_hist w ++ [(a, d)].
Proof.
  intros Hf (Hdev & Hst & _) Hlh [Hg1 Hg2 Hg3 Hg4] Hn [Hh1 Hh2] Hd Hk HnD HD Hsz a.
  assert (Ha : 0 ≤ a < Z.of_nat (length V)) by lia.
  assert (Han : a ≠ n) by lia.
  assert (HaD : a ∉ Dt) by (intros Hin%HD; destruct Hin; lia).
  unfold write_log_one. kstep. rewrite Hdev, Hst. change (u32 ROOTDEV) with ROOTDEV.
  replace (ls + Z.of_nat k + 1) with a by lia. rewrite (u32_small a) by lia.
  destruct (lookup_lt_is_Some_2 V (Z.to_nat a)) as [da Hda]; [lia|].
  destruct (bread_ok w V Dt ∅ a da e) as
    (to & w1 & x1 & Hr1 & Hf1 & _ & _ & _ & _ & Hc1 & Hk1 & Hi1); try done; [lia| |].
  { right. rewrite map_size_empty. lia. }
  kcall Hr1. kstep. rewrite (cache_only_log _ _ Hc1), Hdev.
  kcall (get_lh_eq w1 bl k n e (cache_only_lh _ _ _ Hc1 Hlh) Hn).
  change (u32 ROOTDEV) with ROOTDEV. rewrite (u32_small n) by lia.
  destruct (bread_ok w1 V Dt (<[to := a]> ∅) n d e) as
    (from & w2 & x2 & Hr2 & Hf2 & Hft & Hx2 & Hxd & _ & Hc2 & Hk2 & Hi2); try done; [lia| |by left|].
  { intros b Hb. apply lookup_insert_Some in Hb as [[_ ?]|[_ Hb]]; [done|]. by rewrite lookup_empty in Hb. }
  kcall Hr2. kcall (getb_eq from x2 w2 e Hx2). rewrite Hxd.
  assert (Hne : to ≠ from) by (by eapply (insert_held_ne _ from to a Hft), lookup_insert_eq).
  assert (Hto : (<[from := n]> (<[to := a]> ∅) : gmap nat Z) !! to = Some a).
  { rewrite lookup_insert_ne by done. apply lookup_insert_eq. }
  assert (Hbd : blk d) by (by eapply fs_thread_blk).
  destruct (modify_ok w2 V Dt _ to a d e Hf2 Hto Hbd) as (w3 & Hr3 & Hf3 & Hc3 & Hk3 & Hi3).
  assert (HVa : <[Z.to_nat a := d]> V !! Z.to_nat a = Some d) by (apply list_lookup_insert_eq; lia).
  destruct (bwrite_ok w3 _ Dt _ to a d e Hf3 Hto HVa) as (w4 & Hr4 & Hf4 & Hc4 & Hk4 & Hi4).
  rewrite (diff_notin Dt a HaD) in Hf4.
  destruct (brelse_ok w4 _ Dt _ from n e Hf4 (lookup_insert_eq _ _ _) ltac:(by left))
    as (w5 & Hr5 & Hf5 & Hc5 & Hk5 & Hi5).
  rewrite delete_insert_id in Hf5 by done.
  destruct (brelse_ok w5 _ Dt _ to a e Hf5 (lookup_insert_eq _ _ _)) as (w6 & Hr6 & Hf6 & Hc6 & Hk6 & Hi6).
  { right. rewrite HVa, Hk5, Hk4, Hk3, Hk2, Hk1. symmetry. apply list_lookup_insert_eq.
    rewrite (fs_thread_length _ _ _ _ Hf). lia. }
  rewrite delete_insert_id in Hf6 by done.
  exists w6. kcall Hr3. kcall Hr4. kcall Hr5. split; [done|]. split_and!; [done| |congruence..].
  ctrans.
Qed.

(** The blocks [bl] have the contents [vs] in [V]. *)
Definition contents (V : list block) (bl : list Z) (vs : list block) : Prop :=
  Forall2 (λ n d, V !! Z.to_nat n = Some d) bl vs.

(** The writes of [write_log]: the contents, one after another, into the log. *)
Definition log_writes (ls : Z) (vs : list block) : writes :=
  imap (λ j d, (ls + 1 + Z.of_nat j, d)) vs.

Lemma log_writes_lookup ls vs k : log_writes ls vs !! k = (λ d, (ls + 1 + Z.of_nat k, d)) <$> vs !! k.
Proof. unfold log_writes. by rewrite list_lookup_imap. Qed.

Lemma log_writes_in ls vs n d :
  (n, d) ∈ log_writes ls vs → ∃ k, n = ls + 1 + Z.of_nat k ∧ vs !! k = Some d.
Proof.
  intros (k & Hk)%list_elem_of_lookup. rewrite log_writes_lookup in Hk.
  destruct (vs !! k) as [d'|] eqn:E; [|done]. cbn in Hk. injection Hk as <- <-. by exists k.
Qed.

Lemma elem_of_take {A} (x : A) k l : x ∈ take k l → x ∈ l.
Proof. intros H. rewrite <- (take_drop k l). set_solver. Qed.

(** Writes into the log leave the home blocks alone. *)
Lemma log_writes_home V ls sz vs k n :
  0 ≤ ls → home ls sz (length V) n → Z.of_nat (length vs) ≤ sz - 1 →
  apply_writes (take k (log_writes ls vs)) V !! Z.to_nat n = V !! Z.to_nat n.
Proof.
  intros H0 [H1 H2] Hl. apply apply_writes_ne. intros m d Hm%elem_of_take.
  destruct (log_writes_in _ _ _ _ Hm) as (j & -> & Hj%lookup_lt_Some). lia.
Qed.

Lemma write_log_ok w V ls sz bl vs e :
  let Dt := list_to_set bl in
  fs_thread w V Dt ∅ → log_at w ls sz → lh_is w bl → geometry ls sz (length V) →
  NoDup bl → Forall (home ls sz (length V)) bl → contents V bl vs →
  Z.of_nat (length bl) ≤ sz - 1 →
  ∃ w', write_log (KS w e) = Ok tt (KS w' e) ∧
    fs_thread w' (apply_writes (log_writes ls vs) V) Dt ∅ ∧ cache_only w w' ∧
    w_disk w' = apply_writes (log_writes ls vs) (w_disk w) ∧
    w_hist w' = w_hist w ++ log_writes ls vs.
Proof.
  intros Dt Hf Hla Hlh Hg Hnd Hhome Hcon Hlen. pose proof (Forall2_length _ _ _ Hcon) as Hlv.
  assert (HlogN : (length bl ≤ Z.to_nat LOGSIZE)%nat) by (destruct Hg; lia).
  set (lw := log_writes ls vs).
  assert (Hlw : length lw = length bl) by (unfold lw, log_writes; rewrite length_imap; lia).
  unfold write_log.
  destruct (for_lh_spec (λ k w', fs_thread w' (apply_writes (take k lw) V) Dt ∅ ∧ cache_only w w' ∧
      w_disk w' = apply_writes (take k lw) (w_disk w) ∧ w_hist w' = w_hist w ++ take k lw)
    write_log_one (length bl) 0 w e log_fuel) as (w' & Hr & H1 & H2 & H3 & H4).
  - intros j w1 _ (_ & Hc & _). apply (cache_only_lh _ _ _ Hc Hlh).
  - intros k w1 Hk (Hf1 & Hc1 & Hd1 & Hh1).
    destruct (lookup_lt_is_Some_2 bl k Hk) as [n Hn].
    destruct (Forall2_lookup_l _ _ _ _ _ Hcon Hn) as (d & Hd & HVd).
    assert (Hhn : home ls sz (length V) n) by (rewrite Forall_lookup in Hhome; eauto).
    assert (Htk : take (S k) lw = take k lw ++ [(ls + 1 + Z.of_nat k, d)]).
    { apply take_S_r. unfold lw. by rewrite log_writes_lookup, Hd. }
    destruct (write_log_one_ok w1 (apply_writes (take k lw) V) Dt ls sz bl k n d e) as
      (w2 & Hr2 & Hf2 & Hc2 & Hd2 & Hh2); rewrite ?length_apply_writes; try done.
    + by apply (cache_only_log_at w).
    + by apply (cache_only_lh w).
    + unfold lw. by rewrite (log_writes_home V ls sz) by (done || (destruct Hg; lia)).
    + lia.
    + apply elem_of_list_to_set. by eapply list_elem_of_lookup_2.
    + intros m Hm%elem_of_list_to_set. rewrite Forall_forall in Hhome. by apply Hhome.
    + unfold Dt. rewrite size_list_to_set by done. destruct Hg. unfold NBUF, LOGSIZE in *. lia.
    + exists w2. split; [done|]. rewrite Htk, !apply_writes_snoc.
      split_and!; [done|ctrans|by rewrite Hd2, Hd1|by rewrite Hh2, Hh1, app_assoc].
  - lia.
  - by apply log_fuel_enough.
  - rewrite take_0, app_nil_r. split_and!; try done. apply cache_only_refl.
  - exists w'. rewrite (firstn_all2 lw) in * by lia. done.
Qed.

(** ** [write_head] *)

Lemma write_head_ok w V Dt ls sz bl d e :
  fs_thread w V Dt ∅ → log_at w ls sz → lh_is w bl → geometry ls sz (length V) →
  V !! Z.to_nat ls = Some d → ls ∉ Dt → (size Dt < NBUF)%nat →
  ∃ w', write_head (KS w e) = Ok tt (KS w' e) ∧
    fs_thread w' (<[Z.to_nat ls := hdr bl d]> V) Dt ∅ ∧ cache_only w w' ∧
    w_disk w' = <[Z.to_nat ls := hdr bl d]> (w_disk w) ∧
    w_hist w' = w_hist w ++ [(ls, hdr bl d)].
Proof.
  intros Hf (Hdev & Hst & _) Hlh [Hg1 Hg2 Hg3 Hg4] Hd HlsD Hsz.
  assert (Hbd : blk d) by (by eapply fs_thread_blk).
  assert (HN : (length bl ≤ Z.to_nat LOGSIZE)%nat).
  { destruct Hlh as (_ & Hl & Hk). destruct (decide (length bl = 0)%nat); [lia|].
    destruct (lookup_lt_is_Some_2 bl (length bl - 1)) as [v Hv]; [lia|].
    apply Hk, lookup_lt_Some in Hv. lia. }
  unfold write_head. kstep. rewrite Hdev, Hst. change (u32 ROOTDEV) with ROOTDEV.
  rewrite (u32_small ls) by lia.
  destruct (bread_ok w V Dt ∅ ls d e) as
    (b & w1 & x1 & Hr1 & Hf1 & _ & _ & _ & _ & Hc1 & Hk1 & Hi1); try done; [lia| |].
  { right. rewrite map_size_empty. lia. }
  kcall Hr1. kstep. rewrite (proj1 (cache_only_lh _ _ _ Hc1 Hlh)).
  assert (Hhb : (<[b := ls]> ∅ : gmap nat Z) !! b = Some ls) by apply lookup_insert_eq.
  destruct (modify_fn_ok w1 V Dt _ b ls d (hb_set_n (Z.of_nat (length bl))) e Hf1 Hhb Hd) as
    (w2 & Hr2 & Hf2 & Hc2 & Hk2 & Hi2).
  { apply (hdr_upto_blk bl 0); [done|lia]. }
  kcall Hr2.
  destruct (for_lh_spec (λ k w', fs_thread w' (<[Z.to_nat ls := hdr_upto bl k d]> V) Dt (<[b := ls]> ∅) ∧
      cache_only w w' ∧ w_disk w' = w_disk w ∧ w_hist w' = w_hist w)
    (λ i, v ← get_lh i; modb b (λ x, x <| b_data ::= hb_set_block i v |>)) (length bl) 0 w2 e log_fuel)
    as (w3 & Hr3 & Hf3 & Hc3 & Hk3 & Hi3).
  - intros k w' _ (_ & Hc & _). apply (cache_only_lh _ _ _ Hc Hlh).
  - intros k w' Hk (Hf' & Hc' & Hk' & Hi').
    destruct (lookup_lt_is_Some_2 bl k Hk) as [v Hv].
    kcall (get_lh_eq w' bl k v e (cache_only_lh _ _ _ Hc' Hlh) Hv).
    destruct (modify_fn_ok w' _ Dt _ b ls (hdr_upto bl k d) (hb_set_block (Z.of_nat k) v) e Hf' Hhb)
      as (w'' & Hr'' & Hf'' & Hc'' & Hk'' & Hi'').
    + apply list_lookup_insert_eq. lia.
    + pose proof (hdr_upto_blk bl (S k) d Hbd ltac:(lia)) as Hb. cbn in Hb. by rewrite Hv in Hb.
    + exists w''. split; [done|]. rewrite list_insert_insert_eq in Hf''. cbn [hdr_upto]. rewrite Hv.
      split_and!; [done|ctrans|congruence..].
  - lia.
  - by apply log_fuel_enough.
  - split_and!; [done|ctrans|congruence..].
  - kcall Hr3. fold (hdr bl d) in Hf3. set (V3 := <[Z.to_nat ls := hdr bl d]> V) in *.
    assert (HV3 : V3 !! Z.to_nat ls = Some (hdr bl d)) by (apply list_lookup_insert_eq; lia).
    destruct (bwrite_ok w3 V3 Dt _ b ls (hdr bl d) e Hf3 Hhb HV3) as (w4 & Hr4 & Hf4 & Hc4 & Hk4 & Hi4).
    rewrite (diff_notin Dt ls HlsD) in Hf4.
    destruct (brelse_ok w4 V3 Dt _ b ls e Hf4 Hhb) as (w5 & Hr5 & Hf5 & Hc5 & Hk5 & Hi5).
    { right. rewrite HV3, Hk4. symmetry. apply list_lookup_insert_eq.
      rewrite (fs_thread_length _ _ _ _ Hf3). unfold V3. rewrite length_insert. lia. }
    rewrite delete_insert_id in Hf5 by done. exists w5. kcall Hr4.
    split_and!; [done|done| |congruence..]. eapply cache_only_trans; [exact Hc3|]. ctrans.
Qed.

(** ** [install_trans] *)

Lemma install_one_ok w V Dt ls sz bl k n d e :
  fs_thread w V Dt ∅ → log_at w ls sz → lh_is w bl → geometry ls sz (length V) →
  bl !! k = Some n → home ls sz (length V) n → Z.of_nat k < sz - 1 →
  let a := ls + 1 + Z.of_nat k in
  V !! Z.to_nat a = Some d → w_disk w !! Z.to_nat a = Some d → a ∉ Dt →
  (n ∈ Dt ∧ (size Dt < NBUF)%nat) ∨ (S (size Dt) < NBUF)%nat →
  ∃ w', install_one (Z.of_nat k) (KS w e) = Ok tt (KS w' e) ∧
    fs_thread w' (<[Z.to_nat n := d]> V) (Dt ∖ {[n]}) ∅ ∧ cache_only w w' ∧
    w_disk w' = <[Z.to_nat n := d]> (w_disk w) ∧ w_hist w' = w_hist w ++ [(n, d)].
Proof.
  intros Hf (Hdev & Hst & _) Hlh [Hg1 Hg2 Hg3 Hg4] Hn [Hh1 Hh2] Hk a Hd Hdd HaD Hroom.
  assert (Han : a ≠ n) by lia. assert (Ha : 0 ≤ a < Z.of_nat (length V)) by lia.
  unfold install_one. kstep. rewrite Hdev, Hst. change (u32 ROOTDEV) with ROOTDEV.
  replace (ls + Z.of_nat k + 1) with a by lia. rewrite (u32_small a) by lia.
  destruct (bread_ok w V Dt ∅ a d e) as
    (lb & w1 & x1 & Hr1 & Hf1 & _ & Hx1 & Hxd1 & _ & Hc1 & Hk1 & Hi1); try done; [lia| |].
  { right. rewrite map_size_empty. lia. }
  kcall Hr1. kstep. rewrite (cache_only_log _ _ Hc1), Hdev.
  kcall (get_lh_eq w1 bl k n e (cache_only_lh _ _ _ Hc1 Hlh) Hn).
  change (u32 ROOTDEV) with ROOTDEV. rewrite (u32_small n) by lia.
  destruct (lookup_lt_is_Some_2 V (Z.to_nat n)) as [dn Hdn]; [lia|].
  destruct (bread_ok w1 V Dt (<[lb := a]> ∅) n dn e) as
    (db & w2 & x2 & Hr2 & Hf2 & Hdb & Hx2 & _ & _ & Hc2 & Hk2 & Hi2); try done; [lia| | |].
  { intros b Hb. apply lookup_insert_Some in Hb as [[_ ?]|[_ Hb]]; [done|]. by rewrite lookup_empty in Hb. }
  { destruct Hroom as [[? _]|Hroom]; [by left|right].
    rewrite map_size_insert_None by done. rewrite map_size_empty. lia. }
  kcall Hr2.
  assert (Hne : lb ≠ db) by (by eapply (insert_held_ne _ db lb a Hdb), lookup_insert_eq).
  assert (Hlb : (<[db := n]> (<[lb := a]> ∅) : gmap nat Z) !! lb = Some a).
  { rewrite lookup_insert_ne by done. apply lookup_insert_eq. }
  destruct (held_ok _ _ _ _ _ _ Hf2 Hlb) as (x3 & Hx3 & _ & _ & Hxd3).
  kcall (getb_eq lb x3 w2 e Hx3). replace (b_data x3) with d by congruence.
  assert (Hbd : blk d) by (by eapply fs_thread_blk).
  destruct (modify_ok w2 V Dt _ db n d e Hf2 (lookup_insert_eq _ _ _) Hbd) as (w3 & Hr3 & Hf3 & Hc3 & Hk3 & Hi3).
  assert (HVn : <[Z.to_nat n := d]> V !! Z.to_nat n = Some d) by (apply list_lookup_insert_eq; lia).
  destruct (bwrite_ok w3 _ Dt _ db n d e Hf3 (lookup_insert_eq _ _ _) HVn) as (w4 & Hr4 & Hf4 & Hc4 & Hk4 & Hi4).
  assert (Hk4' : w_disk w4 = <[Z.to_nat n := d]> (w_disk w)) by congruence.
  destruct (brelse_ok w4 _ _ _ lb a e Hf4 Hlb) as (w5 & Hr5 & Hf5 & Hc5 & Hk5 & Hi5).
  { right. by rewrite Hk4', !list_lookup_insert_ne, Hd, Hdd by lia. }
  assert (Hdel : delete lb (<[db := n]> (<[lb := a]> ∅) : gmap nat Z) = <[db := n]> ∅).
  { rewrite delete_insert_ne, delete_insert_id by done. done. }
  rewrite Hdel in Hf5.
  destruct (brelse_ok w5 _ _ _ db n e Hf5 (lookup_insert_eq _ _ _)) as (w6 & Hr6 & Hf6 & Hc6 & Hk6 & Hi6).
  { right. rewrite HVn, Hk5, Hk4'. symmetry. apply list_lookup_insert_eq.
    rewrite (fs_thread_length _ _ _ _ Hf). lia. }
  rewrite delete_insert_id in Hf6 by done.
  exists w6. kcall Hr3. kcall Hr4. kcall Hr5. split; [done|]. split_and!; [done|ctrans|congruence..].
Qed.

(** The writes of [install_trans]: the contents to their home blocks. *)
Definition home_writes (bl : list Z) (vs : list block) : writes := zip bl vs.

Lemma home_writes_log V ls sz bl vs k a :
  Forall (home ls sz (length V)) bl → ls ≤ a < ls + sz → 0 ≤ ls →
  apply_writes (take k (home_writes bl vs)) V !! Z.to_nat a = V !! Z.to_nat a.
Proof.
  intros Hh Ha H0. apply apply_writes_ne. intros m d Hm%elem_of_take.
  apply elem_of_zip_l in Hm. rewrite Forall_forall in Hh. destruct (Hh m Hm). lia.
Qed.

Lemma install_trans_ok w V Dt ls sz bl vs e :
  fs_thread w V Dt ∅ → log_at w ls sz → lh_is w bl → geometry ls sz (length V) →
  Forall (home ls sz (length V)) bl → Z.of_nat (length bl) ≤ sz - 1 → length vs = length bl →
  (∀ k d, vs !! k = Some d → let a := Z.to_nat (ls + 1 + Z.of_nat k) in
     V !! a = Some d ∧ w_disk w !! a = Some d) →
  Dt = ∅ ∨ (Dt = list_to_set bl ∧ NoDup bl) →
  ∃ w', install_trans (KS w e) = Ok tt (KS w' e) ∧
    fs_thread w' (apply_writes (home_writes bl vs) V) ∅ ∅ ∧ cache_only w w' ∧
    w_disk w' = apply_writes (home_writes bl vs) (w_disk w) ∧
    w_hist w' = w_hist w ++ home_writes bl vs.
Proof.
  intros Hf Hla Hlh Hg Hhome Hlen Hlv Hlog HDt.
  assert (HN : (length bl ≤ Z.to_nat LOGSIZE)%nat) by (destruct Hg; lia).
  assert (HB : (length bl < NBUF)%nat) by (destruct Hg; unfold NBUF, LOGSIZE in *; lia).
  set (hw := home_writes bl vs).
  assert (Hhw : length hw = length bl) by (unfold hw, home_writes; rewrite length_zip; lia).
  assert (Hwd : length (w_disk w) = length V) by (by eapply fs_thread_length).
  unfold install_trans.
  destruct (for_lh_spec (λ k w', fs_thread w' (apply_writes (take k hw) V) (Dt ∖ list_to_set (take k bl)) ∅ ∧
      cache_only w w' ∧ w_disk w' = apply_writes (take k hw) (w_disk w) ∧
      w_hist w' = w_hist w ++ take k hw)
    install_one (length bl) 0 w e log_fuel) as (w' & Hr & H1 & H2 & H3 & H4).
  - intros j w1 _ (_ & Hc & _). apply (cache_only_lh _ _ _ Hc Hlh).
  - intros k w1 Hk (Hf1 & Hc1 & Hd1 & Hh1).
    destruct (lookup_lt_is_Some_2 bl k Hk) as [n Hn].
    destruct (lookup_lt_is_Some_2 vs k) as [d Hd]; [lia|].
    assert (Hhn : home ls sz (length V) n) by (rewrite Forall_lookup in Hhome; eauto).
    assert (Htk : take (S k) hw = take k hw ++ [(n, d)]).
    { apply take_S_r. unfold hw, home_writes. apply lookup_zip_with_Some. eauto. }
    destruct (Hlog k d Hd) as [Hva Hda].
    assert (Hsub : Dt ⊆ list_to_set bl) by (destruct HDt as [->|[-> _]]; set_solver).
    destruct (install_one_ok w1 (apply_writes (take k hw) V) (Dt ∖ list_to_set (take k bl)) ls sz bl k n d e)
      as (w2 & Hr2 & Hf2 & Hc2 & Hd2 & Hh2); rewrite ?length_apply_writes; try done.
    + by apply (cache_only_log_at w).
    + by apply (cache_only_lh w).
    + lia.
    + unfold hw. by rewrite (home_writes_log V ls sz) by (done || (destruct Hg; lia)).
    + rewrite Hd1. unfold hw. by rewrite (home_writes_log (w_disk w) ls sz) by
        (done || (by rewrite Hwd) || (destruct Hg; lia)).
    + intros Hin. assert (Hbl : ls + 1 + Z.of_nat k ∈ bl) by set_solver.
      rewrite Forall_forall in Hhome. destruct (Hhome _ Hbl). destruct Hg. lia.
    + destruct HDt as [->|[-> Hnd]].
      * right. replace (∅ ∖ _) with (∅ : gset Z) by set_solver. rewrite size_empty. vm_compute. lia.
      * left. split.
        -- apply elem_of_difference. split; [apply elem_of_list_to_set; by eapply list_elem_of_lookup_2|].
           rewrite elem_of_list_to_set. intros (j & Hj)%list_elem_of_lookup.
           apply lookup_take_Some in Hj as [Hj Hjk]. pose proof (NoDup_lookup _ _ _ _ Hnd Hn Hj). lia.
        -- pose proof (size_list_to_set (C := gset Z) bl Hnd).
           pose proof (subseteq_size (list_to_set bl ∖ list_to_set (take k bl)) (list_to_set bl : gset Z)
             ltac:(set_solver)). lia.
    + exists w2. split; [done|]. rewrite Htk, !apply_writes_snoc.
      rewrite (take_S_r bl k n Hn), list_to_set_app_L. cbn [list_to_set].
      rewrite (union_empty_r_L), <- difference_difference_l_L.
      split_and!; [done|ctrans|by rewrite Hd2, Hd1|by rewrite Hh2, Hh1, app_assoc].
  - lia.
  - by apply log_fuel_enough.
  - rewrite !take_0, app_nil_r. cbn [list_to_set]. rewrite difference_empty_L.
    split_and!; try done. apply cache_only_refl.
  - exists w'. rewrite (firstn_all2 hw), (firstn_all2 bl) in * by lia.
    rewrite (diff_all Dt (list_to_set bl)) in H1 by naive_solver. done.
Qed.

(** ** [read_head] *)

Lemma read_head_ok w V ls sz bl d e :
  fs_thread w V ∅ ∅ → log_at w ls sz → geometry ls sz (length V) → w_disk w = V →
  length (lh_block (w_log w)) = Z.to_nat LOGSIZE →
  V !! Z.to_nat ls = Some d → hdr_is d bl → (length bl ≤ Z.to_nat LOGSIZE)%nat →
  ∃ w', read_head (KS w e) = Ok tt (KS w' e) ∧ fs_thread w' V ∅ ∅ ∧ log_at w' ls sz ∧
    lh_is w' bl ∧ w_disk w' = w_disk w ∧ w_hist w' = w_hist w ∧
    outstanding (w_log w') = outstanding (w_log w) ∧ committing (w_log w') = committing (w_log w).
Proof.
  intros Hf (Hdev & Hst & Hsz) [Hg1 Hg2 Hg3 Hg4] Hdk Hlb Hd [Hn Hbl] HN.
  unfold read_head. kstep. rewrite Hdev, Hst. change (u32 ROOTDEV) with ROOTDEV.
  rewrite (u32_small ls) by lia.
  destruct (bread_ok w V ∅ ∅ ls d e) as
    (b & w1 & x1 & Hr1 & Hf1 & _ & Hx1 & Hxd1 & _ & Hc1 & Hk1 & Hi1); try done; [lia| |].
  { right. rewrite size_empty, map_size_empty. vm_compute. lia. }
  kcall Hr1. kcall (getb_eq b x1 w1 e Hx1). unfold modlog at 1. kstep. rewrite Hxd1, Hn.
  pose proof (cache_only_log _ _ Hc1) as Hlg1.
  assert (Hhb : (<[b := ls]> ∅ : gmap nat Z) !! b = Some ls) by apply lookup_insert_eq.
  destruct (for_lh_spec (λ k w', fs_thread w' V ∅ (<[b := ls]> ∅) ∧ log_at w' ls sz ∧
      lh_n (w_log w') = Z.of_nat (length bl) ∧
      length (lh_block (w_log w')) = Z.to_nat LOGSIZE ∧
      (∀ j v, (j < k)%nat → bl !! j = Some v → lh_block (w_log w') !! j = Some v) ∧
      w_disk w' = w_disk w ∧ w_hist w' = w_hist w ∧
      outstanding (w_log w') = outstanding (w_log w) ∧ committing (w_log w') = committing (w_log w))
    (λ i, x ← getb b; set_lh i (hb_block i (b_data x))) (length bl) 0
    (w1 <| w_log ::= λ l, l <| lh_n := Z.of_nat (length bl) |> |>) e log_fuel)
    as (w2 & Hr2 & Hf2 & Hla2 & Hn2 & Hl2 & Hb2 & Hk2 & Hi2 & Ho2 & Hcm2).
  - intros k w' _ H. apply H.
  - intros k w' Hk (Hf' & Hla' & Hn' & Hl' & Hb' & Hk' & Hi' & Ho' & Hcm').
    destruct (lookup_lt_is_Some_2 bl k Hk) as [v Hv].
    destruct (held_ok _ _ _ _ _ _ Hf' Hhb) as (x & Hx & _ & _ & Hxd).
    kcall (getb_eq b x w' e Hx). replace (b_data x) with d by congruence.
    rewrite (Hbl k v Hv). unfold set_lh, get_lh, modlog. kstep. rewrite Nat2Z.id.
    destruct (lookup_lt_is_Some_2 (lh_block (w_log w')) k) as [u Hu]; [lia|].
    rewrite Hu. kstep. rewrite modw_eq. eexists. split; [reflexivity|].
    split_and!; rsimpl; try done.
    + by apply fs_thread_log.
    + by rewrite length_insert.
    + intros j v' Hj Hv'. destruct (decide (j = k)) as [->|Hne].
      * rewrite list_lookup_insert_eq by lia. congruence.
      * rewrite list_lookup_insert_ne by done. apply Hb'; [lia|done].
  - lia.
  - by apply log_fuel_enough.
  - split_and!; rsimpl; try done.
    + by apply fs_thread_log.
    + unfold log_at. rsimpl. by rewrite Hlg1.
    + by rewrite Hlg1.
    + intros j v Hj. lia.
    + by rewrite Hlg1.
    + by rewrite Hlg1.
  - kcall Hr2.
    destruct (brelse_ok w2 V ∅ _ b ls e Hf2 Hhb) as (w3 & Hr3 & Hf3 & Hc3 & Hk3 & Hi3).
    { right. by rewrite Hk2, Hdk. }
    rewrite delete_insert_id in Hf3 by done. exists w3.
    pose proof (cache_only_log _ _ Hc3) as Hlg3.
    split_and!; [done|done|by apply (cache_only_log_at w2)| |congruence..].
    apply (cache_only_lh w2); [done|]. split_and!; [done|done|].
    intros k v Hv. apply Hb2; [by eapply lookup_lt_Some|done].
Qed.
End logspec.
