(* ===== verification/LogCrash.v ===== *)
(** * Crash safety of the log

    [commit] and [initlog] as lists of block writes, and what a reboot finds
    when the machine stops between any two of them. *)

From S2P Require Import Prelude Kernel Bytes Spinlock Sched Sleeplock Disk Memide Bio Bcache Log LogSpec.

(** ** Reading a disk after some writes *)

Lemma apply_writes_cong tr d1 d2 k :
  length d1 = length d2 → d1 !! k = d2 !! k ∨ (∃ n b, (n, b) ∈ tr ∧ Z.to_nat n = k) →
  apply_writes tr d1 !! k = apply_writes tr d2 !! k.
Proof.
  intros Hlen. revert d1 d2 Hlen. induction tr as [|[n b] tr IH] using rev_ind; intros d1 d2 Hlen Hk.
  - destruct Hk as [|(n & b & Hin & _)]; [done|set_solver].
  - rewrite !apply_writes_snoc. destruct (decide (Z.to_nat n = k)) as [<-|Hne].
    + destruct (decide (Z.to_nat n < length d1)%nat).
      * by rewrite !list_lookup_insert_eq by (rewrite length_apply_writes; lia).
      * rewrite !lookup_ge_None_2; [done|..]; rewrite length_insert, length_apply_writes; lia.
    + rewrite !list_lookup_insert_ne by done. apply IH; [done|].
      destruct Hk as [|(m & c & Hin & Hm)]; [by left|right].
      exists m, c. split; [|done]. apply elem_of_app in Hin as [|Hin]; [done|].
      apply list_elem_of_singleton in Hin. congruence.
Qed.

Lemma log_writes_at ls vs d k v :
  0 ≤ ls → vs !! k = Some v → ls + 1 + Z.of_nat (length vs) ≤ Z.of_nat (length d) →
  apply_writes (log_writes ls vs) d !! Z.to_nat (ls + 1 + Z.of_nat k) = Some v.
Proof.
  intros H0 Hv Hl. pose proof (lookup_lt_Some _ _ _ Hv) as Hk.
  rewrite <- (take_drop (S k) (log_writes ls vs)), apply_writes_app.
  rewrite (take_S_r _ _ (ls + 1 + Z.of_nat k, v)) by (by rewrite log_writes_lookup, Hv).
  rewrite apply_writes_snoc, apply_writes_ne.
  - apply list_lookup_insert_eq. rewrite length_apply_writes. lia.
  - intros n b (j & Hj)%list_elem_of_lookup. rewrite lookup_drop, log_writes_lookup in Hj.
    destruct (vs !! (S k + j)%nat); [|done]. injection Hj as <- _. lia.
Qed.

Lemma log_writes_header ls vs d k :
  0 ≤ ls → apply_writes (take k (log_writes ls vs)) d !! Z.to_nat ls = d !! Z.to_nat ls.
Proof.
  intros H0. apply apply_writes_ne. intros n b Hn%elem_of_take.
  destruct (log_writes_in _ _ _ _ Hn) as (j & -> & _). lia.
Qed.

Section crash.
  Context {D : DiskDriver} {L : DiskLaws D}.

(** A transaction: the blocks of [bl] are the dirty ones, and the thread holds
    the buffers [H]. *)
Record in_tx (w : world) (V : list block) (ls sz : Z) (bl : list Z) (H : gmap nat Z) : Prop := {
  tx_thread : fs_thread w V (list_to_set bl) H;
  tx_log : log_at w ls sz;
  tx_lh : lh_is w bl;
  tx_geom : geometry ls sz (length V);
  tx_nodup : NoDup bl;
  tx_home : Forall (home ls sz (length V)) bl;
  tx_fits : Z.of_nat (length bl) ≤ sz - 1
}.

Definition commit_writes (ls : Z) (bl : list Z) (vs : list block) (d : block) : writes :=
  if bl is [] then []
  else log_writes ls vs ++ (ls, hdr bl d) :: home_writes bl vs ++ [(ls, hdr [] (hdr bl d))].

Lemma commit_writes_eq ls bl vs d :
  bl ≠ [] → commit_writes ls bl vs d =
    log_writes ls vs ++ (ls, hdr bl d) :: home_writes bl vs ++ [(ls, hdr [] (hdr bl d))].
Proof. by destruct bl. Qed.

Lemma lh_is_empty w bl : lh_is w bl → lh_is (w <| w_log ::= λ l, l <| lh_n := 0 |> |>) [].
Proof. intros (_ & H & _). unfold lh_is. rsimpl. split_and!; [done|done|]. by intros k v. Qed.

Lemma geometry_length ls sz (V V' : list block) : length V' = length V → geometry ls sz (length V) →
  geometry ls sz (length V').
Proof. by intros ->. Qed.

Lemma commit_ok w V ls sz bl vs d e :
  in_tx w V ls sz bl ∅ → contents V bl vs → V !! Z.to_nat ls = Some d →
  let tr := commit_writes ls bl vs d in
  ∃ w', commit (KS w e) = Ok tt (KS w' e) ∧
    fs_thread w' (apply_writes tr V) ∅ ∅ ∧ log_at w' ls sz ∧ lh_is w' [] ∧
    w_disk w' = apply_writes tr (w_disk w) ∧ w_hist w' = w_hist w ++ tr ∧
    outstanding (w_log w') = outstanding (w_log w) ∧ committing (w_log w') = committing (w_log w).
Proof.
  intros [Hf Hla Hlh Hg Hnd Hh Hfit] Hcon Hd tr. unfold commit. kstep. rewrite (proj1 Hlh).
  destruct bl as [|n0 bl0] eqn:Ebl.
  { cbn. exists w. rewrite app_nil_r. unfold tr. by cbn. }
  rewrite <- Ebl in *. replace (Z.of_nat (length bl) >? 0) with true by
    (symmetry; apply Z.gtb_lt; rewrite Ebl; cbn [length]; lia).
  assert (Htr : tr = log_writes ls vs ++ (ls, hdr bl d) :: home_writes bl vs ++ [(ls, hdr [] (hdr bl d))]).
  { unfold tr. by rewrite Ebl. }
  clearbody tr. subst tr. clear Ebl.
  pose proof (Forall2_length _ _ _ Hcon) as Hlv.
  pose proof (fs_thread_length _ _ _ _ Hf) as Hdl.
  assert (H0 : 0 ≤ ls) by (destruct Hg; lia).
  assert (Hfits : ls + 1 + Z.of_nat (length vs) ≤ Z.of_nat (length V)) by (destruct Hg; lia).
  assert (HlsD : ls ∉ (list_to_set bl : gset Z)).
  { rewrite elem_of_list_to_set. intros Hin. rewrite Forall_forall in Hh.
    destruct (Hh _ Hin). destruct Hg. lia. }
  destruct (write_log_ok w V ls sz bl vs e Hf Hla Hlh Hg Hnd Hh Hcon Hfit)
    as (w1 & Hr1 & Hf1 & Hc1 & Hd1 & Hi1). kcall Hr1.
  set (V1 := apply_writes (log_writes ls vs) V) in *.
  assert (HV1 : length V1 = length V) by apply length_apply_writes.
  assert (Hls1 : V1 !! Z.to_nat ls = Some d).
  { pose proof (log_writes_header ls vs V (length (log_writes ls vs)) H0) as E.
    rewrite firstn_all in E. by rewrite <- Hd. }
  destruct (write_head_ok w1 V1 (list_to_set bl) ls sz bl d e)
    as (w2 & Hr2 & Hf2 & Hc2 & Hd2 & Hi2); try done.
  { by apply (cache_only_log_at w). }
  { by apply (cache_only_lh w). }
  { by rewrite HV1. }
  { rewrite size_list_to_set by done. destruct Hg. unfold NBUF, LOGSIZE in *. lia. }
  kcall Hr2. set (V2 := <[Z.to_nat ls := hdr bl d]> V1) in *.
  assert (HV2 : length V2 = length V) by (unfold V2; by rewrite length_insert).
  assert (Hc02 : cache_only w w2) by ctrans.
  destruct (install_trans_ok w2 V2 (list_to_set bl) ls sz bl vs e)
    as (w3 & Hr3 & Hf3 & Hc3 & Hd3 & Hi3); rewrite ?HV2; try done.
  { by apply (cache_only_log_at w). }
  { by apply (cache_only_lh w). }
  { intros k v Hv. cbv zeta. rewrite Hd2, Hd1. unfold V2.
    rewrite !list_lookup_insert_ne by lia.
    split; apply log_writes_at; try done. by rewrite Hdl. }
  { by right. }
  kcall Hr3. unfold modlog. kstep. set (V3 := apply_writes (home_writes bl vs) V2) in *.
  assert (Hls3 : V3 !! Z.to_nat ls = Some (hdr bl d)).
  { pose proof (home_writes_log V2 ls sz bl vs (length (home_writes bl vs)) ls) as E.
    rewrite firstn_all, HV2 in E. unfold V3. rewrite E by (done || (destruct Hg; lia)).
    apply list_lookup_insert_eq. rewrite HV1. destruct Hg; lia. }
  assert (Hc03 : cache_only w w3) by ctrans.
  destruct (write_head_ok (w3 <| w_log ::= λ l, l <| lh_n := 0 |> |>) V3 ∅ ls sz [] (hdr bl d) e)
    as (w4 & Hr4 & Hf4 & Hc4 & Hd4 & Hi4); try done.
  { by apply fs_thread_log. }
  { destruct (cache_only_log_at _ _ _ _ Hc03 Hla) as (E1 & E2 & E3). unfold log_at. by rsimpl. }
  { eapply lh_is_empty, (cache_only_lh w); done. }
  { eapply geometry_length; [|done]. unfold V3. by rewrite length_apply_writes. }
  { rewrite size_empty. vm_compute. lia. }
  rewrite Hr4. exists w4. revert Hd4 Hi4. rsimpl. intros Hd4 Hi4.
  split_and!; [done| | | | | | |].
  - rewrite apply_writes_app, apply_writes_cons, apply_writes_snoc. done.
  - apply (cache_only_log_at _ _ _ _ Hc4).
    destruct (cache_only_log_at _ _ _ _ Hc03 Hla) as (E1 & E2 & E3). unfold log_at. by rsimpl.
  - apply (cache_only_lh _ _ _ Hc4). eapply lh_is_empty, (cache_only_lh w); done.
  - rewrite Hd4, Hd3, Hd2, Hd1. by rewrite apply_writes_app, apply_writes_cons, apply_writes_snoc.
  - rewrite Hi4, Hi3, Hi2, Hi1. by rewrite <- !app_assoc.
  - rewrite (cache_only_log _ _ Hc4). rsimpl. by rewrite (cache_only_log _ _ Hc03).
  - rewrite (cache_only_log _ _ Hc4). rsimpl. by rewrite (cache_only_log _ _ Hc03).
Qed.

(** ** Recovery *)

(** A disk with a log: the superblock says where it is, and its header lists
    the blocks [bl] of a committed transaction, with contents [vs] in the log. *)
Record log_disk (ls sz : Z) (d : list block) (hd : block) (bl : list Z) (vs : list block) : Prop := {
  ld_geom : geometry ls sz (length d);
  ld_super : ∃ s, d !! 1%nat = Some s ∧ sb_logstart (sb_of s) = ls ∧ sb_nlog (sb_of s) = sz;
  ld_header : d !! Z.to_nat ls = Some hd ∧ hdr_is hd bl;
  ld_home : Forall (λ n, home ls sz (length d) n ∧ n ≠ 1) bl;
  ld_fits : Z.of_nat (length bl) ≤ sz - 1;
  ld_log : length vs = length bl ∧
    ∀ k v, vs !! k = Some v → d !! Z.to_nat (ls + 1 + Z.of_nat k) = Some v
}.

Lemma ld_home' ls sz d hd bl vs :
  log_disk ls sz d hd bl vs → Forall (home ls sz (length d)) bl.
Proof. intros H. eapply Forall_impl; [apply H|]. by intros n [? _]. Qed.

Definition recovery_writes (ls : Z) (hd : block) (bl : list Z) (vs : list block) : writes :=
  home_writes bl vs ++ [(ls, hdr [] hd)].

Lemma recover_ok w V ls sz hd bl vs e :
  fs_thread w V ∅ ∅ → log_at w ls sz → w_disk w = V → log_disk ls sz V hd bl vs →
  length (lh_block (w_log w)) = Z.to_nat LOGSIZE →
  let tr := recovery_writes ls hd bl vs in
  ∃ w', recover_from_log (KS w e) = Ok tt (KS w' e) ∧
    fs_thread w' (apply_writes tr V) ∅ ∅ ∧ log_at w' ls sz ∧ lh_is w' [] ∧
    w_disk w' = apply_writes tr V ∧ w_hist w' = w_hist w ++ tr ∧
    outstanding (w_log w') = outstanding (w_log w) ∧ committing (w_log w') = committing (w_log w).
Proof.
  intros Hf Hla Hdk Hld Hlb tr. pose proof (ld_home' _ _ _ _ _ _ Hld) as Hh.
  destruct Hld as [Hg _ [Hhd Hdec] _ Hfit [Hlv Hlog]].
  destruct (read_head_ok w V ls sz bl hd e) as (w1 & Hr1 & Hf1 & Hla1 & Hlh1 & Hd1 & Hi1 & Ho1 & Hcm1); try done.
  { destruct Hg; lia. }
  unfold recover_from_log. kcall Hr1.
  destruct (install_trans_ok w1 V ∅ ls sz bl vs e) as (w2 & Hr2 & Hf2 & Hc2 & Hd2 & Hi2); try done.
  { intros k v Hv. cbv zeta. rewrite Hd1, Hdk. auto. }
  { by left. }
  kcall Hr2. unfold modlog. kstep. set (V2 := apply_writes (home_writes bl vs) V) in *.
  assert (Hls2 : V2 !! Z.to_nat ls = Some hd).
  { pose proof (home_writes_log V ls sz bl vs (length (home_writes bl vs)) ls) as E.
    rewrite firstn_all in E. unfold V2. by rewrite E by (done || (destruct Hg; lia)). }
  pose proof (cache_only_log_at _ _ _ _ Hc2 Hla1) as (E1 & E2 & E3).
  destruct (write_head_ok (w2 <| w_log ::= λ l, l <| lh_n := 0 |> |>) V2 ∅ ls sz [] hd e)
    as (w3 & Hr3 & Hf3 & Hc3 & Hd3 & Hi3); try done.
  { by apply fs_thread_log. }
  { eapply lh_is_empty, (cache_only_lh w1); done. }
  { eapply geometry_length; [|done]. apply length_apply_writes. }
  { rewrite size_empty. vm_compute. lia. }
  rewrite Hr3. exists w3. revert Hd3 Hi3. rsimpl. intros Hd3 Hi3. unfold tr, recovery_writes.
  rewrite apply_writes_snoc. split_and!; [done|done| | | | | |].
  - apply (cache_only_log_at _ _ _ _ Hc3). unfold log_at. by rsimpl.
  - apply (cache_only_lh _ _ _ Hc3). eapply lh_is_empty, (cache_only_lh w1); done.
  - by rewrite Hd3, Hd2, Hd1, Hdk.
  - rewrite Hi3, Hi2, Hi1. by rewrite <- !app_assoc.
  - rewrite (cache_only_log _ _ Hc3). rsimpl. by rewrite (cache_only_log _ _ Hc2).
  - rewrite (cache_only_log _ _ Hc3). rsimpl. by rewrite (cache_only_log _ _ Hc2).
Qed.

Lemma readsb_ok w V s e :
  fs_thread w V ∅ ∅ → w_disk w = V → V !! 1%nat = Some s →
  ∃ w', readsb ROOTDEV (KS w e) = Ok (sb_of s) (KS w' e) ∧ fs_thread w' V ∅ ∅ ∧
    cache_only w w' ∧ w_disk w' = w_disk w ∧ w_hist w' = w_hist w.
Proof.
  intros Hf Hdk Hs. unfold readsb. change (u32 ROOTDEV) with ROOTDEV.
  destruct (bread_ok w V ∅ ∅ 1 s e) as
    (b & w1 & x & Hr1 & Hf1 & _ & Hx & Hxd & _ & Hc1 & Hk1 & Hi1); try done.
  { right. rewrite size_empty, map_size_empty. vm_compute. lia. }
  destruct (brelse_ok w1 V ∅ _ b 1 e Hf1 (lookup_insert_eq _ _ _)) as (w2 & Hr2 & Hf2 & Hc2 & Hk2 & Hi2).
  { right. by rewrite Hk1, Hdk. }
  rewrite delete_insert_id in Hf2 by done.
  exists w2. kcall Hr1. kcall (getb_eq b x w1 e Hx). kcall Hr2. rewrite Hxd.
  split_and!; [done|done|ctrans|congruence..].
Qed.

(** A machine that has just booted from the disk [d]: a process runs, the cache
    is empty ([binit_spec]) and the in-memory log is not set up. *)
Definition booted (w : world) (d : list block) : Prop :=
  fs_thread w d ∅ ∅ ∧ w_disk w = d ∧ length (lh_block (w_log w)) = Z.to_nat LOGSIZE.

Lemma fs_thread_initlock w V Dt H lk name :
  fs_thread w V Dt H → fs_thread (w <| w_locks ::= <[lk := initlock_val name]> |>) V Dt H.
Proof.
  intros [(Ha & Hl & Hp) (pi & Hbc)]. split.
  - unfold thread, at_ease, calm, lock_free in *. rsimpl. split_and!; try apply Ha; [|done].
    intros lk'. rewrite fn_lookup_insert_case. case_decide; [done|apply Hl].
  - exists pi. eapply bcache_at_frame; [..|done]; by rsimpl.
Qed.

Lemma initlog_ok w d ls sz hd bl vs e :
  booted w d → log_disk ls sz d hd bl vs →
  let tr := recovery_writes ls hd bl vs in
  ∃ w', initlog ROOTDEV (KS w e) = Ok tt (KS w' e) ∧
    fs_thread w' (apply_writes tr d) ∅ ∅ ∧ log_at w' ls sz ∧ lh_is w' [] ∧
    w_disk w' = apply_writes tr d ∧ w_hist w' = w_hist w ++ tr ∧
    outstanding (w_log w') = outstanding (w_log w) ∧ committing (w_log w') = committing (w_log w).
Proof.
  intros (Hf & Hdk & Hlb) Hld tr. pose proof (ld_super _ _ _ _ _ _ Hld) as (s & Hs & Hs1 & Hs2).
  pose proof (ld_geom _ _ _ _ _ _ Hld) as [Hg1 Hg2 Hg3 Hg4].
  unfold initlog. change (sizeof_logheader >=? BSIZE) with false. unfold initlock. kstep.
  set (w0 := w <| w_locks ::= _ |>).
  assert (Hf0 : fs_thread w0 d ∅ ∅) by by apply fs_thread_initlock.
  destruct (readsb_ok w0 d s e) as (w1 & Hr1 & Hf1 & Hc1 & Hd1 & Hi1); [done|by unfold w0; rsimpl|done|].
  kcall Hr1. unfold modlog. kstep. rewrite Hs1, Hs2.
  rewrite (s32_small ls), (s32_small sz) by (unfold LOGSIZE in *; lia).
  set (w2 := w1 <| w_log ::= _ |> <| w_log ::= _ |> <| w_log ::= _ |>).
  destruct (recover_ok w2 d ls sz hd bl vs e) as (w3 & Hr3 & H1 & H2 & H3 & H4 & H5 & H6 & H7); try done.
  - unfold w2. by repeat apply fs_thread_log.
  - unfold w2. rsimpl. rewrite Hd1. unfold w0. by rsimpl.
  - unfold w2. rsimpl. rewrite (cache_only_log _ _ Hc1). unfold w0. by rsimpl.
  - pose proof (cache_only_log _ _ Hc1) as Hlg.
    exists w3. split_and!; try done; [rewrite H5|rewrite H6|rewrite H7]; unfold w2; rsimpl.
    + rewrite Hi1. unfold w0. by rsimpl.
    + rewrite Hlg. unfold w0. by rsimpl.
    + rewrite Hlg. unfold w0. by rsimpl.
Qed.

(** ** Crashes *)

(** Two disks agree outside the log. *)
Definition same_homes (ls sz : Z) (r V : list block) : Prop :=
  length r = length V ∧ ∀ n, home ls sz (length V) n → r !! Z.to_nat n = V !! Z.to_nat n.

Lemma contents_exists V ls sz bl : Forall (home ls sz (length V)) bl → ∃ vs, contents V bl vs.
Proof.
  induction 1 as [|n bl [Hn _] _ (vs & IH)]; [by exists []; constructor|].
  destruct (lookup_lt_is_Some_2 V (Z.to_nat n)) as [d Hd]; [lia|]. exists (d :: vs). by constructor.
Qed.

Lemma home_not_log ls sz size n a : home ls sz size n → ls ≤ a < ls + sz → 0 ≤ ls → Z.to_nat a ≠ Z.to_nat n.
Proof. intros [H1 H2] Ha H0. lia. Qed.

(** What recovery leaves outside the log: the transaction's blocks. *)
Lemma recovery_homes ls sz d hd bl vs n :
  geometry ls sz (length d) → home ls sz (length d) n →
  apply_writes (recovery_writes ls hd bl vs) d !! Z.to_nat n =
    apply_writes (home_writes bl vs) d !! Z.to_nat n.
Proof.
  intros [? ? ? ?] Hn. unfold recovery_writes. rewrite apply_writes_snoc.
  apply list_lookup_insert_ne. eapply home_not_log; [done|lia|lia].
Qed.

(** Before the commit point: the log blocks are being written. *)
Lemma log_disk_before ls sz d hd vs k :
  log_disk ls sz d hd [] [] → Z.of_nat (length vs) ≤ sz - 1 →
  let d1 := apply_writes (take k (log_writes ls vs)) d in
  log_disk ls sz d1 hd [] [] ∧ same_homes ls sz d1 d.
Proof.
  intros [Hg (s & Hs & Hs12) [Hhd Hdec] Hh Hfit [Hlv Hlog]] Hvs d1.
  assert (Hl : length d1 = length d) by apply length_apply_writes.
  assert (Hhome : ∀ n, home ls sz (length d) n → d1 !! Z.to_nat n = d !! Z.to_nat n).
  { intros n Hn. apply (log_writes_home d ls sz); [destruct Hg; lia|done|done]. }
  split; [|done]. split; rewrite ?Hl; try done.
  - exists s. split; [|done]. rewrite <- Hs. apply (Hhome 1). destruct Hg. split; lia.
  - split; [|done]. rewrite <- Hhd. apply log_writes_header. destruct Hg; lia.
Qed.

Lemma home_writes_in V bl vs n b :
  contents V bl vs → (n, b) ∈ home_writes bl vs → n ∈ bl ∧ V !! Z.to_nat n = Some b.
Proof.
  intros Hcon (k & Hk)%list_elem_of_lookup. apply lookup_zip_with_Some in Hk as (n' & b' & E & Hn & Hb).
  injection E as -> ->. split; [by eapply list_elem_of_lookup_2|].
  destruct (Forall2_lookup_l _ _ _ _ _ Hcon Hn) as (d & Hd & HV). congruence.
Qed.

Lemma home_writes_covers bl vs n :
  length vs = length bl → n ∈ bl → ∃ b, (n, b) ∈ home_writes bl vs.
Proof.
  intros Hl (k & Hk)%list_elem_of_lookup.
  destruct (lookup_lt_is_Some_2 vs k) as [b Hb]; [rewrite Hl; by eapply lookup_lt_Some|].
  exists b. apply (list_elem_of_lookup_2 _ k), lookup_zip_with_Some. eauto.
Qed.

(** After the commit point: the header lists the transaction, some of its
    blocks may be home. *)
Lemma log_disk_after ls sz d hd V bl vs j :
  log_disk ls sz d hd [] [] → length V = length d → blk hd →
  Forall (home ls sz (length d)) bl → 1 ∉ bl → contents V bl vs →
  Z.of_nat (length bl) ≤ sz - 1 →
  (∀ n, home ls sz (length d) n → n ∉ bl → d !! Z.to_nat n = V !! Z.to_nat n) →
  let d1 := apply_writes (take j (home_writes bl vs))
              (<[Z.to_nat ls := hdr bl hd]> (apply_writes (log_writes ls vs) d)) in
  log_disk ls sz d1 (hdr bl hd) bl vs ∧
  ∀ n, home ls sz (length d) n → apply_writes (home_writes bl vs) d1 !! Z.to_nat n = V !! Z.to_nat n.
Proof.
  intros [Hg (s & Hs & Hs12) _ _ _ _] HlV Hbhd Hh H1 Hcon Hfit Hclean d1.
  pose proof (Forall2_length _ _ _ Hcon) as Hlv.
  assert (H0 : 0 ≤ ls) by (destruct Hg; lia).
  assert (Hl : length d1 = length d).
  { unfold d1. by rewrite length_apply_writes, length_insert, length_apply_writes. }
  assert (Hlog : ∀ a, ls ≤ a < ls + sz → d1 !! Z.to_nat a =
            <[Z.to_nat ls := hdr bl hd]> (apply_writes (log_writes ls vs) d) !! Z.to_nat a).
  { intros a Ha. apply (home_writes_log _ ls sz); [|done|done].
    by rewrite length_insert, length_apply_writes. }
  assert (Hhome : ∀ n, home ls sz (length d) n → n ∉ bl → d1 !! Z.to_nat n = d !! Z.to_nat n).
  { intros n Hn Hnin. unfold d1. rewrite apply_writes_ne.
    - rewrite list_lookup_insert_ne by (eapply home_not_log; [done| |done]; destruct Hg; lia).
      rewrite <- (firstn_all (log_writes ls vs)). apply (log_writes_home d ls sz); [done|done|lia].
    - intros m b Hm%elem_of_take. destruct (home_writes_in _ _ _ _ _ Hcon Hm) as [Hmb _].
      rewrite Forall_forall in Hh. destruct (Hh m Hmb) as [Hm1 _]. destruct Hn as [Hn1 _].
      intros E. apply Hnin. by replace n with m by lia. }
  split; [split; rewrite ?Hl; try done|].
  - exists s. split; [|done]. rewrite <- Hs. apply (Hhome 1); [|done]. destruct Hg. split; lia.
  - split.
    + rewrite Hlog by (destruct Hg; lia). apply list_lookup_insert_eq.
      rewrite length_apply_writes. destruct Hg; lia.
    + apply hdr_decodes; [done|destruct Hg; lia|]. eapply Forall_impl; [exact Hh|].
      intros n [Hn _]. destruct Hg. unfold small. lia.
  - apply Forall_forall. intros n Hn. rewrite Forall_forall in Hh. split; [by apply Hh|set_solver].
  - split; [done|]. intros k v Hv. pose proof (lookup_lt_Some _ _ _ Hv).
    rewrite Hlog by lia. rewrite list_lookup_insert_ne by lia.
    apply log_writes_at; [done|done|]. destruct Hg; lia.
  - intros n Hn. destruct (decide (n ∈ bl)) as [Hin|Hnin].
    + apply apply_writes_agree; [|congruence|].
      * intros m b Hm. by destruct (home_writes_in _ _ _ _ _ Hcon Hm).
      * destruct (home_writes_covers bl vs n ltac:(done) Hin) as [b Hb]. exists b.
        rewrite Z2Nat.id by (destruct Hn; lia). done.
    + rewrite apply_writes_ne; [rewrite Hhome by done; by apply Hclean|].
      intros m b Hm. destruct (home_writes_in _ _ _ _ _ Hcon Hm) as [Hmb _].
      rewrite Forall_forall in Hh. destruct (Hh m Hmb) as [Hm1 _]. destruct Hn as [Hn1 _].
      intros E. apply Hnin. by replace n with m by lia.
Qed.

(** Clearing the header. *)
Lemma log_disk_clear ls sz d hd bl vs :
  log_disk ls sz d hd bl vs → blk hd →
  let d1 := <[Z.to_nat ls := hdr [] hd]> d in
  log_disk ls sz d1 (hdr [] hd) [] [] ∧ same_homes ls sz d1 d.
Proof.
  intros [Hg (s & Hs & Hs12) _ _ _ _] Hb d1.
  assert (Hl : length d1 = length d) by apply length_insert.
  split; [split; rewrite ?Hl; try done|split; [done|]].
  - exists s. split; [|done]. rewrite <- Hs. apply list_lookup_insert_ne. destruct Hg; lia.
  - split; [apply list_lookup_insert_eq; destruct Hg; lia|].
    apply hdr_decodes; [done|cbn; lia|done].
  - destruct Hg. cbn. lia.
  - intros n Hn. apply list_lookup_insert_ne.
    eapply home_not_log; [done|destruct Hg; lia|destruct Hg; lia].
Qed.

(** A reboot with a log on disk. *)
Lemma reboot_homes wr d ls sz hd bl vs e :
  booted wr d → log_disk ls sz d hd bl vs →
  ∃ wr', initlog ROOTDEV (KS wr e) = Ok tt (KS wr' e) ∧
    length (w_disk wr') = length d ∧
    (∀ n, home ls sz (length d) n →
       w_disk wr' !! Z.to_nat n = apply_writes (home_writes bl vs) d !! Z.to_nat n) ∧
    fs_thread wr' (w_disk wr') ∅ ∅ ∧ lh_is wr' [].
Proof.
  intros Hb Hld. destruct (initlog_ok wr d ls sz hd bl vs e Hb Hld) as (w' & Hr & Hf & _ & Hlh & Hd & _ & _).
  exists w'. rewrite Hd. split_and!; [done|apply length_apply_writes| |done|done].
  intros n Hn. apply (recovery_homes ls sz); [apply Hld|done].
Qed.

Lemma prefix_take {A} (l1 l2 : list A) : l1 `prefix_of` l2 → l1 = take (length l1) l2.
Proof. intros [k ->]. by rewrite take_app_length. Qed.

(** The disk at the end of a commit: the log is empty, the blocks are home. *)
Lemma commit_done ls sz d0 hd V bl vs :
  log_disk ls sz d0 hd [] [] → length V = length d0 → blk hd →
  Forall (home ls sz (length d0)) bl → 1 ∉ bl → contents V bl vs →
  Z.of_nat (length bl) ≤ sz - 1 →
  (∀ n, home ls sz (length d0) n → n ∉ bl → d0 !! Z.to_nat n = V !! Z.to_nat n) →
  ∃ hd1, log_disk ls sz (apply_writes (commit_writes ls bl vs hd) d0) hd1 [] [] ∧
    same_homes ls sz (apply_writes (commit_writes ls bl vs hd) d0) V.
Proof.
  intros Hld HlV Hb Hh H1 Hcon Hfit Hclean.
  destruct (decide (bl = [])) as [->|Hne].
  { exists hd. split; [done|]. split; [by cbn|]. rewrite HlV. intros n Hn. apply Hclean; set_solver. }
  rewrite commit_writes_eq, apply_writes_app, apply_writes_cons, apply_writes_snoc by done.
  unfold apply_write. cbn [fst snd].
  destruct (log_disk_after ls sz d0 hd V bl vs (length (home_writes bl vs))) as [Hld1 _]; [done..|].
  destruct (log_disk_after ls sz d0 hd V bl vs 0) as [_ Hhome]; [done..|].
  rewrite firstn_all in Hld1. rewrite take_0 in Hhome.
  assert (Hb1 : blk (hdr bl hd)) by (apply hdr_upto_blk; [done|destruct Hld as [[] _ _ _ _ _]; lia]).
  destruct (log_disk_clear _ _ _ _ _ _ Hld1 Hb1) as [Hld2 [_ Hhome2]].
  rewrite length_apply_writes, length_insert, length_apply_writes in Hhome2.
  exists (hdr [] (hdr bl hd)). split; [exact Hld2|].
  split; [by rewrite length_insert, length_apply_writes, length_insert, length_apply_writes|].
  rewrite HlV. intros n Hn. rewrite Hhome2 by done. by apply Hhome.
Qed.

(** The disk at every point of a commit has a log that is either empty, with
    the old blocks home, or holds the transaction. *)
Lemma commit_points ls sz d0 hd V bl vs k :
  log_disk ls sz d0 hd [] [] → length V = length d0 → blk hd →
  Forall (home ls sz (length d0)) bl → 1 ∉ bl → contents V bl vs → bl ≠ [] →
  Z.of_nat (length bl) ≤ sz - 1 →
  (∀ n, home ls sz (length d0) n → n ∉ bl → d0 !! Z.to_nat n = V !! Z.to_nat n) →
  let tr := commit_writes ls bl vs hd in
  let d1 := apply_writes (take k tr) d0 in
  ∃ hd1 bl1 vs1, log_disk ls sz d1 hd1 bl1 vs1 ∧
    ∀ n, home ls sz (length d0) n →
      apply_writes (home_writes bl1 vs1) d1 !! Z.to_nat n =
        (if decide (k ≤ length bl)%nat then d0 else V) !! Z.to_nat n.
Proof.
  intros Hld HlV Hb Hh H1 Hcon Hne Hfit Hclean tr d1.
  pose proof (Forall2_length _ _ _ Hcon) as Hlv.
  assert (Htr := commit_writes_eq ls bl vs hd Hne). fold tr in Htr. clearbody tr. subst tr.
  assert (Hllw : length (log_writes ls vs) = length bl) by (unfold log_writes; rewrite length_imap; lia).
  assert (Hlhw : length (home_writes bl vs) = length bl) by (unfold home_writes; rewrite length_zip; lia).
  destruct (decide (k ≤ length bl)%nat) as [Hk|Hk].
  - exists hd, [], []. unfold d1. rewrite take_app_le by lia.
    destruct (log_disk_before ls sz d0 hd vs k Hld ltac:(lia)) as [Hld1 [_ Hhome]]. done.
  - unfold d1. rewrite take_app_ge, Hllw by lia.
    destruct (k - length bl)%nat as [|j] eqn:Ej; [lia|]. cbn [take].
    rewrite apply_writes_app, apply_writes_cons. unfold apply_write. cbn [fst snd].
    destruct (decide (j ≤ length bl)%nat) as [Hj|Hj].
    + rewrite take_app_le by lia.
      destruct (log_disk_after ls sz d0 hd V bl vs j) as [Hld1 Hhome]; [done..|].
      eexists _, _, _. split; [exact Hld1|exact Hhome].
    + rewrite (firstn_all2 (home_writes bl vs ++ _)) by (rewrite length_app; cbn [length]; lia).
      destruct (commit_done ls sz d0 hd V bl vs) as (hd1 & Hld1 & _ & Hhome); [done..|].
      rewrite commit_writes_eq, apply_writes_app, apply_writes_cons in Hld1, Hhome by done.
      exists hd1, [], []. split; [exact Hld1|]. intros n Hn. apply Hhome. by rewrite HlV.
Qed.

(** A reboot after any of the writes of a commit. *)
Lemma commit_crash w V ls sz bl vs hd :
  in_tx w V ls sz bl ∅ → 1 ∉ bl → log_disk ls sz (w_disk w) hd [] [] → contents V bl vs →
  ∀ tr1 wr er, tr1 `prefix_of` commit_writes ls bl vs hd →
    booted wr (apply_writes tr1 (w_disk w)) →
    ∃ wr', initlog ROOTDEV (KS wr er) = Ok tt (KS wr' er) ∧
      same_homes ls sz (w_disk wr') (if decide (length tr1 ≤ length bl)%nat then w_disk w else V) ∧
      fs_thread wr' (w_disk wr') ∅ ∅ ∧ lh_is wr' [].
Proof.
  intros Htx H1 Hld Hcon tr1 wr er Hpre Hboot. pose proof Htx as [Hf Hla Hlh Hg Hnd Hh Hfit].
  pose proof (fs_thread_length _ _ _ _ Hf) as Hdl. pose proof (prefix_take _ _ Hpre) as Htk.
  assert (Hclean : ∀ n, home ls sz (length V) n → n ∉ bl → w_disk w !! Z.to_nat n = V !! Z.to_nat n).
  { intros n [Hn _] Hnin. symmetry. eapply fs_thread_clean; [done|].
    rewrite Z2Nat.id, elem_of_list_to_set by lia. done. }
  assert (Hhd : V !! Z.to_nat ls = Some hd).
  { rewrite <- (proj1 (ld_header _ _ _ _ _ _ Hld)). eapply fs_thread_clean; [done|].
    destruct Hg. rewrite Z2Nat.id, elem_of_list_to_set by lia. intros Hin.
    rewrite Forall_forall in Hh. destruct (Hh _ Hin). lia. }
  destruct (decide (bl = [])) as [->|Hne].
  - apply prefix_nil_inv in Hpre. subst tr1. cbn [apply_writes foldl] in Hboot.
    destruct (reboot_homes wr _ ls sz hd [] [] er Hboot Hld) as (wr' & Hrr & Hl' & Hhome & Hrest).
    exists wr'. split_and!; [done| |apply Hrest..]. split; [done|exact Hhome].
  - destruct (commit_points ls sz (w_disk w) hd V bl vs (length tr1)) as (hd1 & bl1 & vs1 & Hld1 & Hhome1);
      rewrite ?Hdl; try done; [exact (fs_thread_blk _ _ _ _ _ _ Hf Hhd)|].
    rewrite <- Htk in Hld1, Hhome1. rewrite Hdl in Hhome1.
    destruct (reboot_homes wr _ ls sz hd1 bl1 vs1 er Hboot Hld1) as (wr' & Hrr & Hl' & Hhome & Hrest).
    rewrite length_apply_writes in Hl', Hhome. rewrite Hdl in Hl', Hhome.
    exists wr'. split_and!; [done| |apply Hrest..].
    split; [case_decide; congruence|]. intros n Hn.
    assert (Hn' : home ls sz (length V) n) by (case_decide; congruence).
    rewrite (Hhome n Hn'). by apply Hhome1.
Qed.

(** Recovery interrupted after [k] of its writes leaves a log from which the
    next recovery reaches the same blocks. *)
Lemma recovery_points ls sz d hd bl vs k :
  log_disk ls sz d hd bl vs → blk hd →
  let d1 := apply_writes (take k (recovery_writes ls hd bl vs)) d in
  ∃ hd1 bl1 vs1, log_disk ls sz d1 hd1 bl1 vs1 ∧
    ∀ n, home ls sz (length d) n →
      apply_writes (home_writes bl1 vs1) d1 !! Z.to_nat n =
        apply_writes (home_writes bl vs) d !! Z.to_nat n.
Proof.
  intros Hld Hb d1. pose proof (ld_home' _ _ _ _ _ _ Hld) as Hh.
  pose proof Hld as [Hg (s & Hs & Hs12) [Hhd Hdec] Hh1 Hfit [Hlv Hlog]].
  set (m := length (home_writes bl vs)). assert (H0 : 0 ≤ ls) by (destruct Hg; lia).
  assert (Hmid : ∀ j, log_disk ls sz (apply_writes (take j (home_writes bl vs)) d) hd bl vs).
  { intros j. set (d' := apply_writes _ d).
    assert (Hl' : length d' = length d) by apply length_apply_writes.
    assert (Hlog' : ∀ a, ls ≤ a < ls + sz → d' !! Z.to_nat a = d !! Z.to_nat a).
    { intros a Ha. by apply (home_writes_log d ls sz). }
    split; rewrite ?Hl'; try done.
    - exists s. split; [|done]. rewrite <- Hs. apply apply_writes_ne.
      intros n b Hn%elem_of_take%elem_of_zip_l. rewrite Forall_forall in Hh1.
      destruct (Hh1 n Hn) as [[Hn1 _] Hn2]. lia.
    - split; [|done]. rewrite <- Hhd. apply Hlog'. destruct Hg; lia.
    - split; [done|]. intros i v Hv. pose proof (lookup_lt_Some _ _ _ Hv).
      rewrite Hlog' by lia. by apply Hlog. }
  unfold d1, recovery_writes. destruct (decide (k ≤ m)%nat) as [Hk|Hk].
  - rewrite take_app_le by done. exists hd, bl, vs. split; [apply Hmid|]. intros n Hn.
    apply apply_writes_cong; [apply length_apply_writes|].
    destruct (decide (n ∈ bl)) as [Hin|Hnin].
    + right. destruct (home_writes_covers bl vs n Hlv Hin) as [b Hb']. by exists n, b.
    + left. apply apply_writes_ne. intros i b Hi%elem_of_take%elem_of_zip_l.
      rewrite Forall_forall in Hh. destruct (Hh i Hi) as [Hi1 _]. destruct Hn as [Hn1 _].
      intros E. apply Hnin. by replace n with i by lia.
  - rewrite (firstn_all2 (home_writes bl vs ++ _)) by (rewrite length_app; cbn [length]; fold m; lia).
    rewrite apply_writes_snoc. pose proof (Hmid m) as Hm. unfold m in Hm. rewrite firstn_all in Hm.
    destruct (log_disk_clear _ _ _ _ _ _ Hm Hb) as [Hld2 [_ Hhome]].
    rewrite length_apply_writes in Hhome.
    eexists _, [], []. split; [exact Hld2|]. intros n Hn. by apply Hhome.
Qed.

(** C16: recovery can itself be interrupted.  [initlog] on a disk whose log holds
    a committed transaction puts its blocks home.  If the machine stops after
    any of the writes recovery issues, the next boot's [initlog] succeeds and
    leaves every block outside the log as the uninterrupted recovery does. *)
Theorem recovery_restartable w d ls sz hd bl vs e :
  booted w d → log_disk ls sz d hd bl vs →
  ∃ w' tr, initlog ROOTDEV (KS w e) = Ok tt (KS w' e) ∧ w_hist w' = w_hist w ++ tr ∧
    same_homes ls sz (w_disk w') (apply_writes (home_writes bl vs) d) ∧
    ∀ tr1 wr er, tr1 `prefix_of` tr → booted wr (apply_writes tr1 d) →
      ∃ wr', initlog ROOTDEV (KS wr er) = Ok tt (KS wr' er) ∧
        same_homes ls sz (w_disk wr') (w_disk w').
Proof.
  intros Hboot Hld. pose proof Hboot as (Hf & _ & _).
  assert (Hb : blk hd) by exact (fs_thread_blk _ _ _ _ _ _ Hf (proj1 (ld_header _ _ _ _ _ _ Hld))).
  destruct (initlog_ok w d ls sz hd bl vs e Hboot Hld) as (w' & Hr & _ & _ & _ & Hd & Hi & _).
  assert (Hl : length (w_disk w') = length d) by (rewrite Hd; apply length_apply_writes).
  assert (Hhome : ∀ n, home ls sz (length d) n →
    w_disk w' !! Z.to_nat n = apply_writes (home_writes bl vs) d !! Z.to_nat n).
  { intros n Hn. rewrite Hd. apply (recovery_homes ls sz); [apply Hld|done]. }
  exists w', (recovery_writes ls hd bl vs). split_and!; [done|done| |].
  { split; rewrite length_apply_writes; done. }
  intros tr1 wr er Hpre Hboot1. rewrite (prefix_take _ _ Hpre) in Hboot1.
  destruct (recovery_points ls sz d hd bl vs (length tr1) Hld Hb) as (hd1 & bl1 & vs1 & Hld1 & Hhome1).
  destruct (reboot_homes wr _ ls sz hd1 bl1 vs1 er Hboot1 Hld1) as (wr' & Hrr & Hl' & Hhome' & _).
  rewrite length_apply_writes in Hl', Hhome'. exists wr'. split; [done|].
  split; [congruence|]. rewrite Hl. intros n Hn. by rewrite Hhome', Hhome1, Hhome.
Qed.
End crash.
