(* ===== verification/LogTx.v ===== *)
(** * Transactions

    [begin_op], [log_write] and [end_op], and whole transactions: a sequence of
    updates of blocks between [begin_op] and [end_op] happens on disk entirely
    or not at all, whenever the machine stops. *)

From S2P Require Import Prelude Kernel Bytes Spinlock Sched Sleeplock Disk Memide Bio Bcache Log LogSpec LogCrash.

Section tx.
  Context {D : DiskDriver} {L : DiskLaws D}.

(** ** [begin_op] *)

Lemma begin_op_free w e :
  calm w → lock_free w L_log → committing (w_log w) = 0 →
  lh_n (w_log w) + (outstanding (w_log w) + 1) * MAXOPBLOCKS ≤ LOGSIZE →
  0 ≤ lh_n (w_log w) → 0 ≤ outstanding (w_log w) →
  begin_op (KS w e) =
    Ok tt (KS (w <| w_log ::= λ l, l <| outstanding ::= λ n, n + 1 |> |>) e).
Proof.
  intros Hc Hl Hcm Hroom Hn Ho. unfold begin_op, foreverK, modlog.
  kcall (acquire_free L_log w e (proj1 Hl)). cbn [loopM ks_env].
  assert (Hlog : w_log (acquired L_log w) = w_log w) by (unfold acquired; by rsimpl).
  kstep. rewrite Hlog, Hcm. cbn [Z.eqb negb].
  replace (_ >? LOGSIZE) with false by (symmetry; rewrite Z.gtb_ltb; apply Z.ltb_ge; lia). kstep.
  erewrite bind_ok; [|apply (release_calm L_log w); done || by rsimpl]. kstep.
  unfold mret, M_ret, acquired. weq. unfold LOGSIZE, MAXOPBLOCKS in *.
  destruct (w_log w) as [? ? o]; cbn in *. usetf. cbn. f_equal. apply s32_small. lia.
Qed.

(** ** [log_write] *)

Lemma absorb_spec w bl n e k fuel :
  lh_is w bl → Forall small bl → (k ≤ length bl)%nat → (length bl - k < fuel)%nat → 0 ≤ n →
  ∃ i, absorb fuel (Z.of_nat k) n (KS w e) = Ok (Z.of_nat i) (KS w e) ∧ (k ≤ i ≤ length bl)%nat ∧
    (bl !! i = Some n ∨ i = length bl ∧ ∀ j, (k ≤ j)%nat → bl !! j ≠ Some n).
Proof.
  intros Hlh Hs. revert k. induction fuel as [|fuel IH]; intros k Hk Hf Hn; [lia|].
  cbn [absorb]. kstep. rewrite (proj1 Hlh). destruct (decide (k = length bl)) as [->|Hne].
  - rewrite Z.ltb_irrefl. exists (length bl). split_and!; [done|lia|lia|]. right. split; [done|].
    intros j Hj E%lookup_lt_Some. lia.
  - rewrite (proj2 (Z.ltb_lt _ _)) by lia.
    destruct (lookup_lt_is_Some_2 bl k) as [v Hv]; [lia|].
    kcall (get_lh_eq w bl k v e Hlh Hv).
    assert (Hsv : small v) by (rewrite Forall_lookup in Hs; eauto). unfold small in Hsv.
    rewrite u32_small by lia. destruct (Z.eqb_spec v n) as [->|Hvn].
    + exists k. split_and!; [done|lia|lia|by left].
    + replace (Z.of_nat k + 1) with (Z.of_nat (S k)) by lia.
      destruct (IH (S k)) as (i & Hr & Hi & Hc); [lia|lia|done|].
      exists i. split_and!; [done|lia|lia|]. destruct Hc as [?|[-> Hj]]; [by left|right].
      split; [done|]. intros j Hj' E. destruct (decide (j = k)) as [->|]; [congruence|].
      apply (Hj j); [lia|done].
Qed.

(** The list of logged blocks after [log_write] of block [n]: an update of a
    block already in the log is absorbed. *)
Definition logged (n : Z) (bl : list Z) : list Z := if decide (n ∈ bl) then bl else bl ++ [n].

Definition log_set (i : nat) (n : Z) (bl : list Z) (l : log) : log :=
  l <| lh_block ::= <[i := n]> |> <| lh_n := Z.of_nat (length (logged n bl)) |>.

Lemma log_set_lh w bl n i :
  lh_is w bl → Z.of_nat (length bl) < LOGSIZE → (i ≤ length bl)%nat →
  (bl !! i = Some n ∨ i = length bl ∧ ∀ j, (0 ≤ j)%nat → bl !! j ≠ Some n) →
  lh_is (w <| w_log ::= log_set i n bl |>) (logged n bl).
Proof.
  intros (H1 & H2 & H3) Hlt Hi Hc. unfold lh_is, log_set. rsimpl.
  split_and!; [done|by rewrite length_insert|]. intros k v Hv. unfold logged in Hv.
  destruct (decide (i = k)) as [->|Hne].
  - rewrite list_lookup_insert_eq by (rewrite H2; unfold LOGSIZE in *; lia).
    destruct Hc as [Hc|[-> Hc]].
    + rewrite decide_True in Hv by (by eapply list_elem_of_lookup_2). congruence.
    + rewrite decide_False in Hv.
      * by rewrite list_lookup_middle in Hv.
      * intros (j & Hj)%list_elem_of_lookup. apply (Hc j); [lia|done].
  - rewrite list_lookup_insert_ne by done. apply H3. revert Hv. case_decide; [done|].
    intros [Hv|[Hlen Hv]]%lookup_app_Some; [done|].
    destruct Hc as [Hc|[-> Hc]].
    + exfalso. apply H. by eapply list_elem_of_lookup_2.
    + apply lookup_lt_Some in Hv as Hk. cbn in Hk. lia.
Qed.

(** What log operations change: the cache's part of the world and the log. *)
Definition fs_only (w w' : world) : Prop := ∃ l, cache_only (w <| w_log := l |>) w'.

Lemma fs_only_cache w w' : cache_only w w' → fs_only w w'.
Proof.
  intros H. exists (w_log w). replace (w <| w_log := w_log w |>) with w by weq. done.
Qed.

Lemma fs_only_log w f : fs_only w (w <| w_log ::= f |>).
Proof.
  exists (f (w_log w)). replace (w <| w_log ::= f |>) with (w <| w_log := f (w_log w) |>) by weq.
  apply cache_only_refl.
Qed.

Lemma cache_only_set_log w w' l :
  cache_only w w' → cache_only (w <| w_log := l |>) (w' <| w_log := l |>).
Proof.
  intros (bs & sl & dk & hi & ps & -> & H1 & H2 & H3).
  exists bs, sl, dk, hi, ps. rsimpl. split_and!; [weq|done..].
Qed.

Lemma fs_only_trans w1 w2 w3 : fs_only w1 w2 → fs_only w2 w3 → fs_only w1 w3.
Proof.
  intros [l1 H1] [l2 H2]. exists l2. eapply cache_only_trans; [|exact H2].
  apply (cache_only_set_log _ _ l2) in H1.
  replace (w1 <| w_log := l1 |> <| w_log := l2 |>) with (w1 <| w_log := l2 |>) in H1 by weq. done.
Qed.

Lemma NoDup_logged n bl : NoDup bl → NoDup (logged n bl).
Proof.
  intros H. unfold logged. case_decide; [done|]. apply NoDup_app. split_and!; [done| |apply NoDup_singleton].
  set_solver.
Qed.

Lemma logged_set n bl : list_to_set (logged n bl) =@{gset Z} {[n]} ∪ list_to_set bl.
Proof. unfold logged. case_decide; set_solver. Qed.

Lemma logged_length n bl : (length bl ≤ length (logged n bl) ≤ S (length bl))%nat.
Proof. unfold logged. case_decide; rewrite ?length_app; cbn; lia. Qed.

Lemma log_write_eq w bl b x n e :
  calm w → lock_free w L_log → lh_is w bl → Forall small bl → w_bufs w !! b = Some x →
  blockno x = n → small n → Z.of_nat (length bl) < LOGSIZE →
  Z.of_nat (length bl) < log_size (w_log w) - 1 → 1 ≤ outstanding (w_log w) →
  ∃ i, (i ≤ length bl)%nat ∧
    (bl !! i = Some n ∨ i = length bl ∧ ∀ j, (0 ≤ j)%nat → bl !! j ≠ Some n) ∧
    log_write b (KS w e) =
      Ok tt (KS (w <| w_log ::= log_set i n bl |>
                   <| w_bufs ::= alter (λ x, x <| b_flags ::= add_flag B_DIRTY |>) b |>) e).
Proof.
  intros Hc Hl Hlh Hs Hx Hn Hsn Hlt1 Hlt2 Ho. unfold log_write, modb. kstep.
  pose proof Hlh as (Hlhn & Hlb & _). unfold small in Hsn. rewrite Hlhn.
  replace (_ >=? LOGSIZE) with false by lia. replace (_ >=? log_size (w_log w) - 1) with false by lia.
  cbn [orb]. replace (outstanding (w_log w) <? 1) with false by lia.
  kcall (acquire_free L_log w e (proj1 Hl)).
  assert (Hlog : w_log (acquired L_log w) = w_log w) by (unfold acquired; by rsimpl).
  assert (Hlh' : lh_is (acquired L_log w) bl) by (unfold lh_is; by rewrite Hlog).
  erewrite bind_ok; [|apply (getb_eq b x); unfold acquired; by rsimpl]. rewrite Hn.
  destruct (absorb_spec (acquired L_log w) bl n e 0 log_fuel) as (i & Hr & Hi & Hcase); try done.
  { lia. }
  { unfold log_fuel. unfold LOGSIZE in *. lia. }
  { lia. }
  exists i. split_and!; [lia|done|]. change (Z.of_nat 0) with 0 in Hr. kcall Hr.
  unfold set_lh, get_lh, modlog. kstep. rewrite Hlog, Nat2Z.id.
  destruct (lookup_lt_is_Some_2 (lh_block (w_log w)) i) as [u Hu]; [rewrite Hlb; unfold LOGSIZE in *; lia|].
  rewrite Hu. kstep. rewrite Hlog, Hlhn.
  rewrite (s32_small n) by lia.
  assert (Hls : (if decide (i = length bl) then Z.of_nat (length bl) + 1 else Z.of_nat (length bl)) =
                Z.of_nat (length (logged n bl))).
  { unfold logged. destruct Hcase as [Hin|[-> Hno]].
    - pose proof (lookup_lt_Some _ _ _ Hin). rewrite decide_False by lia.
      by rewrite decide_True by (by eapply list_elem_of_lookup_2).
    - rewrite decide_True, decide_False, length_app; [cbn; lia| |done].
      intros (j & Hj)%list_elem_of_lookup. apply (Hno j); [lia|done]. }
  destruct (Z.eqb_spec (Z.of_nat i) (Z.of_nat (length bl))) as [E|E]; kstep.
  - rewrite decide_True in Hls by lia.
    rewrite (release_calm L_log w) by (done || by rsimpl). unfold acquired. weq.
    unfold log_set. rewrite <- Hls. unfold LOGSIZE, MAXOPBLOCKS in *.
    destruct (w_log w); cbn in *; subst. usetf. cbn. f_equal. apply s32_small. lia.
  - rewrite decide_False in Hls by lia.
    rewrite (release_calm L_log w) by (done || by rsimpl). unfold acquired. weq.
    unfold log_set. rewrite <- Hls. destruct (w_log w); cbn in *; subst. by usetf.
Qed.

(** An update joins the transaction, or is absorbed by it. *)
Lemma log_write_ok w V ls sz bl H b n e :
  in_tx w V ls sz bl H → H !! b = Some n → home ls sz (length V) n →
  Z.of_nat (length bl) < sz - 1 → 1 ≤ outstanding (w_log w) →
  ∃ w', log_write b (KS w e) = Ok tt (KS w' e) ∧ in_tx w' V ls sz (logged n bl) H ∧ fs_only w w' ∧
    w_disk w' = w_disk w ∧ w_hist w' = w_hist w ∧
    outstanding (w_log w') = outstanding (w_log w) ∧ committing (w_log w') = committing (w_log w).
Proof.
  intros [Hf Hla Hlh Hg Hnd Hh Hfit] Hb Hn Hlt Ho.
  destruct (held_ok _ _ _ _ _ _ Hf Hb) as (x & Hx & Hxn & Hpos & _).
  assert (Hsm : ∀ m, home ls sz (length V) m → small m).
  { intros m [Hm _]. destruct Hg. unfold small. lia. }
  pose proof (proj1 Hf) as ([Hcalm _] & Hlk & _).
  destruct (log_write_eq w bl b x n e) as (i & Hi & Hcase & Hr); try done.
  { by eapply Forall_impl. }
  { by apply Hsm. }
  { destruct Hg; lia. }
  { destruct Hla as (_ & _ & ->). lia. }
  rewrite Hr. set (w1 := w <| w_log ::= log_set i n bl |>).
  assert (Hf1 : fs_thread w1 V (list_to_set bl) H) by by apply fs_thread_log.
  destruct (pin_ok w1 V (list_to_set bl) H b n e Hf1 Hb) as (w2 & Hr2 & Hf2 & Hc2 & Hd2 & Hi2).
  unfold modb in Hr2. rewrite modw_eq in Hr2. injection Hr2 as Hw2. rewrite Hw2.
  pose proof (cache_only_log _ _ Hc2) as Hlog2.
  exists w2. split_and!; [done| | | | | |].
  - split; try done.
    + by rewrite logged_set.
    + unfold log_at in *. rewrite Hlog2. unfold w1, log_set. by rsimpl.
    + unfold lh_is. rewrite Hlog2. apply (log_set_lh w bl n i); try done. destruct Hg; lia.
    + by apply NoDup_logged.
    + unfold logged. case_decide; [done|]. apply Forall_app_2; [done|by constructor].
    + pose proof (logged_length n bl). lia.
  - eapply fs_only_trans; [apply fs_only_log|]. by apply fs_only_cache.
  - rewrite Hd2. unfold w1. by rsimpl.
  - rewrite Hi2. unfold w1. by rsimpl.
  - rewrite Hlog2. unfold w1, log_set. by rsimpl.
  - rewrite Hlog2. unfold w1, log_set. by rsimpl.
Qed.

(** ** [end_op] *)

Lemma cache_only_wake w c : cache_only w (wake_all c w).
Proof.
  exists (w_bufs w), (w_slocks w), (w_disk w), (w_hist w), (wake_one c <$> w_procs w).
  unfold wake_all. split_and!; [weq|apply wake_all_roused|done..].
Qed.

Lemma fs_thread_wake w V Dt H c : fs_thread w V Dt H → fs_thread (wake_all c w) V Dt H.
Proof.
  intros [Ht (pi & Hbc)]. split; [eapply cache_only_thread; [apply cache_only_wake|done]|].
  exists pi. eapply bcache_at_frame; [..|done]; unfold wake_all; by rsimpl.
Qed.

(** The critical section that ends a commit. *)
Lemma end_commit_eq w e :
  at_ease w → (∀ lk, lock_free w lk) →
  (acquire L_log ;; modlog (λ l, l <| committing := 0 |>) ;; wakeup C_log ;; release L_log) (KS w e) =
    Ok tt (KS (wake_all C_log (w <| w_log ::= λ l, l <| committing := 0 |> |>)) e).
Proof.
  intros Ha Hl. kcall (acquire_free L_log w e (proj1 (Hl L_log))). kstep.
  rewrite (wake_release L_log C_log w) by (done || by rsimpl). unfold wake_all, acquired. weq.
Qed.

Lemma end_op_last w V ls sz bl vs hd e :
  in_tx w V ls sz bl ∅ → contents V bl vs → V !! Z.to_nat ls = Some hd →
  outstanding (w_log w) = 1 → committing (w_log w) = 0 →
  let tr := commit_writes ls bl vs hd in
  ∃ w', end_op (KS w e) = Ok tt (KS w' e) ∧
    in_tx w' (apply_writes tr V) ls sz [] ∅ ∧
    w_disk w' = apply_writes tr (w_disk w) ∧ w_hist w' = w_hist w ++ tr ∧
    outstanding (w_log w') = 0 ∧ committing (w_log w') = 0.
Proof.
  intros [Hf Hla Hlh Hg Hnd Hh Hfit] Hcon Hhd Ho Hcm tr.
  pose proof (proj1 Hf) as ([Hcalm _] & Hlk & _).
  set (w1 := w <| w_log ::= λ l, l <| outstanding := 0 |> <| committing := 1 |> |>).
  assert (Htx1 : in_tx w1 V ls sz bl ∅).
  { split; try done. by apply fs_thread_log. }
  destruct (commit_ok w1 V ls sz bl vs hd e Htx1 Hcon Hhd)
    as (w2 & Hr2 & Hf2 & Hla2 & Hlh2 & Hd2 & Hi2 & Ho2 & Hc2).
  pose proof (proj1 Hf2) as (Ha2 & Hlk2 & _).
  exists (wake_all C_log (w2 <| w_log ::= λ l, l <| committing := 0 |> |>)). split_and!.
  - unfold end_op. kcall (acquire_free L_log w e (proj1 (Hlk L_log))). kstep.
    replace (w_log (acquired L_log w)) with (w_log w) by (unfold acquired; by rsimpl).
    rewrite Hcm, Ho. cbn [Z.eqb negb]. change (s32 (1 - 1) =? 0) with true. kstep.
    erewrite bind_ok; [|apply (release_calm L_log w); done || by rsimpl].
    replace (_ <| w_locks := w_locks w |>) with w1; [kcall Hr2; by apply end_commit_eq|].
    unfold w1, acquired. weq. destruct (w_log w); cbn in *; subst. by usetf.
  - split; try done.
    + apply fs_thread_wake. by apply fs_thread_log.
    + eapply geometry_length; [apply length_apply_writes|done].
    + constructor.
    + destruct Hg. cbn. lia.
  - unfold wake_all. rsimpl. rewrite Hd2. unfold w1. by rsimpl.
  - unfold wake_all. rsimpl. rewrite Hi2. unfold w1. by rsimpl.
  - unfold wake_all. rsimpl. rewrite Ho2. unfold w1. by rsimpl.
  - unfold wake_all. by rsimpl.
Qed.

(** ** Transactions *)

(** One update of a transaction, as the file system does it. *)
Definition run_update (u : Z * block) : K unit :=
  b ← bread ROOTDEV (fst u);
  modb b (λ x, x <| b_data := snd u |>) ;;
  log_write b ;;
  brelse b.

Definition run_tx (us : writes) : K unit :=
  begin_op ;; iterM run_update us ;; end_op.

Definition update_ok (ls sz : Z) (size : nat) (u : Z * block) : Prop :=
  home ls sz size (fst u) ∧ fst u ≠ 1 ∧ blk (snd u).

Lemma run_update_ok w V ls sz bl n d e :
  in_tx w V ls sz bl ∅ → update_ok ls sz (length V) (n, d) →
  Z.of_nat (length bl) < sz - 1 → 1 ≤ outstanding (w_log w) →
  ∃ w', run_update (n, d) (KS w e) = Ok tt (KS w' e) ∧
    in_tx w' (<[Z.to_nat n := d]> V) ls sz (logged n bl) ∅ ∧
    w_disk w' = w_disk w ∧ w_hist w' = w_hist w ∧
    outstanding (w_log w') = outstanding (w_log w) ∧ committing (w_log w') = committing (w_log w).
Proof.
  intros [Hf Hla Hlh Hg Hnd Hh Hfit] (Hn & Hn1 & Hd) Hlt Ho. cbn [fst snd] in *.
  destruct (lookup_lt_is_Some_2 V (Z.to_nat n)) as [d0 Hd0]; [destruct Hn; lia|].
  destruct (bread_ok w V (list_to_set bl) ∅ n d0 e) as
    (b & w1 & x & Hr1 & Hf1 & _ & _ & _ & _ & Hc1 & Hk1 & Hi1); try done.
  { destruct Hn; lia. }
  { right. rewrite map_size_empty, size_list_to_set by done. destruct Hg.
    unfold NBUF, LOGSIZE in *. lia. }
  pose proof (lookup_insert_eq (∅ : gmap nat Z) b n) as Hb.
  destruct (modify_ok w1 V _ _ b n d e Hf1 Hb Hd) as (w2 & Hr2 & Hf2 & Hc2 & Hk2 & Hi2).
  set (V2 := <[Z.to_nat n := d]> V) in *.
  assert (HV2 : length V2 = length V) by apply length_insert.
  assert (Hc02 : cache_only w w2) by ctrans.
  destruct (log_write_ok w2 V2 ls sz bl (<[b := n]> ∅) b n e) as (w3 & Hr3 & Htx3 & _ & Hk3 & Hi3 & Ho3 & Hcm3);
    rewrite ?HV2; try done.
  { split; rewrite ?HV2; try done; [by apply (cache_only_log_at w)|by apply (cache_only_lh w)]. }
  { by rewrite (cache_only_log _ _ Hc02). }
  pose proof Htx3 as [Hf3 Hla3 Hlh3 Hg3 Hnd3 Hh3 Hfit3].
  destruct (brelse_ok w3 V2 _ _ b n e Hf3 Hb) as (w4 & Hr4 & Hf4 & Hc4 & Hk4 & Hi4).
  { left. rewrite logged_set. set_solver. }
  rewrite delete_insert_id in Hf4 by done.
  exists w4. unfold run_update. cbn [fst snd]. kcall Hr1. kcall Hr2. kcall Hr3.
  split_and!; [done| |congruence..| |].
  - split; try done; [by apply (cache_only_log_at w3)|by apply (cache_only_lh w3)].
  - by rewrite (cache_only_log _ _ Hc4), Ho3, (cache_only_log _ _ Hc02).
  - by rewrite (cache_only_log _ _ Hc4), Hcm3, (cache_only_log _ _ Hc02).
Qed.

(** The blocks of a sequence of updates, each once. *)
Fixpoint logged_all (us : writes) (bl : list Z) : list Z :=
  match us with
  | [] => bl
  | u :: us => logged_all us (logged (fst u) bl)
  end.

Lemma run_updates_ok us w V ls sz bl e :
  in_tx w V ls sz bl ∅ → Forall (update_ok ls sz (length V)) us →
  Z.of_nat (length bl + length us) ≤ sz - 1 → 1 ≤ outstanding (w_log w) →
  ∃ w', iterM run_update us (KS w e) = Ok tt (KS w' e) ∧
    in_tx w' (apply_writes us V) ls sz (logged_all us bl) ∅ ∧
    w_disk w' = w_disk w ∧ w_hist w' = w_hist w ∧
    outstanding (w_log w') = outstanding (w_log w) ∧ committing (w_log w') = committing (w_log w).
Proof.
  revert w V bl. induction us as [|[n d] us IH]; intros w V bl Htx Hus Hlen Ho; [by exists w|].
  apply Forall_cons in Hus as [Hu Hus]. cbn [length] in Hlen.
  destruct (run_update_ok w V ls sz bl n d e Htx Hu) as (w1 & Hr1 & Htx1 & Hk1 & Hi1 & Ho1 & Hcm1);
    [lia|done|].
  destruct (IH w1 (<[Z.to_nat n := d]> V) (logged n bl)) as (w2 & Hr2 & Htx2 & Hk2 & Hi2 & Ho2 & Hcm2).
  { done. }
  { by rewrite length_insert. }
  { pose proof (logged_length n bl). lia. }
  { lia. }
  exists w2. cbn [iterM]. kcall Hr1. split_and!; [done|done|congruence..].
Qed.

Lemma logged_all_home us bl n : n ∈ logged_all us bl → n ∈ bl ∨ n ∈ us.*1.
Proof.
  revert bl. induction us as [|[m d] us IH]; intros bl; cbn; [by left|].
  intros [H|H]%IH; [|set_solver]. unfold logged in H. revert H. case_decide; set_solver.
Qed.

Lemma logged_all_mono us bl n : n ∈ bl → n ∈ logged_all us bl.
Proof.
  revert bl. induction us as [|u us IH]; intros bl Hn; [done|]. apply IH. unfold logged.
  case_decide; set_solver.
Qed.

(** The log between transactions, on a disk [d] the cache agrees with. *)
Record quiescent (w : world) (ls sz : Z) : Prop := {
  qu_tx : in_tx w (w_disk w) ls sz [] ∅;
  qu_disk : ∃ hd, log_disk ls sz (w_disk w) hd [] [];
  qu_idle : outstanding (w_log w) = 0 ∧ committing (w_log w) = 0
}.

Lemma apply_writes_same tr V k :
  (∀ n b, (n, b) ∈ tr → Z.to_nat n = k → V !! k = Some b) → apply_writes tr V !! k = V !! k.
Proof.
  intros H. destruct (decide (k < length V)%nat) as [Hk|Hk].
  2: { rewrite !lookup_ge_None_2; [done|lia|rewrite length_apply_writes; lia]. }
  induction tr as [|[n b] tr IH] using rev_ind; [done|]. rewrite apply_writes_snoc.
  destruct (decide (Z.to_nat n = k)) as [<-|Hne].
  - rewrite list_lookup_insert_eq by (rewrite length_apply_writes; lia).
    symmetry. apply (H n b); [set_solver|done].
  - rewrite list_lookup_insert_ne by done. apply IH. intros m c Hm. apply H. set_solver.
Qed.

Lemma fs_thread_view w V : fs_thread w V ∅ ∅ → w_disk w = V.
Proof.
  intros Hf. apply list_eq; intros k. symmetry. by eapply fs_thread_clean.
Qed.

(** The end of a transaction that has logged the blocks [bl], of which the
    disk holds the old contents: its disk writes have one commit point. *)
Lemma tx_commit w V ls sz bl hd e :
  in_tx w V ls sz bl ∅ → 1 ∉ bl → log_disk ls sz (w_disk w) hd [] [] →
  outstanding (w_log w) = 1 → committing (w_log w) = 0 →
  ∃ w' tr, end_op (KS w e) = Ok tt (KS w' e) ∧ quiescent w' ls sz ∧
    w_hist w' = w_hist w ++ tr ∧ w_disk w' = apply_writes tr (w_disk w) ∧
    same_homes ls sz (w_disk w') V ∧ (bl ≠ [] → length bl < length tr)%nat ∧
    ∀ tr1 wr er, tr1 `prefix_of` tr → booted wr (apply_writes tr1 (w_disk w)) →
      ∃ wr', initlog ROOTDEV (KS wr er) = Ok tt (KS wr' er) ∧
        same_homes ls sz (w_disk wr') (if decide (length tr1 ≤ length bl)%nat then w_disk w else V).
Proof.
  intros Htx Hnin Hld Ho Hcm. pose proof Htx as [Hf Hla Hlh Hg Hnd Hh Hfit].
  pose proof (fs_thread_length _ _ _ _ Hf) as Hdl.
  destruct (contents_exists V ls sz bl Hh) as (vs & Hcon).
  assert (Hclean : ∀ n, home ls sz (length V) n → n ∉ bl → w_disk w !! Z.to_nat n = V !! Z.to_nat n).
  { intros n [Hn _] Hnb. symmetry. eapply fs_thread_clean; [done|].
    rewrite Z2Nat.id, elem_of_list_to_set by lia. done. }
  assert (Hhd : V !! Z.to_nat ls = Some hd).
  { rewrite <- (proj1 (ld_header _ _ _ _ _ _ Hld)). eapply fs_thread_clean; [done|].
    destruct Hg. rewrite Z2Nat.id, elem_of_list_to_set by lia. intros Hin.
    rewrite Forall_forall in Hh. destruct (Hh _ Hin). lia. }
  destruct (end_op_last w V ls sz bl vs hd e Htx Hcon Hhd Ho Hcm) as (w3 & Hr3 & Htx3 & Hk3 & Hi3 & Ho3 & Hcm3).
  set (tr := commit_writes ls bl vs hd) in *.
  destruct (commit_done ls sz (w_disk w) hd V bl vs) as (hd3 & Hld3 & Hsh3); rewrite ?Hdl; try done.
  { exact (fs_thread_blk _ _ _ _ _ _ Hf Hhd). }
  pose proof (fs_thread_view _ _ (tx_thread _ _ _ _ _ _ Htx3)) as Hv3.
  exists w3, tr. split_and!; try done.
  - split; [by rewrite Hv3|exists hd3; by rewrite Hk3|done].
  - by rewrite Hk3.
  - intros Hbne. unfold tr. rewrite commit_writes_eq by done. pose proof (Forall2_length _ _ _ Hcon) as Hlv.
    rewrite length_app. unfold log_writes. rewrite length_imap. cbn [length]. lia.
  - intros tr1 wr er Hpre Hboot.
    destruct (commit_crash w V ls sz bl vs hd Htx Hnin Hld Hcon tr1 wr er Hpre Hboot) as (wr' & Hrr & Hsh & _).
    by exists wr'.
Qed.

(** C1: transactions are atomic and durable.  Run a sequence of block updates
    between [begin_op] and [end_op], on any disk driver that keeps its laws.
    It succeeds and leaves the updated blocks on disk and the log ready for the
    next transaction.  Its disk writes have one commit point [k]: a machine that
    stops after at most [k] of them finds, once [initlog] has run at the next
    boot, every block outside the log as before the transaction, and a machine
    that stops later finds every block as the whole transaction left it. *)
Theorem transaction_atomic us w ls sz e :
  quiescent w ls sz → Forall (update_ok ls sz (length (w_disk w))) us →
  Z.of_nat (length us) ≤ sz - 1 →
  ∃ w' tr k, run_tx us (KS w e) = Ok tt (KS w' e) ∧ quiescent w' ls sz ∧
    w_hist w' = w_hist w ++ tr ∧ w_disk w' = apply_writes tr (w_disk w) ∧
    same_homes ls sz (w_disk w') (apply_writes us (w_disk w)) ∧
    (us ≠ [] → k < length tr)%nat ∧
    ∀ tr1 wr er, tr1 `prefix_of` tr → booted wr (apply_writes tr1 (w_disk w)) →
      ∃ wr', initlog ROOTDEV (KS wr er) = Ok tt (KS wr' er) ∧
        same_homes ls sz (w_disk wr')
          (if decide (length tr1 ≤ k)%nat then w_disk w else apply_writes us (w_disk w)).
Proof.
  intros [Htx (hd & Hld) [Ho Hcm]] Hus Hlen. pose proof Htx as [Hf Hla Hlh Hg _ _ _].
  set (d0 := w_disk w) in *. set (w1 := w <| w_log ::= λ l, l <| outstanding ::= λ n, n + 1 |> |>).
  assert (Hr1 : begin_op (KS w e) = Ok tt (KS w1 e)).
  { pose proof (proj1 Hf) as ([Hc _] & Hl & _). destruct Hlh as (Hn & _).
    apply begin_op_free; try done; rewrite ?Hn, ?Ho; cbn; unfold LOGSIZE, MAXOPBLOCKS; lia. }
  assert (Htx1 : in_tx w1 d0 ls sz [] ∅).
  { destruct Htx as [? ? ? ? ? ? ?]. split; try done. by apply fs_thread_log. }
  assert (Ho1 : outstanding (w_log w1) = 1) by (unfold w1; rsimpl; lia).
  assert (Hcm1 : committing (w_log w1) = 0) by (unfold w1; by rsimpl).
  destruct (run_updates_ok us w1 d0 ls sz [] e Htx1 Hus) as (w2 & Hr2 & Htx2 & Hk2 & Hi2 & Ho2 & Hcm2);
    [cbn; lia|lia|].
  replace (w_disk w1) with d0 in Hk2 by (unfold w1; by rsimpl).
  set (V := apply_writes us d0) in *. set (bl := logged_all us []) in *.
  assert (Hnin : 1 ∉ bl).
  { intros [Hin|(u & Hu1 & Hin)%list_elem_of_fmap]%logged_all_home; [set_solver|].
    rewrite Forall_forall in Hus. destruct (Hus u Hin) as (_ & Hne & _). congruence. }
  destruct (tx_commit w2 V ls sz bl hd e Htx2 Hnin) as (w3 & tr & Hr3 & Hq3 & Hi3 & Hk3 & Hsh3 & Hlen3 & Hcr);
    [by rewrite Hk2|congruence..|]. rewrite Hk2 in *.
  exists w3, tr, (length bl). split_and!; try done.
  - unfold run_tx. kcall Hr1. kcall Hr2. exact Hr3.
  - rewrite Hi3, Hi2. unfold w1. by rsimpl.
  - intros Hne. apply Hlen3. destruct us as [|[n d] us']; [done|]. intros E.
    pose proof (logged_all_mono us' (logged n []) n) as Hm.
    assert (n ∈ bl) by (apply Hm; unfold logged; set_solver). rewrite E in *. set_solver.
Qed.
End tx.

(** ** A reservation the log cannot hold *)

Section reservation.
  Context {D : DiskDriver} {L : DiskLaws D}.

End reservation.

(** ** Examples *)

(** A disk of 80 blocks: the superblock, a log of [sz] blocks from block 2 on,
    and data blocks after it. *)
Definition demo_super (sz : Z) : block := put 4 12 sz (put 4 16 2 zero_block).
Definition demo_fsdisk (sz : Z) (hd l0 : block) : list block :=
  [zero_block; demo_super sz; hd; l0] ++ replicate 76 zero_block.
Definition demo_fs (d : list block) : world :=
  (bss 0 d) <| w_proc := Some 1%nat |> <| w_procs ::= <[1%nat := demo_proc]> |>
    <| w_disksize := 80 |>.

Lemma blk_zero : blk zero_block.
Proof. apply (blk_replicate 0). unfold is_byte. lia. Qed.
Lemma blk_demo : blk demo_block.
Proof. apply (blk_replicate 7). unfold is_byte. lia. Qed.
Lemma blk_super sz : blk (demo_super sz).
Proof.
  destruct blk_zero as [Hl Hb]. unfold demo_super. split; [|by repeat apply put_bytes].
  rewrite !length_put; rewrite ?length_put; rewrite ?Hl; try done; vm_compute; lia.
Qed.

Lemma demo_fs_ease d : at_ease (demo_fs d).
Proof. vm_compute. done. Qed.

(** A machine booted from a disk of 80 blocks. *)
Lemma boot_disk d :
  Forall blk d → length d = 80%nat →
  ∃ w, binit (KS (demo_fs d) []) = Ok tt (KS w []) ∧ booted (L := memide_laws) w d ∧
    outstanding (w_log w) = 0 ∧ committing (w_log w) = 0.
Proof.
  intros Hd Hlen.
  destruct (binit_spec (L := memide_laws) (demo_fs d) []) as (w & Hr & Hbc & Hlk & bs & sl & lo & Hw).
  - reflexivity.
  - unfold demo_fs. by rsimpl.
  - split; unfold demo_fs; rsimpl; cbn [bss w_disk]; rewrite Hlen; done.
  - done.
  - exists w. split_and!; [done| |by rewrite Hw; unfold demo_fs; rsimpl..].
    split_and!; [|by rewrite Hw; unfold demo_fs; rsimpl..]. split; [|by eexists].
    split; [|split; [exact Hlk|]].
    + pose proof (demo_fs_ease d) as Ha. revert Ha. rewrite Hw. unfold at_ease, calm. rsimpl.
      exact (λ H, H).
    + exists 1%nat, demo_proc. rewrite Hw. unfold demo_fs. rsimpl. split; reflexivity.
Qed.

(** With nothing in its log, [initlog] leaves it ready for transactions. *)
Lemma boot_quiescent d ls sz hd :
  Forall blk d → length d = 80%nat → log_disk ls sz d hd [] [] → blk hd →
  ∃ w0 w, binit (KS (demo_fs d) []) = Ok tt (KS w0 []) ∧
    initlog (D := iderw_mem) ROOTDEV (KS w0 []) = Ok tt (KS w []) ∧
    quiescent (L := memide_laws) w ls sz ∧ w_disk w = apply_writes (recovery_writes ls hd [] []) d.
Proof.
  intros Hd Hlen Hld Hhd. destruct (boot_disk d Hd Hlen) as (w0 & Hb & Hboot & Ho & Hcm).
  destruct (initlog_ok (L := memide_laws) w0 d ls sz hd [] [] [] Hboot Hld)
    as (w & Hr & Hf & Hla & Hlh & Hdk & _ & Ho' & Hcm').
  destruct (log_disk_clear _ _ _ _ _ _ Hld Hhd) as [Hld1 _].
  exists w0, w. split; [exact Hb|]. split; [exact Hr|]. split; [|exact Hdk].
  split; [|exists (hdr [] hd); by rewrite Hdk|split; congruence].
  pose proof (ld_geom _ _ _ _ _ _ Hld) as Hg.
  rewrite Hdk. split; [exact Hf|exact Hla|exact Hlh| |constructor|constructor|destruct Hg; cbn; lia].
  rewrite length_apply_writes. exact Hg.
Qed.

Lemma demo_fsdisk_blk sz hd l0 : blk hd → blk l0 → Forall blk (demo_fsdisk sz hd l0).
Proof.
  intros Hhd Hl0. unfold demo_fsdisk. apply Forall_app_2; [|apply Forall_replicate, blk_zero].
  apply Forall_cons_2; [apply blk_zero|]. apply Forall_cons_2; [apply blk_super|].
  apply Forall_cons_2; [exact Hhd|]. apply Forall_cons_2; [exact Hl0|apply Forall_nil_2].
Qed.

Lemma demo_booted sz hd l0 :
  blk hd → blk l0 →
  ∃ w, binit (KS (demo_fs (demo_fsdisk sz hd l0)) []) = Ok tt (KS w []) ∧
    booted (L := memide_laws) w (demo_fsdisk sz hd l0) ∧
    outstanding (w_log w) = 0 ∧ committing (w_log w) = 0.
Proof.
  intros Hhd Hl0. apply boot_disk; [by apply demo_fsdisk_blk|reflexivity].
Qed.

Lemma demo_log_disk sz hd l0 bl vs :
  1 ≤ sz ≤ LOGSIZE → hdr_is hd bl → Forall (λ n, home 2 sz 80 n ∧ n ≠ 1) bl →
  Z.of_nat (length bl) ≤ sz - 1 →
  length vs = length bl ∧ (∀ k v, vs !! k = Some v →
    demo_fsdisk sz hd l0 !! Z.to_nat (2 + 1 + Z.of_nat k) = Some v) →
  log_disk 2 sz (demo_fsdisk sz hd l0) hd bl vs.
Proof.
  intros Hsz Hhd Hbl Hfit Hvs. assert (Hlen : length (demo_fsdisk sz hd l0) = 80%nat) by done.
  unfold LOGSIZE, MAXOPBLOCKS in Hsz. split; rewrite ?Hlen; try done.
  - split; unfold LOGSIZE, MAXOPBLOCKS; lia.
  - exists (demo_super sz). split; [done|]. unfold demo_super, sb_of. cbn [sb_logstart sb_nlog].
    assert (Hz : length zero_block = 512%nat) by done.
    split.
    + rewrite get_put_ne, get_put by (rewrite ?length_put; rewrite ?Hz; lia). done.
    + rewrite get_put by (rewrite ?length_put; rewrite ?Hz; lia).
      change (256 ^ Z.of_nat 4) with (2 ^ 32). apply Z.mod_small. lia.
Qed.

Lemma hdr_is_zero : hdr_is zero_block [].
Proof. split; [by vm_compute|]. by intros k v. Qed.

(** A machine booted from an empty log of [sz] blocks. *)
Lemma demo_quiescent sz :
  1 ≤ sz ≤ LOGSIZE →
  ∃ w0 w, binit (KS (demo_fs (demo_fsdisk sz zero_block zero_block)) []) = Ok tt (KS w0 []) ∧
    initlog (D := iderw_mem) ROOTDEV (KS w0 []) = Ok tt (KS w []) ∧
    quiescent (L := memide_laws) w 2 sz ∧ length (w_disk w) = 80%nat.
Proof.
  intros Hsz.
  assert (Hld : log_disk 2 sz (demo_fsdisk sz zero_block zero_block) zero_block [] []).
  { apply demo_log_disk; [done|apply hdr_is_zero|constructor|cbn; lia|].
    split; [done|]. by intros k v. }
  destruct (boot_quiescent (demo_fsdisk sz zero_block zero_block) 2 sz zero_block) as (w0 & w & Hb & Hr & Hq & Hd).
  - apply demo_fsdisk_blk; apply blk_zero.
  - reflexivity.
  - exact Hld.
  - apply blk_zero.
  - exists w0, w. split; [exact Hb|]. split; [exact Hr|]. split; [exact Hq|]. by rewrite Hd, length_apply_writes.
Qed.

Lemma demo_update sz n d : 1 ≤ sz → 2 + sz ≤ n < 80 → blk d → update_ok 2 sz 80 (n, d).
Proof. intros Hsz Hn Hd. split_and!; cbn [fst snd]; [split; lia|lia|done]. Qed.

Lemma transaction_atomic_witness :
  ∃ w w', quiescent (L := memide_laws) w 2 3 ∧
    run_tx (D := iderw_mem) [(7, demo_block); (7, zero_block)] (KS w []) = Ok tt (KS w' []) ∧
    quiescent (L := memide_laws) w' 2 3.
Proof.
  destruct (demo_quiescent 3 ltac:(unfold LOGSIZE, MAXOPBLOCKS; lia)) as (w0 & w & _ & _ & Hq & Hlen).
  destruct (transaction_atomic (L := memide_laws) [(7, demo_block); (7, zero_block)] w 2 3 [])
    as (w' & tr & k & Hr & Hq' & _).
  - exact Hq.
  - rewrite Hlen. repeat apply Forall_cons_2; [apply demo_update; [lia|lia|apply blk_demo]|
      apply demo_update; [lia|lia|apply blk_zero]|apply Forall_nil_2].
  - cbn [length]. lia.
  - exists w, w'. split; [exact Hq|]. split; [exact Hr|exact Hq'].
Defined.

(** A machine booted from a disk whose log holds block 7. *)
Lemma recovery_restartable_witness :
  ∃ w w', binit (KS (demo_fs (demo_fsdisk 3 (hdr [7] zero_block) demo_block)) []) = Ok tt (KS w []) ∧
    initlog (D := iderw_mem) ROOTDEV (KS w []) = Ok tt (KS w' []) ∧
    w_disk w' !! 7%nat = Some demo_block.
Proof.
  assert (Hhd : blk (hdr [7] zero_block)) by (apply hdr_upto_blk; [apply blk_zero|vm_compute; lia]).
  destruct (demo_booted 3 _ _ Hhd blk_demo) as (w & Hb & Hboot & _ & _).
  assert (Hld : log_disk 2 3 (demo_fsdisk 3 (hdr [7] zero_block) demo_block) (hdr [7] zero_block)
                  [7] [demo_block]).
  { apply demo_log_disk.
    - unfold LOGSIZE, MAXOPBLOCKS; lia.
    - apply hdr_decodes; [apply blk_zero|vm_compute; lia|].
      apply Forall_cons_2; [unfold small; lia|apply Forall_nil_2].
    - apply Forall_cons_2; [split; [split|]; lia|apply Forall_nil_2].
    - cbn [length]. lia.
    - split; [reflexivity|]. intros [|k] v; [exact (λ H, H)|]. rewrite lookup_cons. done. }
  destruct (recovery_restartable (L := memide_laws) w _ 2 3 _ [7] [demo_block] [] Hboot Hld)
    as (w' & tr & Hr & _ & [Hl Hh] & _).
  exists w, w'. split; [exact Hb|]. split; [exact Hr|].
  specialize (Hh 7). change (Z.to_nat 7) with 7%nat in Hh.
  rewrite Hh; [reflexivity|]. rewrite length_apply_writes.
  change (length (demo_fsdisk _ _ _)) with 80%nat. split; lia.
Defined.

(** 29 blocks updated by three operations. *)
Definition demo_updates : writes := (λ n, (n, demo_block)) <$> seqZ 40 29.

