(* ===== verification/Pipe.v ===== *)
(** * pipe.c: pipes

    A pipe lives in a page of its own; [w_pipes] holds the structure at that
    page's address.  Bytes go in and out through a circular buffer indexed by
    two 32-bit counters that wrap around.  [pipealloc], which calls the file
    table, is in the file File. *)

From S2P Require Import Prelude Kernel Spinlock Sched Sleeplock CString Kalloc.

Definition getpipe (p : Z) : K pipe :=
  r ← getw (λ w, w_pipes w !! p); munwrap "pipe" r.
Definition modpipe (p : Z) (f : pipe → pipe) : K unit :=
  modw (λ w, w <| w_pipes ::= alter f p |>).

Section pipe.
  Context {image : KernelImage}.

Definition pipeclose (p : Z) (writable : Z) : K unit :=
  acquire (L_pipe p) ;;
  (if negb (writable =? 0) then
     modpipe p (λ x, x <| writeopen := 0 |>) ;;
     wakeup (C_pipe_nread p)
   else
     modpipe p (λ x, x <| readopen := 0 |>) ;;
     wakeup (C_pipe_nwrite p)) ;;
  x ← getpipe p;
  if (readopen x =? 0) && (writeopen x =? 0) then
    release (L_pipe p) ;;
    modw (λ w, w <| w_pipes ::= delete p |>) ;;
    kfree p
  else release (L_pipe p).

(** [proc->killed]. *)
Definition proc_killed : K bool :=
  i ← myproc; p ← getp i; mret (negb (killed p =? 0)).

(** Write one byte at [nwrite], waiting while the pipe is full; [false] when no
    reader is left or the process has been killed. *)
Definition pipe_room (p : Z) : K bool :=
  foreverK (
    x ← getpipe p;
    if nwrite x =? u32 (nread x + PIPESIZE) then
      k ← proc_killed;
      if (readopen x =? 0) || k then mret (Some false)
      else
        wakeup (C_pipe_nread p) ;;
        sleep (C_pipe_nwrite p) (Some (L_pipe p)) ;;
        mret None
    else mret (Some true)).

Definition pipe_put (p : Z) (c : Z) : K unit :=
  modpipe p (λ x, x <| pdata ::= <[Z.to_nat (nwrite x mod PIPESIZE) := c]> |>
                    <| nwrite := u32 (nwrite x + 1) |>).

(** The loop of [pipewrite], over the bytes [addr[0..n-1]] still to write. *)
Fixpoint pipewrite_loop (p : Z) (addr : list Z) : K bool :=
  match addr with
  | [] => mret true
  | c :: addr =>
      ok ← pipe_room p;
      if (ok : bool) then pipe_put p c ;; pipewrite_loop p addr
      else mret false
  end.

Definition pipewrite (p : Z) (addr : list Z) : K Z :=
  acquire (L_pipe p) ;;
  ok ← pipewrite_loop p addr;
  if (ok : bool) then
    wakeup (C_pipe_nread p) ;;
    release (L_pipe p) ;;
    mret (Z.of_nat (length addr))
  else
    release (L_pipe p) ;;
    mret (-1).

(** The copy loop of [piperead], [n] bytes at most. *)
Fixpoint piperead_loop (p : Z) (n : nat) (got : list Z) : K (list Z) :=
  match n with
  | O => mret got
  | S n =>
      x ← getpipe p;
      if nread x =? nwrite x then mret got
      else
        c ← munwrap "pipe.data" (pdata x !! Z.to_nat (nread x mod PIPESIZE));
        modpipe p (λ x, x <| nread := u32 (nread x + 1) |>) ;;
        piperead_loop p n (got ++ [c])
  end.

(** The result is the return value and the bytes stored at [addr]. *)
Definition piperead (p : Z) (n : Z) : K (Z * list Z) :=
  acquire (L_pipe p) ;;
  ok ← foreverK (
    x ← getpipe p;
    if (nread x =? nwrite x) && negb (writeopen x =? 0) then
      k ← proc_killed;
      if (k : bool) then mret (Some false)
      else sleep (C_pipe_nread p) (Some (L_pipe p)) ;; mret None
    else mret (Some true));
  if (ok : bool) then
    got ← piperead_loop p (Z.to_nat n) [];
    wakeup (C_pipe_nwrite p) ;;
    release (L_pipe p) ;;
    mret (Z.of_nat (length got), got)
  else
    release (L_pipe p) ;;
    mret (-1, []).
End pipe.

(** ** The queue in the circular buffer *)

(** The bytes [q], oldest first, lie at [nread], [nread + 1], ... modulo the
    size of the buffer; the counters wrap around at 2^32, a multiple of it. *)
Record pipe_rep (x : pipe) (q : list Z) : Prop := {
  pr_len : length (pdata x) = Z.to_nat PIPESIZE;
  pr_room : Z.of_nat (length q) ≤ PIPESIZE;
  pr_read : 0 ≤ nread x < 2 ^ 32;
  pr_write : nwrite x = u32 (nread x + Z.of_nat (length q));
  pr_data i c : q !! i = Some c →
    pdata x !! Z.to_nat ((nread x + Z.of_nat i) mod PIPESIZE) = Some c
}.

Lemma u32_mod_pipesize z : u32 z mod PIPESIZE = z mod PIPESIZE.
Proof.
  unfold u32, PIPESIZE. apply Z.mod_mod_divide. by exists 8388608.
Qed.

Lemma u32_shift_eq a b n : u32 (a + n) = u32 (a + b) → 0 ≤ n < 2 ^ 32 → 0 ≤ b < 2 ^ 32 → n = b.
Proof.
  unfold u32. intros H Hn Hb.
  assert (Hd : (n - b) mod 2 ^ 32 = 0).
  { replace (n - b) with ((a + n) - (a + b)) by lia. rewrite Zminus_mod, H, Z.sub_diag. done. }
  apply Z.mod_divide in Hd as [k Hk]; [|done]. nia.
Qed.

Lemma rep_empty x q : pipe_rep x q → nread x = nwrite x ↔ q = [].
Proof.
  intros [_ Hr Hn Hw _]. unfold PIPESIZE in Hr. rewrite Hw. split.
  - intros H. assert (0 = Z.of_nat (length q)); [|destruct q; [done|cbn in *; lia]].
    apply (u32_shift_eq (nread x)); [|lia|lia]. rewrite Z.add_0_r, u32_small by done. done.
  - intros ->. by rewrite Z.add_0_r, u32_small.
Qed.

Lemma rep_full x q :
  pipe_rep x q → nwrite x = u32 (nread x + PIPESIZE) ↔ Z.of_nat (length q) = PIPESIZE.
Proof.
  intros [_ Hr Hn Hw _]. rewrite Hw. unfold PIPESIZE in *. split; [|by intros ->].
  intros H. apply (u32_shift_eq (nread x)); [done|lia|lia].
Qed.

Lemma rep_put x q c :
  pipe_rep x q → Z.of_nat (length q) < PIPESIZE →
  pipe_rep (x <| pdata ::= <[Z.to_nat (nwrite x mod PIPESIZE) := c]> |>
              <| nwrite := u32 (nwrite x + 1) |>) (q ++ [c]).
Proof.
  intros [Hl Hr Hn Hw Hd] Hlt. unfold PIPESIZE in Hlt.
  assert (Hi : nwrite x mod PIPESIZE = (nread x + Z.of_nat (length q)) mod PIPESIZE)
    by (by rewrite Hw, u32_mod_pipesize).
  assert (Hb : ∀ z, 0 ≤ z mod PIPESIZE < PIPESIZE) by (intros; by apply Z.mod_pos_bound).
  split; rsimpl; rewrite ?length_app, ?length_insert; cbn [length]; try done.
  - unfold PIPESIZE. lia.
  - rewrite Hw. unfold u32. rewrite Zplus_mod_idemp_l. f_equal. lia.
  - intros i d Hid. rewrite Hi. destruct (decide (i = length q)) as [->|Hne].
    + rewrite lookup_app_r, Nat.sub_diag in Hid by lia. injection Hid as ->.
      apply list_lookup_insert_eq. rewrite Hl. pose proof (Hb (nread x + Z.of_nat (length q))). lia.
    + assert (Hq : q !! i = Some d).
      { assert (i < length (q ++ [c]))%nat by (by eapply lookup_lt_Some).
        rewrite length_app in *. cbn in *. by rewrite lookup_app_l in Hid by lia. }
      pose proof (lookup_lt_Some _ _ _ Hq). rewrite list_lookup_insert_ne; [by apply Hd|].
      intros He. apply Z2Nat.inj in He; try apply Hb.
      pose proof (Z.div_mod (nread x + Z.of_nat i) PIPESIZE ltac:(done)).
      pose proof (Z.div_mod (nread x + Z.of_nat (length q)) PIPESIZE ltac:(done)).
      unfold PIPESIZE in *. nia.
Qed.

Lemma rep_get x c q :
  pipe_rep x (c :: q) →
  pdata x !! Z.to_nat (nread x mod PIPESIZE) = Some c ∧
  pipe_rep (x <| nread := u32 (nread x + 1) |>) q.
Proof.
  intros [Hl Hr Hn Hw Hd]. cbn [length] in *. split.
  - specialize (Hd 0%nat c eq_refl). by rewrite Z.add_0_r in Hd.
  - split; rsimpl; try done; [lia|apply u32_range| |].
    + rewrite Hw. unfold u32. rewrite Zplus_mod_idemp_l. f_equal. lia.
    + intros i d Hi. rewrite <- Zplus_mod_idemp_l, u32_mod_pipesize, Zplus_mod_idemp_l.
      specialize (Hd (S i) d Hi). rewrite <- Hd. do 3 f_equal. lia.
Qed.

(** ** The operations on the queue *)

Lemma getpipe_eq p x w e : w_pipes w !! p = Some x → getpipe p (KS w e) = Ok x (KS w e).
Proof. intros H. unfold getpipe. kstep. by rewrite H. Qed.

(** Only the pipe at [p] changes. *)
Definition set_pipe (p : Z) (x : pipe) (w : world) : world := w <| w_pipes ::= <[p := x]> |>.

Lemma alter_pipe p f x w :
  w_pipes w !! p = Some x → w <| w_pipes ::= alter f p |> = set_pipe p (f x) w.
Proof.
  intros H. unfold set_pipe. weq. apply map_eq. intros k.
  destruct (decide (k = p)) as [->|Hk].
  - by rewrite lookup_alter_eq, lookup_insert_eq, H.
  - by rewrite lookup_alter_ne, lookup_insert_ne.
Qed.

Lemma set_pipe_twice p x y w : set_pipe p x (set_pipe p y w) = set_pipe p x w.
Proof. unfold set_pipe. weq. apply insert_insert_eq. Qed.

Definition has_proc (w : world) : Prop := ∃ i p, w_proc w = Some i ∧ w_procs w !! i = Some p.

Lemma pipe_room_eq p x q w e :
  w_pipes w !! p = Some x → pipe_rep x q →
  Z.of_nat (length q) < PIPESIZE ∨ readopen x = 0 ∧ has_proc w →
  pipe_room p (KS w e) = Ok (bool_decide (Z.of_nat (length q) < PIPESIZE)) (KS w e).
Proof.
  intros Hx Hr Hc. unfold pipe_room, foreverK. cbn [loopM ks_env]. rewrite bind_bind.
  rewrite (bind_ok _ _ _ _ _ (getpipe_eq p x w e Hx)). pose proof (rep_full x q Hr) as Hf.
  destruct (Z.eqb_spec (nwrite x) (u32 (nread x + PIPESIZE))) as [E|E].
  - rewrite bool_decide_false by (apply Hf in E; lia).
    destruct Hc as [Hc|[H0 (i & pr & Hi & Hp)]]; [apply Hf in E; lia|].
    unfold proc_killed, myproc. kstep. rewrite Hi. cbn [munwrap]. kstep.
    erewrite bind_ok; [|by apply getp_eq]. kstep. rewrite H0. cbn [Z.eqb orb]. kstep. done.
  - rewrite bool_decide_true; [by kstep|]. pose proof (pr_room x q Hr).
    assert (Z.of_nat (length q) ≠ PIPESIZE) by naive_solver. lia.
Qed.

Lemma pipewrite_loop_eq p addr x q w e :
  w_pipes w !! p = Some x → pipe_rep x q →
  Z.of_nat (length q + length addr) ≤ PIPESIZE ∨ readopen x = 0 ∧ has_proc w →
  ∃ x', pipewrite_loop p addr (KS w e) =
          Ok (bool_decide (Z.of_nat (length q + length addr) ≤ PIPESIZE)) (KS (set_pipe p x' w) e) ∧
        pipe_rep x' (q ++ take (Z.to_nat PIPESIZE - length q) addr) ∧
        readopen x' = readopen x ∧ writeopen x' = writeopen x.
Proof.
  revert x q w; induction addr as [|c addr IH]; intros x q w Hx Hr Hc; cbn [pipewrite_loop].
  - exists x. rewrite take_nil, app_nil_r. cbn [length]. rewrite Nat.add_0_r.
    rewrite bool_decide_true by apply Hr. split_and!; try done.
    apply ok_world_eq. unfold set_pipe. weq. symmetry. by apply insert_id.
  - assert (Hc' : Z.of_nat (length q) < PIPESIZE ∨ readopen x = 0 ∧ has_proc w).
    { destruct Hc; [left; cbn in *; lia|by right]. }
    rewrite (bind_ok _ _ _ _ _ (pipe_room_eq p x q w e Hx Hr Hc')).
    case_bool_decide as Hlt; last first.
    { exists x. kstep. pose proof (pr_room x q Hr) as Hroom.
      rewrite bool_decide_false by (cbn; lia).
      replace (Z.to_nat PIPESIZE - length q)%nat with 0%nat by lia. rewrite take_0, app_nil_r.
      split_and!; try done. unfold mret, M_ret. apply ok_world_eq. unfold set_pipe. weq. symmetry. by apply insert_id. }
    unfold pipe_put, modpipe. kstep. rewrite (alter_pipe p _ x w Hx).
    set (x1 := x <| pdata ::= _ |> <| nwrite := _ |>).
    assert (Hr1 : pipe_rep x1 (q ++ [c])) by (by apply rep_put).
    destruct (IH x1 (q ++ [c]) (set_pipe p x1 w)) as (x2 & H2 & Hr2 & Hro & Hwo).
    { unfold set_pipe. rsimpl. by rewrite lookup_insert_eq. } { done. }
    { rewrite length_app. cbn [length] in *. destruct Hc as [Hc|[? ?]]; [left; lia|right; split].
      - unfold x1. by rsimpl.
      - unfold has_proc, set_pipe in *. by rsimpl. }
    exists x2. rewrite H2, set_pipe_twice. rewrite length_app in *. cbn [length] in *.
    split_and!; [|..|by rewrite Hro; unfold x1; rsimpl|by rewrite Hwo; unfold x1; rsimpl].
    + f_equal. apply bool_decide_ext. lia.
    + replace (Z.to_nat PIPESIZE - length q)%nat with (S (Z.to_nat PIPESIZE - (length q + 1)))%nat
        by (unfold PIPESIZE in *; lia).
      cbn [take]. by rewrite <- app_assoc in Hr2.
Qed.

Lemma piperead_loop_eq p n got x q w e :
  w_pipes w !! p = Some x → pipe_rep x q →
  ∃ x', piperead_loop p n got (KS w e) = Ok (got ++ take n q) (KS (set_pipe p x' w) e) ∧
        pipe_rep x' (drop n q) ∧ readopen x' = readopen x ∧ writeopen x' = writeopen x.
Proof.
  revert got x q w; induction n as [|n IH]; intros got x q w Hx Hr; cbn [piperead_loop].
  - exists x. rewrite take_0, drop_0, app_nil_r. split_and!; try done.
    apply ok_world_eq. unfold set_pipe. weq. symmetry. by apply insert_id.
  - rewrite (bind_ok _ _ _ _ _ (getpipe_eq p x w e Hx)). pose proof (rep_empty x q Hr) as He.
    destruct (Z.eqb_spec (nread x) (nwrite x)) as [E|E].
    + apply He in E as ->. exists x. rewrite take_nil, drop_nil, app_nil_r. split_and!; try done.
      apply ok_world_eq. unfold set_pipe. weq. symmetry. by apply insert_id.
    + destruct q as [|c q]; [naive_solver|]. destruct (rep_get x c q Hr) as [Hc Hr1].
      rewrite Hc. unfold modpipe. kstep. rewrite (alter_pipe p _ x w Hx).
      set (x1 := x <| nread := _ |>) in *.
      destruct (IH (got ++ [c]) x1 q (set_pipe p x1 w)) as (x2 & H2 & Hr2 & Hro & Hwo); [|done|].
      { unfold set_pipe. rsimpl. by rewrite lookup_insert_eq. }
      exists x2. rewrite H2, set_pipe_twice, <- app_assoc. cbn [app take drop].
      split_and!; [done|done|by rewrite Hro; unfold x1; rsimpl|by rewrite Hwo; unfold x1; rsimpl].
Qed.

(** ** Sequences of calls

    A thread between calls, with the queue [q] in the pipe at [p] and its two
    ends open or closed. *)
Definition b2z (b : bool) : Z := if b then 1 else 0.

Record on_pipe (p : Z) (w : world) (q : list Z) (ro wo : bool) : Prop := {
  op_ease : at_ease w;
  op_lock : lock_free w (L_pipe p);
  op_ptable : lock_free w L_ptable;
  op_proc : has_proc w;
  op_pipe : ∃ x, w_pipes w !! p = Some x ∧ pipe_rep x q ∧
                 readopen x = b2z ro ∧ writeopen x = b2z wo
}.

Lemma on_pipe_set p w q ro wo x q' ro' wo' :
  on_pipe p w q ro wo → pipe_rep x q' → readopen x = b2z ro' → writeopen x = b2z wo' →
  on_pipe p (set_pipe p x w) q' ro' wo'.
Proof.
  intros [Ha Hl Hp Hpr _] Hx H1 H2. unfold set_pipe.
  split; unfold at_ease, calm, lock_free, has_proc in *; rsimpl; try done.
  exists x. by rewrite lookup_insert_eq.
Qed.

Lemma on_pipe_wake p w q ro wo c : on_pipe p w q ro wo → on_pipe p (wake_all c w) q ro wo.
Proof.
  intros [Ha Hl Hp (i & pr & Hi & Hpr) Hx]. unfold wake_all.
  split; unfold at_ease, calm, lock_free, has_proc in *; rsimpl; try done.
  exists i. eexists. split; [done|]. by rewrite list_lookup_fmap, Hpr.
Qed.

(** The critical section of a call: [body] runs with the lock held. *)
Lemma restore_acquired p x w :
  (set_pipe p x (acquired (L_pipe p) w)) <| w_cpu := w_cpu w |> <| w_locks := w_locks w |> =
    set_pipe p x w.
Proof. unfold set_pipe, acquired. weq. Qed.

Lemma pipewrite_ok p l w e q ro wo :
  on_pipe p w q ro wo → Z.of_nat (length q + length l) ≤ PIPESIZE ∨ ro = false →
  ∃ w', pipewrite p l (KS w e) =
          Ok (if bool_decide (Z.of_nat (length q + length l) ≤ PIPESIZE)
              then Z.of_nat (length l) else -1) (KS w' e) ∧
        on_pipe p w' (q ++ take (Z.to_nat PIPESIZE - length q) l) ro wo.
Proof.
  intros Ho Hc. pose proof Ho as [Ha Hl Hp Hpr (x & Hx & Hr & Hro & Hwo)].
  unfold pipewrite. kcall (acquire_free (L_pipe p) w e (proj1 Hl)).
  destruct (pipewrite_loop_eq p l x q (acquired (L_pipe p) w) e) as (x' & H1 & Hr1 & Hro1 & Hwo1); [|done| |].
  { unfold acquired. by rsimpl. }
  { destruct Hc as [Hc|Hc]; [by left|right]. rewrite Hro, Hc. split; [done|].
    unfold has_proc, acquired in *. by rsimpl. }
  kcall H1. pose proof (on_pipe_set p w q ro wo x' _ ro wo Ho Hr1
    ltac:(by rewrite Hro1) ltac:(by rewrite Hwo1)) as Ho'.
  case_bool_decide; cbn iota.
  - rewrite <- bind_bind.
    erewrite bind_ok; [|apply (wake_release (L_pipe p) (C_pipe_nread p) w); try done; unfold set_pipe; by rsimpl].
    eexists. split; [done|]. rewrite restore_acquired. by apply on_pipe_wake.
  - erewrite bind_ok; [|apply (release_calm (L_pipe p) w); try done; [apply Ha|unfold set_pipe; by rsimpl..]].
    eexists. split; [done|]. by rewrite restore_acquired.
Qed.

Lemma piperead_ok p n w e q ro wo :
  on_pipe p w q ro wo → q ≠ [] ∨ wo = false →
  ∃ w', piperead p n (KS w e) =
          Ok (Z.of_nat (length (take (Z.to_nat n) q)), take (Z.to_nat n) q) (KS w' e) ∧
        on_pipe p w' (drop (Z.to_nat n) q) ro wo.
Proof.
  intros Ho Hc. pose proof Ho as [Ha Hl Hp Hpr (x & Hx & Hr & Hro & Hwo)].
  unfold piperead. kcall (acquire_free (L_pipe p) w e (proj1 Hl)).
  assert (Hx' : w_pipes (acquired (L_pipe p) w) !! p = Some x) by (unfold acquired; by rsimpl).
  erewrite bind_ok; last first.
  { unfold foreverK. cbn [loopM ks_env]. rewrite bind_bind. erewrite bind_ok; [|by apply getpipe_eq].
    replace ((nread x =? nwrite x) && negb (writeopen x =? 0)) with false; [by kstep|].
    pose proof (rep_empty x q Hr) as He. destruct (Z.eqb_spec (nread x) (nwrite x)) as [E|E]; [|done].
    destruct Hc as [Hc|Hc]; [by apply He in E|]. by rewrite Hwo, Hc. }
  destruct (piperead_loop_eq p (Z.to_nat n) [] x q _ e Hx' Hr) as (x' & H1 & Hr1 & Hro1 & Hwo1).
  cbn iota. kcall H1. pose proof (on_pipe_set p w q ro wo x' _ ro wo Ho Hr1
    ltac:(by rewrite Hro1) ltac:(by rewrite Hwo1)) as Ho'.
  rewrite <- bind_bind.
  erewrite bind_ok; [|apply (wake_release (L_pipe p) (C_pipe_nwrite p) w); try done; unfold set_pipe; by rsimpl].
  eexists. split; [done|]. rewrite restore_acquired. by apply on_pipe_wake.
Qed.

Lemma pipeclose_ok `{image : KernelImage} p (writable : bool) w e q ro wo :
  on_pipe p w q ro wo → (if writable then ro else wo) = true →
  ∃ w', pipeclose p (b2z writable) (KS w e) = Ok tt (KS w' e) ∧
        on_pipe p w' q (if writable then ro else false) (if writable then false else wo).
Proof.
  intros Ho Hc. pose proof Ho as [Ha Hl Hp Hpr (x & Hx & Hr & Hro & Hwo)].
  unfold pipeclose. kcall (acquire_free (L_pipe p) w e (proj1 Hl)).
  set (x' := if writable then x <| writeopen := 0 |> else x <| readopen := 0 |>).
  set (c := if writable then C_pipe_nread p else C_pipe_nwrite p).
  assert (Hx' : w_pipes (acquired (L_pipe p) w) !! p = Some x) by (unfold acquired; by rsimpl).
  assert (Hb : (if negb (b2z writable =? 0) then
       modpipe p (λ x, x <| writeopen := 0 |>) ;; wakeup (C_pipe_nread p)
     else modpipe p (λ x, x <| readopen := 0 |>) ;; wakeup (C_pipe_nwrite p))
       (KS (acquired (L_pipe p) w) e) =
     wakeup c (KS (set_pipe p x' (acquired (L_pipe p) w)) e)).
  { unfold c, x'. destruct writable; cbn; unfold modpipe; rewrite bind_modw;
      by rewrite (alter_pipe p _ x _ Hx'). }
  destruct (calm_acquired (L_pipe p) w (proj1 (proj1 Ha)) ltac:(rewrite (proj2 Ha); lia)) as [Hc1 Hb1].
  erewrite bind_ok; [|rewrite Hb; apply wakeup_eq]; last first.
  { unfold lock_free, set_pipe. rsimpl. by apply (lock_free_acquired L_ptable). }
  { unfold set_pipe. by rsimpl. }
  assert (Hrep : pipe_rep x' q) by (unfold x'; destruct writable, Hr; split; by rsimpl).
  erewrite bind_ok; [|apply (getpipe_eq p x'); unfold set_pipe; rsimpl; by rewrite lookup_insert_eq].
  assert (Hcond : (readopen x' =? 0) && (writeopen x' =? 0) = false).
  { unfold x'. destruct writable; cbn iota in Hc; rsimpl; by rewrite ?Hro, ?Hwo, Hc. }
  rewrite Hcond. rewrite (release_calm (L_pipe p) w); [|apply Ha|done|..]; unfold set_pipe; rsimpl; try done.
  eexists. split; [done|].
  pose proof (on_pipe_wake p _ _ _ _ c (on_pipe_set p w q ro wo x' q
    (if writable then ro else false) (if writable then false else wo) Ho Hrep
    ltac:(unfold x'; destruct writable; by rsimpl) ltac:(unfold x'; destruct writable; by rsimpl))) as Ho'.
  erewrite (world_eq _ _); [exact Ho'|..]. all: unfold wake_all, set_pipe, acquired; by rsimpl.
Qed.

(** ** The specification: a bounded queue with two ends *)

Inductive pop := PWrite (l : list Z) | PRead (n : Z) | PClose (writable : bool).

Record pspec := mk_pspec { ps_q : list Z; ps_ro : bool; ps_wo : bool }.

(** The return value and the bytes read, and the new state; [None] where the
    call would wait, or frees the pipe. *)
Definition spec_pop (o : pop) (s : pspec) : option (Z * list Z * pspec) :=
  let '(mk_pspec q ro wo) := s in
  match o with
  | PWrite l =>
      if decide (Z.of_nat (length q + length l) ≤ PIPESIZE)
      then Some (Z.of_nat (length l), [], mk_pspec (q ++ l) ro wo)
      else if ro then None
      else Some (-1, [], mk_pspec (q ++ take (Z.to_nat PIPESIZE - length q) l) ro wo)
  | PRead n =>
      if decide (q = []) then if wo then None else Some (0, [], s)
      else Some (Z.of_nat (length (take (Z.to_nat n) q)), take (Z.to_nat n) q,
                 mk_pspec (drop (Z.to_nat n) q) ro wo)
  | PClose true => if ro then Some (0, [], mk_pspec q ro false) else None
  | PClose false => if wo then Some (0, [], mk_pspec q false wo) else None
  end.

Fixpoint spec_pops (os : list pop) (s : pspec) : option (list (Z * list Z) * pspec) :=
  match os with
  | [] => Some ([], s)
  | o :: os =>
      '(r, s) ← spec_pop o s;
      '(rs, s) ← spec_pops os s;
      Some (r :: rs, s)
  end.

Section sequences.
  Context {image : KernelImage}.

Definition run_pop (p : Z) (o : pop) : K (Z * list Z) :=
  match o with
  | PWrite l => r ← pipewrite p l; mret (r, [])
  | PRead n => piperead p n
  | PClose writable => pipeclose p (b2z writable) ;; mret (0, [])
  end.

Fixpoint run_pops (p : Z) (os : list pop) : K (list (Z * list Z)) :=
  match os with
  | [] => mret []
  | o :: os =>
      r ← run_pop p o;
      rs ← run_pops p os;
      mret (r :: rs)
  end.

Lemma run_pop_ok p o w e s r s' :
  on_pipe p w (ps_q s) (ps_ro s) (ps_wo s) → spec_pop o s = Some (r, s') →
  ∃ w', run_pop p o (KS w e) = Ok r (KS w' e) ∧ on_pipe p w' (ps_q s') (ps_ro s') (ps_wo s').
Proof.
  destruct s as [q ro wo]. cbn [ps_q ps_ro ps_wo]. intros Ho Hs. destruct o as [l|n|writable]; cbn in Hs |- *.
  - assert (Hc : Z.of_nat (length q + length l) ≤ PIPESIZE ∨ ro = false).
    { case_decide; [by left|]. destruct ro; [done|by right]. }
    destruct (pipewrite_ok p l w e q ro wo Ho Hc) as (w' & H1 & Ho').
    kcall H1. exists w'. case_decide as Hd.
    + injection Hs as <- <-. rewrite bool_decide_true by done. rewrite take_ge in Ho' by (unfold PIPESIZE in *; lia).
      done.
    + destruct ro; [done|]. injection Hs as <- <-. by rewrite bool_decide_false.
  - assert (Hc : q ≠ [] ∨ wo = false).
    { case_decide; [|by left]. destruct wo; [done|by right]. }
    destruct (piperead_ok p n w e q ro wo Ho Hc) as (w' & H1 & Ho').
    exists w'. rewrite H1. case_decide as Hd.
    + destruct wo; [done|]. injection Hs as <- <-. subst q. rewrite take_nil, drop_nil in *. done.
    + by injection Hs as <- <-.
  - assert (Hc : (if writable then ro else wo) = true) by (destruct writable, ro, wo; done).
    destruct (pipeclose_ok p writable w e q ro wo Ho Hc) as (w' & H1 & Ho').
    kcall H1. exists w'. destruct writable, ro, wo; cbn in Hs; try done; by injection Hs as <- <-.
Qed.
End sequences.

(** C27: a pipe is a bounded queue of bytes.  Any sequence of writes, reads and
    closes of one end, as long as none of them has to wait, returns exactly what
    a queue of [PIPESIZE] bytes returns, across any number of wrap-arounds of
    the buffer and of the 32-bit counters: bytes come out in the order they
    went in, a read returns what is there, up to [n] bytes, and 0 once the
    pipe is empty and its write end closed; a write of more than fits into a
    pipe that nobody reads fills it and returns -1. *)
Theorem pipe_fifo `{image : KernelImage} p os w e s rs s' :
  on_pipe p w (ps_q s) (ps_ro s) (ps_wo s) → spec_pops os s = Some (rs, s') →
  ∃ w', run_pops p os (KS w e) = Ok rs (KS w' e) ∧ on_pipe p w' (ps_q s') (ps_ro s') (ps_wo s').
Proof.
  revert w s rs; induction os as [|o os IH]; intros w s rs Ho Hs; cbn [spec_pops run_pops] in *.
  - injection Hs as <- <-. by exists w.
  - destruct (spec_pop o s) as [[r s1]|] eqn:E1; [|done]. cbn in Hs.
    destruct (spec_pops os s1) as [[rs1 s2]|] eqn:E2; [|done]. injection Hs as <- <-.
    destruct (run_pop_ok p o w e s r s1 Ho E1) as (w1 & H1 & Ho1).
    destruct (IH w1 s1 rs1 Ho1 E2) as (w2 & H2 & Ho2).
    exists w2. kcall H1. kcall H2. done.
Qed.

(** A pipe whose counters are about to wrap around, holding nothing. *)
Definition demo_pipe : world :=
  (bss 0 []) <| w_proc := Some 1%nat |> <| w_procs ::= <[1%nat := demo_proc]> |>
    <| w_pipes := {[ 4096 := mk_pipe (replicate 512 0) (2 ^ 32 - 2) (2 ^ 32 - 2) 1 1 ]} |>.

Lemma demo_pipe_on : on_pipe 4096 demo_pipe [] true true.
Proof.
  split; [by vm_compute..| |].
  - exists 1%nat, demo_proc. by vm_compute.
  - eexists. split; [unfold demo_pipe; rsimpl; by apply lookup_singleton_eq|].
    split; [|done]. split; cbn; try done; lia.
Qed.

Lemma pipe_fifo_witness :
  ∃ w', run_pops (image := 0) 4096 [PWrite [1; 2; 3]; PRead 2; PClose true; PRead 5; PRead 5]
          (KS demo_pipe []) = Ok [(3, []); (2, [1; 2]); (0, []); (1, [3]); (0, [])] (KS w' []) ∧
        on_pipe 4096 w' [] true false.
Proof.
  apply (pipe_fifo (image := 0) 4096 [PWrite [1; 2; 3]; PRead 2; PClose true; PRead 5; PRead 5]
    demo_pipe [] (mk_pspec [] true true) _ (mk_pspec [] true false)); [exact demo_pipe_on|reflexivity].
Defined.
