(* ===== verification/Inode.v ===== *)
(** * fs.c, first part: blocks and inodes

    The block allocator on the free bit map, the inode allocator on the inode
    blocks, and the cache of in-memory inodes with its reference counts.  An
    inode on disk is the 64-byte structure [dinode]; the functions [di_*] read
    its fields at their offsets and [put_dinode] writes them all. *)

From S2P Require Import Prelude Kernel Bytes Spinlock Sched Sleeplock Disk Bio Log.

(** ** fs.h, stat.h, file.h *)

Definition ROOTINO : Z := 1.
Definition IPB : Z := BSIZE / 64.
Definition BPB : Z := BSIZE * 8.
Definition IBLOCK (i : Z) (sb : superblock) : Z := u32 (i / IPB + sb_inodestart sb).
Definition BBLOCK (b : Z) (sb : superblock) : Z := u32 (b / BPB + sb_bmapstart sb).
Definition I_VALID : Z := 0x2.
Definition T_DIR : Z := 1.
Definition T_FILE : Z := 2.
Definition T_DEV : Z := 3.

(** The byte offset of inode [inum] in its block. *)
Definition dip_off (inum : Z) : nat := Z.to_nat (64 * (inum mod IPB)).

Definition di_type (o : nat) (d : block) : Z := s16 (get 2 o d).
Definition di_major (o : nat) (d : block) : Z := s16 (get 2 (o + 2) d).
Definition di_minor (o : nat) (d : block) : Z := s16 (get 2 (o + 4) d).
Definition di_nlink (o : nat) (d : block) : Z := s16 (get 2 (o + 6) d).
Definition di_size (o : nat) (d : block) : Z := get 4 (o + 8) d.
Definition di_addrs (o : nat) (d : block) : list Z :=
  (λ k, get 4 (o + 12 + 4 * k) d) <$> seq 0 13.

(** [dip->type = ip->type; ... memmove(dip->addrs, ip->addrs, ...)]. *)
Definition put_dinode (o : nat) (x : inode) (d : block) : block :=
  splice (o + 12) (concat (le_bytes 4 <$> i_addrs x))
    (put 4 (o + 8) (i_size x)
      (put 2 (o + 6) (i_nlink x)
        (put 2 (o + 4) (i_minor x)
          (put 2 (o + 2) (i_major x)
            (put 2 o (i_type x) d))))).

Record stat := mk_stat {
  st_type : Z; st_dev : Z; st_ino : Z; st_nlink : Z; st_size : Z
}.

(** ** The inode cache *)

Definition geti (i : nat) : K inode :=
  r ← getw (λ w, w_inodes w !! i); munwrap "icache.inode" r.
Definition modi (i : nat) (f : inode → inode) : K unit :=
  modw (λ w, w <| w_inodes ::= alter f i |>).

Lemma geti_eq i x w e : w_inodes w !! i = Some x → geti i (KS w e) = Ok x (KS w e).
Proof. intros H. unfold geti. kstep. by rewrite H. Qed.

Section inode.
  Context {D : DiskDriver}.

Definition bzero (dev bno : Z) : K unit :=
  bp ← bread (u32 dev) (u32 bno);
  modb bp (λ x, x <| b_data := zero_block |>) ;;
  log_write bp ;;
  brelse bp.

(** Bit [bi] of a block of the bit map. *)
Definition bit (d : block) (bi : Z) : Z :=
  Z.land (default 0 (d !! Z.to_nat (bi / 8))) (Z.shiftl 1 (bi mod 8)).
Definition set_bit (d : block) (bi : Z) : block :=
  alter (λ x, Z.lor x (Z.shiftl 1 (bi mod 8))) (Z.to_nat (bi / 8)) d.
Definition clear_bit (d : block) (bi : Z) : block :=
  alter (λ x, Z.ldiff x (Z.shiftl 1 (bi mod 8))) (Z.to_nat (bi / 8)) d.

(** The inner loop of [balloc]: the first [bi] whose bit is clear, of the [n]
    still to test. *)
Fixpoint free_bit (d : block) (b size bi : Z) (n : nat) : option Z :=
  match n with
  | O => None
  | S n =>
      if u32 (b + bi) <? size then
        if bit d bi =? 0 then Some bi else free_bit d b size (bi + 1) n
      else None
  end.

Fixpoint balloc_from (fuel : nat) (dev b : Z) : K Z :=
  sb ← getw w_sb;
  if b <? sb_size sb then
    match fuel with
    | O => mstop OutOfFuel
    | S n =>
        bp ← bread dev (BBLOCK b sb);
        x ← getb bp;
        sb ← getw w_sb;
        match free_bit (b_data x) b (sb_size sb) 0 (Z.to_nat BPB) with
        | Some bi =>
            modb bp (λ x, x <| b_data ::= λ d, set_bit d bi |>) ;;
            log_write bp ;;
            brelse bp ;;
            bzero dev (b + bi) ;;
            mret (u32 (b + bi))
        | None => brelse bp ;; balloc_from n dev (b + BPB)
        end
    end
  else panic "balloc: out of blocks".

Definition balloc (dev : Z) : K Z :=
  sb ← getw w_sb;
  balloc_from (S (Z.to_nat (sb_size sb / BPB))) dev 0.

Definition bfree (dev b : Z) : K unit :=
  sb ← readsb dev;
  modw (λ w, w <| w_sb := sb |>) ;;
  bp ← bread (u32 dev) (BBLOCK b sb);
  let bi := b mod BPB in
  x ← getb bp;
  if bit (b_data x) bi =? 0 then panic "freeing free block" else
  modb bp (λ x, x <| b_data ::= λ d, clear_bit d bi |>) ;;
  log_write bp ;;
  brelse bp.

Definition iinit (dev : Z) : K unit :=
  initlock L_icache "icache" ;;
  iterM (λ i, initsleeplock (SL_inode i) "inode") (seq 0 NINODE) ;;
  sb ← readsb dev;
  modw (λ w, w <| w_sb := sb |>).

(** The loop of [iget]: the slot that caches the inode, or else the first slot
    that is free. *)
Fixpoint iget_scan (l : list inode) (i : nat) (dev inum : Z) (empty : option nat)
  : nat + option nat :=
  match l with
  | [] => inr empty
  | x :: l =>
      if (i_ref x >? 0) && (i_dev x =? dev) && (i_inum x =? inum) then inl i
      else
        iget_scan l (S i) dev inum
          (match empty with
           | None => if i_ref x =? 0 then Some i else None
           | Some _ => empty
           end)
  end.

Definition iget (dev inum : Z) : K nat :=
  acquire L_icache ;;
  l ← getw w_inodes;
  match iget_scan l 0 dev inum None with
  | inl i =>
      modi i (λ x, x <| i_ref ::= λ n, s32 (n + 1) |>) ;;
      release L_icache ;;
      mret i
  | inr None => panic "iget: no inodes"
  | inr (Some i) =>
      modi i (λ x, x <| i_dev := dev |>) ;;
      modi i (λ x, x <| i_inum := inum |>) ;;
      modi i (λ x, x <| i_ref := 1 |>) ;;
      modi i (λ x, x <| i_flags := 0 |>) ;;
      release L_icache ;;
      mret i
  end.

Fixpoint ialloc_from (fuel : nat) (dev type inum : Z) : K nat :=
  sb ← getw w_sb;
  if inum <? sb_ninodes sb then
    match fuel with
    | O => mstop OutOfFuel
    | S n =>
        bp ← bread dev (IBLOCK inum sb);
        let o := dip_off inum in
        x ← getb bp;
        if di_type o (b_data x) =? 0 then
          modb bp (λ x, x <| b_data ::= splice o (replicate 64 0) |>) ;;
          modb bp (λ x, x <| b_data ::= put 2 o type |>) ;;
          log_write bp ;;
          brelse bp ;;
          iget dev inum
        else brelse bp ;; ialloc_from n dev type (inum + 1)
    end
  else panic "ialloc: no inodes".

Definition ialloc (dev type : Z) : K nat :=
  sb ← getw w_sb;
  ialloc_from (Z.to_nat (sb_ninodes sb)) dev type 1.

Definition iupdate (i : nat) : K unit :=
  x ← geti i;
  sb ← getw w_sb;
  bp ← bread (i_dev x) (IBLOCK (i_inum x) sb);
  x ← geti i;
  modb bp (λ y, y <| b_data ::= put_dinode (dip_off (i_inum x)) x |>) ;;
  log_write bp ;;
  brelse bp.

Definition idup (i : nat) : K nat :=
  acquire L_icache ;;
  modi i (λ x, x <| i_ref ::= λ n, s32 (n + 1) |>) ;;
  release L_icache ;;
  mret i.

(** The fields [ilock] copies from the inode's block. *)
Definition load_dinode (d : block) (x : inode) : inode :=
  let o := dip_off (i_inum x) in
  x <| i_type := di_type o d |> <| i_major := di_major o d |> <| i_minor := di_minor o d |>
    <| i_nlink := di_nlink o d |> <| i_size := di_size o d |> <| i_addrs := di_addrs o d |>.

Definition ilock (ip : option nat) : K unit :=
  match ip with
  | None => panic "ilock"
  | Some i =>
      x ← geti i;
      if i_ref x <? 1 then panic "ilock" else
      acquiresleep (SL_inode i) ;;
      x ← geti i;
      if has I_VALID (i_flags x) then mret tt else
      sb ← getw w_sb;
      bp ← bread (i_dev x) (IBLOCK (i_inum x) sb);
      y ← getb bp;
      modi i (load_dinode (b_data y)) ;;
      brelse bp ;;
      modi i (λ x, x <| i_flags ::= add_flag I_VALID |>) ;;
      x ← geti i;
      if i_type x =? 0 then panic "ilock: no type" else mret tt
  end.

Definition iunlock (ip : option nat) : K unit :=
  match ip with
  | None => panic "iunlock"
  | Some i =>
      h ← holdingsleep (SL_inode i);
      if negb h then panic "iunlock" else
      x ← geti i;
      if i_ref x <? 1 then panic "iunlock" else
      releasesleep (SL_inode i)
  end.

(** ** The blocks of an inode *)

(** [ip->addrs[k]], read and written. *)
Definition get_addr (i : nat) (k : Z) : K Z :=
  x ← geti i; munwrap "ip->addrs" (i_addrs x !! Z.to_nat k).
Definition set_addr (i : nat) (k a : Z) : K unit :=
  modi i (λ x, x <| i_addrs ::= <[Z.to_nat k := a]> |>).

(** [if((addr = ip->addrs[k]) == 0) ip->addrs[k] = addr = balloc(ip->dev);] *)
Definition addr_or_alloc (i : nat) (k : Z) : K Z :=
  a ← get_addr i k;
  if a =? 0 then
    x ← geti i;
    a ← balloc (i_dev x);
    set_addr i k a ;;
    mret a
  else mret a.

Definition bmap (i : nat) (bn : Z) : K Z :=
  if bn <? NDIRECT then addr_or_alloc i bn else
  let bn := bn - NDIRECT in
  if bn <? NINDIRECT then
    addr ← addr_or_alloc i NDIRECT;
    x ← geti i;
    bp ← bread (i_dev x) addr;
    y ← getb bp;
    let addr := get 4 (Z.to_nat (4 * bn)) (b_data y) in
    addr ← (if addr =? 0 then
              x ← geti i;
              addr ← balloc (i_dev x);
              modb bp (λ y, y <| b_data ::= put 4 (Z.to_nat (4 * bn)) addr |>) ;;
              log_write bp ;;
              mret addr
            else mret addr);
    brelse bp ;;
    mret addr
  else panic "bmap: out of range".

(** The body of [itrunc]'s first loop, and of its second. *)
Definition itrunc_direct (i k : nat) : K unit :=
  a ← get_addr i (Z.of_nat k);
  if a =? 0 then mret tt else
  x ← geti i;
  bfree (s32 (i_dev x)) a ;;
  set_addr i (Z.of_nat k) 0.

Definition itrunc_indirect (i bp j : nat) : K unit :=
  y ← getb bp;
  let a := get 4 (4 * j) (b_data y) in
  if a =? 0 then mret tt else
  x ← geti i;
  bfree (s32 (i_dev x)) a.

Definition itrunc (i : nat) : K unit :=
  iterM (itrunc_direct i) (seq 0 (Z.to_nat NDIRECT)) ;;
  a ← get_addr i NDIRECT;
  (if a =? 0 then mret tt else
   x ← geti i;
   bp ← bread (i_dev x) a;
   iterM (itrunc_indirect i bp) (seq 0 (Z.to_nat NINDIRECT)) ;;
   brelse bp ;;
   x ← geti i;
   a ← get_addr i NDIRECT;
   bfree (s32 (i_dev x)) a ;;
   set_addr i NDIRECT 0) ;;
  modi i (λ x, x <| i_size := 0 |>) ;;
  iupdate i.

Definition iput (i : nat) : K unit :=
  acquire L_icache ;;
  x ← geti i;
  (if (i_ref x =? 1) && has I_VALID (i_flags x) && (i_nlink x =? 0) then
     release L_icache ;;
     itrunc i ;;
     modi i (λ x, x <| i_type := 0 |>) ;;
     iupdate i ;;
     acquire L_icache ;;
     modi i (λ x, x <| i_flags := 0 |>)
   else mret tt) ;;
  modi i (λ x, x <| i_ref ::= λ n, s32 (n - 1) |>) ;;
  release L_icache.

Definition iunlockput (i : nat) : K unit :=
  iunlock (Some i) ;;
  iput i.

Definition stati (i : nat) : K stat :=
  x ← geti i;
  mret (mk_stat (i_type x) (s32 (i_dev x)) (i_inum x) (i_nlink x) (i_size x)).
End inode.
