(* ===== verification/Io.v ===== *)
(** * x86.h: the instructions that reach the devices

    A device is seen through what it answers: the value of an input is a
    function of everything that has been done to the hardware before, the list
    [w_io].  The functions are parameters, the class [Devices]; what a driver
    relies on of its device is stated where the driver is verified. *)

From S2P Require Import Prelude Kernel.

Class Devices := {
  (** The byte read from a port, [n] bytes read from a port as a string, and the
      32-bit word of a memory-mapped register. *)
  dev_in : list ioev → Z → Z;
  dev_ins : list ioev → Z → nat → list Z;
  dev_rd : list ioev → Z → Z
}.

Definition io (e : ioev) : K unit := modw (λ w, w <| w_io ::= λ t, t ++ [e] |>).

Section io.
  Context {Dv : Devices}.

Definition inb (port : Z) : K Z :=
  t ← getw w_io;
  let v := u8 (dev_in t port) in
  io (IoIn port v) ;;
  mret v.

Definition insl (port cnt : Z) : K (list Z) :=
  t ← getw w_io;
  let l := dev_ins t port (Z.to_nat (4 * cnt)) in
  io (IoIns port l) ;;
  mret l.

Definition outb (port data : Z) : K unit := io (IoOut port (u8 data)).
Definition outsl (port : Z) (l : list Z) : K unit := io (IoOuts port l).

(** A read and a write of the 32-bit device register at [addr]. *)
Definition readl (addr : Z) : K Z :=
  t ← getw w_io;
  let v := u32 (dev_rd t addr) in
  io (IoRd addr v) ;;
  mret v.

Definition writel (addr v : Z) : K unit := io (IoWr addr (u32 v)).

Definition wrmsr (msr val : Z) : K unit := io (IoMsr msr (u64 val)).
Definition lgdt (p size : Z) : K unit := io (IoLgdt p (u16 (size - 1))).
Definition ltr (sel : Z) : K unit := io (IoLtr (u16 sel)).
End io.

Definition modhw (f : hw → hw) : K unit := modw (λ w, w <| w_hw ::= f |>).
Definition gethw {A} (f : hw → A) : K A := getw (λ w, f (w_hw w)).

(** A loop that polls a device, at most [n] times. *)
Fixpoint poll {A} (n : nat) (body : K (option A)) : K A :=
  match n with
  | O => mstop OutOfFuel
  | S n =>
      r ← body;
      match r with
      | Some a => mret a
      | None => poll n body
      end
  end.
