(* ===== verification/Ioapic.v ===== *)
(** * ioapic.c: routing of device interrupts

    The registers of the I/O APIC are behind a window of two words: the number
    of a register is written to the first, and the register read or written at
    the second.  [ioapicinit] is in the file Apic. *)

From S2P Require Import Prelude Kernel Io.

(** ** traps.h *)

Definition T_IRQ0 : Z := 32.
Definition IRQ_TIMER : Z := 0.
Definition IRQ_KBD : Z := 1.
Definition IRQ_COM1 : Z := 4.
Definition IRQ_IDE : Z := 14.
Definition IRQ_ERROR : Z := 19.
Definition IRQ_SPURIOUS : Z := 31.

(** ** ioapic.c *)

Section ioapic.
  Context {Dv : Devices}.

Definition IOAPIC : Z := 0xFEC00000.
Definition REG_ID : Z := 0.
Definition REG_VER : Z := 1.
Definition REG_TABLE : Z := 0x10.
Definition INT_DISABLED : Z := 0x10000.

(** [ioapic->reg] and, after three words of padding, [ioapic->data]. *)
Definition ioapicread (reg : Z) : K Z :=
  a ← gethw ioapic;
  writel a reg ;;
  readl (a + 16).

Definition ioapicwrite (reg data : Z) : K unit :=
  a ← gethw ioapic;
  writel a reg ;;
  writel (a + 16) data.

Definition ioapicenable (irq cpunum : Z) : K unit :=
  ioapicwrite (REG_TABLE + 2 * irq) (T_IRQ0 + irq) ;;
  ioapicwrite (REG_TABLE + 2 * irq + 1) (Z.shiftl cpunum 24).
End ioapic.
