(* ===== verification/Ide.v ===== *)
(** * ide.c: the driver of an ATA disk

    Requests are queued through the [qnext] fields of their buffers; the disk
    works on the request at the head.  [iderw] appends a request, starts it
    if it is alone, and sleeps until it is done; the interrupt handler [ideintr]
    finishes the request at the head and starts the next. *)

From S2P Require Import Prelude Kernel Spinlock Sched Sleeplock Disk Io Ioapic.

Definition SECTOR_SIZE : Z := 512.
Definition IDE_BSY : Z := 0x80.
Definition IDE_DRDY : Z := 0x40.
Definition IDE_DF : Z := 0x20.
Definition IDE_ERR : Z := 0x01.
Definition IDE_CMD_READ : Z := 0x20.
Definition IDE_CMD_WRITE : Z := 0x30.
Definition IDE_CMD_RDMUL : Z := 0xc4.
Definition IDE_CMD_WRMUL : Z := 0xc5.

Section ide.
  (** The disk is ready after at most [patience] reads of its status. *)
  Context {Dv : Devices} (patience : nat).

Definition idewait (checkerr : bool) : K Z :=
  r ← poll patience (
    r ← inb 0x1f7;
    mret (if Z.land r (Z.lor IDE_BSY IDE_DRDY) =? IDE_DRDY then Some r else None));
  mret (if checkerr && negb (Z.land r (Z.lor IDE_DF IDE_ERR) =? 0) then -1 else 0).

(** [for(int i=0; i<1000; i++) if(inb(0x1f7) != 0){ havedisk1 = 1; break; }] *)
Fixpoint probe_disk1 (n : nat) : K unit :=
  match n with
  | O => mret tt
  | S n =>
      s ← inb 0x1f7;
      if negb (s =? 0) then modhw (λ h, h <| havedisk1 := 1 |>) else probe_disk1 n
  end.

Definition ideinit : K unit :=
  initlock L_ide "ide" ;;
  n ← gethw ncpu;
  ioapicenable IRQ_IDE (n - 1) ;;
  idewait false ;;
  outb 0x1f6 (Z.lor 0xe0 (Z.shiftl 1 4)) ;;
  probe_disk1 1000 ;;
  outb 0x1f6 (Z.lor 0xe0 (Z.shiftl 0 4)).

Definition idestart (b : option nat) : K unit :=
  match b with
  | None => panic "idestart"
  | Some b =>
      bf ← getb b;
      if blockno bf >=? FSSIZE then panic "incorrect blockno" else
      let sector_per_block := BSIZE / SECTOR_SIZE in
      let sector := s32 (blockno bf * sector_per_block) in
      let read_cmd := if sector_per_block =? 1 then IDE_CMD_READ else IDE_CMD_RDMUL in
      let write_cmd := if sector_per_block =? 1 then IDE_CMD_WRITE else IDE_CMD_WRMUL in
      if sector_per_block >? 7 then panic "idestart" else
      idewait false ;;
      outb 0x3f6 0 ;;
      outb 0x1f2 sector_per_block ;;
      outb 0x1f3 (Z.land sector 0xff) ;;
      outb 0x1f4 (Z.land (Z.shiftr sector 8) 0xff) ;;
      outb 0x1f5 (Z.land (Z.shiftr sector 16) 0xff) ;;
      outb 0x1f6 (Z.lor (Z.lor 0xe0 (Z.shiftl (Z.land (b_dev bf) 1) 4)) (Z.land (Z.shiftr sector 24) 0x0f)) ;;
      if has B_DIRTY (b_flags bf) then
        outb 0x1f7 write_cmd ;;
        outsl 0x1f0 (b_data bf)
      else
        outb 0x1f7 read_cmd
  end.

Definition get_qnext (b : nat) : K (option nat) := gethw (λ h, default None (qnext h !! b)).
Definition set_qnext (b : nat) (v : option nat) : K unit := modhw (λ h, h <| qnext ::= <[b := v]> |>).

Definition ideintr : K unit :=
  acquire L_ide ;;
  q ← gethw idequeue;
  match q with
  | None => release L_ide
  | Some b =>
      n ← get_qnext b;
      modhw (λ h, h <| idequeue := n |>) ;;
      bf ← getb b;
      (if negb (has B_DIRTY (b_flags bf)) then
         r ← idewait true;
         if r >=? 0 then
           d ← insl 0x1f0 (BSIZE / 4);
           modb b (λ x, x <| b_data := d |>)
         else mret tt
       else mret tt) ;;
      modb b (λ x, x <| b_flags ::= add_flag B_VALID |>) ;;
      modb b (λ x, x <| b_flags ::= del_flag B_DIRTY |>) ;;
      wakeup (C_buf b) ;;
      q ← gethw idequeue;
      (match q with
       | Some _ => idestart q
       | None => mret tt
       end) ;;
      release L_ide
  end.

(** The loop that moves [pp] to the end of the queue, and the store of [b] there:
    [cur] is what [pp] points to, [at_] the buffer whose [qnext] that is, if it
    is not [idequeue] itself. *)
Fixpoint queue_append (fuel : nat) (at_ cur : option nat) (b : nat) : K unit :=
  match cur with
  | None =>
      match at_ with
      | None => modhw (λ h, h <| idequeue := Some b |>)
      | Some c => set_qnext c (Some b)
      end
  | Some c =>
      match fuel with
      | O => mstop OutOfFuel
      | S f => n ← get_qnext c; queue_append f (Some c) n b
      end
  end.

(** From the append to the start of the disk, with the lock held. *)
Definition ide_enqueue (b : nat) : K unit :=
  set_qnext b None ;;
  q ← gethw idequeue;
  queue_append NBUF None q b ;;
  q ← gethw idequeue;
  if decide (q = Some b) then idestart (Some b) else mret tt.

(** [while((b->flags & (B_VALID|B_DIRTY)) != B_VALID) sleep(b, &idelock);] *)
Definition ide_wait (b : nat) : K unit :=
  foreverK (
    bf ← getb b;
    if Z.land (b_flags bf) (Z.lor B_VALID B_DIRTY) =? B_VALID then mret (Some tt)
    else sleep (C_buf b) (Some L_ide) ;; mret None).

#[local] Instance iderw_ide : DiskDriver := λ b,
  h ← holdingsleep (SL_buf b);
  if negb h then panic "iderw: buf not locked" else
  bf ← getb b;
  if Z.land (b_flags bf) (Z.lor B_VALID B_DIRTY) =? B_VALID then panic "iderw: nothing to do" else
  hd1 ← gethw havedisk1;
  if negb (b_dev bf =? 0) && (hd1 =? 0) then panic "iderw: ide disk 1 not present" else
  acquire L_ide ;;
  ide_enqueue b ;;
  ide_wait b ;;
  release L_ide.
End ide.
