(* ===== verification/IdeSpec.v ===== *)
(** * The IDE driver serves requests in order

    The commands the disk has received are decoded from the port writes, as the
    ATA standard lays the registers out: the sector number in four of them, then the
    command.  The driver is run by any sequence of submitted requests and
    interrupts. *)

From S2P Require Import Prelude Kernel Spinlock Sched Sleeplock Disk Memide Io Ioapic Ide.

(** ** The registers of the disk *)

(** A command: its code, the drive and the sector. *)
Abbreviation command := (Z * Z * Z)%type.

Record ata := mk_ata { r3 : Z; r4 : Z; r5 : Z; r6 : Z; cmds : list command }.

Definition ata_step (a : ata) (e : ioev) : ata :=
  match e with
  | IoOut port v =>
      if port =? 0x1f3 then mk_ata v (r4 a) (r5 a) (r6 a) (cmds a)
      else if port =? 0x1f4 then mk_ata (r3 a) v (r5 a) (r6 a) (cmds a)
      else if port =? 0x1f5 then mk_ata (r3 a) (r4 a) v (r6 a) (cmds a)
      else if port =? 0x1f6 then mk_ata (r3 a) (r4 a) (r5 a) v (cmds a)
      else if port =? 0x1f7 then
        mk_ata (r3 a) (r4 a) (r5 a) (r6 a)
          (cmds a ++ [(v, Z.land (Z.shiftr (r6 a) 4) 1,
                       r3 a + 2 ^ 8 * r4 a + 2 ^ 16 * r5 a + 2 ^ 24 * Z.land (r6 a) 0xf)])
      else a
  | _ => a
  end.

Definition ata_of (t : list ioev) : ata := fold_left ata_step t (mk_ata 0 0 0 0 []).
Definition commands (t : list ioev) : list command := cmds (ata_of t).

(** The command a buffer's request is. *)
Definition cmd_of (bf : buf) : command :=
  (if has B_DIRTY (b_flags bf) then IDE_CMD_WRITE else IDE_CMD_READ, Z.land (b_dev bf) 1, blockno bf).

(** What [idestart] writes to the ports. *)
Definition cmd_out (bf : buf) : list ioev :=
  let s := blockno bf in
  [IoOut 0x3f6 0; IoOut 0x1f2 1; IoOut 0x1f3 (u8 (Z.land s 0xff));
   IoOut 0x1f4 (u8 (Z.land (Z.shiftr s 8) 0xff)); IoOut 0x1f5 (u8 (Z.land (Z.shiftr s 16) 0xff));
   IoOut 0x1f6 (u8 (Z.lor (Z.lor 0xe0 (Z.shiftl (Z.land (b_dev bf) 1) 4)) (Z.land (Z.shiftr s 24) 0x0f)))] ++
  if has B_DIRTY (b_flags bf) then [IoOut 0x1f7 IDE_CMD_WRITE; IoOuts 0x1f0 (b_data bf)]
  else [IoOut 0x1f7 IDE_CMD_READ].

Lemma ata_of_app t t' : ata_of (t ++ t') = fold_left ata_step t' (ata_of t).
Proof. apply fold_left_app. Qed.

Lemma land_1_cases x : Z.land x 1 = 0 ∨ Z.land x 1 = 1.
Proof.
  pose proof (Z.land_ones x 1 ltac:(lia)) as E. change (Z.ones 1) with 1 in E. rewrite E.
  pose proof (Z.mod_pos_bound x (2 ^ 1)). lia.
Qed.

Lemma commands_cmd t bf : 0 ≤ blockno bf < FSSIZE → commands (t ++ cmd_out bf) = commands t ++ [cmd_of bf].
Proof.
  unfold FSSIZE. intros Hb. unfold commands. rewrite ata_of_app. unfold cmd_out, cmd_of.
  assert (E24 : Z.shiftr (blockno bf) 24 = 0) by (rewrite Z.shiftr_div_pow2 by lia; apply Z.div_small; lia).
  assert (E16 : Z.shiftr (blockno bf) 16 = 0) by (rewrite Z.shiftr_div_pow2 by lia; apply Z.div_small; lia).
  rewrite E24, E16. change (Z.land 0 0xf) with 0. change (u8 (Z.land 0 0xff)) with 0.
  assert (Esec : u8 (Z.land (blockno bf) 0xff) + 2 ^ 8 * u8 (Z.land (Z.shiftr (blockno bf) 8) 0xff) = blockno bf).
  { change 0xff with (Z.ones 8). rewrite !Z.land_ones, Z.shiftr_div_pow2 by lia. unfold u8. change (2 ^ 8) with 256.
    rewrite !Z.mod_mod by lia. pose proof (Z.div_mod (blockno bf) 256).
    rewrite (Z.mod_small (blockno bf / 256)); [lia|]. split; [apply Z.div_pos; lia|apply Z.div_lt_upper_bound; lia]. }
  set (a := u8 (Z.land (blockno bf) 0xff)) in *. set (b := u8 (Z.land (Z.shiftr (blockno bf) 8) 0xff)) in *.
  clearbody a b. rewrite <- Esec.
  destruct (land_1_cases (b_dev bf)) as [->| ->], (has B_DIRTY (b_flags bf)); cbn -[Z.mul Z.pow Z.add];
    match goal with |- context [Z.land (u8 ?x) 15] => change (Z.land (u8 x) 15) with 0 end;
    rewrite !Z.mul_0_r, !Z.add_0_r; reflexivity.
Qed.

(** Inputs are not commands. *)
Definition is_input (e : ioev) : Prop := match e with IoIn _ _ | IoIns _ _ => True | _ => False end.

Lemma commands_inputs t l : Forall is_input l → commands (t ++ l) = commands t.
Proof.
  intros Hl. unfold commands. rewrite ata_of_app. generalize (ata_of t) as a. induction Hl as [|e l He _ IH]; intros a; [done|].
  cbn [fold_left]. rewrite IH. by destruct e.
Qed.

(** ** The disk becomes ready *)

Section spec.
  Context {Dv : Devices} (patience : nat).

(** The status register shows a ready disk within [n] reads. *)
Fixpoint ready_within (n : nat) (t : list ioev) : Prop :=
  match n with
  | O => False
  | S n =>
      let r := u8 (dev_in t 0x1f7) in
      Z.land r (Z.lor IDE_BSY IDE_DRDY) = IDE_DRDY ∨ ready_within n (t ++ [IoIn 0x1f7 r])
  end.

Context (Hready : ∀ t, ready_within patience t).

Lemma set_io_io w t t' : w <| w_io := t |> <| w_io := t' |> = w <| w_io := t' |>.
Proof. weq. Qed.

Lemma status_poll n w e :
  ready_within n (w_io w) →
  ∃ r l, poll n (r ← inb 0x1f7; mret (if Z.land r (Z.lor IDE_BSY IDE_DRDY) =? IDE_DRDY then Some r else None)) (KS w e) =
    Ok r (KS (w <| w_io := w_io w ++ l |>) e) ∧ Forall is_input l.
Proof.
  revert w; induction n as [|n IH]; intros w Hr; [done|]. cbn [poll ready_within] in *.
  unfold inb, io. kstep. set (r := u8 (dev_in (w_io w) 0x1f7)) in *.
  destruct (Z.eqb_spec (Z.land r (Z.lor IDE_BSY IDE_DRDY)) IDE_DRDY) as [Hs|Hs].
  - exists r, [IoIn 0x1f7 r]. split; [|by repeat constructor]. unfold mret, M_ret. weq.
  - destruct Hr as [?|Hr]; [done|].
    destruct (IH (w <| w_io ::= λ t, t ++ [IoIn 0x1f7 r] |>)) as (r' & l & Hp & Hl); [by rsimpl|].
    exists r', (IoIn 0x1f7 r :: l). split; [|by constructor]. unfold inb, io in Hp. rewrite Hp. weq.
    by rewrite <- (assoc_L (++)).
Qed.

Lemma idewait_ok c w e :
  ∃ r l, idewait patience c (KS w e) = Ok r (KS (w <| w_io := w_io w ++ l |>) e) ∧ Forall is_input l.
Proof.
  destruct (status_poll patience w e (Hready _)) as (r & l & Hp & Hl). unfold idewait.
  eexists _, l. split; [|done]. by rewrite (bind_ok _ _ _ _ _ Hp).
Qed.

(** [idestart] sends the command of its buffer. *)
Lemma idestart_ok b bf w e :
  w_bufs w !! b = Some bf → 0 ≤ blockno bf < FSSIZE →
  ∃ t, idestart patience (Some b) (KS w e) = Ok tt (KS (w <| w_io := t |>) e) ∧ commands t = commands (w_io w) ++ [cmd_of bf].
Proof.
  intros Hb Hn. unfold idestart. kcall (getb_eq b bf w e Hb).
  replace (blockno bf >=? FSSIZE) with false by lia. change (BSIZE / SECTOR_SIZE) with 1.
  change (1 >? 7) with false. change (1 =? 1) with true. cbv iota zeta. rewrite Z.mul_1_r, s32_small by (unfold FSSIZE in *; lia).
  destruct (idewait_ok false w e) as (r & l & Hw & Hl). rewrite (bind_ok _ _ _ _ _ Hw).
  exists ((w_io w ++ l) ++ cmd_out bf). split; [|by rewrite commands_cmd, commands_inputs].
  unfold outb, outsl, io. kstep. destruct (has B_DIRTY (b_flags bf)) eqn:Ed; kstep; rewrite modw_eq; weq;
    unfold cmd_out; rewrite Ed; by rewrite <- !(assoc_L (++)).
Qed.
(** ** The queue *)

(** From [cur] the [qnext] links lead through [q]. *)
Fixpoint qchain (qn : list (option nat)) (cur : option nat) (q : list nat) : Prop :=
  match q with
  | [] => cur = None
  | b :: q' => cur = Some b ∧ ∃ n, qn !! b = Some n ∧ qchain qn n q'
  end.

Lemma qchain_ext qn qn' cur q : (∀ b, b ∈ q → qn !! b = qn' !! b) → qchain qn cur q → qchain qn' cur q.
Proof.
  revert cur; induction q as [|b q IH]; intros cur He; [done|]. cbn. intros [-> (n & Hn & Hc)]. split; [done|].
  exists n. rewrite <- He by (by left). split; [done|]. apply IH; [|done]. intros c Hc'. apply He. by right.
Qed.

(** [b] is stored at the end of the queue. *)
Definition set_tail (at_ : option nat) (b : nat) (h : hw) : hw :=
  match at_ with
  | None => h <| idequeue := Some b |>
  | Some c => h <| qnext ::= <[c := Some b]> |>
  end.

Lemma queue_append_ok fuel : ∀ q at_ cur b w e,
  (length q ≤ fuel)%nat → qchain (qnext (w_hw w)) cur q →
  queue_append fuel at_ cur b (KS w e) =
    Ok tt (KS (w <| w_hw ::= set_tail (match last q with Some c => Some c | None => at_ end) b |>) e).
Proof.
  induction fuel as [|f IH]; intros [|c q] at_ cur b w e Hl Hq; cbn [length] in Hl; try lia; cbn in Hq.
  - subst cur. cbn. by destruct at_.
  - subst cur. cbn. by destruct at_.
  - destruct Hq as [-> (n & Hn & Hq)]. cbn [queue_append]. unfold get_qnext, gethw. kstep. rewrite Hn. change (default None (Some n)) with n.
    rewrite (IH q (Some c) n b w e) by (done || lia). rewrite last_cons. by destruct (last q).
Qed.

Lemma qchain_append qn cur q b c :
  qchain qn cur q → NoDup q → b ∉ q → qn !! b = Some None → last q = Some c →
  qchain (<[c := Some b]> qn) cur (q ++ [b]).
Proof.
  revert cur; induction q as [|d q IH]; intros cur Hq Hnd Hb Hqb Hlast; [done|].
  cbn in Hq. destruct Hq as [-> (n & Hn & Hq)]. apply NoDup_cons in Hnd as [Hd Hnd]. cbn [app qchain]. split; [done|].
  destruct q as [|d' q'].
  - injection Hlast as ->. exists (Some b). rewrite list_lookup_insert_eq by (by eapply lookup_lt_Some). split; [done|].
    cbn. split; [done|]. exists None. rewrite list_lookup_insert_ne by set_solver. done.
  - assert (Hc : c ∈ d' :: q') by (by apply last_Some_elem_of).
    exists n. rewrite list_lookup_insert_ne by set_solver. split; [done|]. apply IH; try done. set_solver.
Qed.
(** ** The operations on the queue *)

(** The driver's variables hold the queue [q] of requests. *)
Record ide_ok (w : world) (q : list nat) : Prop := {
  ik_chain : qchain (qnext (w_hw w)) (idequeue (w_hw w)) q;
  ik_nodup : NoDup q;
  ik_len : length (qnext (w_hw w)) = NBUF;
  ik_bufs b : b ∈ q → (b < NBUF)%nat ∧ ∃ bf, w_bufs w !! b = Some bf ∧ 0 ≤ blockno bf < FSSIZE
}.

Lemma ide_ok_len w q : ide_ok w q → (length q ≤ NBUF)%nat.
Proof.
  intros [_ Hnd _ Hb]. rewrite <- (length_seq NBUF 0). apply submseteq_length, NoDup_submseteq; [done|].
  intros b Hin. apply elem_of_seq. destruct (Hb b Hin). lia.
Qed.

Lemma ide_ok_frame w w' q : w_hw w' = w_hw w → w_bufs w' = w_bufs w → ide_ok w q → ide_ok w' q.
Proof. intros H1 H2 [? ? ? ?]. split; rewrite ?H1, ?H2; done. Qed.

(** The thread may take the driver's lock, and wake sleepers under it. *)
Definition ide_ease (w : world) : Prop := at_ease w ∧ lock_free w L_ide ∧ lock_free w L_ptable.

(** The variables once [b] is linked at the end. *)
Definition linked (q : list nat) (b : nat) (h : hw) : hw := set_tail (last q) b (h <| qnext ::= <[b := None]> |>).

Lemma clear_chain b w q : ide_ok w q → b ∉ q → qchain (<[b := None]> (qnext (w_hw w))) (idequeue (w_hw w)) q.
Proof.
  intros [Hc _ _ _] Hin. apply (qchain_ext (qnext (w_hw w))); [|done]. intros c Hcq.
  rewrite list_lookup_insert_ne; [done|]. intros ->. done.
Qed.

Lemma linked_ok b bf w q :
  ide_ok w q → (b < NBUF)%nat → b ∉ q → w_bufs w !! b = Some bf → 0 ≤ blockno bf < FSSIZE →
  ide_ok (w <| w_hw ::= linked q b |>) (q ++ [b]).
Proof.
  intros Hok Hb Hin Hbf Hn. pose proof Hok as [Hc Hnd Hl Hbs]. pose proof (clear_chain b w q Hok Hin) as Hq0.
  assert (Hqb : <[b := None]> (qnext (w_hw w)) !! b = Some None) by (apply list_lookup_insert_eq; lia).
  split; rsimpl.
  - unfold linked. destruct (last q) as [c|] eqn:El; unfold set_tail; rsimpl.
    + by apply qchain_append.
    + apply last_None in El as ->. cbn. split; [done|]. by exists None.
  - apply NoDup_app. split_and!; [done|set_solver|apply NoDup_singleton].
  - unfold linked. destruct (last q); unfold set_tail; rsimpl; by rewrite ?length_insert.
  - intros c [Hc'|Hc']%elem_of_app; [by apply Hbs|]. apply list_elem_of_singleton in Hc' as ->. eauto.
Qed.

Lemma linked_head q b h : idequeue (linked q b h) = match q with [] => Some b | _ => idequeue h end.
Proof.
  unfold linked. destruct (last q) as [c|] eqn:El; unfold set_tail; rsimpl; [|by apply last_None in El as ->].
  by destruct q.
Qed.

Lemma ide_enqueue_ok b bf w e q :
  ide_ok w q → (b < NBUF)%nat → b ∉ q → w_bufs w !! b = Some bf → 0 ≤ blockno bf < FSSIZE →
  ∃ t, ide_enqueue patience b (KS w e) = Ok tt (KS (w <| w_hw ::= linked q b |> <| w_io := t |>) e) ∧
    commands t = commands (w_io w) ++ (if decide (q = []) then [cmd_of bf] else []).
Proof.
  intros Hok Hb Hin Hbf Hn. unfold ide_enqueue, set_qnext, modhw, gethw. kstep.
  erewrite bind_ok; [|apply (queue_append_ok NBUF q)]; [|by apply (ide_ok_len w)|rsimpl; by apply clear_chain].
  set (w1 := w <| w_hw ::= linked q b |>).
  match goal with |- context [KS ?x e] => replace x with w1 by (unfold w1, linked; weq; by destruct (last q)) end.
  kstep. replace (idequeue (w_hw w1)) with (match q with [] => Some b | _ => idequeue (w_hw w) end)
    by (unfold w1; rsimpl; by rewrite linked_head).
  destruct q as [|c q].
  - rewrite !decide_True by done. destruct (idestart_ok b bf w1 e) as (t & Hs & Ht); [unfold w1; by rsimpl|done|].
    exists t. split; [exact Hs|]. rewrite Ht. unfold w1. by rsimpl.
  - rewrite !decide_False; [|done|].
    + exists (w_io w). split; [|by rewrite app_nil_r]. unfold mret, M_ret. unfold w1. weq.
    + destruct (ik_chain _ _ Hok) as [-> _]. intros [= ->]. apply Hin. by left.
Qed.

Lemma submit_ok b bf w e q :
  ide_ease w → ide_ok w q → (b < NBUF)%nat → b ∉ q → w_bufs w !! b = Some bf → 0 ≤ blockno bf < FSSIZE →
  ∃ h t, (acquire L_ide ;; ide_enqueue patience b ;; release L_ide) (KS w e) =
      Ok tt (KS (w <| w_hw := h |> <| w_io := t |>) e) ∧
    ide_ok (w <| w_hw := h |> <| w_io := t |>) (q ++ [b]) ∧
    commands t = commands (w_io w) ++ (if decide (q = []) then [cmd_of bf] else []).
Proof.
  intros ([Hca Hn0] & Hl & _) Hok Hb Hin Hbf Hn. kcall (acquire_free L_ide w e (proj1 Hl)). set (wa := acquired L_ide w).
  destruct (ide_enqueue_ok b bf wa e q) as (t & Hr & Ht); try done.
  { apply (ide_ok_frame w); [unfold wa, acquired; by rsimpl..|done]. }
  rewrite (bind_ok _ _ _ _ _ Hr). rewrite (release_calm L_ide w) by first [done|unfold wa; by rsimpl].
  exists (linked q b (w_hw w)), t. split_and!.
  - unfold wa, acquired. weq.
  - apply (ide_ok_frame (w <| w_hw ::= linked q b |>)); [by rsimpl..|]. by apply (linked_ok b bf).
  - rewrite Ht. unfold wa, acquired. by rsimpl.
Qed.
(** A buffer whose request is done. *)
Definition finished (d : block) (bf : buf) : buf :=
  bf <| b_data := d |> <| b_flags ::= λ f, del_flag B_DIRTY (add_flag B_VALID f) |>.

(** The data a request leaves in its buffer: what was written, or what the disk
    sent once it was ready, unless it reported an error. *)
Definition transferred (t : list ioev) (bf : buf) (d : block) : Prop :=
  if has B_DIRTY (b_flags bf) then d = b_data bf
  else ∃ l, Forall is_input l ∧ (d = dev_ins (t ++ l) 0x1f0 (Z.to_nat BSIZE) ∨ d = b_data bf).

Lemma alter_same b bf (bs : list buf) : bs !! b = Some bf → alter (λ x, x <| b_data := b_data bf |>) b bs = bs.
Proof.
  intros Hb. rewrite (alter_is_insert _ _ _ bf) by done. apply list_insert_id. rewrite Hb. f_equal. by destruct bf; usetf.
Qed.

(** The transfer of data in the handler. *)
Lemma transfer_ok b bf w e :
  w_bufs w !! b = Some bf →
  ∃ d l, (if negb (has B_DIRTY (b_flags bf)) then
            r ← idewait patience true;
            if r >=? 0 then d ← insl 0x1f0 (BSIZE / 4); modb b (λ x, x <| b_data := d |>) else mret tt
          else mret tt) (KS w e) =
      Ok tt (KS (w <| w_bufs ::= alter (λ x, x <| b_data := d |>) b |> <| w_io := w_io w ++ l |>) e) ∧
    Forall is_input l ∧ transferred (w_io w) bf d.
Proof.
  intros Hb. unfold transferred. destruct (has B_DIRTY (b_flags bf)); cbn [negb].
  { exists (b_data bf), []. split; [|done]. unfold mret, M_ret. weq; [|by rewrite app_nil_r].
    by rewrite alter_same. }
  destruct (idewait_ok true w e) as (r & l & Hw & Hl). rewrite (bind_ok _ _ _ _ _ Hw). destruct (r >=? 0).
  - exists (dev_ins (w_io w ++ l) 0x1f0 (Z.to_nat BSIZE)), (l ++ [IoIns 0x1f0 (dev_ins (w_io w ++ l) 0x1f0 (Z.to_nat BSIZE))]).
    split_and!; [|apply Forall_app; split; [done|by repeat constructor]|eauto].
    unfold insl, io, modb. kstep. change (Z.to_nat (4 * (BSIZE / 4))) with (Z.to_nat BSIZE). rewrite modw_eq. weq.
    by rewrite (assoc_L (++)).
  - exists (b_data bf), l. split_and!; [|done|eauto]. unfold mret, M_ret. weq.
    by rewrite alter_same.
Qed.

Lemma ideintr_idle w e : ide_ease w → ide_ok w [] → ideintr patience (KS w e) = Ok tt (KS w e).
Proof.
  intros ([Hca _] & Hl & _) Hok. unfold ideintr, gethw. kcall (acquire_free L_ide w e (proj1 Hl)). kstep.
  replace (idequeue (w_hw (acquired L_ide w))) with (@None nat) by (unfold acquired; rsimpl; symmetry; apply (ik_chain _ _ Hok)).
  rewrite (release_calm L_ide w) by done. unfold acquired. weq.
Qed.
(** The world after the handler finished [b], with [n] the next in the queue. *)
Definition served (b : nat) (n : option nat) (d : block) (t : list ioev) (w : world) : world :=
  w <| w_hw ::= λ h, h <| idequeue := n |> |> <| w_bufs ::= alter (finished d) b |>
    <| w_procs ::= fmap (wake_one (C_buf b)) |> <| w_io := t |>.

(** The commands sent for the request at the head of [q]. *)
Definition head_cmd (bs : list buf) (q : list nat) : list command :=
  match q with
  | [] => []
  | b :: _ => match bs !! b with Some bf => [cmd_of bf] | None => [] end
  end.

Lemma served_ok b q bf n d t w :
  ide_ok w (b :: q) → w_bufs w !! b = Some bf → qnext (w_hw w) !! b = Some n → ide_ok (served b n d t w) q.
Proof.
  intros [[_ (n' & Hn' & Hc)] Hnd Hl Hbs] Hb Hn. replace n' with n in * by congruence.
  apply NoDup_cons in Hnd as [Hnin Hnd]. unfold served. split; rsimpl; [done|done|done|].
  intros c Hc'. destruct (Hbs c) as (? & bfc & ? & ?); [by right|]. split; [done|]. exists bfc.
  rewrite list_lookup_alter_ne by (intros ->; done). done.
Qed.

Lemma head_cmd_alter (f : buf → buf) b bs q : NoDup (b :: q) → head_cmd (alter f b bs) q = head_cmd bs q.
Proof.
  intros [Hin _]%NoDup_cons. destruct q as [|c q]; [done|]. cbn. rewrite list_lookup_alter_ne; [done|].
  intros ->. apply Hin. by left.
Qed.

(** The disk is started on the request at the head of the queue. *)
Lemma start_next w q e :
  ide_ok w q →
  ∃ t, match idequeue (w_hw w) with Some _ => idestart patience (idequeue (w_hw w)) | None => mret tt end (KS w e) =
      Ok tt (KS (w <| w_io := t |>) e) ∧ commands t = commands (w_io w) ++ head_cmd (w_bufs w) q.
Proof.
  intros Hok. pose proof (ik_chain _ _ Hok) as Hc. destruct q as [|c q]; cbn in Hc.
  - rewrite Hc. exists (w_io w). split; [unfold mret, M_ret; weq|by rewrite app_nil_r].
  - destruct Hc as [-> _]. destruct (ik_bufs _ _ Hok c) as (_ & bfc & Hbc & Hnc); [by left|].
    destruct (idestart_ok c bfc w e) as (t & Hs & Hct); [done..|]. exists t. split; [done|].
    cbn [head_cmd]. by rewrite Hbc.
Qed.

Lemma ideintr_ok b q bf w e :
  ide_ease w → ide_ok w (b :: q) → w_bufs w !! b = Some bf →
  ∃ n d t, ideintr patience (KS w e) = Ok tt (KS (served b n d t w) e) ∧ ide_ok (served b n d t w) q ∧
    transferred (w_io w) bf d ∧ commands t = commands (w_io w) ++ head_cmd (w_bufs w) q.
Proof.
  intros (Hea & Hl & Hp) Hok Hb. pose proof Hea as [Hca Hn0].
  destruct (ik_chain _ _ Hok) as [Hq (n & Hn & Hc)].
  unfold ideintr, gethw, get_qnext, modhw. kcall (acquire_free L_ide w e (proj1 Hl)). kstep.
  set (wa := acquired L_ide w).
  assert (Ewa : w_hw wa = w_hw w ∧ w_bufs wa = w_bufs w ∧ w_io wa = w_io w ∧ w_procs wa = w_procs w)
    by (unfold wa, acquired; by rsimpl). destruct Ewa as (E1 & E2 & E3 & E4).
  rewrite E1, Hq. unfold gethw. kstep. rewrite E1, Hn. change (default None (Some n)) with n.
  set (w1 := wa <| w_hw ::= λ h, h <| idequeue := n |> |>).
  kcall (getb_eq b bf w1 e ltac:(unfold w1; rsimpl; by rewrite E2)).
  destruct (transfer_ok b bf w1 e) as (d & l & Ht & Hli & Htr); [unfold w1; rsimpl; by rewrite E2|].
  rewrite (bind_ok _ _ _ _ _ Ht). unfold modb. kstep.
  set (w2 := w1 <| w_bufs ::= alter (λ x, x <| b_data := d |>) b |> <| w_io := w_io w1 ++ l |>
                <| w_bufs ::= alter (λ x, x <| b_flags ::= add_flag B_VALID |>) b |>
                <| w_bufs ::= alter (λ x, x <| b_flags ::= del_flag B_DIRTY |>) b |>).
  destruct (calm_acquired L_ide w (proj1 Hca) ltac:(lia)) as [Hc1 Hb1]. fold wa in Hc1, Hb1.
  assert (E5 : w_cpu w2 = w_cpu wa ∧ w_locks w2 = w_locks wa) by (unfold w2, w1; by rsimpl). destruct E5 as [E5 E6].
  erewrite bind_ok; [|apply (wakeup_eq (C_buf b) w2)]; cycle 1.
  { by rewrite E5. }
  { unfold lock_free. rewrite E6. by apply (lock_free_acquired L_ptable). }
  replace (w2 <| w_cpu ::= balanced |> <| w_procs ::= fmap (wake_one (C_buf b)) |>)
    with (served b n d (w_io w ++ l) wa); cycle 1.
  { unfold served, w2, w1. weq; [by rewrite Hb1|by rewrite !alter_alter; apply list_alter_ext|by rewrite E3]. }
  set (w3 := served b n d (w_io w ++ l) wa). kstep. replace (idequeue (w_hw w3)) with n by (unfold w3, served; by rsimpl).
  assert (Hok3 : ide_ok w3 q) by (apply (served_ok b q bf); [by apply (ide_ok_frame w)|by rewrite E2|by rewrite E1]).
  destruct (start_next w3 q e Hok3) as (t & Hs & Hct).
  replace (idequeue (w_hw w3)) with n in Hs by (unfold w3, served; by rsimpl).
  rewrite (bind_ok _ _ _ _ _ Hs). exists n, d, t. split_and!; [|by apply (served_ok b q bf)|by rewrite <- E3|].
  - rewrite (release_calm L_ide w) by first [done|unfold w3, served; by rsimpl]. unfold w3, served, wa, acquired. weq.
  - rewrite Hct. unfold w3, served. rsimpl. rewrite commands_inputs, E2 by done. f_equal.
    by eapply head_cmd_alter, ik_nodup.
Qed.
(** ** Any sequence of requests and interrupts *)

Inductive ide_op := Submit (b : nat) | Interrupt.

(** By the code: [iderw] up to its sleep, which gives up the lock, and the
    interrupt handler. *)
Definition run_ide_op (o : ide_op) : K unit :=
  match o with
  | Submit b => acquire L_ide ;; ide_enqueue patience b ;; release L_ide
  | Interrupt => ideintr patience
  end.

(** By the specification: the requests waiting, and those done. *)
Definition spec_ide_op (o : ide_op) (s : list nat * list nat) : list nat * list nat :=
  match o, s with
  | Submit b, (q, dn) => (q ++ [b], dn)
  | Interrupt, ([], dn) => ([], dn)
  | Interrupt, (b :: q, dn) => (q, dn ++ [b])
  end.

Definition submitted (os : list ide_op) : list nat := omap (λ o, match o with Submit b => Some b | Interrupt => None end) os.

Definition cmds_for (bs : list buf) (l : list nat) : list command := omap (λ b, cmd_of <$> bs !! b) l.

(** The driver has done the requests [dn] and has [q] waiting, the first of
    them at the disk. *)
Record serving (w0 : world) (q dn : list nat) (w : world) : Prop := {
  sv_ease : ide_ease w;
  sv_ok : ide_ok w q;
  sv_cmds : commands (w_io w) = commands (w_io w0) ++ cmds_for (w_bufs w0) (dn ++ take 1 q);
  sv_done b : b ∈ dn → ∃ bf d t, w_bufs w0 !! b = Some bf ∧ w_bufs w !! b = Some (finished d bf) ∧ transferred t bf d;
  sv_other b : b ∉ dn → w_bufs w !! b = w_bufs w0 !! b
}.

(** A buffer a request may be made with. *)
Definition request_ok (bs : list buf) (b : nat) : Prop :=
  (b < NBUF)%nat ∧ ∃ bf, bs !! b = Some bf ∧ 0 ≤ blockno bf < FSSIZE.

Lemma cmds_for_app bs l l' : cmds_for bs (l ++ l') = cmds_for bs l ++ cmds_for bs l'.
Proof. apply omap_app. Qed.

Lemma cmds_for_one bs q : cmds_for bs (take 1 q) = head_cmd bs q.
Proof. destruct q as [|b q]; [done|]. cbn. by destruct (bs !! b). Qed.

Lemma serving_submit w0 q dn w b e :
  serving w0 q dn w → request_ok (w_bufs w0) b → b ∉ q → b ∉ dn →
  ∃ w', run_ide_op (Submit b) (KS w e) = Ok tt (KS w' e) ∧ serving w0 (q ++ [b]) dn w'.
Proof.
  intros [He Hok Hc Hd Ho] (Hb & bf & Hbf & Hn) Hq Hdn.
  assert (Hbw : w_bufs w !! b = Some bf) by (by rewrite Ho).
  destruct (submit_ok b bf w e q He Hok Hb Hq Hbw Hn) as (h & t & Hr & Hok' & Ht).
  eexists. split; [exact Hr|]. split; [|done| |by rsimpl|by rsimpl].
  - unfold ide_ease, at_ease, calm, lock_free in *. by rsimpl.
  - rsimpl. rewrite Ht, Hc, !cmds_for_app, !cmds_for_one. destruct q as [|c q].
    + rewrite decide_True by done. cbn. by rewrite Hbf, app_nil_r, (assoc_L (++)).
    + by rewrite decide_False, app_nil_r.
Qed.

Lemma serving_interrupt w0 q dn b w e :
  serving w0 (b :: q) dn w → NoDup (dn ++ b :: q) →
  ∃ w', run_ide_op Interrupt (KS w e) = Ok tt (KS w' e) ∧ serving w0 q (dn ++ [b]) w'.
Proof.
  intros [He Hok Hc Hd Ho] Hnd. apply NoDup_app in Hnd as (_ & Hdis & Hnd).
  assert (Hdn : ∀ c, c ∈ b :: q → c ∉ dn) by (intros c Hc1 Hc2; by eapply Hdis).
  destruct (ik_bufs _ _ Hok b) as (_ & bf & Hbf & Hn); [by left|].
  destruct (ideintr_ok b q bf w e He Hok Hbf) as (n & d & t & Hr & Hok' & Htr & Ht).
  eexists. split; [exact Hr|]. split; [|done| | |].
  - unfold ide_ease, at_ease, calm, lock_free, served in *. by rsimpl.
  - unfold served. rsimpl. rewrite Ht, Hc, !cmds_for_app, !cmds_for_one, <- !(assoc_L (++)). do 2 f_equal.
    rewrite <- (cmds_for_one (w_bufs w0) (b :: q)). cbn [take]. f_equal.
    destruct q as [|c q]; [done|]. cbn. rewrite Ho; [done|]. apply Hdn. by right; left.
  - intros c Hin. unfold served. rsimpl. destruct (decide (c = b)) as [->|Hne].
    + exists bf, d, (w_io w). rewrite list_lookup_alter_eq, Hbf. rewrite <- Ho by (apply Hdn; by left). done.
    + rewrite list_lookup_alter_ne by done. apply Hd. set_solver.
  - intros c Hin. unfold served. rsimpl. rewrite list_lookup_alter_ne by set_solver. apply Ho. set_solver.
Qed.

Lemma serving_run w0 os : ∀ q dn w e,
  serving w0 q dn w → NoDup (dn ++ q ++ submitted os) → Forall (request_ok (w_bufs w0)) (submitted os) →
  ∃ w', iterM run_ide_op os (KS w e) = Ok tt (KS w' e) ∧
    serving w0 (fold_left (λ s o, spec_ide_op o s) os (q, dn)).1 (fold_left (λ s o, spec_ide_op o s) os (q, dn)).2 w' ∧
    let s := fold_left (λ s o, spec_ide_op o s) os (q, dn) in s.2 ++ s.1 = dn ++ q ++ submitted os.
Proof.
  induction os as [|o os IH]; intros q dn w e Hs Hnd Hf.
  { exists w. cbn. by rewrite app_nil_r. }
  destruct o as [b|]; cbn [submitted omap list_omap] in Hnd, Hf.
  - apply Forall_cons in Hf as [Hb Hf].
    assert (Hnd' : NoDup (dn ++ (q ++ [b]) ++ submitted os)) by (by rewrite <- !(assoc_L (++))).
    destruct (serving_submit w0 q dn w b e Hs Hb) as (w1 & Hr1 & Hs1).
    { intros Hin. apply NoDup_app in Hnd as (_ & _ & Hnd). apply NoDup_app in Hnd as (_ & Hd & _). apply (Hd b Hin). by left. }
    { intros Hin. apply NoDup_app in Hnd as (_ & Hd & _). apply (Hd b Hin). set_solver. }
    destruct (IH (q ++ [b]) dn w1 e Hs1 Hnd' Hf) as (w2 & Hr2 & Hs2 & Heq). exists w2.
    cbn [iterM fold_left spec_ide_op]. rewrite (bind_ok _ _ _ _ _ Hr1). split_and!; [done|done|].
    cbn [submitted omap list_omap]. by rewrite Heq, <- (assoc_L (++)).
  - destruct q as [|b q].
    + assert (Hr1 : run_ide_op Interrupt (KS w e) = Ok tt (KS w e)) by (apply ideintr_idle; apply Hs).
      destruct (IH [] dn w e Hs Hnd Hf) as (w2 & Hr2 & Hs2). exists w2.
      cbn [iterM fold_left spec_ide_op]. by rewrite (bind_ok _ _ _ _ _ Hr1).
    + destruct (serving_interrupt w0 q dn b w e Hs) as (w1 & Hr1 & Hs1).
      { apply (NoDup_app (dn ++ b :: q) (submitted os)). by rewrite <- (assoc_L (++)). }
      assert (Hnd' : NoDup ((dn ++ [b]) ++ q ++ submitted os)) by (by rewrite <- !(assoc_L (++))).
      destruct (IH q (dn ++ [b]) w1 e Hs1 Hnd' Hf) as (w2 & Hr2 & Hs2 & Heq). exists w2.
      cbn [iterM fold_left spec_ide_op]. rewrite (bind_ok _ _ _ _ _ Hr1). split_and!; [done|done|].
      cbn [submitted omap list_omap]. by rewrite Heq, <- (assoc_L (++)).
Qed.

(** ** A process waits for its request *)

Lemma finished_valid f : Z.land (del_flag B_DIRTY (add_flag B_VALID f)) (Z.lor B_VALID B_DIRTY) = B_VALID.
Proof.
  unfold del_flag, add_flag. apply Z.bits_inj'. intros i Hi.
  rewrite Z.land_spec, Z.ldiff_spec, !Z.lor_spec. destruct (decide (i = 1)) as [->|H1]; [by rewrite orb_true_r|].
  destruct (decide (i = 2)) as [->|H2]; [by rewrite andb_false_r|].
  change B_VALID with (2 ^ 1). change B_DIRTY with (2 ^ 2). rewrite !Z.pow2_bits_false by lia. by rewrite !andb_false_r.
Qed.

(** The turn of the CPU in which the disk's interrupt is taken. *)
Definition ide_turn : K unit := release L_ptable ;; ideintr patience ;; acquire L_ptable.

Lemma ide_turn_ok b bf w :
  in_sched w → lock_free w L_ide → ide_ok w [b] → w_bufs w !! b = Some bf →
  ∃ n d t, as_turn ide_turn w = served b n d t w ∧ ide_ok (served b n d t w) [] ∧
    transferred (w_io w) bf d ∧ commands t = commands (w_io w).
Proof.
  intros Hs Hl Hok Hb. pose proof (popped_calm w Hs) as [Hc1 Hc2]. destruct Hs as (Hp & Hn & Hi).
  unfold as_turn, ide_turn. kcall (release_outermost L_ptable w [] (w_locks w L_ptable) Hp Hn Hi).
  match goal with |- context [KS ?x []] => set (w1 := x) end.
  destruct (ideintr_ok b [] bf w1 []) as (n & d & t & Hr & Hok' & Htr & Ht).
  { destruct Hl as [Hl1 Hl2]. unfold w1, ide_ease, lock_free. rsimpl.
    rewrite fn_lookup_insert, fn_lookup_insert_ne by done. split_and!; done. }
  { apply (ide_ok_frame w); [unfold w1; by rsimpl..|done]. }
  { unfold w1. by rsimpl. }
  exists n, d, t. rewrite (bind_ok _ _ _ _ _ Hr). rewrite acquire_free; [|unfold served, w1; rsimpl; by rewrite fn_lookup_insert].
  cbn [ks_w]. split_and!.
  - unfold acquired, served, w1. weq; [by rewrite pushcli_popped|]. rewrite fn_insert_insert, fn_lookup_insert.
    apply fn_insert_id. rewrite Hp at 2. unfold popped. by rsimpl.
  - apply (ide_ok_frame (served b n d t w1)); [unfold served, w1; by rsimpl..|done].
  - revert Htr. unfold w1. by rsimpl.
  - rewrite Ht. cbn [head_cmd]. rewrite app_nil_r. unfold w1. by rsimpl.
Qed.

(** The wait, once the request is queued alone and the lock is held. *)
Lemma ide_wait_ok b bf i p w e :
  sleeper L_ide i p w → pgdir p ≠ 0 → ide_ok w [b] → w_bufs w !! b = Some bf →
  has B_DIRTY (b_flags bf) = true ∨ has B_VALID (b_flags bf) = false →
  ∃ w' n d t, ide_wait b (KS w (as_turn ide_turn :: e)) = Ok tt (KS w' e) ∧
    w' = slept (C_buf b) i p w (served b n d t (asleep (C_buf b) L_ide i w)) ∧ ide_ok w' [] ∧
    transferred (w_io w) bf d ∧ commands t = commands (w_io w).
Proof.
  intros Hsl Hg Hok Hb Hfl. set (w0 := asleep (C_buf b) L_ide i w).
  assert (Hlk : lock_free w0 L_ide) by (unfold lock_free, w0, asleep; rsimpl; by rewrite fn_lookup_insert).
  destruct (ide_turn_ok b bf w0) as (n & d & t & Hturn & Hok' & Htr & Ht).
  { by apply (asleep_in_sched (C_buf b) L_ide i p). }
  { done. }
  { apply (ide_ok_frame w); [unfold w0, asleep; by rsimpl..|done]. }
  { unfold w0, asleep. by rsimpl. }
  pose proof (sleep_turn (C_buf b) L_ide i p w (as_turn ide_turn) e Hsl Hg) as Hres.
  cbv zeta in Hres. fold w0 in Hres. rewrite Hturn in Hres.
  specialize (Hres ltac:(unfold served, w0, asleep; by rsimpl) ltac:(unfold served; by rsimpl) ltac:(unfold served; by rsimpl)).
  set (w' := slept _ _ _ _ _) in Hres. exists w', n, d, t.
  assert (Hb' : w_bufs w' !! b = Some (finished d bf)).
  { unfold w', slept, served, w0, asleep. rsimpl. by rewrite list_lookup_alter_eq, Hb. }
  split_and!; [|done| | |].
  - unfold ide_wait, foreverK. cbn [loopM ks_env length]. rewrite bind_bind, (bind_ok _ _ _ _ _ (getb_eq b bf w _ Hb)).
    rewrite not_nothing_to_do, bind_bind, (bind_ok _ _ _ _ _ Hres), bind_ret by done.
    rewrite bind_bind, (bind_ok _ _ _ _ _ (getb_eq b _ w' _ Hb')). unfold finished at 1. rsimpl.
    by rewrite finished_valid.
  - apply (ide_ok_frame (served b n d t w0)); [unfold w', slept; by rsimpl..|done].
  - revert Htr. unfold w0, asleep. by rsimpl.
  - rewrite Ht. unfold w0, asleep. by rsimpl.
Qed.

End spec.

(** ** A disk *)

(** A disk that is always ready and whose sectors are all ones. *)
#[local] Instance demo_disk1 : Devices := {|
  dev_in _ _ := IDE_DRDY;
  dev_ins _ _ n := replicate n 1;
  dev_rd _ _ := 0
|}.

Lemma demo_ready t : ready_within 1 t.
Proof. by left. Qed.

(** Buffers 0 and 1 of block 5, to be read, and 700, to be written, of disk 0. *)
Definition demo_ide : world :=
  (bss 0 []) <| w_bufs ::= λ l, <[0%nat := mk_buf 0 0 5 1 0 0 zero_block]>
                                  (<[1%nat := mk_buf (Z.lor B_VALID B_DIRTY) 0 700 1 0 0 zero_block]> l) |>
             <| w_proc := Some 1%nat |> <| w_procs ::= <[1%nat := demo_proc]> |>
             <| w_slocks ::= <[SL_buf 0 := mk_sleeplock 1 "buffer" 1]> |>.

Lemma demo_ide_ok : ide_ease demo_ide ∧ ide_ok demo_ide [].
Proof.
  split; [unfold ide_ease, at_ease, calm, lock_free, cpu_ok, demo_ide; rsimpl; repeat split; discriminate|].
  split; [reflexivity|constructor|reflexivity|by intros b Hb%elem_of_nil].
Qed.


