(* ===== verification/Console.v ===== *)
(** * console.c, kbd.c and uart.c: the console and its devices

    Output goes to the serial port and to the screen's memory; input comes
    from the keyboard and the serial port, one pending byte per read of their
    data ports, and is edited into lines in the circular buffer [input].
    [procdump], [getstackpcs] and the two device functions of the console are
    here too.  [lidt(0,0)], by which control-Z reboots, clears the register
    [w_idtr]. *)

From S2P Require Import Prelude Kernel Bytes Spinlock CString Sched Sleeplock Disk Bio Log Inode Io Ioapic.

Definition modcons (f : console → console) : K unit := modw (λ w, w <| w_cons ::= f |>).

(** ** uart.c *)

(** [uartputc] waits up to 128 times for the port's ready bit and sends the
    byte in any case. *)
Definition uartputc (c : Z) : K unit :=
  u ← getw (λ w, uart (w_cons w));
  if u =? 0 then mret tt else modcons (λ x, x <| serial_out ::= λ l, l ++ [u8 c] |>).

(** [None] for the -1 of an idle port. *)
Definition uartgetc : K Z :=
  c ← getw w_cons;
  if uart c =? 0 then mret (-1) else
  match uart_pending c with
  | [] => mret (-1)
  | b :: l => modcons (λ x, x <| uart_pending := l |>) ;; mret b
  end.

Definition COM1 : Z := 0x3f8.

Section uart.
  Context {Dv : Devices}.

Definition uartearlyinit : K unit :=
  outb (COM1 + 2) 0 ;;
  outb (COM1 + 3) 0x80 ;;
  outb (COM1 + 0) (115200 / 9600) ;;
  outb (COM1 + 1) 0 ;;
  outb (COM1 + 3) 0x03 ;;
  outb (COM1 + 4) 0 ;;
  outb (COM1 + 1) 0x01 ;;
  status ← inb (COM1 + 5);
  if status =? 0xFF then mret tt else
  modcons (λ x, x <| uart := 1 |>) ;;
  iterM uartputc (chars "xv6..." ++ [10]).

Definition uartinit : K unit :=
  u ← getw (λ w, uart (w_cons w));
  if u =? 0 then mret tt else
  inb (COM1 + 2) ;;
  inb (COM1 + 0) ;;
  ioapicenable IRQ_COM1 0.
End uart.

(** ** kbd.c, kbd.h *)

Definition SHIFT : Z := 1.
Definition CTL : Z := 2.
Definition ALT : Z := 4.
Definition CAPSLOCK : Z := 8.
Definition NUMLOCK : Z := 16.
Definition SCROLLLOCK : Z := 32.
Definition E0ESC : Z := 64.

Definition shiftcode (k : Z) : Z :=
  match k with
  | 0x1D => CTL | 0x2A => SHIFT | 0x36 => SHIFT | 0x38 => ALT | 0x9D => CTL | 0xB8 => ALT
  | _ => 0
  end.

Definition togglecode (k : Z) : Z :=
  match k with 0x3A => CAPSLOCK | 0x45 => NUMLOCK | 0x46 => SCROLLLOCK | _ => 0 end.

(** The designated entries the three maps share, all but [KP_Enter] and
    [KP_Div]. *)
Definition keypad (k : Z) : Z :=
  match k with
  | 0xC8 => 0xE2 | 0xD0 => 0xE3 | 0xC9 => 0xE6 | 0xD1 => 0xE7 | 0xCB => 0xE4 | 0xCD => 0xE5
  | 0x97 => 0xE0 | 0xCF => 0xE1 | 0xD2 => 0xE8 | 0xD3 => 0xE9 | _ => 0
  end.

Definition normal_rows : list Z :=
  [0; 0x1B] ++ chars "1234567890-=" ++ [8; 9] ++
  chars "qwertyuiop[]" ++ [10; 0] ++ chars "asdfghjkl;'`" ++ [0; 92] ++
  chars "zxcvbnm,./" ++ [0] ++ chars "*" ++ [0] ++ chars " " ++ replicate 13 0 ++
  chars "789-456+1230." ++ replicate 4 0.
Definition normalmap (k : Z) : Z :=
  match k with
  | 0x9C => 10 | 0xB5 => 47
  | _ => default (keypad k) (normal_rows !! Z.to_nat k)
  end.

Definition shift_rows : list Z :=
  [0; 27] ++ chars "!@#$%^&*()_+" ++ [8; 9] ++
  chars "QWERTYUIOP{}" ++ [10; 0] ++ chars "ASDFGHJKL:" ++ [34] ++ chars "~" ++ [0] ++ chars "|" ++
  chars "ZXCVBNM<>?" ++ [0] ++ chars "*" ++ [0] ++ chars " " ++ replicate 13 0 ++
  chars "789-456+1230." ++ replicate 4 0.
Definition shiftmap (k : Z) : Z :=
  match k with
  | 0x9C => 10 | 0xB5 => 47
  | _ => default (keypad k) (shift_rows !! Z.to_nat k)
  end.

(** [C(x)], control-x, as a [uchar] in the tables of kbd.h. *)
Definition ctl (s : string) : list Z := (λ c, u8 (c - 64)) <$> chars s.
Definition ctl_rows : list Z :=
  replicate 16 0 ++ ctl "QWERTYUIOP" ++ [0; 0; 13; 0] ++ ctl "ASDFGHJKL" ++ [0; 0; 0; 0] ++
  ctl "\ZXCVBNM" ++ [0; 0] ++ ctl "/" ++ [0; 0].
Definition ctlmap (k : Z) : Z :=
  match k with
  | 0x9C => 13 | 0xB5 => u8 (47 - 64)
  | _ => default (keypad k) (ctl_rows !! Z.to_nat k)
  end.

(** [charcode[i]]. *)
Definition charcode (i : Z) : Z → Z :=
  if i =? 0 then normalmap else if i =? 1 then shiftmap else ctlmap.

(** One scan code: the new [shift] and the character. *)
Definition kbd_code (shift data : Z) : Z * Z :=
  if data =? 0xE0 then (Z.lor shift E0ESC, 0)
  else if negb (Z.land data 0x80 =? 0) then
    let data := if negb (Z.land shift E0ESC =? 0) then data else Z.land data 0x7F in
    (Z.ldiff shift (Z.lor (shiftcode data) E0ESC), 0)
  else
    let '(shift, data) :=
      if negb (Z.land shift E0ESC =? 0)
      then (Z.ldiff shift E0ESC, Z.lor data 0x80) else (shift, data) in
    let shift := Z.lxor (Z.lor shift (shiftcode data)) (togglecode data) in
    let c := charcode (Z.land shift (Z.lor CTL SHIFT)) data in
    (shift,
     if negb (Z.land shift CAPSLOCK =? 0) then
       if (97 <=? c) && (c <=? 122) then c - 32
       else if (65 <=? c) && (c <=? 90) then c + 32
       else c
     else c).

Definition kbdgetc : K Z :=
  x ← getw w_cons;
  match kbd_pending x with
  | [] => mret (-1)
  | data :: l =>
      let '(shift, c) := kbd_code (kbd_shift x) data in
      modcons (λ x, x <| kbd_pending := l |> <| kbd_shift := shift |>) ;;
      mret c
  end.

(** ** console.c: output *)

Definition BACKSPACE : Z := 0x100.

(** [crt[pos] = v]. *)
Definition set_crt (pos v : Z) : K unit :=
  l ← getw (λ w, crt (w_cons w));
  munwrap "crt" (l !! Z.to_nat pos) ;;
  modcons (λ x, x <| crt ::= <[Z.to_nat pos := v]> |>).

(** The screen's memory once rows 1 to 23 have moved up and what lies behind
    position [pos] has been blanked. *)
Definition scroll (pos : Z) (l : list Z) : list Z :=
  let l := splice 0 (slice 80 (23 * 80) l) l in
  splice (Z.to_nat pos) (replicate (Z.to_nat (24 * 80 - pos)) 0) l.

Definition cgaputc (c : Z) : K unit :=
  pos ← getw (λ w, crt_pos (w_cons w));
  pos ← (if c =? 10 then mret (pos + (80 - pos mod 80))
         else if c =? BACKSPACE then mret (if pos >? 0 then pos - 1 else pos)
         else set_crt pos (Z.lor (Z.land c 0xff) 0x0700) ;; mret (pos + 1));
  pos ← (if pos / 80 >=? 24 then
           let pos := pos - 80 in
           if 24 * 80 <? pos then mstop (Faulted "crt") else
           modcons (λ x, x <| crt ::= scroll pos |>) ;; mret pos
         else mret pos);
  modcons (λ x, x <| crt_pos := Z.lor (Z.shiftl (u8 (Z.shiftr pos 8)) 8) (u8 pos) |>) ;;
  set_crt pos (Z.lor 32 0x0700).

(** Once another CPU has panicked the CPU halts here for good. *)
Definition consputc (c : Z) : K unit :=
  p ← getw (λ w, panicked (w_cons w));
  if negb (p =? 0) then modw (λ w, w <| w_cpu ::= cli |>) ;; mstop Waiting else
  (if c =? BACKSPACE then uartputc 8 ;; uartputc 32 ;; uartputc 8 else uartputc c) ;;
  cgaputc c.

(** [digits[d]]. *)
Definition digit (d : Z) : Z := if d <? 10 then 48 + d else 87 + d.

(** [for(i = 0; i < n; i++, x <<= 4) consputc(digits[x >> (w - 4)])], with [x]
    of [w] bits. *)
Fixpoint print_hex (w : Z) (n : nat) (x : Z) : K unit :=
  match n with
  | O => mret tt
  | S n => consputc (digit (Z.shiftr x (w - 4))) ;; print_hex w n (Z.shiftl x 4 mod 2 ^ w)
  end.
Definition print_x64 (x : Z) : K unit := print_hex 64 16 x.
Definition print_x32 (x : Z) : K unit := print_hex 32 8 x.

(** The digits [print_d] stores in [buf], least significant first; [buf] has
    room for 16. *)
Fixpoint ddigits (fuel : nat) (x : Z) : list Z :=
  match fuel with
  | O => []
  | S f => digit (x mod 10) :: if x / 10 =? 0 then [] else ddigits f (x / 10)
  end.
Definition print_d_buf (v : Z) : list Z :=
  let x := if v <? 0 then - v else v in
  ddigits 16 x ++ (if v <? 0 then [45] else []).
Definition print_d (v : Z) : K unit := iterM consputc (rev (print_d_buf v)).

(** An argument of [cprintf]; a null string is [AStr None]. *)
Inductive carg := AInt (v : Z) | AAddr (v : Z) | AStr (s : option (list Z)).

(** [while( *s) consputc( *(s++));] *)
Fixpoint put_str (s : list Z) : K unit :=
  match s with
  | [] => mret tt
  | c :: s => if c =? 0 then mret tt else consputc (s8 c) ;; put_str s
  end.

(** The loop over the format; [37] is the percent sign. *)
Fixpoint cprintf_loop (fmt : list Z) (ap : list carg) : K unit :=
  match fmt with
  | [] => mret tt
  | c :: fmt =>
      if c =? 0 then mret tt
      else if negb (c =? 37) then consputc c ;; cprintf_loop fmt ap
      else
        match fmt with
        | [] => mret tt
        | c :: fmt =>
            if c =? 0 then mret tt
            else if c =? 100 then
              match ap with
              | AInt v :: ap => print_d v ;; cprintf_loop fmt ap
              | _ => mstop (Faulted "va_arg")
              end
            else if c =? 120 then
              match ap with
              | AInt v :: ap => print_x32 (u32 v) ;; cprintf_loop fmt ap
              | _ => mstop (Faulted "va_arg")
              end
            else if c =? 112 then
              match ap with
              | AAddr v :: ap => print_x64 v ;; cprintf_loop fmt ap
              | _ => mstop (Faulted "va_arg")
              end
            else if c =? 115 then
              match ap with
              | AStr s :: ap => put_str (default (chars "(null)") s) ;; cprintf_loop fmt ap
              | _ => mstop (Faulted "va_arg")
              end
            else if c =? 37 then consputc 37 ;; cprintf_loop fmt ap
            else consputc 37 ;; consputc c ;; cprintf_loop fmt ap
        end
  end.

Definition cprintf (fmt : list Z) (ap : list carg) : K unit :=
  locking ← getw (λ w, cons_locking (w_cons w));
  (if negb (locking =? 0) then acquire L_cons else mret tt) ;;
  cprintf_loop fmt ap ;;
  if negb (locking =? 0) then release L_cons else mret tt.

(** ** spinlock.c: the call stack *)

(** The frames from [rbp] on, [n] more at most; the rest of [pcs] is zero. *)
Fixpoint getstackpcs_from (n : nat) (m : mem) (rbp : Z) : list Z :=
  match n with
  | O => []
  | S n' =>
      if (rbp =? 0) || (rbp <? KERNBASE) || (rbp =? 0xffffffff) then replicate n 0
      else load64 m (u64 (rbp + 8)) :: getstackpcs_from n' m (load64 m rbp)
  end.
Definition getstackpcs (rbp : Z) : K (list Z) := getw (λ w, getstackpcs_from 10 (w_mem w) rbp).

(** ** proc.c: the process listing *)

Definition state_name (s : procstate) : string :=
  match s with
  | UNUSED => "unused" | EMBRYO => "embryo" | SLEEPING => "sleep " | RUNNABLE => "runble"
  | RUNNING => "run   " | ZOMBIE => "zombie"
  end.

(** [for(i=0; i<10 && pc[i] != 0; i++) cprintf(" %p", pc[i]);] *)
Fixpoint dump_pcs (pcs : list Z) : K unit :=
  match pcs with
  | [] => mret tt
  | pc :: pcs => if pc =? 0 then mret tt else cprintf (chars " %p") [AAddr pc] ;; dump_pcs pcs
  end.

Definition dump_proc (i : nat) : K unit :=
  p ← getp i;
  if decide (state p = UNUSED) then mret tt else
  cprintf (chars "%d %s %s")
    [AInt (pid p); AStr (Some (chars (state_name (state p)))); AStr (Some (p_name p))] ;;
  p ← getp i;
  (if decide (state p = SLEEPING) then
     pcs ← getstackpcs (u64 (rbp (p_context p) + 16));
     dump_pcs pcs
   else mret tt) ;;
  cprintf [10] [].

Definition procdump : K unit := iterM dump_proc (seq 0 NPROC).

(** ** console.c: input *)

Definition INPUT_BUF : Z := 128.

(** Kill line: [while(input.e != input.w && input.buf[(input.e-1) % INPUT_BUF]
    != '\n')], [n] times at most. *)
Fixpoint kill_line (n : nat) : K unit :=
  c ← getw w_cons;
  if in_e c =? in_w c then mret tt else
  b ← munwrap "input.buf" (in_buf c !! Z.to_nat (u32 (in_e c - 1) mod INPUT_BUF));
  if b =? 10 then mret tt else
  match n with
  | O => mstop OutOfFuel
  | S n =>
      modcons (λ c, c <| in_e ::= λ e, u32 (e - 1) |>) ;;
      consputc BACKSPACE ;;
      kill_line n
  end.

(** The [switch] of [consoleintr] on the character [c]. *)
Definition console_char (c : Z) : K unit :=
  if c =? 26 then modw (λ w, w <| w_idtr := 0 |>)
  else if c =? 16 then procdump
  else if c =? 21 then
    x ← getw w_cons; kill_line (Z.to_nat (u32 (in_e x - in_w x)))
  else if (c =? 8) || (c =? 0x7f) then
    x ← getw w_cons;
    if in_e x =? in_w x then mret tt else
    modcons (λ c, c <| in_e ::= λ e, u32 (e - 1) |>) ;;
    consputc BACKSPACE
  else
    x ← getw w_cons;
    if negb (c =? 0) && (u32 (in_e x - in_r x) <? INPUT_BUF) then
      let c := if c =? 13 then 10 else c in
      modcons (λ x, x <| in_buf ::= <[Z.to_nat (in_e x mod INPUT_BUF) := u8 c]> |>
                      <| in_e := u32 (in_e x + 1) |>) ;;
      consputc c ;;
      x ← getw w_cons;
      if (c =? 10) || (c =? 4) || (in_e x =? u32 (in_r x + INPUT_BUF)) then
        modcons (λ x, x <| in_w := in_e x |>) ;;
        wakeup C_input_r
      else mret tt
    else mret tt.

(** [while((c = getc()) >= 0) switch(c) ...]; every read takes one pending byte
    of a device. *)
Fixpoint console_loop (fuel : nat) (getc : K Z) : K unit :=
  c ← getc;
  if c <? 0 then mret tt else
  match fuel with
  | O => mstop OutOfFuel
  | S n => console_char c ;; console_loop n getc
  end.

Definition consoleintr (getc : K Z) : K unit :=
  acquire L_input ;;
  x ← getw w_cons;
  console_loop (length (kbd_pending x) + length (uart_pending x)) getc ;;
  release L_input.

Definition kbdintr : K unit := consoleintr kbdgetc.
Definition uartintr : K unit := consoleintr uartgetc.

(** ** console.c: the device *)

Section device.
  Context {D : DiskDriver}.

(** [while(input.r == input.w)]: [false] once the process has been killed. *)
Definition wait_input : K bool :=
  foreverK (
    x ← getw w_cons;
    if in_r x =? in_w x then
      i ← myproc; p ← getp i;
      if negb (killed p =? 0) then mret (Some false)
      else sleep C_input_r (Some L_input) ;; mret None
    else mret (Some true)).

(** The loop of [consoleread], [n] bytes still wanted; [None] once killed. *)
Fixpoint consoleread_loop (target : Z) (n : nat) (got : list Z) : K (option (list Z)) :=
  match n with
  | O => mret (Some got)
  | S n' =>
      ok ← wait_input;
      if negb ok then mret None else
      x ← getw w_cons;
      c ← munwrap "input.buf" (in_buf x !! Z.to_nat (in_r x mod INPUT_BUF));
      modcons (λ x, x <| in_r := u32 (in_r x + 1) |>) ;;
      if c =? 4 then
        (if Z.of_nat n <? target then modcons (λ x, x <| in_r := u32 (in_r x - 1) |>) else mret tt) ;;
        mret (Some got)
      else if c =? 10 then mret (Some (got ++ [c]))
      else consoleread_loop target n' (got ++ [c])
  end.

(** The return value and the bytes stored at [dst]. *)
Definition consoleread (ip : nat) (n : Z) : K (Z * list Z) :=
  iunlock (Some ip) ;;
  let target := u32 n in
  acquire L_input ;;
  r ← consoleread_loop target (Z.to_nat n) [];
  release L_input ;;
  ilock (Some ip) ;;
  match r with
  | None => mret (-1, [])
  | Some got => mret (s32 (target - u32 (n - Z.of_nat (length got))), got)
  end.

Definition consolewrite (ip : nat) (buf : list Z) : K Z :=
  iunlock (Some ip) ;;
  acquire L_cons ;;
  iterM consputc buf ;;
  release L_cons ;;
  ilock (Some ip) ;;
  mret (Z.of_nat (length buf)).
End device.

Definition CONSOLE : nat := 1.

Definition consoleinit {Dv : Devices} : K unit :=
  initlock L_cons "console" ;;
  initlock L_input "input" ;;
  modw (λ w, w <| w_devsw ::= alter (λ d, d <| dev_write := Some F_consolewrite |>) CONSOLE |>) ;;
  modw (λ w, w <| w_devsw ::= alter (λ d, d <| dev_read := Some F_consoleread |>) CONSOLE |>) ;;
  modcons (λ x, x <| cons_locking := 1 |>) ;;
  ioapicenable IRQ_KBD 0.
