(* ===== verification/Screen.v ===== *)
(** * console.c: output stays on the screen

    [consputc] keeps the cursor within the first 24 rows of the screen and
    never writes outside the screen's memory.  [prints] is the interface of
    code that only prints: [cprintf], with arguments of the types its format
    asks for, and the process listing. *)

From S2P Require Import Prelude Kernel Bytes Spinlock CString Sched Sleeplock Disk Bio Log Inode Io Ioapic Console.

Lemma console_eq x y :
  panicked x = panicked y → cons_locking x = cons_locking y → in_buf x = in_buf y → in_r x = in_r y →
  in_w x = in_w y → in_e x = in_e y → kbd_shift x = kbd_shift y → uart x = uart y →
  kbd_pending x = kbd_pending y → uart_pending x = uart_pending y → serial_out x = serial_out y →
  crt x = crt y → crt_pos x = crt_pos y → x = y.
Proof. destruct x, y; cbn; intros; by subst. Qed.

(** [weq], and the console by its fields. *)
Ltac ceq :=
  weq; try (apply console_eq; rsimpl; try lazymatch goal with |- ?x = ?x => exact eq_refl end).

(** ** The screen *)

Definition screen_ok (x : console) : Prop := length (crt x) = 2000%nat ∧ 0 ≤ crt_pos x < 24 * 80.

(** [w'] is [w] once something has been printed. *)
Definition echoed (w w' : world) : Prop :=
  ∃ so l p, w' = w <| w_cons ::= λ x, x <| serial_out := so |> <| crt := l |> <| crt_pos := p |> |> ∧
    screen_ok (w_cons w').

Lemma cursor_port pos : 0 ≤ pos < 2000 → Z.lor (Z.shiftl (u8 (Z.shiftr pos 8)) 8) (u8 pos) = pos.
Proof.
  intros Hp. apply (bool_decide_unpack _).
  assert (H : forallb (λ p, bool_decide (Z.lor (Z.shiftl (u8 (Z.shiftr p 8)) 8) (u8 p) = p)) (seqZ 0 2000) = true)
    by (by vm_compute).
  rewrite forallb_forall in H. apply Is_true_true, (H pos), list_elem_of_In, elem_of_seqZ. lia.
Qed.

Lemma set_crt_ok pos v w e :
  length (crt (w_cons w)) = 2000%nat → 0 ≤ pos < 2000 →
  set_crt pos v (KS w e) = Ok tt (KS (w <| w_cons ::= λ x, x <| crt ::= <[Z.to_nat pos := v]> |> |>) e).
Proof.
  intros Hl Hp. unfold set_crt, modcons. kstep.
  destruct (lookup_lt_is_Some_2 (crt (w_cons w)) (Z.to_nat pos)) as [b Hb]; [lia|].
  rewrite Hb. by kstep.
Qed.

Lemma length_scroll pos l : length l = 2000%nat → 0 ≤ pos ≤ 24 * 80 → length (scroll pos l) = 2000%nat.
Proof.
  intros Hl Hp. unfold scroll.
  assert (H1 : length (splice 0 (slice 80 (23 * 80) l) l) = 2000%nat).
  { rewrite length_splice; [done|]. rewrite length_slice by lia. lia. }
  rewrite length_splice; [done|]. rewrite length_replicate, H1. lia.
Qed.

Definition with_crt (l : list Z) (p : Z) (w : world) : world :=
  w <| w_cons ::= λ x, x <| crt := l |> <| crt_pos := p |> |>.

(** The character itself; the cursor may reach the end of the text area. *)
Definition cga_char (pos c : Z) : K Z :=
  if c =? 10 then mret (pos + (80 - pos mod 80))
  else if c =? BACKSPACE then mret (if pos >? 0 then pos - 1 else pos)
  else set_crt pos (Z.lor (Z.land c 0xff) 0x0700) ;; mret (pos + 1).

(** The scrolling of the screen. *)
Definition cga_scroll (pos : Z) : K Z :=
  if pos / 80 >=? 24 then
    let pos := pos - 80 in
    if 24 * 80 <? pos then mstop (Faulted "crt") else
    modcons (λ x, x <| crt ::= scroll pos |>) ;; mret pos
  else mret pos.

Lemma with_crt_id w : with_crt (crt (w_cons w)) (crt_pos (w_cons w)) w = w.
Proof. unfold with_crt. ceq. Qed.

Lemma with_crt_twice l p l' p' w : with_crt l' p' (with_crt l p w) = with_crt l' p' w.
Proof. unfold with_crt. ceq. Qed.

Lemma cga_char_ok c w e :
  screen_ok (w_cons w) →
  ∃ l p, cga_char (crt_pos (w_cons w)) c (KS w e) = Ok p (KS (with_crt l (crt_pos (w_cons w)) w) e) ∧
    length l = 2000%nat ∧ 0 ≤ p ≤ 24 * 80.
Proof.
  intros [Hl Hp]. set (p0 := crt_pos (w_cons w)) in *. unfold cga_char.
  pose proof (Z.mod_pos_bound p0 80 ltac:(lia)) as Hm. pose proof (Z.div_mod p0 80 ltac:(lia)) as Hd.
  destruct (c =? 10); [|destruct (c =? BACKSPACE)].
  - exists (crt (w_cons w)), (p0 + (80 - p0 mod 80)). split_and!; [|done|lia..].
    unfold p0. by rewrite with_crt_id.
  - exists (crt (w_cons w)), (if p0 >? 0 then p0 - 1 else p0).
    split_and!; [unfold p0; by rewrite with_crt_id|done|..]; destruct (Z.gtb_spec p0 0); lia.
  - exists (<[Z.to_nat p0 := Z.lor (Z.land c 0xff) 0x0700]> (crt (w_cons w))), (p0 + 1).
    erewrite bind_ok; [|apply set_crt_ok; [done|lia]]. split_and!; [|by rewrite length_insert|lia..].
    unfold mret, M_ret, with_crt, p0. ceq.
Qed.

Lemma cga_scroll_ok p w e :
  length (crt (w_cons w)) = 2000%nat → 0 ≤ p ≤ 24 * 80 →
  ∃ l p', cga_scroll p (KS w e) = Ok p' (KS (with_crt l (crt_pos (w_cons w)) w) e) ∧
    length l = 2000%nat ∧ 0 ≤ p' < 24 * 80.
Proof.
  intros Hl Hp. unfold cga_scroll. pose proof (Z.div_mod p 80 ltac:(lia)). pose proof (Z.mod_pos_bound p 80 ltac:(lia)).
  rewrite Z.geb_leb. destruct (Z.leb_spec 24 (p / 80)) as [Hge|Hlt].
  - cbn zeta. rewrite (proj2 (Z.ltb_ge _ _)) by lia.
    exists (scroll (p - 80) (crt (w_cons w))), (p - 80). split_and!; [|apply length_scroll; [done|lia]|lia..].
    unfold modcons. kstep. unfold with_crt. ceq.
  - exists (crt (w_cons w)), p. rewrite with_crt_id. split_and!; [done|done|lia..].
Qed.

Lemma cgaputc_ok c w e :
  screen_ok (w_cons w) →
  ∃ l p, cgaputc c (KS w e) = Ok tt (KS (with_crt l p w) e) ∧ length l = 2000%nat ∧ 0 ≤ p < 24 * 80.
Proof.
  intros Hs. destruct (cga_char_ok c w e Hs) as (l1 & p1 & E1 & Hl1 & Hp1).
  set (w1 := with_crt l1 (crt_pos (w_cons w)) w) in *.
  destruct (cga_scroll_ok p1 w1 e) as (l2 & p2 & E2 & Hl2 & Hp2); [unfold w1, with_crt; by rsimpl|done|].
  unfold cgaputc. kstep. erewrite bind_ok by exact E1. erewrite bind_ok by exact E2.
  unfold modcons. kstep. rewrite set_crt_ok; [|unfold with_crt; by rsimpl|lia].
  exists (<[Z.to_nat p2 := Z.lor 32 0x0700]> l2), p2. rewrite cursor_port by lia.
  split_and!; [|by rewrite length_insert|lia..]. unfold w1, with_crt. ceq.
Qed.

Lemma uartputc_ok c w e :
  ∃ so, uartputc c (KS w e) = Ok tt (KS (w <| w_cons ::= λ x, x <| serial_out := so |> |>) e).
Proof.
  unfold uartputc, modcons. kstep. destruct (uart (w_cons w) =? 0).
  - exists (serial_out (w_cons w)). unfold mret, M_ret. ceq.
  - exists (serial_out (w_cons w) ++ [u8 c]). kstep. ceq.
Qed.

Lemma consputc_ok c w e :
  panicked (w_cons w) = 0 → screen_ok (w_cons w) →
  ∃ w', consputc c (KS w e) = Ok tt (KS w' e) ∧ echoed w w'.
Proof.
  intros Hp Hs. unfold consputc. kstep. rewrite Hp. cbn [Z.eqb negb].
  assert (H2 : ∃ so, (if c =? BACKSPACE then uartputc 8 ;; uartputc 32 ;; uartputc 8 else uartputc c) (KS w e) =
    Ok tt (KS (w <| w_cons ::= λ x, x <| serial_out := so |> |>) e)).
  { destruct (c =? BACKSPACE); [|apply uartputc_ok].
    destruct (uartputc_ok 8 w e) as [s1 E1]. erewrite bind_ok by exact E1.
    match goal with |- ∃ so, _ (KS ?u e) = _ => destruct (uartputc_ok 32 u e) as [s2 E2] end.
    erewrite bind_ok by exact E2.
    match goal with |- ∃ so, _ (KS ?u e) = _ => destruct (uartputc_ok 8 u e) as [s3 ->] end.
    exists s3. ceq. }
  destruct H2 as [so E]. erewrite bind_ok by exact E. set (w1 := w <| w_cons ::= _ |>).
  destruct (cgaputc_ok c w1 e) as (l & p & -> & Hl & Hpos).
  { unfold w1, screen_ok in *. by rsimpl. }
  eexists. split; [done|]. exists so, l, p. split; [unfold w1, with_crt; ceq|].
  unfold w1, with_crt, screen_ok. by rsimpl.
Qed.

Lemma echoed_refl w : screen_ok (w_cons w) → echoed w w.
Proof.
  intros Hs. exists (serial_out (w_cons w)), (crt (w_cons w)), (crt_pos (w_cons w)). split; [|done].
  ceq.
Qed.

Lemma echoed_trans w1 w2 w3 : echoed w1 w2 → echoed w2 w3 → echoed w1 w3.
Proof.
  intros (s1 & l1 & p1 & -> & _) (s2 & l2 & p2 & -> & Hs). exists s2, l2, p2. split; [|done].
  ceq.
Qed.

Lemma echoed_screen w w' : echoed w w' → screen_ok (w_cons w').
Proof. by intros (so & l & p & _ & Hs). Qed.

(** ** Code that only prints *)

Section prints.
  Context (P : world → Prop) (HP : ∀ w w', echoed w w' → P w → P w').

(** From a world with [P], [m] returns and only prints. *)
Definition prints (m : K unit) : Prop :=
  ∀ w e, P w → panicked (w_cons w) = 0 → screen_ok (w_cons w) →
    ∃ w', m (KS w e) = Ok tt (KS w' e) ∧ echoed w w'.

Lemma prints_ret : prints (mret tt).
Proof. intros w e _ _ Hs. exists w. split; [done|]. by apply echoed_refl. Qed.

Lemma prints_putc c : prints (consputc c).
Proof. intros w e _. apply consputc_ok. Qed.

Lemma echoed_panicked w w' : echoed w w' → panicked (w_cons w') = panicked (w_cons w).
Proof. intros (so & l & p & -> & _). by rsimpl. Qed.

Lemma prints_bind m1 m2 : prints m1 → prints m2 → prints (m1 ;; m2).
Proof using HP.
  intros H1 H2 w e Hw Hp Hs. destruct (H1 w e Hw Hp Hs) as (w1 & E1 & S1).
  destruct (H2 w1 e) as (w2 & E2 & S2).
  { by eapply HP. } { by rewrite (echoed_panicked _ _ S1). } { by eapply echoed_screen. }
  exists w2. split; [by erewrite bind_ok by exact E1|]. by eapply echoed_trans.
Qed.

(** A read of the state. *)
Lemma prints_read {X} (f : world → X) (m : X → K unit) : (∀ x, prints (m x)) → prints (x ← getw f; m x).
Proof. intros Hm w e Hw Hp Hs. kstep. by apply Hm. Qed.

Lemma prints_iter {X} (f : X → K unit) l : (∀ x, x ∈ l → prints (f x)) → prints (iterM f l).
Proof using HP.
  induction l as [|x l IH]; intros Hf; [apply prints_ret|]. apply prints_bind; [apply Hf; set_solver|].
  apply IH. intros y Hy. apply Hf. set_solver.
Qed.

Lemma prints_if (b : bool) m1 m2 : prints m1 → prints m2 → prints (if b then m1 else m2).
Proof. by destruct b. Qed.

Lemma prints_str s : prints (put_str s).
Proof using HP.
  induction s as [|c s IH]; [apply prints_ret|]. cbn [put_str].
  apply prints_if; [apply prints_ret|]. apply prints_bind; [apply prints_putc|done].
Qed.

Lemma prints_hex w n x : prints (print_hex w n x).
Proof using HP.
  revert x. induction n as [|n IH]; intros x; [apply prints_ret|]. apply prints_bind; [apply prints_putc|apply IH].
Qed.

Lemma prints_d v : prints (print_d v).
Proof using HP. apply prints_iter. intros c _. apply prints_putc. Qed.
End prints.

Create HintDb prints.
#[export] Hint Resolve prints_ret prints_putc prints_bind prints_if prints_str prints_hex prints_d : prints.



(** ** The process listing *)

(** A world in which [cprintf] can take the console's lock. *)
Definition talks (w : world) : Prop :=
  calm w ∧ ncli (w_cpu w) < 2 ^ 31 - 2 ∧ lock_free w L_cons ∧ length (w_procs w) = NPROC.

Lemma talks_echoed w w' : echoed w w' → talks w → talks w'.
Proof. intros (so & l & p & -> & _). unfold talks, calm, lock_free. by rsimpl. Qed.

(** Arguments of the types the format asks for. *)
Fixpoint args_ok (fmt : list Z) (ap : list carg) : bool :=
  match fmt with
  | [] => true
  | c :: fmt =>
      if c =? 0 then true
      else if negb (c =? 37) then args_ok fmt ap
      else
        match fmt with
        | [] => true
        | c :: fmt =>
            if c =? 0 then true
            else if (c =? 100) || (c =? 120) then match ap with AInt _ :: ap => args_ok fmt ap | _ => false end
            else if c =? 112 then match ap with AAddr _ :: ap => args_ok fmt ap | _ => false end
            else if c =? 115 then match ap with AStr _ :: ap => args_ok fmt ap | _ => false end
            else args_ok fmt ap
        end
  end.

Lemma prints_format P fmt ap :
  (∀ w w', echoed w w' → P w → P w') → args_ok fmt ap = true → prints P (cprintf_loop fmt ap).
Proof.
  intros HP. revert ap. induction fmt as [fmt IH] using (induction_ltof1 _ length). unfold ltof in IH.
  intros ap. destruct fmt as [|c fmt]; cbn [cprintf_loop args_ok]; [eauto with prints|].
  destruct (c =? 0); [eauto with prints|]. destruct (c =? 37); cbn [negb].
  2: { intros Hok. apply prints_bind; [done|eauto with prints|]. apply IH; [cbn; lia|done]. }
  destruct fmt as [|d fmt]; [eauto with prints|]. destruct (d =? 0); [eauto with prints|].
  assert (Hrest : ∀ m ap, prints P m → args_ok fmt ap = true → prints P (m ;; cprintf_loop fmt ap)).
  { intros m ap' Hm Hok. apply prints_bind; [done|done|]. apply IH; [cbn; lia|done]. }
  destruct (d =? 100); cbn [orb]; [destruct ap as [|[]]; try done; eauto with prints|].
  destruct (d =? 120); cbn [orb]; [destruct ap as [|[]]; try done; unfold print_x32; eauto with prints|].
  destruct (d =? 112); [destruct ap as [|[]]; try done; unfold print_x64; eauto with prints|].
  destruct (d =? 115); [destruct ap as [|[]]; try done; eauto with prints|].
  intros Hok. destruct (d =? 37); [eauto with prints|]. apply prints_bind; [done|eauto with prints|].
  eauto with prints.
Qed.

(** [cprintf] takes and gives back the console's lock around the text. *)
Lemma prints_cprintf fmt ap : args_ok fmt ap = true → prints talks (cprintf fmt ap).
Proof.
  intros Hok w e Ht Hp Hs. unfold cprintf. kstep.
  destruct (cons_locking (w_cons w) =? 0); cbn [negb].
  - rewrite bind_ret.
    destruct (prints_format talks fmt ap talks_echoed Hok w e Ht Hp Hs) as (w' & E & S).
    exists w'. by erewrite bind_ok by exact E.
  - destruct Ht as (Hc & Hn & Hl & _).
    erewrite bind_ok; [|by apply acquire_free, Hl].
    destruct (prints_format (λ _, True) fmt ap ltac:(done) Hok (acquired L_cons w) e I) as (w' & E & S).
    { unfold acquired. by rsimpl. } { unfold acquired. by rsimpl. }
    erewrite bind_ok by exact E. destruct S as (so & l & p & -> & Hs').
    erewrite release_calm; [|exact Hc|exact Hl|unfold acquired; by rsimpl|unfold acquired; by rsimpl].
    eexists. split; [done|]. exists so, l, p. split; [unfold acquired; ceq|].
    revert Hs'. unfold acquired, screen_ok. by rsimpl.
Qed.

Lemma prints_pcs pcs : prints talks (dump_pcs pcs).
Proof.
  pose proof talks_echoed. induction pcs as [|pc pcs IH]; cbn [dump_pcs]; [eauto with prints|].
  apply prints_if; [eauto with prints|]. apply prints_bind; [done| |done]. by apply prints_cprintf.
Qed.

Lemma prints_proc i : (i < NPROC)%nat → prints talks (dump_proc i).
Proof.
  intros Hi w e Ht Hp Hs. assert (Hlen : length (w_procs w) = NPROC) by apply Ht.
  destruct (lookup_lt_is_Some_2 (w_procs w) i) as [p Hpi]; [by rewrite Hlen|].
  unfold dump_proc. erewrite bind_ok; [|by apply getp_eq].
  destruct (decide (state p = UNUSED)); [by apply (prints_ret talks)|].
  destruct (prints_cprintf (chars "%d %s %s") [AInt (pid p); AStr (Some (chars (state_name (state p)))); AStr (Some (p_name p))]
    eq_refl w e Ht Hp Hs) as (w1 & E1 & S1).
  erewrite bind_ok by exact E1.
  assert (Hpi1 : w_procs w1 !! i = Some p) by (destruct S1 as (? & ? & ? & -> & _); by rsimpl).
  erewrite bind_ok; [|by apply getp_eq].
  assert (Hrest : prints talks ((if decide (state p = SLEEPING) then
     pcs ← getstackpcs (u64 (rbp (p_context p) + 16)); dump_pcs pcs else mret tt) ;; cprintf [10] [])).
  { apply prints_bind; [exact talks_echoed| |by apply prints_cprintf].
    destruct (decide (state p = SLEEPING)); [|apply prints_ret]. apply prints_read. intros. apply prints_pcs. }
  destruct (Hrest w1 e) as (w2 & E2 & S2).
  { by eapply talks_echoed. } { by rewrite (echoed_panicked _ _ S1). } { by eapply echoed_screen. }
  exists w2. split; [exact E2|]. by eapply echoed_trans.
Qed.

Lemma prints_procdump : prints talks procdump.
Proof.
  apply prints_iter; [exact talks_echoed|]. intros i Hi%elem_of_seq. apply prints_proc. lia.
Qed.
