(* ===== verification/ConsoleSpec.v ===== *)
(** * console.c: the line discipline

    The circular buffer [input] with its three indices is a line editor: bytes
    typed are edited in the last line, and [consoleread] gets the lines that
    have been ended.  [Getc] is what [consoleintr] asks of the function that
    reads the device; the serial port and the keyboard are its instances. *)

From S2P Require Import Prelude Kernel Bytes Spinlock CString Sched Sleeplock Disk Memide Bio Log Inode Io Ioapic Console Screen.

(** ** The line editor *)

(** The bytes handed to readers, not read yet, and the line being edited. *)
Record editor := mk_editor { ready : list Z; edit : list Z }.

Record input_rep (x : console) (s : editor) : Prop := {
  ir_buf : length (in_buf x) = 128%nat;
  ir_r : 0 ≤ in_r x < 2 ^ 32;
  ir_w : in_w x = u32 (in_r x + Z.of_nat (length (ready s)));
  ir_e : in_e x = u32 (in_r x + Z.of_nat (length (ready s ++ edit s)));
  ir_max : Z.of_nat (length (ready s ++ edit s)) ≤ INPUT_BUF;
  ir_byte i b : (ready s ++ edit s) !! i = Some b →
    in_buf x !! Z.to_nat ((in_r x + Z.of_nat i) mod INPUT_BUF) = Some b
}.

(** What a character does, and whether readers are woken. *)
Definition spec_char (c : Z) (s : editor) : editor * bool :=
  if (c =? 26) || (c =? 16) || (c =? 0) then (s, false)
  else if c =? 21 then (mk_editor (ready s) [], false)
  else if (c =? 8) || (c =? 0x7f) then (mk_editor (ready s) (removelast (edit s)), false)
  else if Z.of_nat (length (ready s ++ edit s)) <? INPUT_BUF then
    let c := if c =? 13 then 10 else c in
    if (c =? 10) || (c =? 4) || (Z.of_nat (length (ready s ++ edit s)) + 1 =? INPUT_BUF)
    then (mk_editor (ready s ++ edit s ++ [c]) [], true)
    else (mk_editor (ready s) (edit s ++ [c]), false)
  else (s, false).

Lemma u32_index x : u32 x mod INPUT_BUF = x mod INPUT_BUF.
Proof.
  unfold u32, INPUT_BUF. apply Z.mod_mod_divide. by exists (2 ^ 25).
Qed.

(** Indices less than a turn of the counters apart are told apart. *)
Lemma u32_near x a b : 0 ≤ a ≤ b → b - a < 2 ^ 32 → u32 (x + a) = u32 (x + b) ↔ a = b.
Proof.
  intros H1 H2. split; [|by intros ->]. unfold u32. intros E.
  assert (Hd : (x + b - (x + a)) mod 2 ^ 32 = 0) by (rewrite Zminus_mod, E, Z.sub_diag; done).
  rewrite Z.mod_small in Hd by lia. lia.
Qed.

Lemma input_index_ne r (i j : Z) :
  i ≠ j → 0 ≤ i < INPUT_BUF → 0 ≤ j < INPUT_BUF → Z.to_nat ((r + i) mod INPUT_BUF) ≠ Z.to_nat ((r + j) mod INPUT_BUF).
Proof.
  unfold INPUT_BUF. intros Hne Hi Hj E.
  pose proof (Z.mod_pos_bound (r + i) 128 ltac:(lia)). pose proof (Z.mod_pos_bound (r + j) 128 ltac:(lia)).
  assert (E' : (r + i) mod 128 = (r + j) mod 128) by lia.
  pose proof (Z.div_mod (r + i) 128 ltac:(lia)). pose proof (Z.div_mod (r + j) 128 ltac:(lia)). lia.
Qed.

Lemma rep_line_empty x s : input_rep x s → in_e x = in_w x ↔ edit s = [].
Proof.
  intros Hr. rewrite (ir_w _ _ Hr), (ir_e _ _ Hr). pose proof (ir_max _ _ Hr) as Hm. unfold INPUT_BUF in Hm.
  rewrite length_app in *. rewrite (eq_comm (u32 _)). rewrite u32_near by lia.
  split; [|intros ->; cbn; lia]. intros E. apply nil_length_inv. lia.
Qed.

Lemma rep_ready_empty x s : input_rep x s → in_r x = in_w x ↔ ready s = [].
Proof.
  intros Hr. rewrite (ir_w _ _ Hr). pose proof (ir_max _ _ Hr) as Hm. unfold INPUT_BUF in Hm. rewrite length_app in *.
  pose proof (ir_r _ _ Hr). rewrite <- (u32_small (in_r x)) at 1 by done. rewrite <- (Z.add_0_r (in_r x)) at 1.
  rewrite u32_near by lia. split; [|intros ->; done]. intros E. apply nil_length_inv. lia.
Qed.

(** Only the buffer and its indices matter. *)
Lemma rep_same x y s :
  in_buf x = in_buf y → in_r x = in_r y → in_w x = in_w y → in_e x = in_e y → input_rep x s → input_rep y s.
Proof. intros E1 E2 E3 E4 [H1 H2 H3 H4 H5 H6]. split; try congruence. intros i b Hi. rewrite <- E1, <- E2. auto. Qed.

(** [input.e--]. *)
Lemma rep_erase x s l b :
  input_rep x s → edit s = l ++ [b] →
  input_rep (x <| in_e ::= λ e, u32 (e - 1) |>) (mk_editor (ready s) l).
Proof.
  intros [H1 H2 H3 H4 H5 H6] El. rewrite El in *. rewrite app_assoc, length_app in *. cbn [length] in *.
  split; rsimpl; cbn [ready edit]; try done.
  - rewrite H4. unfold u32. rewrite Zminus_mod_idemp_l. f_equal. lia.
  - lia.
  - intros i b' Hi. apply H6. by apply lookup_app_l_Some.
Qed.

(** The last byte of the line. *)
Lemma rep_last x s l b :
  input_rep x s → edit s = l ++ [b] → in_buf x !! Z.to_nat (u32 (in_e x - 1) mod INPUT_BUF) = Some b.
Proof.
  intros Hr El. rewrite u32_index, (ir_e _ _ Hr). unfold INPUT_BUF.
  replace ((u32 (in_r x + Z.of_nat (length (ready s ++ edit s))) - 1) mod 128) with
    ((in_r x + Z.of_nat (length (ready s ++ l))) mod INPUT_BUF).
  - apply (ir_byte _ _ Hr). rewrite El, app_assoc. apply list_lookup_middle. done.
  - rewrite <- Zminus_mod_idemp_l. change 128 with INPUT_BUF. rewrite u32_index. unfold INPUT_BUF.
    rewrite Zminus_mod_idemp_l. f_equal. rewrite El, !length_app. cbn [length]. lia.
Qed.

(** [input.buf[input.e++ % INPUT_BUF] = c]. *)
Lemma rep_type x s c :
  input_rep x s → Z.of_nat (length (ready s ++ edit s)) < INPUT_BUF →
  input_rep (x <| in_buf ::= <[Z.to_nat (in_e x mod INPUT_BUF) := c]> |> <| in_e := u32 (in_e x + 1) |>)
    (mk_editor (ready s) (edit s ++ [c])).
Proof.
  intros [H1 H2 H3 H4 H5 H6] Hlt. set (n := length (ready s ++ edit s)) in *.
  assert (Hn : length (ready s ++ edit s ++ [c]) = S n) by (rewrite app_assoc, length_app; cbn [length]; lia).
  assert (Hidx : in_e x mod INPUT_BUF = (in_r x + Z.of_nat n) mod INPUT_BUF) by (by rewrite H4, u32_index).
  pose proof (Z.mod_pos_bound (in_r x + Z.of_nat n) INPUT_BUF ltac:(done)) as Hb.
  split; rsimpl; cbn [ready edit]; rewrite ?Hn; try done.
  - by rewrite length_insert.
  - rewrite H4. unfold u32. rewrite Zplus_mod_idemp_l. f_equal. lia.
  - lia.
  - intros i b Hi. rewrite Hidx. rewrite app_assoc in Hi. apply lookup_app_Some in Hi as [Hi|[Hge Hi]].
    + pose proof (lookup_lt_Some _ _ _ Hi). fold n in H. rewrite list_lookup_insert_ne; [by apply H6|].
      apply input_index_ne; lia.
    + apply list_lookup_singleton_Some in Hi as [Hi <-]. fold n in Hge, Hi. replace i with n by lia.
      apply list_lookup_insert_eq. unfold INPUT_BUF in *. lia.
Qed.

(** [input.w = input.e]. *)
Lemma rep_commit x s : input_rep x s → input_rep (x <| in_w := in_e x |>) (mk_editor (ready s ++ edit s) []).
Proof.
  intros [H1 H2 H3 H4 H5 H6]. split; rsimpl; cbn [ready edit]; rewrite ?app_nil_r; done.
Qed.

(** [input.r++], and back. *)
Lemma rep_read x c l t :
  input_rep x (mk_editor (c :: l) t) →
  in_buf x !! Z.to_nat (in_r x mod INPUT_BUF) = Some c ∧
  input_rep (x <| in_r := u32 (in_r x + 1) |>) (mk_editor l t).
Proof.
  intros [H1 H2 H3 H4 H5 H6]. cbn [ready edit app length] in *. split.
  - specialize (H6 0%nat c eq_refl). by rewrite Z.add_0_r in H6.
  - split; rsimpl; cbn [ready edit app length]; try done.
    + apply u32_range.
    + rewrite H3. unfold u32. rewrite Zplus_mod_idemp_l. f_equal. lia.
    + rewrite H4. unfold u32. rewrite Zplus_mod_idemp_l. f_equal. lia.
    + lia.
    + intros i b Hi. specialize (H6 (S i) b Hi). rewrite <- Zplus_mod_idemp_l, u32_index, Zplus_mod_idemp_l.
      replace (in_r x + 1 + Z.of_nat i) with (in_r x + Z.of_nat (S i)) by lia. done.
Qed.

Lemma rep_unread x :
  0 ≤ in_r x < 2 ^ 32 → x <| in_r := u32 (in_r x + 1) |> <| in_r := u32 (u32 (in_r x + 1) - 1) |> = x.
Proof.
  intros H. apply console_eq; rsimpl; try done. unfold u32. rewrite Zminus_mod_idemp_l.
  replace (in_r x + 1 - 1) with (in_r x) by lia. by apply Z.mod_small.
Qed.

(** The console in order, with the input [s]. *)
Record con (x : console) (s : editor) : Prop := {
  cn_panic : panicked x = 0;
  cn_screen : screen_ok x;
  cn_input : input_rep x s;
  cn_line : 10 ∉ edit s
}.

(** What the devices have for the kernel. *)
Definition pend (x : console) : list Z * Z * Z * list Z := (kbd_pending x, kbd_shift x, uart x, uart_pending x).

(** Printing does not touch the input. *)
Lemma prints_con P m w e s :
  prints P m → P w → panicked (w_cons w) = 0 → screen_ok (w_cons w) → input_rep (w_cons w) s →
  ∃ x, m (KS w e) = Ok tt (KS (w <| w_cons := x |>) e) ∧
    panicked x = 0 ∧ screen_ok x ∧ input_rep x s ∧ pend x = pend (w_cons w).
Proof.
  intros Hm Hw Hp Hs Hr. destruct (Hm w e Hw Hp Hs) as (w' & E & (so & l & p & -> & Hs')).
  exists ((w_cons w) <| serial_out := so |> <| crt := l |> <| crt_pos := p |>). split; [rewrite E; weq|]. revert Hs'. rsimpl. intros Hs'. split_and!; [by rsimpl|done| |].
  - eapply rep_same; [..|exact Hr]; by rsimpl.
  - unfold pend. by rsimpl.
Qed.

Lemma putc_con c w e s :
  panicked (w_cons w) = 0 → screen_ok (w_cons w) → input_rep (w_cons w) s →
  ∃ x, consputc c (KS w e) = Ok tt (KS (w <| w_cons := x |>) e) ∧
    panicked x = 0 ∧ screen_ok x ∧ input_rep x s ∧ pend x = pend (w_cons w).
Proof. apply (prints_con (λ _, True)); [apply prints_putc|done]. Qed.

(** [input.e--; consputc(BACKSPACE)]. *)
Lemma erase_ok w e s l b :
  con (w_cons w) s → edit s = l ++ [b] →
  ∃ x, (modcons (λ c, c <| in_e ::= λ e, u32 (e - 1) |>) ;; consputc BACKSPACE) (KS w e) =
      Ok tt (KS (w <| w_cons := x |>) e) ∧ con x (mk_editor (ready s) l) ∧ pend x = pend (w_cons w).
Proof.
  intros [Hp Hs Hr Hn] El. unfold modcons. kstep.
  match goal with |- ∃ x, _ (KS ?u e) = _ ∧ _ => destruct (putc_con BACKSPACE u e (mk_editor (ready s) l)) as (x & E & H1 & H2 & H3 & H4) end.
  { by rsimpl. } { unfold screen_ok in *. by rsimpl. } { rsimpl. by eapply rep_erase. }
  exists x. split; [rewrite E; weq|]. split; [|rewrite H4; rsimpl; unfold pend; by rsimpl].
  split; try done. cbn [edit]. rewrite El in Hn. set_solver.
Qed.

Lemma kill_line_ok n w e s :
  con (w_cons w) s → (length (edit s) ≤ n)%nat →
  ∃ x, kill_line n (KS w e) = Ok tt (KS (w <| w_cons := x |>) e) ∧
    con x (mk_editor (ready s) []) ∧ pend x = pend (w_cons w).
Proof.
  revert w s. induction n as [|n IH]; intros w s Hc Hn; cbn [kill_line]; kstep;
    (destruct (edit s) as [|b l _] eqn:El using rev_ind;
      [rewrite (proj2 (rep_line_empty _ _ (cn_input _ _ Hc))), Z.eqb_refl by done|]).
  1, 3: exists (w_cons w); split; [unfold mret, M_ret; weq|]; destruct s; cbn in El; by subst.
  { rewrite length_app in Hn. cbn in Hn. lia. }
  rewrite (proj2 (Z.eqb_neq (in_e (w_cons w)) (in_w (w_cons w)))).
  2: { intros E. apply (rep_line_empty _ _ (cn_input _ _ Hc)) in E. rewrite E in El. by destruct l. }
  rewrite (rep_last _ _ _ _ (cn_input _ _ Hc) El), bind_munwrap.
  rewrite (proj2 (Z.eqb_neq b 10)) by (intros ->; apply (cn_line _ _ Hc); rewrite El; set_solver).
  destruct (erase_ok w e s l b Hc El) as (x & E & Hx & Hpx). rewrite <- bind_bind. erewrite bind_ok by exact E.
  destruct (IH (w <| w_cons := x |>) (mk_editor (ready s) l)) as (y & E2 & Hy & Hpy).
  { by rsimpl. } { rewrite length_app in Hn. cbn in *. lia. }
  exists y. split; [rewrite E2; weq|]. split; [done|]. rewrite Hpy. by rsimpl.
Qed.

(** ** [consoleintr] *)

Definition wake_if (woke : bool) (ps : list proc) : list proc :=
  if woke then wake_one C_input_r <$> ps else ps.

(** The worlds in which a character is handled. *)
Definition hears (w : world) : Prop := talks w ∧ lock_free w L_ptable.

(** What handling characters changes, the console apart. *)
Definition heard (woke : bool) (w w' : world) : Prop :=
  ∃ x d, w' = w <| w_cons := x |> <| w_idtr := d |> <| w_procs ::= wake_if woke |>.

Lemma wake_one_idem c p : wake_one c (wake_one c p) = wake_one c p.
Proof.
  unfold wake_one at 2 3. destruct (bool_decide (state p = SLEEPING) && bool_decide (p_chan p = Some c)) eqn:E;
    unfold wake_one; rsimpl; [|by rewrite E]. by rewrite bool_decide_false.
Qed.

Lemma wake_if_twice a b ps : wake_if b (wake_if a ps) = wake_if (a || b) ps.
Proof.
  destruct a, b; cbn [wake_if orb]; try done. rewrite <- list_fmap_compose. apply list_fmap_ext.
  intros i p _. apply wake_one_idem.
Qed.

Lemma heard_refl w : heard false w w.
Proof. exists (w_cons w), (w_idtr w). by weq. Qed.

Lemma heard_cons w x : heard false w (w <| w_cons := x |>).
Proof. exists x, (w_idtr w). by weq. Qed.

Lemma heard_trans a b w1 w2 w3 : heard a w1 w2 → heard b w2 w3 → heard (a || b) w1 w3.
Proof. intros (x1 & d1 & ->) (x2 & d2 & ->). exists x2, d2. weq. apply wake_if_twice. Qed.

Lemma hears_heard b w w' : heard b w w' → hears w → hears w'.
Proof.
  intros (x & d & ->) [(H1 & H2 & H3 & H4) H5]. unfold hears, talks, calm, lock_free in *. rsimpl.
  split_and!; try done; try apply H1; try apply H3; try apply H5. destruct b; cbn [wake_if]; [by rewrite length_fmap|done].
Qed.

(** A byte added to the buffer. *)
Lemma type_ok c w e s :
  hears w → con (w_cons w) s → 0 ≤ c < 256 → c ≠ 0 →
  Z.of_nat (length (ready s ++ edit s)) < INPUT_BUF →
  let '(s', woke) := if (c =? 10) || (c =? 4) || (Z.of_nat (length (ready s ++ edit s)) + 1 =? INPUT_BUF)
    then (mk_editor (ready s ++ edit s ++ [c]) [], true) else (mk_editor (ready s) (edit s ++ [c]), false) in
  ∃ w', (modcons (λ x, x <| in_buf ::= <[Z.to_nat (in_e x mod INPUT_BUF) := u8 c]> |> <| in_e := u32 (in_e x + 1) |>) ;;
      consputc c ;;
      x ← getw w_cons;
      if (c =? 10) || (c =? 4) || (in_e x =? u32 (in_r x + INPUT_BUF)) then
        modcons (λ x, x <| in_w := in_e x |>) ;;
        wakeup C_input_r
      else mret tt) (KS w e) = Ok tt (KS w' e) ∧ con (w_cons w') s' ∧ pend (w_cons w') = pend (w_cons w) ∧ heard woke w w'.
Proof.
  intros Hh [Hp Hs Hr Hn] Hc Hc0 Hlt. unfold modcons. rewrite bind_modw. rewrite (Z.mod_small c 256 Hc : u8 c = c).
  set (x1 := (w_cons w) <| in_buf ::= <[Z.to_nat (in_e (w_cons w) mod INPUT_BUF) := c]> |>
    <| in_e := u32 (in_e (w_cons w) + 1) |>).
  set (s1 := mk_editor (ready s) (edit s ++ [c])).
  destruct (putc_con c (w <| w_cons := x1 |>) e s1) as (x2 & E & H1 & H2 & H3 & H4).
  { unfold x1. by rsimpl. } { unfold x1, screen_ok in *. by rsimpl. } { unfold x1. rsimpl. by apply rep_type. }
  erewrite bind_ok.
  2: { match goal with |- _ (KS ?u e) = _ => replace u with (w <| w_cons := x1 |>) by (unfold x1; weq) end. exact E. }
  kstep.
  assert (Hpend : pend x2 = pend (w_cons w)) by (rewrite H4; unfold x1, pend; by rsimpl).
  assert (Hfull : (in_e x2 =? u32 (in_r x2 + INPUT_BUF)) = (Z.of_nat (length (ready s ++ edit s)) + 1 =? INPUT_BUF)).
  { apply eq_true_iff_eq. rewrite !Z.eqb_eq, (ir_e _ _ H3). unfold s1. cbn [ready edit].
    rewrite app_assoc, (length_app (_ ++ _)). cbn [length]. rewrite u32_near; unfold INPUT_BUF in *; lia. }
  rewrite Hfull. destruct ((c =? 10) || (c =? 4) || (_ =? INPUT_BUF)) eqn:Ecommit.
  - destruct Hh as [(Hcalm & Hncli & Hlc & Hlen) Hlp].
    rewrite bind_modw. rewrite wakeup_eq; [|by rsimpl; apply Hcalm|unfold lock_free in *; by rsimpl].
    eexists. split; [done|]. rsimpl. split_and!.
    + split; rsimpl; [done|unfold screen_ok in *; by rsimpl| |by apply not_elem_of_nil].
      replace (ready s ++ edit s ++ [c]) with (ready s1 ++ edit s1) by done. by apply rep_commit.
    + unfold pend in *. by rsimpl.
    + exists (x2 <| in_w := in_e x2 |>), (w_idtr w). unfold wake_if. weq. apply Hcalm.
  - eexists. split; [done|]. rsimpl. split_and!; [|done|].
    + split; try done. apply orb_false_iff in Ecommit as [[E10 _]%orb_false_iff _]. apply Z.eqb_neq in E10.
      cbn [edit]. set_solver.
    + exists x2, (w_idtr w). unfold wake_if. weq.
Qed.

Lemma console_char_ok c w e s :
  hears w → con (w_cons w) s → 0 ≤ c < 256 →
  ∃ w', console_char c (KS w e) = Ok tt (KS w' e) ∧ con (w_cons w') (spec_char c s).1 ∧
    pend (w_cons w') = pend (w_cons w) ∧ heard (spec_char c s).2 w w'.
Proof.
  intros Hh Hcon Hc. unfold console_char, spec_char.
  destruct (Z.eqb_spec c 26) as [->|N26]; cbn [orb].
  { eexists. split; [done|]. rsimpl. cbn [fst snd]. split_and!; [done|done|]. exists (w_cons w), 0. by weq. }
  destruct (Z.eqb_spec c 16) as [->|N16]; cbn [orb].
  { destruct (prints_con talks procdump w e s prints_procdump) as (x & E & H1 & H2 & H3 & H4); try apply Hcon; [apply Hh|].
    eexists. split; [exact E|]. rsimpl. cbn [fst snd]. split_and!; [|done|apply heard_cons]. split; try done. apply Hcon. }
  destruct (Z.eqb_spec c 21) as [->|N21]; cbn [orb Z.eqb fst snd].
  { kstep. destruct (kill_line_ok (Z.to_nat (u32 (in_e (w_cons w) - in_w (w_cons w)))) w e s Hcon) as (x & E & Hx & Hpx).
    - pose proof (cn_input _ _ Hcon) as Hr. rewrite (ir_w _ _ Hr), (ir_e _ _ Hr). unfold u32.
      rewrite <- Zminus_mod, length_app. pose proof (ir_max _ _ Hr) as Hm. rewrite length_app in Hm. unfold INPUT_BUF in Hm.
      rewrite Z.mod_small by lia. lia.
    - eexists. split; [exact E|]. rsimpl. split_and!; [done|done|apply heard_cons]. }
  destruct (Z.eqb_spec c 0) as [->|N0]; cbn [orb Z.eqb fst snd].
  { kstep. exists w. split_and!; [done|done|done|apply heard_refl]. }
  destruct ((c =? 8) || (c =? 127)) eqn:Ebs; cbn [fst snd].
  { kstep. pose proof (rep_line_empty _ _ (cn_input _ _ Hcon)) as He.
    destruct (edit s) as [|b l _] eqn:El using rev_ind.
    - rewrite (proj2 He), Z.eqb_refl by done. exists w. cbn [removelast].
      replace (mk_editor (ready s) []) with s by (destruct s; cbn in El; by subst).
      split_and!; [done|done|done|apply heard_refl].
    - rewrite (proj2 (Z.eqb_neq _ _)) by (intros E%He; by destruct l).
      destruct (erase_ok w e s l b Hcon El) as (x & E & Hx & Hpx). rewrite removelast_last.
      eexists. split; [exact E|]. rsimpl. split_and!; [done|done|apply heard_cons]. }
  kstep. cbn [negb andb]. pose proof (cn_input _ _ Hcon) as Hr.
  assert (Hroom : u32 (in_e (w_cons w) - in_r (w_cons w)) = Z.of_nat (length (ready s ++ edit s))).
  { rewrite (ir_e _ _ Hr). unfold u32. rewrite Zminus_mod_idemp_l. pose proof (ir_max _ _ Hr) as Hm. unfold INPUT_BUF in Hm.
    rewrite Z.add_simpl_l. rewrite Z.mod_small; lia. }
  rewrite Hroom. destruct (Z.ltb_spec (Z.of_nat (length (ready s ++ edit s))) INPUT_BUF) as [Hlt|Hge].
  - cbn zeta. set (c' := if c =? 13 then 10 else c).
    pose proof (type_ok c' w e s Hh Hcon ltac:(unfold c'; destruct (c =? 13); lia) ltac:(unfold c'; destruct (c =? 13); lia) Hlt) as Ht.
    destruct ((c' =? 10) || (c' =? 4) || _); exact Ht.
  - exists w. split_and!; [done|done|done|apply heard_refl].
Qed.

(** A function that reads a device: the characters it still has to give, and
    the devices once it has given them all. *)
Class Getc (getc : K Z) := {
  queue : list Z * Z * Z * list Z → list Z;
  drained : list Z * Z * Z * list Z → list Z * Z * Z * list Z;
  getc_idle w e : queue (pend (w_cons w)) = [] → getc (KS w e) = Ok (-1) (KS w e);
  getc_drained p : queue p = [] → drained p = p;
  getc_next w e c cs : queue (pend (w_cons w)) = c :: cs →
    ∃ x, getc (KS w e) = Ok c (KS (w <| w_cons := x |>) e) ∧ queue (pend x) = cs ∧
      drained (pend x) = drained (pend (w_cons w)) ∧ ∀ s, con (w_cons w) s → con x s;
  getc_fuel x : (length (queue (pend x)) ≤ length (kbd_pending x) + length (uart_pending x))%nat
}.
Arguments queue getc {_} _.
Arguments drained getc {_} _.

Lemma con_same x y s :
  panicked x = panicked y → crt x = crt y → crt_pos x = crt_pos y →
  in_buf x = in_buf y → in_r x = in_r y → in_w x = in_w y → in_e x = in_e y → con x s → con y s.
Proof.
  intros E1 E2 E3 E4 E5 E6 E7 [H1 H2 H3 H4]. split; [congruence| |by eapply rep_same|done].
  unfold screen_ok in *. by rewrite <- E2, <- E3.
Qed.

#[export] Instance uart_source : Getc uartgetc.
Proof.
  refine {| queue := λ p, let '(_, _, u, l) := p in if u =? 0 then [] else l;
            drained := λ p, let '(k, sh, u, l) := p in (k, sh, u, if u =? 0 then l else []) |}.
  - intros w e H. unfold uartgetc. kstep. unfold pend in H. destruct (uart (w_cons w) =? 0); [done|]. by rewrite H.
  - intros [[[k sh] u] l] H. by destruct (u =? 0); subst.
  - intros w e c cs H. unfold uartgetc. kstep. unfold pend in *. destruct (uart (w_cons w) =? 0) eqn:E; [done|]. rewrite H.
    unfold modcons. kstep. exists ((w_cons w) <| uart_pending := cs |>). split; [weq|].
    split_and!; [rsimpl; by rewrite E..|]. intros s. apply con_same; by rsimpl.
  - intros x. unfold pend. destruct (uart x =? 0); cbn [length]; lia.
Defined.

(** The characters of a sequence of scan codes. *)
Fixpoint keys (shift : Z) (codes : list Z) : list Z :=
  match codes with
  | [] => []
  | d :: l => let '(shift, c) := kbd_code shift d in c :: keys shift l
  end.

Fixpoint shift_after (shift : Z) (codes : list Z) : Z :=
  match codes with
  | [] => shift
  | d :: l => shift_after (kbd_code shift d).1 l
  end.

Lemma length_keys shift codes : length (keys shift codes) = length codes.
Proof.
  revert shift. induction codes as [|d l IH]; intros shift; [done|]. cbn [keys]. destruct (kbd_code shift d).
  cbn [length]. by rewrite IH.
Qed.

#[export] Instance kbd_source : Getc kbdgetc.
Proof.
  refine {| queue := λ p, let '(l, shift, _, _) := p in keys shift l;
            drained := λ p, let '(l, shift, u, up) := p in ([], shift_after shift l, u, up) |}.
  - intros w e H. unfold kbdgetc. kstep. unfold pend in H. destruct (kbd_pending (w_cons w)) as [|d l]; [done|].
    cbn [keys] in H. by destruct (kbd_code (kbd_shift (w_cons w)) d).
  - intros [[[[|d l] sh] u] up] H; [done|]. cbn [keys] in H. by destruct (kbd_code sh d).
  - intros w e c cs H. unfold kbdgetc. kstep. unfold pend in *. destruct (kbd_pending (w_cons w)) as [|d l]; [done|].
    cbn [keys shift_after] in *. destruct (kbd_code (kbd_shift (w_cons w)) d) as [shift c'] eqn:E. injection H as -> <-.
    unfold modcons. kstep. exists ((w_cons w) <| kbd_pending := l |> <| kbd_shift := shift |>). split; [weq|].
    split_and!; [by rsimpl..|]. intros s. apply con_same; by rsimpl.
  - intros x. unfold pend. rewrite length_keys. lia.
Defined.

(** The characters one after the other. *)
Fixpoint spec_chars (cs : list Z) (s : editor) : editor * bool :=
  match cs with
  | [] => (s, false)
  | c :: cs => let '(s1, a) := spec_char c s in let '(s2, b) := spec_chars cs s1 in (s2, a || b)
  end.

Lemma console_loop_ok `{Getc getc} fuel w e s :
  let cs := queue getc (pend (w_cons w)) in
  hears w → con (w_cons w) s → Forall is_byte cs → (length cs ≤ fuel)%nat →
  ∃ w', console_loop fuel getc (KS w e) = Ok tt (KS w' e) ∧ con (w_cons w') (spec_chars cs s).1 ∧
    pend (w_cons w') = drained getc (pend (w_cons w)) ∧ heard (spec_chars cs s).2 w w'.
Proof.
  cbn zeta. revert w s. induction fuel as [|fuel IH]; intros w s Hh Hc Hb Hf; cbn [console_loop];
    destruct (queue getc (pend (w_cons w))) as [|c cs] eqn:Eq.
  1, 3: erewrite bind_ok; [|by apply getc_idle]; exists w; rewrite getc_drained by done;
    split_and!; [done|done|done|apply heard_refl].
  { cbn in Hf. lia. }
  apply Forall_cons in Hb as [Hcb Hb]. unfold is_byte in Hcb. cbn [length] in Hf.
  destruct (getc_next w e c cs Eq) as (x & E & Hq & Hdr & Hx). erewrite bind_ok by exact E.
  rewrite (proj2 (Z.ltb_ge c 0)) by lia.
  destruct (console_char_ok c (w <| w_cons := x |>) e s) as (w1 & E1 & Hc1 & Hp1 & Hd1); [|rsimpl; auto|done|].
  { eapply hears_heard; [apply heard_cons|done]. }
  erewrite bind_ok by exact E1. revert Hp1. rsimpl. intros Hp1.
  destruct (IH w1 (spec_char c s).1) as (w2 & E2 & Hc2 & Hq2 & Hd2).
  { eapply hears_heard; [exact Hd1|]. eapply hears_heard; [apply heard_cons|done]. }
  { done. } { by rewrite Hp1, Hq. } { rewrite Hp1, Hq. lia. }
  rewrite Hp1, Hq in *. exists w2. cbn [spec_chars]. destruct (spec_char c s) as [s1 a]. cbn [fst snd] in *.
  destruct (spec_chars cs s1) as [s2 b]. cbn [fst snd] in *. split_and!; [done|done|by rewrite Hq2|].
  apply (heard_trans a b _ w1); [|done]. apply (heard_trans false a _ _ _ (heard_cons w x)). done.
Qed.

(** A world between critical sections, with the console in order. *)
Record on_console (w : world) (s : editor) : Prop := {
  oc_calm : calm w;
  oc_ncli : ncli (w_cpu w) < 2 ^ 31 - 3;
  oc_input : lock_free w L_input;
  oc_cons : lock_free w L_cons;
  oc_ptable : lock_free w L_ptable;
  oc_procs : length (w_procs w) = NPROC;
  oc_con : con (w_cons w) s
}.

Lemma consoleintr_ok `{Getc getc} w e s :
  let cs := queue getc (pend (w_cons w)) in
  on_console w s → Forall is_byte cs →
  ∃ w', consoleintr getc (KS w e) = Ok tt (KS w' e) ∧ on_console w' (spec_chars cs s).1 ∧
    pend (w_cons w') = drained getc (pend (w_cons w)) ∧ heard (spec_chars cs s).2 w w'.
Proof.
  intros cs [H1 H2 H3 H4 H5 H6 H7] Hb. unfold consoleintr. erewrite bind_ok; [|by apply acquire_free, H3].
  set (wa := acquired L_input w). assert (Hcons : w_cons wa = w_cons w) by (unfold wa, acquired; by rsimpl).
  assert (Hh : hears wa).
  { split; [split_and!|].
    - apply calm_acquired; [apply H1|lia].
    - unfold wa, acquired. rsimpl. pose proof (pushcli_on_ncli _ (proj1 H1)). lia.
    - by apply lock_free_acquired.
    - unfold wa, acquired. by rsimpl.
    - by apply lock_free_acquired. }
  kstep. rewrite Hcons.
  destruct (console_loop_ok (getc := getc) (length (kbd_pending (w_cons w)) + length (uart_pending (w_cons w))) wa e s)
    as (w1 & E & Hc1 & Hq1 & Hd1); [done|by rewrite Hcons|by rewrite Hcons|rewrite Hcons; apply getc_fuel|].
  rewrite Hcons in *. fold cs in Hc1, Hd1. erewrite bind_ok by exact E.
  destruct Hd1 as (x & d & ->). revert Hc1. rsimpl. intros Hc1.
  erewrite release_calm; [|exact H1|exact H3|by rsimpl|by rsimpl].
  eexists. split; [done|]. split_and!.
  - unfold wa, acquired. split; unfold calm, lock_free in *; rsimpl; try done; try lia.
    unfold wake_if. destruct (spec_chars cs s).2; [by rewrite length_fmap|done].
  - revert Hq1. by rsimpl.
  - exists x, d. unfold wa, acquired. weq.
Qed.

(** ** [consoleread] *)

(** What a reader that asks for [n] more bytes gets, and what it leaves: up to
    the end of the line; a control-D ends the input, and stays for the next
    reader unless this one has nothing yet.  [None] if it has to wait. *)
Fixpoint spec_read (n : nat) (fresh : bool) (l : list Z) : option (list Z * list Z) :=
  match n with
  | O => Some ([], l)
  | S n =>
      match l with
      | [] => None
      | c :: l' =>
          if c =? 4 then Some ([], if fresh then l' else l)
          else if c =? 10 then Some ([c], l')
          else '(got, r) ← spec_read n false l'; Some (c :: got, r)
      end
  end.

Lemma wait_input_ok w e s : con (w_cons w) s → ready s ≠ [] → wait_input (KS w e) = Ok true (KS w e).
Proof.
  intros Hc Hne. unfold wait_input, foreverK. cbn [loopM ks_env]. kstep.
  rewrite (proj2 (Z.eqb_neq _ _)); [by kstep|]. intros E. by apply (rep_ready_empty _ _ (cn_input _ _ Hc)) in E.
Qed.

Lemma consoleread_loop_ok n w e s got target l r :
  con (w_cons w) s → target = Z.of_nat (n + length got) → spec_read n (bool_decide (got = [])) (ready s) = Some (l, r) →
  ∃ x, consoleread_loop target n got (KS w e) = Ok (Some (got ++ l)) (KS (w <| w_cons := x |>) e) ∧
    con x (mk_editor r (edit s)) ∧ pend x = pend (w_cons w).
Proof.
  revert w s got l. induction n as [|n IH]; intros w s got l Hc Ht Hsp; cbn [spec_read] in Hsp.
  { injection Hsp as <- <-. exists (w_cons w). cbn [consoleread_loop]. rewrite app_nil_r. destruct s.
    split_and!; [unfold mret, M_ret; weq|done|done]. }
  destruct s as [rd ed]. cbn [ready edit] in *. destruct rd as [|c rd]; [done|]. cbn [consoleread_loop].
  erewrite bind_ok; [|by eapply wait_input_ok]. cbn [negb]. kstep.
  destruct Hc as [Hp Hs Hr Hn]. destruct (rep_read _ _ _ _ Hr) as [Hb Hr1]. rewrite Hb, bind_munwrap.
  unfold modcons. kstep. set (x1 := (w_cons w) <| in_r := u32 (in_r (w_cons w) + 1) |>).
  assert (Hc1 : con x1 (mk_editor rd ed)).
  { unfold x1. split; rsimpl; [done|unfold screen_ok in *; by rsimpl|done|done]. }
  assert (Hp1 : pend x1 = pend (w_cons w)) by (unfold x1, pend; by rsimpl).
  assert (Hw1 : w <| w_cons ::= λ x, x <| in_r := u32 (in_r x + 1) |> |> = w <| w_cons := x1 |>) by (unfold x1; weq).
  rewrite Hw1. destruct (Z.eqb_spec c 4) as [->|N4].
  - injection Hsp as <- <-. rewrite app_nil_r. destruct (decide (got = [])) as [->|Hne].
    + rewrite bool_decide_true by done. rewrite (proj2 (Z.ltb_ge _ _)) by (cbn in Ht; lia). rewrite bind_ret.
      exists x1. by split_and!.
    + rewrite bool_decide_false by done.
      assert (0 < length got)%nat by (destruct got; [done|cbn; lia]). rewrite (proj2 (Z.ltb_lt _ _)) by lia.
      kstep. exists (w_cons w). split_and!; [|by split|done]. unfold mret, M_ret. weq.
      unfold x1. rsimpl. apply rep_unread, Hr.
  - destruct (Z.eqb_spec c 10) as [->|N10].
    + injection Hsp as <- <-. exists x1. by split_and!.
    + destruct (spec_read n false rd) as [[got' r']|] eqn:E; [|done]. injection Hsp as <- <-.
      destruct (IH (w <| w_cons := x1 |>) (mk_editor rd ed) (got ++ [c]) got') as (x & E2 & Hx & Hpx).
      { by rsimpl. } { rewrite length_app. cbn [length]. lia. }
      { rewrite bool_decide_false by (by destruct got). cbn [ready]. exact E. }
      exists x. rewrite <- app_assoc in E2. split_and!; [rewrite E2; weq|done|]. rewrite Hpx. by rsimpl.
Qed.

(** A process that holds the console's inode [ip], read from disk. *)
Record on_reader (ip : nat) (w : world) (s : editor) : Prop := {
  or_console : on_console w s;
  or_ease : ncli (w_cpu w) = 0;
  or_lock : lock_free w (L_slk (SL_inode ip));
  or_held : slocked (w_slocks w (SL_inode ip)) = 1;
  or_inode : ∃ x, w_inodes w !! ip = Some x ∧ 1 ≤ i_ref x ∧ has I_VALID (i_flags x) = true;
  or_proc : ∃ i p, w_proc w = Some i ∧ w_procs w !! i = Some p
}.

Lemma on_reader_heard ip b w w' s s' :
  on_reader ip w s → heard b w w' → on_console w' s' → on_reader ip w' s'.
Proof.
  intros [H1 H2 H3 H4 H5 (i & p & Hi & Hp)] (x & d & ->) Hc. split; [done|..]; unfold lock_free in *; rsimpl; try done.
  exists i. unfold wake_if. destruct b; [|by exists p]. eexists. rewrite list_lookup_fmap, Hp. done.
Qed.

Lemma spec_read_le n fresh rd l r : spec_read n fresh rd = Some (l, r) → (length l ≤ n)%nat.
Proof.
  revert fresh rd l. induction n as [|n IH]; intros fresh rd l; cbn [spec_read]; [by intros [= <- _]|].
  destruct rd as [|c rd]; [done|]. destruct (c =? 4); [intros [= <- _]; cbn; lia|].
  destruct (c =? 10); [intros [= <- _]; cbn; lia|].
  destruct (spec_read n false rd) as [[got r']|] eqn:E; [|done]. intros [= <- <-]. cbn [length]. apply IH in E. lia.
Qed.

(** The critical section of [consoleread]. *)
Lemma read_section_ok {B} (k : option (list Z) → K B) n w e s l r :
  on_console w s → spec_read n true (ready s) = Some (l, r) →
  ∃ x, (acquire L_input ;; r ← consoleread_loop (Z.of_nat n) n []; release L_input ;; k r) (KS w e) =
      k (Some l) (KS (w <| w_cons := x |>) e) ∧ con x (mk_editor r (edit s)) ∧ pend x = pend (w_cons w).
Proof.
  intros Hoc Hsp. pose proof (oc_input _ _ Hoc) as Hl. erewrite bind_ok; [|by apply acquire_free, Hl].
  assert (Hcons : w_cons (acquired L_input w) = w_cons w) by (unfold acquired; by rsimpl).
  destruct (consoleread_loop_ok n (acquired L_input w) e s [] (Z.of_nat n) l r) as (x & E & Hx & Hp); try done.
  { rewrite Hcons. apply Hoc. } { cbn [length]. by rewrite Nat.add_0_r. }
  exists x. rewrite Hcons in Hp. split_and!; [|done|done]. erewrite bind_ok by exact E.
  erewrite bind_ok; [|eapply release_calm; [apply Hoc|exact Hl|by rsimpl|by rsimpl]].
  cbn [app]. do 2 f_equal.
Qed.

Lemma consoleread_ok {D : DiskDriver} ip n w e s l r :
  on_reader ip w s → 0 ≤ n < 2 ^ 31 → spec_read (Z.to_nat n) true (ready s) = Some (l, r) →
  ∃ w', consoleread ip n (KS w e) = Ok (Z.of_nat (length l), l) (KS w' e) ∧
    on_reader ip w' (mk_editor r (edit s)) ∧ pend (w_cons w') = pend (w_cons w).
Proof.
  intros [Hoc He Hl Hh (x0 & Hx0 & Href & Hv) (i & p & Hi & Hp)] Hn Hsp. pose proof Hoc as [C1 C2 C3 C4 C5 C6 C7].
  unfold consoleread, iunlock. rewrite bind_bind. erewrite bind_ok; [|by apply holdingsleep_eq]. rewrite Hh. cbn [Z.eqb negb].
  rewrite bind_bind. erewrite bind_ok; [|by apply geti_eq]. rewrite (proj2 (Z.ltb_ge _ 1)) by lia.
  erewrite bind_ok; [|by apply releasesleep_eq]. set (w1 := wake_all _ _).
  assert (Hoc1 : on_console w1 s).
  { unfold w1, wake_all, slock_set. split; unfold calm, lock_free in *; rsimpl; try done. by rewrite length_fmap. }
  cbn zeta. rewrite u32_small by lia.
  destruct (read_section_ok (λ r, ilock (Some ip) ;;
    match r with
    | None => mret (-1, [])
    | Some got => mret (s32 (n - u32 (n - Z.of_nat (length got))), got)
    end) (Z.to_nat n) w1 e s l r Hoc1 Hsp) as (x & E & Hx & Hpx). rewrite Z2Nat.id in E by lia.
  rewrite E. clear E. unfold ilock. rewrite bind_bind.
  erewrite bind_ok; [|apply geti_eq; unfold w1, wake_all, slock_set; rsimpl; exact Hx0].
  rewrite (proj2 (Z.ltb_ge _ 1)) by lia. rewrite bind_bind.
  assert (Hp1 : w_procs w1 !! i = Some (wake_one (C_slk (SL_inode ip)) p)).
  { unfold w1, wake_all, slock_set. rsimpl. by rewrite list_lookup_fmap, Hp. }
  erewrite bind_ok.
  2: { apply (acquiresleep_free _ i (wake_one (C_slk (SL_inode ip)) p)); unfold w1, wake_all, slock_set in *;
         unfold calm, lock_free in *; rsimpl_in_all; try done. by rewrite fn_lookup_insert. }
  rewrite bind_bind. erewrite bind_ok; [|apply geti_eq; unfold w1, wake_all, slock_set; rsimpl; exact Hx0].
  rewrite Hv, bind_ret. pose proof (spec_read_le _ _ _ _ _ Hsp). rewrite u32_small by lia.
  rewrite s32_small by lia. replace (n - (n - Z.of_nat (length l))) with (Z.of_nat (length l)) by lia.
  eexists. split; [done|]. split; [|unfold slock_set; rsimpl; rewrite Hpx; unfold w1, wake_all, slock_set; by rsimpl].
  destruct Hoc1 as [D1 D2 D3 D4 D5 D6 D7]. split; unfold slock_set; rsimpl.
  - split; unfold calm, lock_free in *; rsimpl; done.
  - unfold w1, wake_all, slock_set. by rsimpl.
  - unfold w1, wake_all, slock_set, lock_free in *. by rsimpl.
  - by rewrite fn_lookup_insert.
  - exists x0. unfold w1, wake_all, slock_set. by rsimpl.
  - exists i. eexists. split; [|exact Hp1]. unfold w1, wake_all, slock_set. by rsimpl.
Qed.

(** ** The console as its users see it *)

Lemma rows_byte rows k : forallb (λ b, (0 <=? b) && (b <? 256)) rows = true → is_byte (default (keypad k) (rows !! Z.to_nat k)).
Proof.
  intros H. destruct (rows !! Z.to_nat k) as [b|] eqn:E; cbn [default from_option id].
  - rewrite forallb_forall in H. apply list_elem_of_lookup_2, list_elem_of_In, H, andb_true_iff in E as [?%Z.leb_le ?%Z.ltb_lt].
    by split.
  - unfold keypad. repeat case_match; by split.
Qed.

Lemma charcode_byte i k : is_byte (charcode i k).
Proof.
  unfold charcode. destruct (i =? 0); [|destruct (i =? 1)].
  - unfold normalmap. pose proof (rows_byte normal_rows k eq_refl). repeat case_match; done || by split.
  - unfold shiftmap. pose proof (rows_byte shift_rows k eq_refl). repeat case_match; done || by split.
  - unfold ctlmap. pose proof (rows_byte ctl_rows k eq_refl). repeat case_match; done || by split.
Qed.

Lemma kbd_byte shift d : is_byte (kbd_code shift d).2.
Proof.
  unfold kbd_code. destruct (d =? 0xE0); [done|]. destruct (negb (Z.land d 0x80 =? 0)); [done|].
  destruct (if negb (Z.land shift E0ESC =? 0) then _ else _) as [sh d']. cbn [snd].
  pose proof (charcode_byte (Z.land (Z.lxor (Z.lor sh (shiftcode d')) (togglecode d')) (Z.lor CTL SHIFT)) d') as Hb.
  revert Hb. generalize (charcode (Z.land (Z.lxor (Z.lor sh (shiftcode d')) (togglecode d')) (Z.lor CTL SHIFT)) d').
  intros c Hb. unfold is_byte in *. destruct (negb _); [|done].
  destruct (Z.leb_spec 97 c), (Z.leb_spec c 122); cbn [andb]; try lia;
    destruct (Z.leb_spec 65 c), (Z.leb_spec c 90); cbn [andb]; lia.
Qed.

Lemma keys_bytes shift codes : Forall is_byte (keys shift codes).
Proof.
  revert shift. induction codes as [|d l IH]; intros shift; cbn [keys]; [constructor|].
  pose proof (kbd_byte shift d) as Hb. destruct (kbd_code shift d). by constructor.
Qed.

(** What happens at the console: bytes arrive at the serial port, keys are
    pressed and released, a process reads. *)
Inductive cev := Serial (cs : list Z) | Keys (codes : list Z) | Read (n : Z).

Section events.
  Context {D : DiskDriver} (ip : nat).

Definition run_cev (ev : cev) : K (Z * list Z) :=
  match ev with
  | Serial cs => modcons (λ x, x <| uart_pending := cs |>) ;; uartintr ;; mret (0, [])
  | Keys ds => modcons (λ x, x <| kbd_pending := ds |>) ;; kbdintr ;; mret (0, [])
  | Read n => consoleread ip n
  end.

Fixpoint run_cevs (evs : list cev) : K (list (Z * list Z)) :=
  match evs with
  | [] => mret []
  | ev :: evs => r ← run_cev ev; rs ← run_cevs evs; mret (r :: rs)
  end.

(** The line editor and the state of the shift keys; [None] for a read that
    has to wait. *)
Definition spec_cev (ev : cev) (st : editor * Z) : option ((Z * list Z) * (editor * Z)) :=
  let '(s, sh) := st in
  match ev with
  | Serial cs => if decide (Forall is_byte cs) then Some ((0, []), ((spec_chars cs s).1, sh)) else None
  | Keys ds => Some ((0, []), ((spec_chars (keys sh ds) s).1, shift_after sh ds))
  | Read n =>
      if decide (0 ≤ n < 2 ^ 31) then
        '(l, r) ← spec_read (Z.to_nat n) true (ready s);
        Some ((Z.of_nat (length l), l), (mk_editor r (edit s), sh))
      else None
  end.

Fixpoint spec_cevs (evs : list cev) (st : editor * Z) : option (list (Z * list Z) * (editor * Z)) :=
  match evs with
  | [] => Some ([], st)
  | ev :: evs =>
      '(r, st) ← spec_cev ev st;
      '(rs, st) ← spec_cevs evs st;
      Some (r :: rs, st)
  end.

(** The reader, with the serial port found and the devices idle. *)
Definition listening (w : world) (st : editor * Z) : Prop :=
  on_reader ip w st.1 ∧ pend (w_cons w) = ([], st.2, 1, []).

(** An interrupt with new data. *)
Lemma intr_ok `{Getc getc} (f : console → console) w e s :
  on_reader ip w s → (∀ x s, con x s → con (f x) s) → Forall is_byte (queue getc (pend (f (w_cons w)))) →
  ∃ w', (modcons f ;; consoleintr getc ;; mret (0, [] : list Z)) (KS w e) = Ok (0, []) (KS w' e) ∧
    on_reader ip w' (spec_chars (queue getc (pend (f (w_cons w)))) s).1 ∧
    pend (w_cons w') = drained getc (pend (f (w_cons w))).
Proof.
  intros Hor Hf Hb. unfold modcons. kstep. set (w1 := w <| w_cons ::= f |>).
  assert (Hor1 : on_reader ip w1 s).
  { apply (on_reader_heard ip false w _ s); [done| |].
    - exists (f (w_cons w)), (w_idtr w). unfold w1. by weq.
    - destruct (or_console _ _ _ Hor) as [C1 C2 C3 C4 C5 C6 C7]. unfold w1.
      split; unfold calm, lock_free in *; rsimpl; auto. }
  assert (Hc1 : w_cons w1 = f (w_cons w)) by (unfold w1; by rsimpl).
  destruct (consoleintr_ok (getc := getc) w1 e s (or_console _ _ _ Hor1)) as (w2 & E & Hoc & Hp & Hd); [by rewrite Hc1|].
  rewrite Hc1 in *. erewrite bind_ok by exact E. exists w2. split_and!; [done| |done].
  exact (on_reader_heard ip _ w1 w2 s _ Hor1 Hd Hoc).
Qed.

Lemma run_cev_ok ev w e st r st' :
  listening w st → spec_cev ev st = Some (r, st') →
  ∃ w', run_cev ev (KS w e) = Ok r (KS w' e) ∧ listening w' st'.
Proof.
  destruct st as [s sh]. intros [Hor Hp] Hsp. cbn [fst snd] in *. destruct ev as [cs|ds|n]; cbn [spec_cev run_cev] in *.
  - destruct (decide (Forall is_byte cs)) as [Hb|]; [|done]. injection Hsp as <- <-.
    assert (Eq : pend ((w_cons w) <| uart_pending := cs |>) = ([], sh, 1, cs)).
    { unfold pend in *. rsimpl. injection Hp as E1 E2 E3 E4. congruence. }
    destruct (intr_ok (getc := uartgetc) (λ x, x <| uart_pending := cs |>) w e s Hor) as (w' & E & Hor' & Hp').
    + intros x s0. apply con_same; by rsimpl.
    + by rewrite Eq.
    + exists w'. rewrite Eq in *. by split_and!.
  - injection Hsp as <- <-.
    assert (Eq : pend ((w_cons w) <| kbd_pending := ds |>) = (ds, sh, 1, [])).
    { unfold pend in *. rsimpl. injection Hp as E1 E2 E3 E4. congruence. }
    destruct (intr_ok (getc := kbdgetc) (λ x, x <| kbd_pending := ds |>) w e s Hor) as (w' & E & Hor' & Hp').
    + intros x s0. apply con_same; by rsimpl.
    + rewrite Eq. apply keys_bytes.
    + exists w'. rewrite Eq in *. by split_and!.
  - destruct (decide (0 ≤ n < 2 ^ 31)) as [Hn|]; [|done].
    destruct (spec_read (Z.to_nat n) true (ready s)) as [[l rd]|] eqn:Er; [|done]. injection Hsp as <- <-.
    destruct (consoleread_ok ip n w e s l rd Hor Hn Er) as (w' & E & Hor' & Hp').
    exists w'. split; [done|]. split; [done|]. by rewrite Hp'.
Qed.
End events.


(** A console whose indices are about to wrap around, and a process that holds
    its inode. *)
Definition demo_console : world :=
  (bss 0 []) <| w_proc := Some 1%nat |> <| w_procs ::= <[1%nat := demo_proc]> |>
    <| w_inodes ::= <[0%nat := zero_inode <| i_ref := 1 |> <| i_flags := I_VALID |>]> |>
    <| w_slocks ::= <[SL_inode 0 := mk_sleeplock 1 EmptyString 1]> |>
    <| w_cons ::= λ x, x <| uart := 1 |> <| in_r := 2 ^ 32 - 2 |> <| in_w := 2 ^ 32 - 2 |> <| in_e := 2 ^ 32 - 2 |> |>.

Lemma demo_console_on : listening 0 demo_console (mk_editor [] [], 0).
Proof.
  split; [|by vm_compute]. split.
  - split; [by vm_compute..|]. split; [by vm_compute| | |apply not_elem_of_nil].
    + split; [by vm_compute|]. unfold demo_console. rsimpl. cbn. lia.
    + unfold demo_console. rsimpl. split; rsimpl; cbn [ready edit app length]; try done; lia.
  - by vm_compute.
  - by vm_compute.
  - by vm_compute.
  - eexists. split; [unfold demo_console; rsimpl; apply list_lookup_insert_eq; vm_compute; lia|]. rsimpl. by vm_compute.
  - exists 1%nat, demo_proc. by vm_compute.
Qed.

