(* ===== verification/Apic.v ===== *)
(** * lapic.c, and ioapic.c's initialisation: the interrupt controllers, and the real-time clock

    The registers of the controllers are memory-mapped.  A loop that waits for
    a device takes as many polls as the device needs, [patience] at most. *)

From S2P Require Import Prelude Kernel Spinlock CString Io Ioapic Console.

Section apic.
  Context {Dv : Devices} (patience : nat).

(** ** ioapic.c *)

Definition ioapicinit : K unit :=
  modhw (λ h, h <| ioapic := P2V IOAPIC |>) ;;
  v ← ioapicread REG_VER;
  let maxintr := Z.land (Z.shiftr v 16) 0xFF in
  v ← ioapicread REG_ID;
  let id := Z.shiftr v 24 in
  ioid ← gethw ioapicid;
  (if negb (id =? ioid) then
     cprintf (chars "ioapicinit: id isn't equal to ioapicid; not a MP" ++ [10]) []
   else mret tt) ;;
  iterM (λ i, let i := Z.of_nat i in
              ioapicwrite (REG_TABLE + 2 * i) (Z.lor INT_DISABLED (T_IRQ0 + i)) ;;
              ioapicwrite (REG_TABLE + 2 * i + 1) 0)
    (seq 0 (S (Z.to_nat maxintr))).

(** ** lapic.c *)

Definition ID : Z := 0x20 / 4.
Definition VER : Z := 0x30 / 4.
Definition TPR : Z := 0x80 / 4.
Definition EOI : Z := 0xB0 / 4.
Definition SVR : Z := 0xF0 / 4.
Definition ENABLE : Z := 0x100.
Definition ESR : Z := 0x280 / 4.
Definition ICRLO : Z := 0x300 / 4.
Definition INIT : Z := 0x500.
Definition STARTUP : Z := 0x600.
Definition DELIVS : Z := 0x1000.
Definition ASSERT : Z := 0x4000.
Definition LEVEL : Z := 0x8000.
Definition BCAST : Z := 0x80000.
Definition ICRHI : Z := 0x310 / 4.
Definition TIMER : Z := 0x320 / 4.
Definition X1 : Z := 0xB.
Definition PERIODIC : Z := 0x20000.
Definition PCINT : Z := 0x340 / 4.
Definition LINT0 : Z := 0x350 / 4.
Definition LINT1 : Z := 0x360 / 4.
Definition ERROR : Z := 0x370 / 4.
Definition MASKED : Z := 0x10000.
Definition TICR : Z := 0x380 / 4.
Definition TDCR : Z := 0x3E0 / 4.

(** [lapic[index]]. *)
Definition lapicr (index : Z) : K Z := a ← gethw lapic; readl (a + 4 * index).

Definition lapicw (index value : Z) : K unit :=
  a ← gethw lapic;
  writel (a + 4 * index) value ;;
  lapicr ID ;;
  mret tt.

Definition lapicinit : K unit :=
  a ← gethw lapic;
  if a =? 0 then mret tt else
  lapicw SVR (Z.lor ENABLE (T_IRQ0 + IRQ_SPURIOUS)) ;;
  lapicw TDCR X1 ;;
  lapicw TIMER (Z.lor PERIODIC (T_IRQ0 + IRQ_TIMER)) ;;
  lapicw TICR 10000000 ;;
  lapicw LINT0 MASKED ;;
  lapicw LINT1 MASKED ;;
  v ← lapicr VER;
  (if Z.land (Z.shiftr v 16) 0xFF >=? 4 then lapicw PCINT MASKED else mret tt) ;;
  lapicw ERROR (T_IRQ0 + IRQ_ERROR) ;;
  lapicw ESR 0 ;;
  lapicw ESR 0 ;;
  lapicw EOI 0 ;;
  lapicw ICRHI 0 ;;
  lapicw ICRLO (Z.lor (Z.lor BCAST INIT) LEVEL) ;;
  poll patience (v ← lapicr ICRLO; mret (if Z.land v DELIVS =? 0 then Some tt else None)) ;;
  lapicw TPR 0.

(** [for(i = 0; i < ncpu; ++i) if(cpus[i].apicid == apicid) return i;] *)
Fixpoint find_cpu (cs : list percpu) (n : nat) (i : Z) (id : Z) : option Z :=
  match n, cs with
  | S n, c :: cs => if apicid c =? id then Some i else find_cpu cs n (i + 1) id
  | _, _ => None
  end.

(** The warning about enabled interrupts, printed at most once and with the
    caller's address, is left out. *)
Definition cpunum : K Z :=
  a ← gethw lapic;
  if a =? 0 then mret 0 else
  v ← lapicr ID;
  let id := Z.shiftr v 24 in
  h ← getw w_hw;
  match find_cpu (cpus h) (Z.to_nat (ncpu h)) 0 id with
  | Some i => mret i
  | None => panic "unknown apicid"
  end.

Definition lapiceoi : K unit :=
  a ← gethw lapic;
  if negb (a =? 0) then lapicw EOI 0 else mret tt.

Definition microdelay (us : Z) : K unit := mret tt.

Definition CMOS_PORT : Z := 0x70.
Definition CMOS_RETURN : Z := 0x71.

(** [wrv] points to two 16-bit words. *)
Definition lapicstartap (id addr : Z) : K unit :=
  outb CMOS_PORT 0xF ;;
  outb (CMOS_PORT + 1) 0x0A ;;
  let wrv := P2V (Z.lor (Z.shiftl 0x40 4) 0x67) in
  modw (λ w, w <| w_mem ::= λ m, wr_bytes m wrv (le_bytes 2 0) |>) ;;
  modw (λ w, w <| w_mem ::= λ m, wr_bytes m (wrv + 2) (le_bytes 2 (Z.shiftr addr 4)) |>) ;;
  lapicw ICRHI (Z.shiftl id 24) ;;
  lapicw ICRLO (Z.lor (Z.lor INIT LEVEL) ASSERT) ;;
  microdelay 200 ;;
  lapicw ICRLO (Z.lor INIT LEVEL) ;;
  microdelay 100 ;;
  iterM (λ _ : nat,
           lapicw ICRHI (Z.shiftl id 24) ;;
           lapicw ICRLO (Z.lor STARTUP (Z.shiftr addr 12)) ;;
           microdelay 200) (seq 0 2).

(** ** The clock *)

Definition CMOS_STATA : Z := 0x0a.
Definition CMOS_STATB : Z := 0x0b.
Definition CMOS_UIP : Z := Z.shiftl 1 7.
Definition SECS : Z := 0x00.
Definition MINS : Z := 0x02.
Definition HOURS : Z := 0x04.
Definition DAY : Z := 0x07.
Definition MONTH : Z := 0x08.
Definition YEAR : Z := 0x09.

Record rtcdate := mk_rtcdate { second : Z; minute : Z; hour : Z; day : Z; month : Z; year : Z }.
#[export] Instance rtcdate_eq_dec : EqDecision rtcdate.
Proof. solve_decision. Defined.

Definition cmos_read (reg : Z) : K Z :=
  outb CMOS_PORT reg ;;
  microdelay 200 ;;
  inb CMOS_RETURN.

Definition fill_rtcdate : K rtcdate :=
  s ← cmos_read SECS;
  mi ← cmos_read MINS;
  h ← cmos_read HOURS;
  d ← cmos_read DAY;
  mo ← cmos_read MONTH;
  y ← cmos_read YEAR;
  mret (mk_rtcdate s mi h d mo y).

(** The macro [CONV]. *)
Definition CONV (x : Z) : Z := u32 (Z.shiftr x 4 * 10 + Z.land x 0xf).

Definition cmostime : K rtcdate :=
  sb ← cmos_read CMOS_STATB;
  let bcd := Z.land sb (Z.shiftl 1 2) =? 0 in
  t1 ← poll patience (
    t1 ← fill_rtcdate;
    a ← cmos_read CMOS_STATA;
    if negb (Z.land a CMOS_UIP =? 0) then mret None else
    t2 ← fill_rtcdate;
    mret (if decide (t1 = t2) then Some t1 else None));
  let t1 := if bcd then mk_rtcdate (CONV (second t1)) (CONV (minute t1)) (CONV (hour t1))
                          (CONV (day t1)) (CONV (month t1)) (CONV (year t1))
            else t1 in
  mret (mk_rtcdate (second t1) (minute t1) (hour t1) (day t1) (month t1) (u32 (year t1 + 2000))).
End apic.
