(* ===== verification/Mp.v ===== *)
(** * mp.c: the multiprocessor tables of the firmware

    The kernel looks for the floating pointer structure in low memory, follows
    it to the configuration table, and reads the processors and the I/O APIC out
    of it.  The tables are bytes of [w_mem]. *)

From S2P Require Import Prelude Kernel Bytes CString Io Ioapic Console.

(** ** Structures in memory *)

Definition rd8 (m : mem) (a : Z) : Z := rd m a.
Definition rd16 (m : mem) (a : Z) : Z := le_val (rd_bytes m a 2).
Definition rd32 (m : mem) (a : Z) : Z := le_val (rd_bytes m a 4).

(** [struct mp]. *)
Definition sizeof_mp : Z := 16.
Definition mp_physaddr (m : mem) (p : Z) : Z := rd32 m (p + 4).
Definition mp_imcrp (m : mem) (p : Z) : Z := rd8 m (p + 12).

(** [struct mpconf]. *)
Definition sizeof_mpconf : Z := 44.
Definition conf_length (m : mem) (p : Z) : Z := rd16 m (p + 4).
Definition conf_version (m : mem) (p : Z) : Z := rd8 m (p + 6).
Definition conf_lapicaddr (m : mem) (p : Z) : Z := rd32 m (p + 36).

(** [struct mpproc], [struct mpioapic]. *)
Definition sizeof_mpproc : Z := 20.
Definition mpproc_apicid (m : mem) (p : Z) : Z := rd8 m (p + 1).
Definition sizeof_mpioapic : Z := 8.
Definition mpioapic_apicno (m : mem) (p : Z) : Z := rd8 m (p + 1).

Definition MPPROC : Z := 0.
Definition MPBUS : Z := 1.
Definition MPIOAPIC : Z := 2.
Definition MPIOINTR : Z := 3.
Definition MPLINTR : Z := 4.

(** ** Searching *)

Definition sum (m : mem) (addr len : Z) : Z := u8 (foldr Z.add 0 (rd_bytes m addr (Z.to_nat len))).

(** [memcmp(p, s, 4) == 0]. *)
Definition signature (m : mem) (p : Z) (s : string) : bool := bool_decide (rd_bytes m p 4 = chars s).

Fixpoint mpsearch_from (m : mem) (fuel : nat) (p e : Z) : option Z :=
  if p <? e then
    match fuel with
    | O => None
    | S f =>
        if signature m p "_MP_" && (sum m p sizeof_mp =? 0) then Some p
        else mpsearch_from m f (p + sizeof_mp) e
    end
  else None.

(** The fuel is the number of structures that fit. *)
Definition mpsearch1 (m : mem) (a len : Z) : option Z :=
  let addr := P2V a in
  mpsearch_from m (Z.to_nat ((len + sizeof_mp - 1) / sizeof_mp)) addr (addr + len).

Definition mpsearch (m : mem) : option Z :=
  let bda := P2V 0x400 in
  let p := u32 (Z.shiftl (Z.lor (Z.shiftl (rd8 m (bda + 0x0F)) 8) (rd8 m (bda + 0x0E))) 4) in
  let rom := mpsearch1 m 0xF0000 0x10000 in
  if negb (p =? 0) then
    match mpsearch1 m p 1024 with Some mp => Some mp | None => rom end
  else
    let p := u32 (Z.lor (Z.shiftl (rd8 m (bda + 0x14)) 8) (rd8 m (bda + 0x13)) * 1024) in
    match mpsearch1 m (u32 (p - 1024)) 1024 with Some mp => Some mp | None => rom end.

(** The configuration table and the structure that points to it. *)
Definition mpconfig (m : mem) : option (Z * Z) :=
  match mpsearch m with
  | None => None
  | Some mp =>
      if mp_physaddr m mp =? 0 then None else
      let conf := P2V (mp_physaddr m mp) in
      if negb (signature m conf "PCMP") then None else
      if negb (conf_version m conf =? 1) && negb (conf_version m conf =? 4) then None else
      if negb (sum m conf (conf_length m conf) =? 0) then None else
      Some (conf, mp)
  end.

(** ** Reading the table *)

(** [if(ncpu < NCPU){ cpus[ncpu].apicid = proc->apicid; ncpu++; }] *)
Definition add_cpu (id : Z) (h : hw) : hw :=
  if ncpu h <? Z.of_nat NCPU
  then h <| cpus ::= alter (λ c, c <| apicid := id |>) (Z.to_nat (ncpu h)) |> <| ncpu ::= λ n, n + 1 |>
  else h.

(** The loop over the entries at [p] up to [e]. *)
Fixpoint mp_entries (fuel : nat) (p e : Z) : K unit :=
  if p <? e then
    match fuel with
    | O => mstop OutOfFuel
    | S f =>
        m ← getw w_mem;
        let t := rd8 m p in
        if t =? MPPROC then
          modhw (add_cpu (mpproc_apicid m p)) ;;
          mp_entries f (p + sizeof_mpproc) e
        else if t =? MPIOAPIC then
          modhw (λ h, h <| ioapicid := mpioapic_apicno m p |>) ;;
          mp_entries f (p + sizeof_mpioapic) e
        else if (t =? MPBUS) || (t =? MPIOINTR) || (t =? MPLINTR) then
          mp_entries f (p + 8) e
        else panic "Major problem parsing mp config."
    end
  else mret tt.

Section mp.
  Context {Dv : Devices}.

Definition mpinit : K unit :=
  m ← getw w_mem;
  match mpconfig m with
  | None => cprintf (chars "No other CPUs found." ++ [10]) []
  | Some (conf, mp) =>
      modhw (λ h, h <| lapic := P2V (conf_lapicaddr m conf) |>) ;;
      mp_entries (Z.to_nat (conf_length m conf)) (conf + sizeof_mpconf) (conf + conf_length m conf) ;;
      n ← gethw ncpu;
      cprintf (chars "Seems we are SMP, ncpu = %d" ++ [10]) [AInt n] ;;
      if negb (mp_imcrp m mp =? 0) then
        outb 0x22 0x70 ;;
        v ← inb 0x23;
        outb 0x23 (Z.lor v 1)
      else mret tt
  end.
End mp.

(** ** The search *)

(** Where a floating pointer structure is. *)
Definition mp_at (m : mem) (p : Z) : bool := signature m p "_MP_" && (sum m p sizeof_mp =? 0).

Lemma mpsearch_from_spec m n : ∀ p e,
  p + Z.of_nat n * sizeof_mp < e + sizeof_mp → e ≤ p + Z.of_nat n * sizeof_mp →
  mpsearch_from m n p e = list.head (filter (λ p, mp_at m p = true) ((λ i, p + Z.of_nat i * sizeof_mp) <$> seq 0 n)).
Proof.
  unfold sizeof_mp. induction n as [|n IH]; intros p e H1 H2; cbn [mpsearch_from].
  - rewrite (proj2 (Z.ltb_ge p e)) by lia. done.
  - rewrite (proj2 (Z.ltb_lt p e)) by lia. cbn [seq fmap list_fmap]. rewrite filter_cons. unfold mp_at at 1.
    replace (p + Z.of_nat 0 * 16) with p by lia. fold (mp_at m p).
    change (signature m p "_MP_" && (sum m p sizeof_mp =? 0)) with (mp_at m p). destruct (mp_at m p).
    + by rewrite decide_True.
    + rewrite decide_False by done. unfold sizeof_mp. rewrite IH by lia. f_equal. f_equal.
      rewrite <- (fmap_S_seq 0 n), <- list_fmap_compose. apply list_fmap_ext. intros i x _. cbn. lia.
Qed.

(** ** The table *)

(** The entries of a configuration table, with their other bytes. *)
Inductive mpentry :=
  | MpProc (id : Z) (rest : list Z)
  | MpIoapic (id : Z) (rest : list Z)
  | MpOther (t : Z) (rest : list Z).

Definition enc_entry (x : mpentry) : list Z :=
  match x with
  | MpProc id r => MPPROC :: id :: r
  | MpIoapic id r => MPIOAPIC :: id :: r
  | MpOther t r => t :: r
  end.

Definition entry_ok (x : mpentry) : Prop :=
  match x with
  | MpProc _ r => length r = 18%nat
  | MpIoapic _ r => length r = 6%nat
  | MpOther t r => t ∈ [MPBUS; MPIOINTR; MPLINTR] ∧ length r = 7%nat
  end.

Definition enc_table (xs : list mpentry) : list Z := concat (enc_entry <$> xs).

Definition proc_ids (xs : list mpentry) : list Z := omap (λ x, match x with MpProc id _ => Some id | _ => None end) xs.
Definition ioapic_ids (xs : list mpentry) : list Z := omap (λ x, match x with MpIoapic id _ => Some id | _ => None end) xs.

(** What an entry does to the kernel's variables. *)
Definition enter (h : hw) (x : mpentry) : hw :=
  match x with
  | MpProc id _ => add_cpu id h
  | MpIoapic id _ => h <| ioapicid := id |>
  | MpOther _ _ => h
  end.

Lemma rd_bytes_app m a l l' :
  rd_bytes m a (length (l ++ l')) = l ++ l' →
  rd_bytes m a (length l) = l ∧ rd_bytes m (a + Z.of_nat (length l)) (length l') = l'.
Proof.
  intros H. rewrite length_app in H. rewrite rd_bytes_split in H. apply app_inj_1 in H as [H1 H2]; [done|].
  by rewrite length_rd_bytes.
Qed.

Lemma rd_bytes_nth m a l i x : rd_bytes m a (length l) = l → l !! i = Some x → rd m (a + Z.of_nat i) = x.
Proof. intros H Hi. rewrite <- H in Hi. by apply rd_bytes_lookup in Hi. Qed.

(** One round of the loop. *)
Lemma mp_entry_step x f p last w e :
  entry_ok x → rd_bytes (w_mem w) p (length (enc_entry x)) = enc_entry x → p < last →
  mp_entries (S f) p last (KS w e) =
    mp_entries f (p + Z.of_nat (length (enc_entry x))) last (KS (w <| w_hw ::= λ h, enter h x |>) e).
Proof.
  intros Hx Hm Hlt. cbn [mp_entries]. rewrite (proj2 (Z.ltb_lt _ _)) by done. kstep.
  assert (H0 : ∀ t l, enc_entry x = t :: l → rd8 (w_mem w) p = t).
  { intros t l E. rewrite E in Hm. rewrite <- (rd_bytes_nth _ _ _ 0 t Hm) by done. unfold rd8. f_equal. lia. }
  assert (H1 : ∀ t i l, enc_entry x = t :: i :: l → rd8 (w_mem w) (p + 1) = i).
  { intros t i l E. rewrite E in Hm. exact (rd_bytes_nth _ _ _ 1 i Hm eq_refl). }
  unfold mpproc_apicid, mpioapic_apicno, modhw.
  destruct x as [id r|id r|t r]; cbn [entry_ok] in Hx; cbn [enc_entry length enter].
  - rewrite (H0 _ _ eq_refl), (H1 _ _ _ eq_refl), Hx. change (MPPROC =? MPPROC) with true. cbv iota. kstep.
    f_equal.
  - rewrite (H0 _ _ eq_refl), (H1 _ _ _ eq_refl), Hx. change (MPIOAPIC =? MPPROC) with false.
    change (MPIOAPIC =? MPIOAPIC) with true. cbv iota. kstep. f_equal.
  - destruct Hx as [Ht Hr]. rewrite (H0 _ _ eq_refl), Hr.
    assert (Ht' : t = MPBUS ∨ t = MPIOINTR ∨ t = MPLINTR) by set_solver.
    replace (w <| w_hw ::= λ h, h |>) with w by weq. by destruct Ht' as [->|[->| ->]].
Qed.

Lemma mp_entries_ok xs : ∀ fuel p w e,
  Forall entry_ok xs → rd_bytes (w_mem w) p (length (enc_table xs)) = enc_table xs → (length xs ≤ fuel)%nat →
  mp_entries fuel p (p + Z.of_nat (length (enc_table xs))) (KS w e) =
    Ok tt (KS (w <| w_hw ::= λ h, fold_left enter xs h |>) e).
Proof.
  induction xs as [|x xs IH]; intros fuel p w e Hok Hm Hf.
  { change (Z.of_nat (length (enc_table []))) with 0. rewrite Z.add_0_r.
    destruct fuel; cbn [mp_entries]; rewrite Z.ltb_irrefl; unfold mret, M_ret; by weq. }
  apply Forall_cons in Hok as [Hx Hok]. destruct fuel as [|fuel]; [cbn in Hf; lia|].
  change (enc_table (x :: xs)) with (enc_entry x ++ enc_table xs) in *.
  apply rd_bytes_app in Hm as [Hm1 Hm2]. rewrite length_app, Nat2Z.inj_add, Z.add_assoc.
  assert (Hlen : (0 < length (enc_entry x))%nat) by (destruct x; cbn; lia).
  rewrite (mp_entry_step x) by (done || lia). cbn in Hf. rewrite IH; [by weq|done|by rsimpl|lia].
Qed.

(** The first [NCPU] processors are entered, in order, and the last I/O APIC. *)
Record entered (h : hw) (ids : list Z) (h' : hw) : Prop := {
  en_len : length (cpus h') = NCPU;
  en_ncpu : ncpu h' = Z.of_nat (length ids);
  en_le : (length ids ≤ NCPU)%nat;
  en_ids : take (length ids) (apicid <$> cpus h') = ids;
  en_lapic : lapic h' = lapic h
}.

Lemma add_cpu_entered h ids id h' : entered h ids h' → entered h (take NCPU (ids ++ [id])) (add_cpu id h').
Proof.
  intros [H1 H2 H3 H4 H5]. unfold add_cpu. destruct (Z.ltb_spec (ncpu h') (Z.of_nat NCPU)) as [Hlt|Hge].
  - rewrite take_ge by (rewrite length_app; cbn; lia). split; rsimpl.
    + by rewrite length_alter.
    + rewrite length_app, H2. cbn. lia.
    + rewrite length_app. cbn. lia.
    + rewrite H2, Nat2Z.id, length_app, Nat.add_1_r. destruct (lookup_lt_is_Some_2 (cpus h') (length ids)) as [c Hc]; [lia|].
      rewrite (alter_is_insert _ _ _ c) by done. rewrite list_fmap_insert. rsimpl.
      rewrite (take_S_r _ _ id) by (apply list_lookup_insert_eq; rewrite length_fmap; lia).
      by rewrite take_insert_ge, H4 by lia.
    + done.
  - assert (E : length ids = NCPU) by lia. rewrite take_app_le, take_ge by lia. by split.
Qed.

Lemma take_take_app {A} n (a b : list A) : take n (take n a ++ b) = take n (a ++ b).
Proof. rewrite !take_app, take_take, length_take, Nat.min_id. f_equal. f_equal. lia. Qed.

Lemma enter_entered xs : ∀ h ids h',
  entered h ids h' →
  entered h (take NCPU (ids ++ proc_ids xs)) (fold_left enter xs h') ∧
  ioapicid (fold_left enter xs h') = default (ioapicid h') (last (ioapic_ids xs)).
Proof.
  induction xs as [|x xs IH]; intros h ids h' He.
  { cbn. rewrite app_nil_r, take_ge by apply He. done. }
  cbn [fold_left]. destruct x as [id r|id r|t r]; cbn [enter proc_ids ioapic_ids omap list_omap].
  - destruct (IH h _ _ (add_cpu_entered h ids id h' He)) as [A B]. split.
    + by rewrite take_take_app, <- (assoc_L (++)) in A.
    + rewrite B. unfold add_cpu. by destruct (_ <? _); rsimpl.
  - destruct (IH h ids (h' <| ioapicid := id |>)) as [A B].
    + destruct He. split; by rsimpl.
    + split; [exact A|]. rewrite B. rsimpl. rewrite last_cons. by destruct (last _).
  - by apply IH.
Qed.

(** The processors found are those of the table.  On a configuration table
    whose entries are of known kinds, in any order and number, the loop of
    [mpinit] terminates without a panic and leaves in [cpus], in the order of the
    table, the local APIC ids of its processors, the first [NCPU] of them, their
    number in [ncpu], and in [ioapicid] the id of the last I/O APIC; nothing but
    these variables changes. *)
Lemma mp_table_read xs conf w e :
  Forall entry_ok xs → conf_length (w_mem w) conf = sizeof_mpconf + Z.of_nat (length (enc_table xs)) →
  rd_bytes (w_mem w) (conf + sizeof_mpconf) (length (enc_table xs)) = enc_table xs →
  ncpu (w_hw w) = 0 → length (cpus (w_hw w)) = NCPU →
  ∃ h, mp_entries (Z.to_nat (conf_length (w_mem w) conf)) (conf + sizeof_mpconf) (conf + conf_length (w_mem w) conf) (KS w e) =
      Ok tt (KS (w <| w_hw := h |>) e) ∧
    let ids := take NCPU (proc_ids xs) in
    ncpu h = Z.of_nat (length ids) ∧ take (length ids) (apicid <$> cpus h) = ids ∧
    ioapicid h = default (ioapicid (w_hw w)) (last (ioapic_ids xs)) ∧ lapic h = lapic (w_hw w).
Proof.
  intros Hok Hl Hm Hn Hc. destruct (enter_entered xs (w_hw w) [] (w_hw w)) as [[H1 H2 H3 H4 H5] Hio].
  { split; [done|done|cbn; lia|done|done]. }
  exists (fold_left enter xs (w_hw w)). split; [|by split_and!].
  assert (Hlx : (length xs ≤ length (enc_table xs))%nat).
  { clear. induction xs as [|x xs IH]; [done|]. change (enc_table (x :: xs)) with (enc_entry x ++ enc_table xs).
    rewrite length_app. cbn [length]. destruct x; cbn [enc_entry length]; lia. }
  rewrite Hl, Z.add_assoc. rewrite (mp_entries_ok xs); [weq|done|done|unfold sizeof_mpconf; lia].
Qed.

(** An entry of an unknown kind stops the boot with a panic. *)
Lemma mp_unknown_entry f p last w e :
  p < last → rd8 (w_mem w) p ∉ [MPPROC; MPBUS; MPIOAPIC; MPIOINTR; MPLINTR] →
  mp_entries (S f) p last (KS w e) = Stop (Panicked "Major problem parsing mp config.") (KS w e).
Proof.
  intros Hlt Hin. cbn [mp_entries]. rewrite (proj2 (Z.ltb_lt _ _)) by done. kstep.
  rewrite !not_elem_of_cons in Hin. destruct Hin as (H1 & H2 & H3 & H4 & H5 & _).
  rewrite !(proj2 (Z.eqb_neq _ _)) by done. done.
Qed.

(** A table with a bus, two processors and an I/O APIC. *)
Definition demo_table : list mpentry :=
  [MpOther MPBUS (replicate 7 0); MpProc 0 (replicate 18 1); MpProc 4 (replicate 18 1); MpIoapic 9 (replicate 6 0)].

Definition demo_mp : world :=
  (bss 0 []) <| w_mem := wr_bytes (wr_bytes ∅ 4 (le_bytes 2 (44 + 56))) 44 (enc_table demo_table) |>.

Lemma mp_table_read_witness :
  ∃ h, mp_entries 100 44 100 (KS demo_mp []) = Ok tt (KS (demo_mp <| w_hw := h |>) []) ∧
    ncpu h = 2 ∧ take 2 (apicid <$> cpus h) = [0; 4] ∧ ioapicid h = 9.
Proof.
  destruct (mp_table_read demo_table 0 demo_mp []) as (h & Hr & H1 & H2 & H3 & _).
  - repeat constructor.
  - vm_compute. reflexivity.
  - vm_compute. reflexivity.
  - reflexivity.
  - reflexivity.
  - exists h. split; [|split; [exact H1|split; [exact H2|exact H3]]].
    revert Hr. replace (conf_length (w_mem demo_mp) 0) with 100 by (vm_compute; reflexivity). intros Hr. exact Hr.
Defined.

Lemma mp_unknown_entry_witness :
  mp_entries 1 4 5 (KS demo_mp []) = Stop (Panicked "Major problem parsing mp config.") (KS demo_mp []).
Proof. apply (mp_unknown_entry 0 4 5 demo_mp []); [lia|]. vm_compute (rd8 _ _). set_solver. Defined.
