(* ===== verification/ApicSpec.v ===== *)
(** * The interrupt controllers and the clock as their users see them

    The state of the I/O APIC's registers is decoded from the writes to its
    window, and the interrupt routing proved on it; the clock's registers are a
    table the CMOS ports give access to. *)

From S2P Require Import Prelude Kernel Spinlock CString Io Ioapic Console Apic.

(** ** The registers of the I/O APIC *)

(** The register selected, and the contents of all of them. *)
Record ioapic_regs := mk_regs { rg_sel : Z; rg_val : Z → Z }.

Definition ioapic_step (base : Z) (s : ioapic_regs) (x : ioev) : ioapic_regs :=
  match x with
  | IoWr a v =>
      if a =? base then mk_regs v (rg_val s)
      else if a =? base + 16 then mk_regs (rg_sel s) (<[rg_sel s := v]> (rg_val s))
      else s
  | _ => s
  end.

Definition regs_of (base : Z) (t : list ioev) : ioapic_regs :=
  fold_left (ioapic_step base) t (mk_regs 0 (λ _, 0)).

(** The contents of register [r] after the writes [t]. *)
Definition reg (base : Z) (t : list ioev) (r : Z) : Z := rg_val (regs_of base t) r.

Section ioapic.
  Context {Dv : Devices}.

Lemma ioapicwrite_ok r v w e :
  0 ≤ r < 2 ^ 32 → 0 ≤ v < 2 ^ 32 →
  ∃ t, ioapicwrite r v (KS w e) = Ok tt (KS (w <| w_io := t |>) e) ∧
    ∀ r', reg (ioapic (w_hw w)) t r' = if decide (r' = r) then v else reg (ioapic (w_hw w)) (w_io w) r'.
Proof.
  intros Hr Hv. set (a := ioapic (w_hw w)). exists (w_io w ++ [IoWr a r; IoWr (a + 16) v]). split.
  - unfold ioapicwrite, gethw, writel, io. kstep. rewrite modw_eq. weq.
    by rewrite <- (assoc_L (++)), !u32_small by done.
  - intros r'. unfold reg, regs_of. rewrite fold_left_app. cbn [fold_left ioapic_step].
    rewrite Z.eqb_refl. rewrite (proj2 (Z.eqb_neq (a + 16) a)) by lia. rewrite Z.eqb_refl. cbn [rg_val rg_sel].
    rewrite fn_lookup_insert_case. repeat case_decide; congruence.
Qed.

Lemma ioapicread_ok r w e :
  ∃ v t, ioapicread r (KS w e) = Ok v (KS (w <| w_io := t |>) e) ∧
    v = u32 (dev_rd (w_io w ++ [IoWr (ioapic (w_hw w)) (u32 r)]) (ioapic (w_hw w) + 16)) ∧
    ∀ r', reg (ioapic (w_hw w)) t r' = reg (ioapic (w_hw w)) (w_io w) r'.
Proof.
  set (a := ioapic (w_hw w)). set (v := u32 (dev_rd (w_io w ++ [IoWr a (u32 r)]) (a + 16))).
  exists v, (w_io w ++ [IoWr a (u32 r); IoRd (a + 16) v]). split_and!; [|done|].
  - unfold ioapicread, gethw, writel, readl, io. kstep. unfold mret, M_ret. weq. by rewrite <- (assoc_L (++)).
  - intros r'. unfold reg, regs_of. rewrite fold_left_app. cbn [fold_left ioapic_step]. by rewrite Z.eqb_refl.
Qed.

(** An entry of the redirection table. *)
Definition redir (base : Z) (t : list ioev) (i : Z) : Z * Z :=
  (reg base t (REG_TABLE + 2 * i), reg base t (REG_TABLE + 2 * i + 1)).

Lemma ioapicwrite2_ok i lo hi w e :
  0 ≤ i < 2 ^ 16 → 0 ≤ lo < 2 ^ 32 → 0 ≤ hi < 2 ^ 32 →
  ∃ t, (ioapicwrite (REG_TABLE + 2 * i) lo ;; ioapicwrite (REG_TABLE + 2 * i + 1) hi) (KS w e) =
      Ok tt (KS (w <| w_io := t |>) e) ∧
    ∀ j, redir (ioapic (w_hw w)) t j = if decide (j = i) then (lo, hi) else redir (ioapic (w_hw w)) (w_io w) j.
Proof.
  intros Hi Hlo Hhi. unfold REG_TABLE.
  destruct (ioapicwrite_ok (0x10 + 2 * i) lo w e) as (t1 & H1 & R1); [lia|done|].
  destruct (ioapicwrite_ok (0x10 + 2 * i + 1) hi (w <| w_io := t1 |>) e) as (t2 & H2 & R2); [lia|done|].
  exists t2. split.
  - rewrite (bind_ok _ _ _ _ _ H1), H2. weq.
  - intros j. revert R2. rsimpl. intros R2. unfold redir, REG_TABLE. rewrite !R2, !R1.
    destruct (decide (j = i)) as [->|Hne].
    + rewrite (decide_False (P := 0x10 + 2 * i = 0x10 + 2 * i + 1)), !decide_True by lia. done.
    + rewrite !decide_False by lia. done.
Qed.

Lemma ioapic_disable n : ∀ w e,
  (n ≤ 256)%nat →
  ∃ t, iterM (λ i, let i := Z.of_nat i in
              ioapicwrite (REG_TABLE + 2 * i) (Z.lor INT_DISABLED (T_IRQ0 + i)) ;;
              ioapicwrite (REG_TABLE + 2 * i + 1) 0) (seq 0 n) (KS w e) = Ok tt (KS (w <| w_io := t |>) e) ∧
    ∀ j, redir (ioapic (w_hw w)) t j =
      if decide (0 ≤ j < Z.of_nat n) then (Z.lor INT_DISABLED (T_IRQ0 + j), 0) else redir (ioapic (w_hw w)) (w_io w) j.
Proof.
  induction n as [|n IH]; intros w e Hn.
  - exists (w_io w). split; [cbn; unfold mret, M_ret; weq|]. intros j. by rewrite decide_False by lia.
  - destruct (IH w e) as (t1 & H1 & R1); [lia|]. rewrite seq_S, iterM_app, (bind_ok _ _ _ _ _ H1).
    destruct (ioapicwrite2_ok (Z.of_nat n) (Z.lor INT_DISABLED (T_IRQ0 + Z.of_nat n)) 0 (w <| w_io := t1 |>) e)
      as (t2 & H2 & R2); [lia| |lia|].
    { unfold INT_DISABLED, T_IRQ0. split; [apply Z.lor_nonneg; lia|].
      destruct (decide (Z.lor 0x10000 (32 + Z.of_nat n) = 0)); [lia|]. apply Z.log2_lt_pow2; [|].
      - pose proof (proj2 (Z.lor_nonneg 0x10000 (32 + Z.of_nat n))). lia.
      - rewrite Z.log2_lor by lia. apply Z.max_lub_lt; [done|]. apply Z.log2_lt_pow2; lia. }
    exists t2. split.
    + cbn [iterM Nat.add]. rewrite (bind_ok _ _ _ _ _ H2). unfold mret, M_ret. weq.
    + intros j. revert R2. rsimpl. intros R2. rewrite R2, R1. destruct (decide (j = Z.of_nat n)) as [->|].
      * by rewrite decide_True by lia.
      * repeat case_decide; try done; lia.
Qed.
(** What the redirection entry [j] is after it was [d] and [es] were enabled. *)
Definition routed (j : Z) (es : list (Z * Z)) (d : Z * Z) : Z * Z :=
  fold_left (λ d x, if decide (j = x.1) then (T_IRQ0 + x.1, Z.shiftl x.2 24) else d) es d.

(** A request to route an interrupt to a CPU. *)
Definition route_ok (x : Z * Z) : Prop := 0 ≤ x.1 < 256 ∧ 0 ≤ x.2 < 256.

Lemma ioapicenable_all es : ∀ w e,
  Forall route_ok es →
  ∃ t, iterM (λ x, ioapicenable x.1 x.2) es (KS w e) = Ok tt (KS (w <| w_io := t |>) e) ∧
    ∀ j, redir (ioapic (w_hw w)) t j = routed j es (redir (ioapic (w_hw w)) (w_io w) j).
Proof.
  induction es as [|[irq c] es IH]; intros w e Hok.
  - exists (w_io w). split; [cbn; unfold mret, M_ret; weq|done].
  - apply Forall_cons in Hok as [[H1 H2] Hok]. cbn [fst snd] in *.
    destruct (ioapicwrite2_ok irq (T_IRQ0 + irq) (Z.shiftl c 24) w e) as (t1 & Hw & R1);
      [lia|unfold T_IRQ0; lia|rewrite Z.shiftl_mul_pow2; lia|].
    destruct (IH (w <| w_io := t1 |>) e Hok) as (t2 & Hr & R2). exists t2. split.
    + cbn [iterM fst snd]. rewrite (bind_ok (ioapicenable irq c) _ _ _ _ Hw), Hr. weq.
    + intros j. revert R2. rsimpl. intros R2. rewrite R2, R1. done.
Qed.

(** The controller answers with its version and its id when their registers are
    selected. *)
Definition ioapic_device (base ver id : Z) : Prop :=
  ∀ t, (rg_sel (regs_of base t) = REG_VER → u32 (dev_rd t (base + 16)) = ver) ∧
       (rg_sel (regs_of base t) = REG_ID → u32 (dev_rd t (base + 16)) = id).

Lemma reg_select base t r : rg_sel (regs_of base (t ++ [IoWr base r])) = r.
Proof. unfold regs_of. rewrite fold_left_app. cbn. by rewrite Z.eqb_refl. Qed.

(** Interrupts are routed as asked and no other way.  After [ioapicinit] and
    any sequence of [ioapicenable] calls, on a controller whose id is the one
    of the firmware's tables, the redirection entry of an interrupt that was
    enabled sends its vector to the CPU of the last call for it, and the entry
    of every other interrupt the controller has is disabled. *)
Lemma ioapic_routes es ver id w e :
  let base := P2V IOAPIC in
  let maxintr := Z.land (Z.shiftr ver 16) 0xFF in
  ioapic_device base ver id → Z.shiftr id 24 = ioapicid (w_hw w) → Forall route_ok es →
  ∃ w', (ioapicinit ;; iterM (λ x, ioapicenable x.1 x.2) es) (KS w e) = Ok tt (KS w' e) ∧
    ∀ j, 0 ≤ j ≤ maxintr →
      redir base (w_io w') j = routed j es (Z.lor INT_DISABLED (T_IRQ0 + j), 0).
Proof.
  intros base maxintr Hdev Hid Hok. unfold ioapicinit, modhw, gethw. kstep.
  set (w0 := w <| w_hw ::= λ h, h <| ioapic := base |> |>).
  assert (E0 : ioapic (w_hw w0) = base) by (unfold w0; by rsimpl).
  destruct (ioapicread_ok REG_VER w0 e) as (v1 & t1 & H1 & V1 & _). rewrite E0 in V1.
  rewrite (proj1 (Hdev _) (reg_select _ _ _)) in V1. subst v1. rewrite (bind_ok _ _ _ _ _ H1). kstep.
  destruct (ioapicread_ok REG_ID (w0 <| w_io := t1 |>) e) as (v2 & t2 & H2 & V2 & _). revert V2. rsimpl. rewrite E0.
  rewrite (proj2 (Hdev _) (reg_select _ _ _)). intros ->.
  rewrite (bind_ok _ _ _ _ _ H2). kstep.
  replace (ioapicid (w_hw w0)) with (ioapicid (w_hw w)) by (unfold w0; by rsimpl). rewrite Hid, Z.eqb_refl. cbn [negb]. kstep.
  set (w2 := w0 <| w_io := t1 |> <| w_io := t2 |>).
  assert (Hmx : 0 ≤ maxintr < 256).
  { unfold maxintr. change 0xFF with (Z.ones 8). rewrite Z.land_ones by lia. apply Z.mod_pos_bound. lia. }
  destruct (ioapic_disable (S (Z.to_nat maxintr)) w2 e) as (t3 & H3 & R3); [lia|]. rewrite (bind_ok _ _ _ _ _ H3).
  destruct (ioapicenable_all es (w2 <| w_io := t3 |>) e Hok) as (t4 & H4 & R4).
  eexists. split; [exact H4|]. intros j Hj.
  assert (E2 : ioapic (w_hw w2) = base) by (unfold w2; by rsimpl). revert R4. rsimpl. rewrite E2. intros R4.
  rewrite R4, <- E2, R3, decide_True by lia. done.
Qed.
End ioapic.

(** ** The clock *)

(** The CMOS register selected last. *)
Definition cmos_sel (t : list ioev) : Z :=
  fold_left (λ r x, match x with IoOut p v => if p =? CMOS_PORT then v else r | _ => r end) t 0.

Section clock.
  Context {Dv : Devices} (patience : nat).

(** The ports give access to registers that hold [cm]. *)
Definition cmos_device (cm : Z → Z) : Prop := ∀ t, dev_in t CMOS_RETURN = cm (cmos_sel t).

Lemma cmos_read_ok cm r w e :
  cmos_device cm → 0 ≤ r < 256 →
  ∃ t, cmos_read r (KS w e) = Ok (u8 (cm r)) (KS (w <| w_io := t |>) e).
Proof.
  intros Hd Hr. eexists (w_io w ++ [IoOut CMOS_PORT (u8 r); IoIn CMOS_RETURN (u8 (cm r))]).
  unfold cmos_read, outb, inb, io, microdelay. kstep. rewrite Hd. unfold cmos_sel. rewrite fold_left_app. cbn [fold_left].
  rewrite Z.eqb_refl. replace (u8 r) with r by (unfold u8; rewrite Z.mod_small; done).
  unfold mret, M_ret. weq. by rewrite <- (assoc_L (++)).
Qed.

(** The date the registers hold. *)
Definition date_of (cm : Z → Z) : rtcdate :=
  mk_rtcdate (u8 (cm SECS)) (u8 (cm MINS)) (u8 (cm HOURS)) (u8 (cm DAY)) (u8 (cm MONTH)) (u8 (cm YEAR)).

Lemma fill_rtcdate_ok cm w e :
  cmos_device cm → ∃ t, fill_rtcdate (KS w e) = Ok (date_of cm) (KS (w <| w_io := t |>) e).
Proof.
  intros Hd. unfold fill_rtcdate.
  destruct (cmos_read_ok cm SECS w e Hd) as (t1 & H1); [done|]. rewrite (bind_ok _ _ _ _ _ H1).
  destruct (cmos_read_ok cm MINS (w <| w_io := t1 |>) e Hd) as (t2 & H2); [done|]. rewrite (bind_ok _ _ _ _ _ H2).
  destruct (cmos_read_ok cm HOURS (w <| w_io := t1 |> <| w_io := t2 |>) e Hd) as (t3 & H3); [done|]. rewrite (bind_ok _ _ _ _ _ H3).
  match goal with |- context [KS ?x e] => set (w3 := x) end.
  destruct (cmos_read_ok cm DAY w3 e Hd) as (t4 & H4); [done|]. rewrite (bind_ok _ _ _ _ _ H4).
  destruct (cmos_read_ok cm MONTH (w3 <| w_io := t4 |>) e Hd) as (t5 & H5); [done|]. rewrite (bind_ok _ _ _ _ _ H5).
  destruct (cmos_read_ok cm YEAR (w3 <| w_io := t4 |> <| w_io := t5 |>) e Hd) as (t6 & H6); [done|]. rewrite (bind_ok _ _ _ _ _ H6).
  exists t6. unfold mret, M_ret, w3. weq.
Qed.

(** A number below 100 in binary-coded decimal. *)
Definition bcd (n : Z) : Z := n / 10 * 16 + n mod 10.

Lemma CONV_bcd n : 0 ≤ n < 100 → CONV (bcd n) = n.
Proof.
  intros Hn. unfold CONV, bcd. change 0xf with (Z.ones 4). rewrite Z.land_ones, Z.shiftr_div_pow2 by lia. change (2 ^ 4) with 16.
  pose proof (Z.mod_pos_bound n 10). pose proof (Z.div_mod n 10).
  assert (0 ≤ n / 10 < 10) by (split; [apply Z.div_pos; lia|apply Z.div_lt_upper_bound; lia]).
  rewrite Z.div_add_l, (Z.div_small (n mod 10)) by lia. 
  replace ((n / 10 * 16 + n mod 10) mod 16) with (n mod 10)
    by (rewrite Z.add_comm, Z.mod_add by lia; symmetry; apply Z.mod_small; lia).
  rewrite u32_small; lia.
Qed.

(** The registers of a clock that shows [d], in the format of its status
    register B, and is not being updated. *)
Record clock_shows (cm : Z → Z) (d : rtcdate) : Prop := {
  ck_idle : Z.land (u8 (cm CMOS_STATA)) CMOS_UIP = 0;
  ck_date : let f := if Z.land (u8 (cm CMOS_STATB)) (Z.shiftl 1 2) =? 0 then bcd else id in
    cm SECS = f (second d) ∧ cm MINS = f (minute d) ∧ cm HOURS = f (hour d) ∧
    cm DAY = f (day d) ∧ cm MONTH = f (month d) ∧ cm YEAR = f (year d - 2000);
  ck_range : Forall (λ n, 0 ≤ n < 100) [second d; minute d; hour d; day d; month d; year d - 2000]
}.

Lemma u8_bcd n : 0 ≤ n < 100 → u8 (bcd n) = bcd n ∧ u8 n = n.
Proof.
  intros Hn. unfold u8, bcd. pose proof (Z.mod_pos_bound n 10).
  assert (0 ≤ n / 10 < 10) by (split; [apply Z.div_pos; lia|apply Z.div_lt_upper_bound; lia]).
  split; apply Z.mod_small; lia.
Qed.

(** [cmostime] tells the time.  With a clock in either format, binary or
    binary-coded decimal, it returns the date the clock shows, in this
    century. *)
Lemma cmostime_reads cm d w e :
  cmos_device cm → clock_shows cm d → (0 < patience)%nat →
  ∃ w', cmostime patience (KS w e) = Ok d (KS w' e).
Proof.
  intros Hd [Hu Hdate Hrange] Hpat. destruct patience as [|n]; [lia|]. unfold cmostime.
  destruct (cmos_read_ok cm CMOS_STATB w e Hd) as (t1 & H1); [done|]. rewrite (bind_ok _ _ _ _ _ H1). cbn [poll].
  set (w1 := w <| w_io := t1 |>). rewrite !bind_bind.
  destruct (fill_rtcdate_ok cm w1 e Hd) as (t2 & H2). rewrite (bind_ok _ _ _ _ _ H2). rewrite !bind_bind.
  destruct (cmos_read_ok cm CMOS_STATA (w1 <| w_io := t2 |>) e Hd) as (t3 & H3); [done|]. rewrite (bind_ok _ _ _ _ _ H3).
  rewrite Hu. cbn [Z.eqb negb]. rewrite !bind_bind.
  destruct (fill_rtcdate_ok cm (w1 <| w_io := t2 |> <| w_io := t3 |>) e Hd) as (t4 & H4). rewrite (bind_ok _ _ _ _ _ H4).
  kstep. rewrite decide_True by done. kstep. eexists. unfold mret, M_ret. f_equal. clear -Hdate Hrange.
  rewrite !Forall_cons in Hrange. destruct Hrange as (R1 & R2 & R3 & R4 & R5 & R6 & _).
  destruct (u8_bcd _ R1) as [A1 B1], (u8_bcd _ R2) as [A2 B2], (u8_bcd _ R3) as [A3 B3],
    (u8_bcd _ R4) as [A4 B4], (u8_bcd _ R5) as [A5 B5], (u8_bcd _ R6) as [A6 B6].
  unfold date_of. destruct (Z.land (u8 (cm CMOS_STATB)) (Z.shiftl 1 2) =? 0); cbn zeta in Hdate;
    destruct Hdate as (D1 & D2 & D3 & D4 & D5 & D6); rewrite D1, D2, D3, D4, D5, D6; cbn [second minute hour day month year].
  - rewrite A1, A2, A3, A4, A5, A6, !CONV_bcd by done. rewrite u32_small by lia. destruct d; cbn in *. f_equal. lia.
  - unfold id. rewrite B1, B2, B3, B4, B5, B6. rewrite u32_small by lia. destruct d; cbn in *. f_equal. lia.
Qed.
End clock.

(** ** A machine with both *)

(** An I/O APIC with id 2 and 24 interrupts, and a clock in decimal. *)
Definition demo_date : rtcdate := mk_rtcdate 59 30 12 15 11 2026.
Definition demo_cm (r : Z) : Z :=
  if r =? SECS then 0x59 else if r =? MINS then 0x30 else if r =? HOURS then 0x12 else
  if r =? DAY then 0x15 else if r =? MONTH then 0x11 else if r =? YEAR then 0x26 else 0.
#[local] Instance demo_devices : Devices := {|
  dev_in t p := if p =? CMOS_RETURN then demo_cm (cmos_sel t) else 0;
  dev_ins _ _ n := replicate n 0;
  dev_rd t a := if rg_sel (regs_of (P2V IOAPIC) t) =? REG_VER then 0x170000
                else if rg_sel (regs_of (P2V IOAPIC) t) =? REG_ID then 0x2000000 else 0
|}.

(** The keyboard and the disk go to CPU 0. *)
Lemma ioapic_routes_witness :
  ∃ w', (ioapicinit ;; iterM (λ x, ioapicenable x.1 x.2) [(IRQ_KBD, 0); (IRQ_IDE, 0)])
      (KS ((bss 0 []) <| w_hw ::= λ h, h <| ioapicid := 2 |> |>) []) = Ok tt (KS w' []) ∧
    redir (P2V IOAPIC) (w_io w') IRQ_IDE = (46, 0) ∧ redir (P2V IOAPIC) (w_io w') IRQ_COM1 = (0x10024, 0).
Proof.
  destruct (ioapic_routes [(IRQ_KBD, 0); (IRQ_IDE, 0)] 0x170000 0x2000000
              ((bss 0 []) <| w_hw ::= λ h, h <| ioapicid := 2 |> |>) []) as (w' & Hr & Ht).
  - intros t. split; cbn -[P2V regs_of]; intros ->; reflexivity.
  - reflexivity.
  - repeat constructor; discriminate.
  - exists w'. split_and!; [exact Hr|rewrite Ht by (vm_compute; split; discriminate); reflexivity..].
Defined.

Lemma cmostime_reads_witness : ∃ w', cmostime 1 (KS (bss 0 []) []) = Ok demo_date (KS w' []).
Proof.
  apply (cmostime_reads 1 demo_cm demo_date (bss 0 []) []).
  - intros t. reflexivity.
  - split; [reflexivity|vm_compute; repeat split|]. apply (bool_decide_unpack _). vm_compute. exact I.
  - lia.
Defined.
