(* ===== verification/FsTx.v ===== *)
(** * Blocks of the file system inside a transaction

    What the file system's code sees between [begin_op] and [end_op]: the
    contents [V] of all blocks, the list [bl] of the blocks the transaction has
    logged, and the buffers [H] it holds.  [tx_bread], [tx_log] and [tx_brelse]
    are the three steps its operations are made of; [tx_update] is the usual
    sequence of them, and [balloc] and [bfree] are proved on top: they move one
    bit of the free map. *)

From S2P Require Import Prelude Kernel Bytes Spinlock Sched Sleeplock Disk Bio Bcache Log LogSpec LogCrash LogTx Inode.

(** What happens to the rest of the world: nothing but the cache's own state,
    the log's list and sleepers that wait for a buffer. *)
Record tx_step (w w' : world) : Prop := {
  ts_only : fs_only w w';
  ts_disk : w_disk w' = w_disk w;
  ts_hist : w_hist w' = w_hist w;
  ts_out : outstanding (w_log w') = outstanding (w_log w);
  ts_com : committing (w_log w') = committing (w_log w)
}.

Lemma tx_step_trans w1 w2 w3 : tx_step w1 w2 → tx_step w2 w3 → tx_step w1 w3.
Proof. intros [] []. split; [by eapply fs_only_trans|congruence..]. Qed.

Lemma tx_step_cache w w' :
  cache_only w w' → w_disk w' = w_disk w → w_hist w' = w_hist w → tx_step w w'.
Proof. intros Hc Hd Hh. split; [by apply fs_only_cache|done|done|..]; by rewrite (cache_only_log _ _ Hc). Qed.

Lemma tx_step_refl w : tx_step w w.
Proof. apply tx_step_cache; [apply cache_only_refl|done..]. Qed.

Lemma fs_only_fields w w' : fs_only w w' →
  w_inodes w' = w_inodes w ∧ w_sb w' = w_sb w ∧ w_cons w' = w_cons w ∧ w_devsw w' = w_devsw w ∧
  w_proc w' = w_proc w ∧ w_files w' = w_files w ∧ w_mem w' = w_mem w.
Proof.
  intros (l & bs & sl & dk & hi & ps & -> & _). by rsimpl.
Qed.

Lemma ts_inodes w w' : tx_step w w' → w_inodes w' = w_inodes w.
Proof. intros H. by destruct (fs_only_fields _ _ (ts_only _ _ H)). Qed.

Lemma ts_sb w w' : tx_step w w' → w_sb w' = w_sb w.
Proof. intros H. by destruct (fs_only_fields _ _ (ts_only _ _ H)) as (_ & ? & _). Qed.

Create HintDb fstx discriminated.
#[export] Hint Resolve tx_step_refl : fstx.

(** [tstep] chains the steps in the context. *)
Ltac tstep :=
  repeat match goal with
  | H : tx_step ?a ?b |- tx_step ?a ?b => exact H
  | H : tx_step ?a ?b |- tx_step ?a _ => apply (tx_step_trans a b _ H); clear H
  | |- tx_step ?a ?a => apply tx_step_refl
  end.

Section fstx.
  Context {D : DiskDriver} {L : DiskLaws D}.
  Context (ls sz : Z) (sb : superblock).

Record fstx (w : world) (V : list block) (bl : list Z) (H : gmap nat Z) : Prop := {
  ft_tx : in_tx w V ls sz bl H;
  ft_open : 1 ≤ outstanding (w_log w);
  ft_sb : w_sb w = sb;
  ft_low : 1 ∉ bl
}.

(** The log still has room for [k] blocks. *)
Definition budget (bl : list Z) (k : nat) : Prop := Z.of_nat (length bl + k) ≤ sz - 1.

Lemma budget_logged n bl k : budget bl (S k) → budget (logged n bl) k.
Proof. unfold budget. pose proof (logged_length n bl). lia. Qed.

Lemma budget_le bl k k' : budget bl k → (k' ≤ k)%nat → budget bl k'.
Proof. unfold budget. lia. Qed.

Lemma fstx_home w V bl H n :
  fstx w V bl H → home ls sz (length V) n → is_Some (V !! Z.to_nat n).
Proof. intros _ [Hn _]. apply lookup_lt_is_Some. lia. Qed.

Lemma fstx_blk w V bl H n d : fstx w V bl H → V !! n = Some d → blk d.
Proof. intros Hf. eapply fs_thread_blk, tx_thread, ft_tx, Hf. Qed.

Lemma fstx_geom w V bl H : fstx w V bl H → geometry ls sz (length V).
Proof. intros Hf. eapply tx_geom, ft_tx, Hf. Qed.

(** A block that is not held and not logged is as it is on disk. *)
Lemma thread_clean w V Dt H n :
  fs_thread w V Dt H → (∀ b, H !! b ≠ Some (Z.of_nat n)) → Z.of_nat n ∉ Dt →
  V !! n = w_disk w !! n.
Proof.
  intros [_ (pi & Hbc)] Hno Hn.
  destruct (first_buf (matches ROOTDEV (Z.of_nat n)) (w_bufs w) pi) as [b|] eqn:Hf.
  - apply first_buf_Some in Hf as [Hb (x & Hx & Hm)]. apply (bc_pi _ _ _ _ _ _ Hbc) in Hb.
    apply andb_true_iff in Hm as [Hm1%Z.eqb_eq Hm2%Z.eqb_eq].
    destruct (bc_buf _ _ _ _ _ Hbc b x Hb Hx) as [_ [(E & _)|(_ & _ & H3 & _ & H5 & H6)]];
      [by rewrite E in Hm1|].
    rewrite Hm2, Nat2Z.id in H3, H5. rewrite H3, H5; [done| |done].
    destruct (H !! b) as [m|] eqn:E; [|done]. pose proof (H6 m eq_refl). exfalso.
    apply (Hno b). rewrite E. congruence.
  - apply (bc_view _ _ _ _ _ Hbc). intros b (Hb & x & Hx & Hd & Hbn).
    apply (bc_pi _ _ _ _ _ _ Hbc) in Hb. pose proof (first_buf_None _ _ _ _ _ Hf Hb Hx) as Hm.
    unfold matches in Hm. by rewrite Hd, Hbn, !Z.eqb_refl in Hm.
Qed.

(** ** The three steps *)

Lemma fstx_cache w w' V bl H V' H' :
  fstx w V bl H → cache_only w w' → fs_thread w' V' (list_to_set bl) H' → length V' = length V →
  fstx w' V' bl H'.
Proof.
  intros [[Hf Hla Hlh Hg Hnd Hh Hfit] Ho Hsb Hlow] Hc Hf' Hl. split; [..|done].
  - split; rewrite ?Hl; try done; [by apply (cache_only_log_at w)|by apply (cache_only_lh w)].
  - by rewrite (cache_only_log _ _ Hc).
  - destruct (fs_only_fields _ _ (fs_only_cache _ _ Hc)) as (_ & -> & _). done.
Qed.

Lemma tx_bread w V bl H n d e :
  fstx w V bl H → 0 ≤ n → V !! Z.to_nat n = Some d → (∀ b, H !! b ≠ Some n) →
  (length bl + size H < NBUF)%nat →
  ∃ b w' x, bread ROOTDEV n (KS w e) = Ok b (KS w' e) ∧ fstx w' V bl (<[b := n]> H) ∧
    H !! b = None ∧ w_bufs w' !! b = Some x ∧ b_data x = d ∧ tx_step w w' ∧
    (n ∈ bl ∨ V !! Z.to_nat n = w_disk w !! Z.to_nat n).
Proof.
  intros Hf Hn HV Hno Hroom. pose proof (tx_thread _ _ _ _ _ _ (ft_tx _ _ _ _ Hf)) as Ht.
  destruct (bread_ok w V (list_to_set bl) H n d e) as
    (b & w' & x & Hr & Hf' & Hb & Hx & Hd & _ & Hc & Hk & Hi); try done.
  { right. rewrite size_list_to_set by apply (tx_nodup _ _ _ _ _ _ (ft_tx _ _ _ _ Hf)). done. }
  exists b, w', x. split_and!; try done.
  - by eapply fstx_cache.
  - by apply tx_step_cache.
  - destruct (decide (n ∈ bl)); [by left|right]. eapply thread_clean; [done|..];
      rewrite Z2Nat.id by done; [done|]. by rewrite elem_of_list_to_set.
Qed.

Lemma tx_brelse w V bl H b n e :
  fstx w V bl H → H !! b = Some n → n ∈ bl ∨ V !! Z.to_nat n = w_disk w !! Z.to_nat n →
  ∃ w', brelse b (KS w e) = Ok tt (KS w' e) ∧ fstx w' V bl (delete b H) ∧ tx_step w w'.
Proof.
  intros Hf Hb Hs. pose proof (tx_thread _ _ _ _ _ _ (ft_tx _ _ _ _ Hf)) as Ht.
  destruct (brelse_ok w V _ H b n e Ht Hb) as (w' & Hr & Hf' & Hc & Hk & Hi).
  { by rewrite elem_of_list_to_set. }
  exists w'. split_and!; [done| |by apply tx_step_cache]. by eapply fstx_cache.
Qed.

(** A change of a held block that is then logged. *)
Lemma tx_log w V bl H b n d f e :
  fstx w V bl H → H !! b = Some n → home ls sz (length V) n → n ≠ 1 → V !! Z.to_nat n = Some d →
  blk (f d) → budget bl 1 →
  ∃ w1 w', modb b (λ x, x <| b_data ::= f |>) (KS w e) = Ok tt (KS w1 e) ∧
    log_write b (KS w1 e) = Ok tt (KS w' e) ∧
    fstx w' (<[Z.to_nat n := f d]> V) (logged n bl) H ∧ tx_step w w'.
Proof.
  intros Hf Hb Hn Hn1 HV Hd Hbud. pose proof (tx_thread _ _ _ _ _ _ (ft_tx _ _ _ _ Hf)) as Ht.
  destruct (modify_fn_ok w V _ H b n d f e Ht Hb HV Hd) as (w1 & Hr1 & Hf1 & Hc1 & Hk1 & Hi1).
  assert (HV2 : length (<[Z.to_nat n := f d]> V) = length V) by apply length_insert.
  pose proof (fstx_cache _ _ _ _ _ _ _ Hf Hc1 Hf1 HV2) as Hft1.
  destruct (log_write_ok w1 (<[Z.to_nat n := f d]> V) ls sz bl H b n e)
    as (w2 & Hr2 & Htx2 & Ho2 & Hk2 & Hi2 & Hout2 & Hcm2); rewrite ?HV2; try done.
  { apply Hft1. }
  { unfold budget in Hbud. lia. }
  { apply Hft1. }
  exists w1, w2. split_and!; [done|done| |].
  - split; [done|rewrite Hout2; apply Hft1|..].
    + destruct (fs_only_fields _ _ Ho2) as (_ & -> & _). apply Hft1.
    + pose proof (ft_low _ _ _ _ Hf). unfold logged. case_decide; set_solver.
  - eapply tx_step_trans; [by apply tx_step_cache|]. by split.
Qed.

(** The same change made in two steps. *)
Lemma modb_modb b f g w e :
  (modb b f ;; modb b g) (KS w e) = modb b (λ x, g (f x)) (KS w e).
Proof. unfold modb. rewrite bind_modw, !modw_eq. weq. by rewrite alter_alter. Qed.

(** Read a block, change it, log it, release it: the block [n] has become
    [f d].  The buffer's contents can be looked at before. *)
Lemma tx_update w V bl H n d f e :
  fstx w V bl H → home ls sz (length V) n → n ≠ 1 → V !! Z.to_nat n = Some d → blk (f d) →
  (∀ b, H !! b ≠ Some n) → (length bl + size H < NBUF)%nat → budget bl 1 →
  ∃ b w1 w2 x, bread ROOTDEV n (KS w e) = Ok b (KS w1 e) ∧
    w_bufs w1 !! b = Some x ∧ b_data x = d ∧ tx_step w w1 ∧
    (modb b (λ x, x <| b_data ::= f |>) ;; log_write b ;; brelse b) (KS w1 e) = Ok tt (KS w2 e) ∧
    fstx w2 (<[Z.to_nat n := f d]> V) (logged n bl) H ∧ tx_step w1 w2.
Proof.
  intros Hf Hn Hn1 HV Hd Hno Hroom Hbud.
  destruct (tx_bread w V bl H n d e Hf) as (b & w1 & x & Hr1 & Hf1 & Hb & Hx & Hxd & Hs1 & _); try done.
  { apply Hn. }
  destruct (tx_log w1 V bl (<[b := n]> H) b n d f e Hf1) as (w1' & w2 & Hr1' & Hr2 & Hf2 & Hs2); try done.
  { apply lookup_insert_eq. }
  destruct (tx_brelse w2 _ _ _ b n e Hf2) as (w3 & Hr3 & Hf3 & Hs3).
  { apply lookup_insert_eq. }
  { left. unfold logged. case_decide; set_solver. }
  rewrite delete_insert_id in Hf3 by done.
  exists b, w1, w3, x. split_and!; try done; [|by tstep].
  kcall Hr1'. kcall Hr2. exact Hr3.
Qed.

(** Look at a block. *)
Lemma tx_look w V bl H n d e :
  fstx w V bl H → 0 ≤ n → V !! Z.to_nat n = Some d → (∀ b, H !! b ≠ Some n) →
  (length bl + size H < NBUF)%nat →
  ∃ b w1 x w2, bread ROOTDEV n (KS w e) = Ok b (KS w1 e) ∧
    w_bufs w1 !! b = Some x ∧ b_data x = d ∧ tx_step w w1 ∧
    brelse b (KS w1 e) = Ok tt (KS w2 e) ∧ fstx w2 V bl H ∧ tx_step w1 w2.
Proof.
  intros Hf Hn HV Hno Hroom.
  destruct (tx_bread w V bl H n d e Hf) as (b & w1 & x & Hr1 & Hf1 & Hb & Hx & Hxd & Hs1 & Hcl); try done.
  destruct (tx_brelse w1 V bl _ b n e Hf1) as (w2 & Hr2 & Hf2 & Hs2).
  { apply lookup_insert_eq. }
  { by rewrite (ts_disk _ _ Hs1). }
  rewrite delete_insert_id in Hf2 by done. by exists b, w1, x, w2.
Qed.
End fstx.

(** ** The free map *)

(** The bit [bi] of a block, as a boolean. *)
Definition bitb (d : block) (bi : Z) : bool :=
  Z.testbit (default 0 (d !! Z.to_nat (bi / 8))) (bi mod 8).

Lemma bit_testbit d bi : 0 ≤ bi → (bit d bi =? 0) = negb (bitb d bi).
Proof.
  intros Hb. unfold bit, bitb. set (x := default 0 _). pose proof (Z.mod_pos_bound bi 8).
  destruct (Z.testbit x (bi mod 8)) eqn:E; cbn [negb].
  - apply Z.eqb_neq. intros H0. assert (Ht : Z.testbit (Z.land x (Z.shiftl 1 (bi mod 8))) (bi mod 8) = false).
    { by rewrite H0, Z.bits_0. }
    rewrite Z.land_spec, E, Z.shiftl_spec, Z.sub_diag in Ht by lia. done.
  - apply Z.eqb_eq. apply Z.bits_inj'. intros i Hi. rewrite Z.land_spec, Z.bits_0, Z.shiftl_spec by lia.
    destruct (decide (i = bi mod 8)) as [->|Hne]; [by rewrite E|].
    destruct (decide (i < bi mod 8)).
    + rewrite (Z.testbit_neg_r 1) by lia. apply andb_false_r.
    + rewrite Z.bits_above_log2 with (a := 1) by (cbn; lia). apply andb_false_r.
Qed.

Lemma byte_testbit x i : is_byte x → 8 ≤ i → Z.testbit x i = false.
Proof.
  intros Hx Hi. destruct (decide (x = 0)) as [->|]; [by rewrite Z.bits_0|].
  apply Z.bits_above_log2; [unfold is_byte in Hx; lia|].
  apply Z.log2_lt_pow2; [unfold is_byte in Hx; lia|].
  unfold is_byte in Hx. apply Z.lt_le_trans with (2 ^ 8); [lia|]. apply Z.pow_le_mono_r; lia.
Qed.

Lemma is_byte_bits x : 0 ≤ x → (∀ i, 8 ≤ i → Z.testbit x i = false) → is_byte x.
Proof.
  intros Hx Hb. unfold is_byte. split; [done|]. change 256 with (2 ^ 8).
  destruct (Z.lt_ge_cases x (2 ^ 8)); [done|]. exfalso.
  assert (8 ≤ Z.log2 x) by (apply Z.log2_le_pow2; lia).
  assert (Ht : Z.testbit x (Z.log2 x) = true) by (apply Z.bit_log2; lia).
  rewrite Hb in Ht; [done|lia].
Qed.

Lemma shiftl1_bit k i : 0 ≤ k → 0 ≤ i → Z.testbit (Z.shiftl 1 k) i = bool_decide (i = k).
Proof.
  intros Hk Hi. rewrite Z.shiftl_spec by done. destruct (decide (i = k)) as [->|Hne].
  - rewrite Z.sub_diag, bool_decide_true by done. done.
  - rewrite bool_decide_false by done. destruct (decide (i < k)).
    + apply Z.testbit_neg_r. lia.
    + apply Z.bits_above_log2; cbn; lia.
Qed.

(** An update of one bit by [f] on its byte. *)
Lemma alter_bit (f : Z → Z) (g : bool → bool) d bi bj :
  blk d → 0 ≤ bi < BPB → 0 ≤ bj < BPB →
  (∀ x i, 0 ≤ i → Z.testbit (f x) i = if decide (i = bi mod 8) then g (Z.testbit x i) else Z.testbit x i) →
  bitb (alter f (Z.to_nat (bi / 8)) d) bj = if decide (bj = bi) then g (bitb d bj) else bitb d bj.
Proof.
  intros [Hl _] Hi Hj Hf. unfold bitb. unfold BPB, BSIZE in *.
  pose proof (Z.div_mod bi 8). pose proof (Z.div_mod bj 8).
  pose proof (Z.mod_pos_bound bi 8). pose proof (Z.mod_pos_bound bj 8).
  destruct (lookup_lt_is_Some_2 d (Z.to_nat (bi / 8))) as [x Hx]; [lia|].
  destruct (decide (bi / 8 = bj / 8)) as [E|E].
  - rewrite <- E, list_lookup_alter_eq, Hx. cbn [fmap option_fmap option_map from_option id].
    rewrite Hf by lia. destruct (decide (bj mod 8 = bi mod 8)); destruct (decide (bj = bi)); done || lia.
  - rewrite list_lookup_alter_ne by lia. rewrite decide_False; [done|]. intros ->. done.
Qed.

Lemma alter_blk (f : Z → Z) k d : blk d → (∀ x, is_byte x → is_byte (f x)) → blk (alter f k d).
Proof.
  intros [Hl Hb] Hf. split; [by rewrite length_alter|].
  rewrite Forall_lookup in *. intros i y Hy. destruct (decide (i = k)) as [->|].
  - rewrite list_lookup_alter_eq in Hy. destruct (d !! k) as [x|] eqn:E; [|done].
    injection Hy as <-. apply Hf. eauto.
  - rewrite list_lookup_alter_ne in Hy by done. eauto.
Qed.

Lemma set_bit_spec d bi bj : blk d → 0 ≤ bi < BPB → 0 ≤ bj < BPB →
  bitb (set_bit d bi) bj = bool_decide (bj = bi) || bitb d bj.
Proof.
  intros Hd Hi Hj. unfold set_bit. pose proof (Z.mod_pos_bound bi 8).
  rewrite (alter_bit _ (λ _, true)); try done.
  - by case_decide; case_bool_decide.
  - intros x i Hi0. rewrite Z.lor_spec, shiftl1_bit by lia.
    case_decide; case_bool_decide; try done; [apply orb_true_r|apply orb_false_r].
Qed.

Lemma clear_bit_spec d bi bj : blk d → 0 ≤ bi < BPB → 0 ≤ bj < BPB →
  bitb (clear_bit d bi) bj = negb (bool_decide (bj = bi)) && bitb d bj.
Proof.
  intros Hd Hi Hj. unfold clear_bit. pose proof (Z.mod_pos_bound bi 8).
  rewrite (alter_bit _ (λ _, false)); try done.
  - by case_decide; case_bool_decide.
  - intros x i Hi0. rewrite Z.ldiff_spec, shiftl1_bit by lia.
    case_decide; case_bool_decide; try done; [apply andb_false_r|apply andb_true_r].
Qed.

Lemma set_bit_blk d bi : blk d → 0 ≤ bi → blk (set_bit d bi).
Proof.
  intros Hd Hi. apply alter_blk; [done|]. intros x Hx. pose proof (Z.mod_pos_bound bi 8).
  apply is_byte_bits.
  - apply Z.lor_nonneg. unfold is_byte in Hx. split; [lia|]. apply Z.shiftl_nonneg. lia.
  - intros i Hi8. rewrite Z.lor_spec, shiftl1_bit, byte_testbit by (done || lia).
    rewrite bool_decide_false by lia. done.
Qed.

Lemma clear_bit_blk d bi : blk d → 0 ≤ bi → blk (clear_bit d bi).
Proof.
  intros Hd Hi. apply alter_blk; [done|]. intros x Hx. pose proof (Z.mod_pos_bound bi 8).
  apply is_byte_bits.
  - apply Z.ldiff_nonneg. unfold is_byte in Hx. lia.
  - intros i Hi8. rewrite Z.ldiff_spec, byte_testbit by (done || lia). done.
Qed.

(** The inner loop of [balloc] finds the first clear bit. *)
Lemma free_bit_spec d b size n bi :
  0 ≤ b → 0 ≤ bi → size < 2 ^ 31 → b + bi + Z.of_nat n < 2 ^ 32 →
  match free_bit d b size bi n with
  | Some r => bi ≤ r < bi + Z.of_nat n ∧ b + r < size ∧ bitb d r = false ∧
              ∀ j, bi ≤ j < r → bitb d j = true
  | None => ∀ j, bi ≤ j < bi + Z.of_nat n → b + j < size → bitb d j = true
  end.
Proof.
  intros Hb. revert bi. induction n as [|n IH]; intros bi Hi Hs Hw; cbn [free_bit]; [lia|].
  rewrite u32_small by lia. destruct (Z.ltb_spec (b + bi) size) as [H1|H1]; [|lia].
  rewrite bit_testbit by done. destruct (bitb d bi) eqn:E; cbn [negb].
  - specialize (IH (bi + 1)). destruct (free_bit d b size (bi + 1) n) as [r|].
    + destruct IH as (I1 & I2 & I3 & I4); [lia..|]. split_and!; try lia; [done|].
      intros j Hj. destruct (decide (j = bi)) as [->|]; [done|]. apply I4. lia.
    + intros j Hj Hjs. destruct (decide (j = bi)) as [->|]; [done|]. apply IH; lia.
  - split_and!; try lia; done.
Qed.

(** ** The layout of the disk *)

Lemma filter_seqZ_first (P : Z → Prop) `{∀ x, Decision (P x)} a n b fs c :
  filter P (seqZ a n) = b :: fs → a ≤ c < b → ¬ P c.
Proof.
  destruct (Z.le_gt_cases n 0) as [Hn|Hn]; [by rewrite seqZ_nil by lia|].
  rewrite <- (Z2Nat.id n) by lia. generalize (Z.to_nat n) as k. clear n Hn.
  intros k; revert a. induction k as [|k IH]; intros a E Hc; [done|].
  rewrite seqZ_cons, filter_cons in E by lia. case_decide as Hp; [injection E as -> _; lia|].
  destruct (decide (c = a)) as [->|]; [done|]. apply (IH (a + 1)); [|lia].
  rewrite <- E. f_equal. unfold Z.succ. f_equal; lia.
Qed.

Section layout.
  Context {D : DiskDriver} {L : DiskLaws D}.
  Context (ls sz : Z) (sb : superblock).

(** The first block behind the free map. *)
Definition data_start : Z := sb_bmapstart sb + (sb_size sb - 1) / BPB + 1.

(** Boot block, super block, log, inodes, free map and data follow each other,
    as mkfs lays them out. *)
Record layout (size : nat) : Prop := {
  lay_log : ls + sz ≤ sb_inodestart sb;
  lay_inodes : 0 < sb_ninodes sb ∧ sb_inodestart sb + (sb_ninodes sb - 1) / IPB < sb_bmapstart sb;
  lay_bmap : data_start ≤ sb_size sb;
  lay_size : sb_size sb ≤ Z.of_nat size
}.

(** Block [b] is marked in the free map. *)
Definition used (V : list block) (b : Z) : bool :=
  match V !! Z.to_nat (BBLOCK b sb) with
  | Some d => bitb d (b mod BPB)
  | None => false
  end.

Definition free_blocks (V : list block) : list Z := filter (λ b, used V b = false) (seqZ 0 (sb_size sb)).

(** The blocks before the data area are marked; the super block is [sb]. *)
Record meta_ok (V : list block) : Prop := {
  me_used b : 0 ≤ b < data_start → used V b = true;
  me_sb : ∃ d, V !! 1%nat = Some d ∧ sb_of d = sb
}.

(** The buffers held are of data blocks in use. *)
Definition held_used (V : list block) (H : gmap nat Z) : Prop :=
  ∀ h n, H !! h = Some n → data_start ≤ n ∧ used V n = true.

Definition alloc (V : list block) (b : Z) : list block :=
  <[Z.to_nat b := zero_block]> (alter (λ d, set_bit d (b mod BPB)) (Z.to_nat (BBLOCK b sb)) V).

Definition dealloc (V : list block) (b : Z) : list block :=
  alter (λ d, clear_bit d (b mod BPB)) (Z.to_nat (BBLOCK b sb)) V.

Context (size : nat) (Hg : geometry ls sz size) (Hlay : layout size).

Lemma sb_small : 0 < sb_size sb < 2 ^ 31 ∧ 1 < sb_bmapstart sb.
Proof using Hg Hlay.
  destruct Hg, Hlay as [? [H1 H2] ? ?]. unfold data_start in *. unfold IPB, BPB, BSIZE in *.
  assert (0 ≤ (sb_ninodes sb - 1) / (512 / 64)) by (apply Z.div_pos; [lia|done]).
  destruct (decide (sb_size sb ≤ 0)); [|lia].
  assert (sb_size sb - 1 < (sb_size sb - 1) / (512 * 8) + 1).
  { pose proof (Z.div_mod (sb_size sb - 1) (512 * 8)). pose proof (Z.mod_pos_bound (sb_size sb - 1) (512 * 8)).
    lia. }
  lia.
Qed.

(** The block of the free map that has the bit of block [b]. *)
Lemma BBLOCK_eq b : 0 ≤ b < sb_size sb →
  BBLOCK b sb = sb_bmapstart sb + b / BPB ∧ sb_bmapstart sb ≤ BBLOCK b sb < data_start ∧
  home ls sz size (BBLOCK b sb).
Proof using Hg Hlay.
  intros Hb. destruct sb_small as [Hs1 Hs2]. destruct Hg, Hlay as [H0 [H1 H2] H3 H4].
  assert (Hq : 0 ≤ b / BPB ≤ (sb_size sb - 1) / BPB).
  { split; [apply Z.div_pos; [lia|done]|]. apply Z.div_le_mono; [done|lia]. }
  assert (0 ≤ (sb_ninodes sb - 1) / IPB) by (apply Z.div_pos; [lia|done]).
  unfold data_start in *. unfold BBLOCK. rewrite u32_small by lia. unfold home. split_and!; lia.
Qed.

Lemma data_home b : data_start ≤ b < sb_size sb → home ls sz size b.
Proof using Hg Hlay.
  intros Hb. destruct sb_small as [Hs1 Hs2]. destruct Hg, Hlay as [H0 [H1 H2] H3 H4].
  assert (0 ≤ (sb_ninodes sb - 1) / IPB) by (apply Z.div_pos; [lia|done]).
  assert (0 ≤ (sb_size sb - 1) / BPB) by (apply Z.div_pos; [lia|done]).
  unfold data_start in *. unfold home. lia.
Qed.

Lemma BBLOCK_inj b c : 0 ≤ b < sb_size sb → 0 ≤ c < sb_size sb →
  BBLOCK b sb = BBLOCK c sb → b mod BPB = c mod BPB → b = c.
Proof using Hg Hlay.
  intros Hb Hc. destruct (BBLOCK_eq b Hb) as [-> _]. destruct (BBLOCK_eq c Hc) as [-> _]. intros E1 E2.
  rewrite (Z.div_mod b BPB), (Z.div_mod c BPB) by done. lia.
Qed.

Lemma mod_BPB b : 0 ≤ b mod BPB < BPB.
Proof. by apply Z.mod_pos_bound. Qed.

(** The effect of a change of one bit on the whole map. *)
Lemma used_alter (f : block → block) (g : bool → bool) V b c d :
  length V = size → 0 ≤ b < sb_size sb → 0 ≤ c < sb_size sb →
  V !! Z.to_nat (BBLOCK b sb) = Some d →
  (∀ bj, 0 ≤ bj < BPB → bitb (f d) bj = if decide (bj = b mod BPB) then g (bitb d bj) else bitb d bj) →
  used (alter f (Z.to_nat (BBLOCK b sb)) V) c = if decide (c = b) then g (used V c) else used V c.
Proof using Hg Hlay.
  intros Hl Hb Hc Hd Hf. unfold used. destruct (decide (BBLOCK b sb = BBLOCK c sb)) as [E|E].
  - rewrite <- E, list_lookup_alter_eq, Hd. cbn [fmap option_fmap option_map].
    rewrite Hf by apply mod_BPB. destruct (decide (c = b)) as [->|Hne]; [by rewrite decide_True|].
    rewrite decide_False; [done|]. intros E2. apply Hne. symmetry. by apply BBLOCK_inj.
  - rewrite list_lookup_alter_ne; [rewrite decide_False; [done|by intros ->]|].
    intros E2. apply E. destruct (BBLOCK_eq b Hb) as (_ & H1 & _). destruct (BBLOCK_eq c Hc) as (_ & H2 & _).
    destruct sb_small. lia.
Qed.

Lemma map_block (V : list block) b : length V = size → 0 ≤ b < sb_size sb → is_Some (V !! Z.to_nat (BBLOCK b sb)).
Proof using Hg Hlay.
  intros Hl Hb. apply lookup_lt_is_Some_2. rewrite Hl. destruct (BBLOCK_eq b Hb) as (_ & _ & Hh & _). lia.
Qed.

(** A write to a data block leaves the map alone. *)
Lemma used_insert V b d c : data_start ≤ b → 0 ≤ c < sb_size sb → used (<[Z.to_nat b := d]> V) c = used V c.
Proof using Hg Hlay.
  intros Hb Hc. unfold used. destruct (BBLOCK_eq c Hc) as (_ & Hm & _). destruct sb_small.
  by rewrite list_lookup_insert_ne by lia.
Qed.

Lemma used_alloc V b c : length V = size → Forall blk V → data_start ≤ b < sb_size sb → 0 ≤ c < sb_size sb →
  used (alloc V b) c = bool_decide (c = b) || used V c.
Proof using Hg Hlay.
  intros Hl HV Hb Hc. assert (Hb0 : 0 ≤ b < sb_size sb).
  { destruct (BBLOCK_eq c Hc) as (_ & Hm & _). destruct sb_small. lia. }
  unfold alloc. rewrite used_insert by (done || lia). destruct (map_block V b Hl Hb0) as [d Hd].
  rewrite Forall_lookup in HV. rewrite (used_alter _ (λ _, true) V b c d); try done.
  - by case_decide; case_bool_decide.
  - intros bj Hj. rewrite set_bit_spec; [|by eapply HV|apply mod_BPB|done].
    by case_decide; case_bool_decide.
Qed.

Lemma used_dealloc V b c : length V = size → Forall blk V → 0 ≤ b < sb_size sb → 0 ≤ c < sb_size sb →
  used (dealloc V b) c = negb (bool_decide (c = b)) && used V c.
Proof using Hg Hlay.
  intros Hl HV Hb Hc. unfold dealloc. destruct (map_block V b Hl Hb) as [d Hd].
  rewrite Forall_lookup in HV. rewrite (used_alter _ (λ _, false) V b c d); try done.
  - by case_decide; case_bool_decide.
  - intros bj Hj. rewrite clear_bit_spec; [|by eapply HV|apply mod_BPB|done].
    by case_decide; case_bool_decide.
Qed.

Lemma free_blocks_spec V b : b ∈ free_blocks V ↔ 0 ≤ b < sb_size sb ∧ used V b = false.
Proof. unfold free_blocks. rewrite list_elem_of_filter, elem_of_seqZ. naive_solver lia. Qed.

(** The first of the free blocks has nothing free below it. *)
Lemma free_blocks_first V b fs c : free_blocks V = b :: fs → 0 ≤ c < b → used V c = true.
Proof.
  intros E Hc. unfold free_blocks in E. apply not_false_is_true. intros Hu.
  exact (filter_seqZ_first _ _ _ _ _ c E ltac:(lia) Hu).
Qed.
End layout.

(** ** [balloc] and [bfree] *)

Section balloc.
  Context {D : DiskDriver} {L : DiskLaws D}.
  Context (ls sz : Z) (sb : superblock).
  Abbreviation fstx := (fstx ls sz sb).
  Abbreviation used := (used sb).
  Abbreviation alloc := (alloc sb).
  Abbreviation dealloc := (dealloc sb).
  Abbreviation free_blocks := (free_blocks sb).
  Abbreviation budget := (budget sz).
  Abbreviation data_start := (data_start sb).

Lemma fstx_blks w V bl H : fstx w V bl H → Forall blk V.
Proof. intros Hf. apply Forall_lookup. intros n d. eapply fstx_blk, Hf. Qed.

Lemma budget_room w V bl H k : fstx w V bl H → budget bl k → (size H ≤ k)%nat → (length bl + size H < NBUF)%nat.
Proof.
  intros Hf Hb Hs. destruct (fstx_geom _ _ _ _ _ _ _ Hf) as [_ Hsz _ _].
  unfold FsTx.budget in Hb. unfold NBUF, LOGSIZE in *. lia.
Qed.

Lemma bzero_ok w V bl H n e :
  fstx w V bl H → home ls sz (length V) n → n ≠ 1 → (∀ b, H !! b ≠ Some n) → budget bl 1 → (size H ≤ 1)%nat →
  ∃ w', bzero ROOTDEV n (KS w e) = Ok tt (KS w' e) ∧
    fstx w' (<[Z.to_nat n := zero_block]> V) (logged n bl) H ∧ tx_step w w'.
Proof.
  intros Hf Hn Hn1 Hno Hbud Hs. destruct (fstx_home _ _ _ _ _ _ _ _ Hf Hn) as [d Hd].
  destruct (tx_update ls sz sb w V bl H n d (λ _, zero_block) e Hf)
    as (b & w1 & w2 & x & Hr1 & _ & _ & Hs1 & Hr2 & Hf2 & Hs2); try done.
  { apply blk_zero. }
  { by eapply budget_room. }
  exists w2. split_and!; [|done|by tstep]. unfold bzero.
  destruct (fstx_geom _ _ _ _ _ _ _ Hf). destruct Hn as [Hn _].
  rewrite (u32_small n) by lia. change (u32 ROOTDEV) with ROOTDEV. kcall Hr1. exact Hr2.
Qed.

Lemma alloc_first V b fs c :
  free_blocks V = b :: fs → 0 ≤ c < sb_size sb → used V c = false → b ≤ c.
Proof.
  intros E Hc Hu. destruct (Z.le_gt_cases b c); [done|].
  rewrite (free_blocks_first sb V b fs c E) in Hu by lia. done.
Qed.

(** What [balloc] does with a free block [b] it has found: bit [b mod BPB] of
    the map block [bp] is set, and the block is zeroed. *)
Lemma balloc_take w V bl H bp b d e :
  fstx w V bl (<[bp := BBLOCK b sb]> H) → layout ls sz sb (length V) → meta_ok sb V →
  data_start ≤ b < sb_size sb → used V b = false → held_used sb V H → H !! bp = None →
  V !! Z.to_nat (BBLOCK b sb) = Some d → budget bl 2 → (size H ≤ 1)%nat →
  ∃ w', (modb bp (λ x, x <| b_data ::= λ d, set_bit d (b mod BPB) |>) ;;
         log_write bp ;; brelse bp ;; bzero ROOTDEV b ;; mret (u32 b)) (KS w e) = Ok b (KS w' e) ∧
    fstx w' (alloc V b) (logged b (logged (BBLOCK b sb) bl)) H ∧ tx_step w w'.
Proof.
  intros Hf Hlay Hme Hb Hub Hh Hbp Hd Hbud Hs.
  pose proof (fstx_geom _ _ _ _ _ _ _ Hf) as Hg.
  destruct (sb_small ls sz sb (length V) Hg Hlay) as [Hsb Hsm].
  assert (Hb0 : 0 ≤ b < sb_size sb).
  { unfold FsTx.data_start in Hb. assert (0 ≤ (sb_size sb - 1) / BPB) by (apply Z.div_pos; [lia|done]). lia. }
  destruct (BBLOCK_eq ls sz sb (length V) Hg Hlay b Hb0) as (_ & Hm & Hmh).
  destruct (tx_log ls sz sb w V bl (<[bp := BBLOCK b sb]> H) bp (BBLOCK b sb) d (λ d, set_bit d (b mod BPB)) e Hf)
    as (w0 & w1 & Hr0 & Hr1 & Hf1 & Hs1); try done.
  { apply lookup_insert_eq. }
  { lia. }
  { apply set_bit_blk; [by eapply fstx_blk|]. apply mod_BPB. }
  { by eapply budget_le; [|apply Nat.le_succ_diag_r]. }
  destruct (tx_brelse ls sz sb w1 _ _ _ bp (BBLOCK b sb) e Hf1) as (w2 & Hr2 & Hf2 & Hs2).
  { apply lookup_insert_eq. }
  { left. unfold logged. case_decide; set_solver. }
  rewrite delete_insert_id in Hf2 by done.
  destruct (bzero_ok w2 _ _ _ b e Hf2) as (w3 & Hr3 & Hf3 & Hs3).
  { rewrite length_insert. by eapply data_home. }
  { unfold FsTx.data_start in Hb. assert (0 ≤ (sb_size sb - 1) / BPB) by (apply Z.div_pos; [lia|done]). lia. }
  { intros h Hhb. destruct (Hh h b Hhb) as [_ Hu]. congruence. }
  { by apply budget_logged. }
  { done. }
  exists w3. split_and!.
  - kcall Hr0. kcall Hr1. kcall Hr2. kcall Hr3. unfold mret, M_ret. rewrite u32_small by lia. done.
  - unfold FsTx.alloc. erewrite alter_is_insert by done. done.
  - by tstep.
Qed.

(** The blocks of one bitmap block. *)
Lemma BBLOCK_in nb k j :
  geometry ls sz nb → layout ls sz sb nb → 0 ≤ j < BPB → Z.of_nat k * BPB + j < sb_size sb →
  BBLOCK (Z.of_nat k * BPB + j) sb = BBLOCK (Z.of_nat k * BPB) sb ∧ (Z.of_nat k * BPB + j) mod BPB = j.
Proof.
  intros Hg Hlay Hj Hjs. assert (Hb0 : 0 ≤ Z.of_nat k * BPB) by (unfold BPB, BSIZE; lia).
  destruct (BBLOCK_eq ls sz sb nb Hg Hlay (Z.of_nat k * BPB + j)) as (-> & _); [lia|].
  destruct (BBLOCK_eq ls sz sb nb Hg Hlay (Z.of_nat k * BPB)) as (-> & _); [lia|].
  rewrite Z.add_comm with (n := _ * _), Z.div_add, Z.div_mul, (Z.div_small j), Z.mod_add by done.
  split; [lia|]. by apply Z.mod_small.
Qed.

Lemma balloc_from_ok w V bl H b fs k fuel e :
  fstx w V bl H → layout ls sz sb (length V) → meta_ok sb V → free_blocks V = b :: fs →
  held_used sb V H → budget bl 2 → (size H ≤ 1)%nat →
  Z.of_nat k * BPB ≤ b → (Z.to_nat (b / BPB) - k < fuel)%nat →
  ∃ w', balloc_from fuel ROOTDEV (Z.of_nat k * BPB) (KS w e) = Ok b (KS w' e) ∧
    fstx w' (alloc V b) (logged b (logged (BBLOCK b sb) bl)) H ∧ tx_step w w'.
Proof.
  intros Hf Hlay Hme Hfree Hh Hbud Hs. pose proof (fstx_geom _ _ _ _ _ _ _ Hf) as Hg.
  destruct (sb_small ls sz sb (length V) Hg Hlay) as [Hsb Hsm].
  assert (Hb : b ∈ free_blocks V) by (rewrite Hfree; left).
  apply free_blocks_spec in Hb as [Hb0 Hbf].
  assert (Hbd : data_start ≤ b).
  { destruct (Z.le_gt_cases data_start b); [done|]. rewrite (me_used _ _ Hme) in Hbf by lia. done. }
  revert w k Hf. induction fuel as [|fuel IH]; intros w k Hf Hk Hfuel; [lia|].
  cbn [balloc_from]. kstep. rewrite (ft_sb _ _ _ _ _ _ _ Hf). set (b0 := Z.of_nat k * BPB) in *.
  assert (Hb00 : 0 ≤ b0) by (unfold b0, BPB, BSIZE; lia).
  rewrite (proj2 (Z.ltb_lt b0 (sb_size sb))) by lia.
  assert (Hb0r : 0 ≤ b0 < sb_size sb) by lia.
  destruct (BBLOCK_eq ls sz sb (length V) Hg Hlay b0 Hb0r) as (Hm0 & Hm & Hmh).
  destruct (map_block ls sz sb (length V) Hg Hlay V b0 eq_refl Hb0r) as [d Hd].
  assert (Hnb : ∀ h, H !! h ≠ Some (BBLOCK b0 sb)) by (intros h Hhb; destruct (Hh h _ Hhb); lia).
  assert (Hroom : (length bl + size H < NBUF)%nat) by (eapply budget_room; [exact Hf|exact Hbud|lia]).
  destruct (tx_bread ls sz sb w V bl H (BBLOCK b0 sb) d e Hf) as (bp & w1 & x & Hr1 & Hf1 & Hbp & Hx & Hxd & Hs1 & Hcl);
    [lia|done..|].
  kcall Hr1. erewrite bind_ok; [|by apply getb_eq]. kstep. rewrite (ft_sb _ _ _ _ _ _ _ Hf1), Hxd.
  pose proof (free_bit_spec d b0 (sb_size sb) (Z.to_nat BPB) 0 Hb00 ltac:(lia) ltac:(lia)) as Hfb.
  assert (Hin : ∀ j, 0 ≤ j < BPB → b0 + j < sb_size sb → used V (b0 + j) = bitb d j).
  { intros j Hj Hjs. destruct (BBLOCK_in (length V) k j Hg Hlay Hj Hjs) as [E1 E2]. fold b0 in E1, E2.
    unfold FsTx.used. by rewrite E1, E2, Hd. }
  assert (HBPB : Z.of_nat (Z.to_nat BPB) = BPB) by done.
  destruct (free_bit d b0 (sb_size sb) 0 (Z.to_nat BPB)) as [r|] eqn:Efb.
  - destruct Hfb as (Hr & Hrs & Hrf & _); [unfold BPB, BSIZE in *; lia|]. rewrite HBPB in Hr.
    assert (Hbr : b = b0 + r).
    { pose proof (alloc_first V b fs (b0 + r) Hfree ltac:(lia) ltac:(rewrite Hin; [done|lia..])).
      destruct (Z.eq_dec b (b0 + r)); [done|]. exfalso.
      pose proof (free_bit_spec d b0 (sb_size sb) (Z.to_nat BPB) 0 Hb00 ltac:(lia) ltac:(lia)) as Hfb'.
      rewrite Efb in Hfb'. destruct Hfb' as (_ & _ & _ & Hall); [unfold BPB, BSIZE in *; lia|].
      pose proof (Hin (b - b0) ltac:(lia) ltac:(lia)) as Hi. replace (b0 + (b - b0)) with b in Hi by lia.
      rewrite Hall in Hi by lia. congruence. }
    destruct (BBLOCK_in (length V) k r Hg Hlay) as [Hbb Hmr]; [lia..|]. fold b0 in Hbb, Hmr. rewrite <- Hbr in Hbb, Hmr.
    rewrite <- Hbr, <- Hmr. rewrite <- Hbb in Hf1, Hd.
    destruct (balloc_take w1 V bl H bp b d e) as (w2 & Hr2 & Hf2 & Hs2); try done; [lia|].
    exists w2. split_and!; [exact Hr2|done|by tstep].
  - destruct (tx_brelse ls sz sb w1 V bl _ bp (BBLOCK b0 sb) e Hf1) as (w2 & Hr2 & Hf2 & Hs2).
    { apply lookup_insert_eq. }
    { by rewrite (ts_disk _ _ Hs1). }
    rewrite delete_insert_id in Hf2 by done. kcall Hr2.
    assert (Hge : Z.of_nat (S k) * BPB ≤ b).
    { destruct (Z.le_gt_cases (Z.of_nat (S k) * BPB) b) as [|Hlt]; [done|]. exfalso.
      specialize (Hin (b - b0)). replace (b0 + (b - b0)) with b in Hin by lia.
      rewrite Hfb in Hin by (rewrite ?HBPB; unfold b0, BPB, BSIZE in *; lia).
      rewrite Hin in Hbf by (unfold b0, BPB, BSIZE in *; lia). done. }
    destruct (IH w2 (S k) Hf2 Hge) as (w3 & Hr3 & Hf3 & Hs3).
    { assert (Z.of_nat (S k) ≤ b / BPB) by (apply Z.div_le_lower_bound; [done|lia]). lia. }
    replace (b0 + BPB) with (Z.of_nat (S k) * BPB) by (unfold b0; lia).
    exists w3. split_and!; [exact Hr3|done|by tstep].
Qed.

(** [balloc] returns the first free block, zeroed and marked. *)
Lemma balloc_ok w V bl H b fs e :
  fstx w V bl H → layout ls sz sb (length V) → meta_ok sb V → free_blocks V = b :: fs →
  held_used sb V H → budget bl 2 → (size H ≤ 1)%nat →
  ∃ w', balloc ROOTDEV (KS w e) = Ok b (KS w' e) ∧
    fstx w' (alloc V b) (logged b (logged (BBLOCK b sb) bl)) H ∧ tx_step w w'.
Proof.
  intros Hf Hlay Hme Hfree Hh Hbud Hs. unfold balloc. kstep. rewrite (ft_sb _ _ _ _ _ _ _ Hf).
  assert (Hb : b ∈ free_blocks V) by (rewrite Hfree; left). apply free_blocks_spec in Hb as [Hb0 _].
  apply (balloc_from_ok w V bl H b fs 0 (S (Z.to_nat (sb_size sb / BPB))) e); try done; [cbn; lia|].
  assert (b / BPB ≤ sb_size sb / BPB) by (apply Z.div_le_mono; [done|lia]). lia.
Qed.

(** Freeing a block that is in use clears its bit. *)
Lemma bfree_ok w V bl H b e :
  fstx w V bl H → layout ls sz sb (length V) → meta_ok sb V →
  data_start ≤ b < sb_size sb → used V b = true →
  held_used sb V H → budget bl 1 → (size H ≤ 1)%nat →
  ∃ w', bfree ROOTDEV b (KS w e) = Ok tt (KS w' e) ∧
    fstx w' (dealloc V b) (logged (BBLOCK b sb) bl) H ∧ tx_step w w'.
Proof.
  intros Hf Hlay Hme Hb Hub Hh Hbud Hs. pose proof (fstx_geom _ _ _ _ _ _ _ Hf) as Hg.
  destruct (sb_small ls sz sb (length V) Hg Hlay) as [Hsb Hsm].
  assert (Hds : 1 < data_start).
  { unfold FsTx.data_start. assert (0 ≤ (sb_size sb - 1) / BPB) by (apply Z.div_pos; [lia|done]). lia. }
  assert (Hb0 : 0 ≤ b < sb_size sb) by lia.
  destruct (BBLOCK_eq ls sz sb (length V) Hg Hlay b Hb0) as (_ & Hm & Hmh).
  destruct (map_block ls sz sb (length V) Hg Hlay V b eq_refl Hb0) as [d Hd].
  destruct (me_sb _ _ Hme) as (d1 & Hd1 & Hsbd).
  assert (Hroom : (length bl + size H < NBUF)%nat) by (eapply budget_room; [exact Hf|exact Hbud|lia]).
  assert (Hno : ∀ h n, n < data_start → H !! h ≠ Some n) by (intros h n Hn Hhb; destruct (Hh h _ Hhb); lia).
  destruct (tx_look ls sz sb w V bl H 1 d1 e Hf) as (b1 & w1 & x1 & w2 & Hr1 & Hx1 & Hxd1 & Hs1 & Hr2 & Hf2 & Hs2);
    [lia|done|by eauto|done|].
  destruct (tx_update ls sz sb w2 V bl H (BBLOCK b sb) d (λ d, clear_bit d (b mod BPB)) e Hf2)
    as (bp & w3 & w4 & x & Hr3 & Hx & Hxd & Hs3 & Hr4 & Hf4 & Hs4); try done.
  { lia. }
  { apply clear_bit_blk; [by eapply fstx_blk|apply mod_BPB]. }
  { intros h. apply Hno. lia. }
  exists w4. split_and!; [| |by tstep].
  - unfold bfree, readsb. rewrite bind_bind. change (u32 ROOTDEV) with ROOTDEV. kcall Hr1.
    rewrite bind_bind. erewrite bind_ok; [|by apply getb_eq]. rewrite bind_bind. kcall Hr2. kstep.
    rewrite Hxd1, Hsbd.
    replace (w2 <| w_sb := sb |>) with w2 by (weq; apply (ft_sb _ _ _ _ _ _ _ Hf2)).
    kcall Hr3. erewrite bind_ok; [|by apply getb_eq]. rewrite Hxd, bit_testbit by (apply mod_BPB).
    unfold FsTx.used in Hub. rewrite Hd in Hub. rewrite Hub. cbn [negb]. exact Hr4.
  - unfold FsTx.dealloc. erewrite alter_is_insert by done. done.
Qed.

(** The free list after an allocation and after a release. *)
Lemma free_blocks_alloc w V bl H b fs :
  fstx w V bl H → layout ls sz sb (length V) → meta_ok sb V → free_blocks V = b :: fs →
  free_blocks (alloc V b) = fs.
Proof.
  intros Hf Hlay Hme Hfree. pose proof (fstx_geom _ _ _ _ _ _ _ Hf) as Hg.
  pose proof (fstx_blks _ _ _ _ Hf) as HV.
  assert (Hb : b ∈ free_blocks V) by (rewrite Hfree; left). apply free_blocks_spec in Hb as [Hb0 Hbf].
  assert (Hbd : data_start ≤ b).
  { destruct (Z.le_gt_cases data_start b); [done|]. rewrite (me_used _ _ Hme) in Hbf by lia. done. }
  transitivity (filter (λ c, c ≠ b) (free_blocks V)).
  - unfold FsTx.free_blocks. rewrite list_filter_filter. apply filter_ext_on.
    intros c Hc%elem_of_seqZ.
    rewrite (used_alloc ls sz sb (length V) Hg Hlay V b c eq_refl HV) by lia.
    rewrite orb_false_iff, bool_decide_eq_false. naive_solver.
  - rewrite Hfree. rewrite filter_cons_False by naive_solver. apply filter_all. intros c Hc ->.
    assert (Hnd : NoDup (b :: fs)) by (rewrite <- Hfree; apply NoDup_filter, NoDup_seqZ).
    apply NoDup_cons in Hnd as [Hnd _]. done.
Qed.
End balloc.
