(* ===== verification/Fs.v ===== *)
(** * fs.c, second part: contents of inodes, directories and paths

    [readi] returns its result with the bytes it stores at [dst]; [writei]
    takes the [n] bytes at [src].  A directory is a file of 16-byte entries:
    the inode number in two bytes, the name in [DIRSIZ] bytes, padded with
    zeros.  A path is the bytes of a C string up to and with its terminator. *)

From S2P Require Import Prelude Kernel Bytes Spinlock CString Sched Sleeplock Disk Bio Log Inode Console.

Definition DIRSIZ : Z := 14.

(** [sizeof(struct dirent)], and the fields of a [dirent]. *)
Definition sizeof_de : Z := 16.
Definition de_inum (de : list Z) : Z := get 2 0 de.
Definition de_name (de : list Z) : list Z := slice 2 14 de.

Section fs.
  Context {D : DiskDriver}.

(** ** Contents *)

(** [devsw[ip->major].read], when there is such a device. *)
Definition dev_entry (major : Z) (f : devsw → option devfn) : K (option devfn) :=
  l ← getw w_devsw;
  mret (if (major <? 0) || (major >=? NDEV) then None
        else match l !! Z.to_nat major with Some d => f d | None => None end).

(** The copy loop of [readi]: [n] bytes from [off] on, in pieces that do not
    cross a block. *)
Fixpoint readi_loop (fuel : nat) (i : nat) (off n : Z) (got : list Z) : K (list Z) :=
  if n <=? 0 then mret got else
  match fuel with
  | O => mstop OutOfFuel
  | S f =>
      x ← geti i;
      a ← bmap i (off / BSIZE);
      bp ← bread (i_dev x) a;
      let m := Z.min n (BSIZE - off mod BSIZE) in
      y ← getb bp;
      let s := slice (Z.to_nat (off mod BSIZE)) (Z.to_nat m) (b_data y) in
      brelse bp ;;
      readi_loop f i (off + m) (n - m) (got ++ s)
  end.

(** The number of blocks the bytes [off .. off + n - 1] touch is at most this. *)
Definition blocks_fuel (off n : Z) : nat := S (Z.to_nat ((off mod BSIZE + n) / BSIZE)).

Definition readi (i : nat) (off n : Z) : K (Z * list Z) :=
  x ← geti i;
  if i_type x =? T_DEV then
    f ← dev_entry (i_major x) dev_read;
    match f with
    | Some F_consoleread => consoleread i (s32 n)
    | Some F_consolewrite => mstop (Faulted "devsw.read")
    | None => mret (-1, [])
    end
  else if (off >? i_size x) || (u32 (off + n) <? off) then mret (-1, [])
  else
    let n := if u32 (off + n) >? i_size x then i_size x - off else n in
    got ← readi_loop (blocks_fuel off n) i off n [];
    mret (s32 n, got).

(** The copy loop of [writei]: the bytes [src] at [off]; the result is the
    final [off]. *)
Fixpoint writei_loop (fuel : nat) (i : nat) (off : Z) (src : list Z) : K Z :=
  match src with
  | [] => mret off
  | _ =>
      match fuel with
      | O => mstop OutOfFuel
      | S f =>
          x ← geti i;
          a ← bmap i (off / BSIZE);
          bp ← bread (i_dev x) a;
          let m := Z.min (Z.of_nat (length src)) (BSIZE - off mod BSIZE) in
          modb bp (λ y, y <| b_data ::=
            splice (Z.to_nat (off mod BSIZE)) (take (Z.to_nat m) src) |>) ;;
          log_write bp ;;
          brelse bp ;;
          writei_loop f i (off + m) (drop (Z.to_nat m) src)
      end
  end.

Definition writei (i : nat) (src : list Z) (off : Z) : K Z :=
  let n := Z.of_nat (length src) in
  x ← geti i;
  if i_type x =? T_DEV then
    f ← dev_entry (i_major x) dev_write;
    match f with
    | Some F_consolewrite => consolewrite i src
    | Some F_consoleread => mstop (Faulted "devsw.write")
    | None => mret (-1)
    end
  else if (off >? i_size x) || (u32 (off + n) <? off) then mret (-1)
  else if u32 (off + n) >? MAXFILE * BSIZE then mret (-1)
  else
    off' ← writei_loop (blocks_fuel off n) i off src;
    x ← geti i;
    (if (n >? 0) && (off' >? i_size x) then
       modi i (λ x, x <| i_size := off' |>) ;;
       iupdate i
     else mret tt) ;;
    mret (s32 n).

(** ** Directories *)

(** The arrays behind [s] and [t] end no earlier than the comparison does. *)
Definition namecmp (s t : list Z) : K Z :=
  munwrap "namecmp" (strncmp s t (Z.to_nat DIRSIZ)).

(** The entry at [off] of directory [dp], or a panic. *)
Definition read_de (dp : nat) (off : Z) (who : string) : K (list Z) :=
  '(r, de) ← readi dp off sizeof_de;
  if negb (r =? sizeof_de) then panic who else mret de.

(** The slot of the inode and the offset of its entry. *)
Fixpoint dirlookup_from (fuel : nat) (dp : nat) (name : list Z) (off : Z) : K (option (nat * Z)) :=
  x ← geti dp;
  if off <? i_size x then
    match fuel with
    | O => mstop OutOfFuel
    | S f =>
        de ← read_de dp off "dirlookup read";
        if de_inum de =? 0 then dirlookup_from f dp name (off + sizeof_de) else
        c ← namecmp name (de_name de);
        if c =? 0 then
          x ← geti dp;
          ip ← iget (i_dev x) (de_inum de);
          mret (Some (ip, off))
        else dirlookup_from f dp name (off + sizeof_de)
    end
  else mret None.

(** A directory of [size] bytes has at most this many entries. *)
Definition de_fuel (size : Z) : nat := S (Z.to_nat (size / sizeof_de)).

Definition dirlookup (dp : nat) (name : list Z) : K (option (nat * Z)) :=
  x ← geti dp;
  if negb (i_type x =? T_DIR) then panic "dirlookup not DIR" else
  dirlookup_from (de_fuel (i_size x)) dp name 0.

(** The offset of the first unused entry, or the end of the directory. *)
Fixpoint free_de (fuel : nat) (dp : nat) (off : Z) : K Z :=
  x ← geti dp;
  if off <? i_size x then
    match fuel with
    | O => mstop OutOfFuel
    | S f =>
        de ← read_de dp off "dirlink read";
        if de_inum de =? 0 then mret off else free_de f dp (off + sizeof_de)
    end
  else mret off.

Definition dirlink (dp : nat) (name : list Z) (inum : Z) : K Z :=
  r ← dirlookup dp name;
  match r with
  | Some (ip, _) => iput ip ;; mret (-1)
  | None =>
      x ← geti dp;
      off ← free_de (de_fuel (i_size x)) dp 0;
      nm ← munwrap "dirlink" (strncpy (replicate (Z.to_nat DIRSIZ) 0) name DIRSIZ);
      r ← writei dp (le_bytes 2 inum ++ nm) off;
      if negb (r =? sizeof_de) then panic "dirlink" else mret 0
  end.

(** ** Paths *)

(** [while( *path == '/') path++;] and [while( *path != '/' && *path != 0)
    path++;] with the bytes passed over; [None] past the end of the array. *)
Fixpoint skip_slashes (path : list Z) : option (list Z) :=
  match path with
  | [] => None
  | c :: path' => if c =? 47 then skip_slashes path' else Some path
  end.

Fixpoint take_elem (path : list Z) : option (list Z * list Z) :=
  match path with
  | [] => None
  | c :: path' =>
      if (c =? 47) || (c =? 0) then Some ([], path)
      else '(s, rest) ← take_elem path'; Some (c :: s, rest)
  end.

(** The new contents of [name] and the path that is left; [Some None] when
    there is no element. *)
Definition skipelem (path name : list Z) : option (option (list Z * list Z)) :=
  path ← skip_slashes path;
  c ← hd_error path;
  if (c : Z) =? 0 then Some None else
  '(s, path) ← take_elem path;
  let name :=
    if Z.of_nat (length s) >=? DIRSIZ then splice 0 (take (Z.to_nat DIRSIZ) s) name
    else splice 0 (s ++ [0]) name in
  path ← skip_slashes path;
  Some (Some (name, path)).

(** The loop of [namex] at inode [ip]; the result is the inode, if any, and the
    contents of [name]. *)
Fixpoint namex_loop (fuel : nat) (ip : nat) (path : list Z) (nameiparent : bool) (name : list Z)
  : K (option nat * list Z) :=
  r ← munwrap "skipelem" (skipelem path name);
  match r with
  | None =>
      if nameiparent then iput ip ;; mret (None, name) else mret (Some ip, name)
  | Some (name, path) =>
      match fuel with
      | O => mstop OutOfFuel
      | S f =>
          ilock (Some ip) ;;
          x ← geti ip;
          if negb (i_type x =? T_DIR) then iunlockput ip ;; mret (None, name)
          else if nameiparent && bool_decide (hd_error path = Some 0) then
            iunlock (Some ip) ;; mret (Some ip, name)
          else
            next ← dirlookup ip name;
            match next with
            | None => iunlockput ip ;; mret (None, name)
            | Some (next, _) => iunlockput ip ;; namex_loop f next path nameiparent name
            end
      end
  end.

Definition namex (path : list Z) (nameiparent : bool) (name : list Z) : K (option nat * list Z) :=
  c ← munwrap "path" (hd_error path);
  ip ← (if (c : Z) =? 47 then iget ROOTDEV ROOTINO
        else
          i ← myproc; p ← getp i;
          d ← munwrap "proc->cwd" (cwd p);
          idup d);
  namex_loop (length path) ip path nameiparent name.

(** The name buffer's first contents are never read. *)
Definition namei (path : list Z) : K (option nat) :=
  '(ip, _) ← namex path false (replicate (Z.to_nat DIRSIZ) 0);
  mret ip.

Definition nameiparent (path : list Z) : K (option nat * list Z) :=
  namex path true (replicate (Z.to_nat DIRSIZ) 0).
End fs.
