(* ===== verification/FsFile.v ===== *)
(** * The contents of files

    The blocks of an inode are found through its [addrs] and its indirect
    block: slot [j < 12] is a direct block, slot 12 the indirect block, and the
    slots from 13 on are its entries.  [inode_ok] says that the slots in use
    name distinct data blocks marked in the free map; [bmap] keeps it, and
    gives a file a new zeroed block where it had none.  On top of it, [readi]
    and [writei] are reads and writes of the file's bytes. *)

From S2P Require Import Prelude Kernel Bytes Spinlock Sched Sleeplock Disk Bio Bcache Log LogSpec LogCrash LogTx Inode FsTx Fs.

(** ** Steps that also change in-memory inodes *)

Definition fi_step (w w' : world) : Prop := ∃ js, tx_step (w <| w_inodes := js |>) w'.

Lemma tx_step_inodes w w' js :
  tx_step w w' → tx_step (w <| w_inodes := js |>) (w' <| w_inodes := js |>).
Proof.
  intros [(l & bs & sl & dk & hi & ps & -> & H1 & H2 & H3) Hd Hh Ho Hc]. revert Hd Hh Ho Hc H1 H2 H3. rsimpl.
  intros. split; rsimpl; try done. exists l, bs, sl, dk, hi, ps. split_and!; rsimpl; [weq|done..].
Qed.

Lemma fi_step_trans w1 w2 w3 : fi_step w1 w2 → fi_step w2 w3 → fi_step w1 w3.
Proof.
  intros [js1 H1] [js2 H2]. exists js2. eapply tx_step_trans; [|exact H2].
  apply (tx_step_inodes _ _ js2) in H1.
  replace (w1 <| w_inodes := js1 |> <| w_inodes := js2 |>) with (w1 <| w_inodes := js2 |>) in H1 by weq.
  done.
Qed.

Lemma fi_step_tx w w' : tx_step w w' → fi_step w w'.
Proof. intros H. exists (w_inodes w). replace (w <| w_inodes := w_inodes w |>) with w by weq. done. Qed.

Lemma fi_step_refl w : fi_step w w.
Proof. apply fi_step_tx, tx_step_refl. Qed.

Lemma fi_step_modi w f : fi_step w (w <| w_inodes ::= f |>).
Proof.
  exists (f (w_inodes w)). replace (w <| w_inodes ::= f |>) with (w <| w_inodes := f (w_inodes w) |>) by weq.
  apply tx_step_refl.
Qed.
#[export] Hint Resolve fi_step_refl fi_step_tx fi_step_modi : fstx.

Ltac fistep :=
  repeat match goal with
  | |- fi_step ?a ?a => apply fi_step_refl
  | H : fi_step ?a ?b |- fi_step ?a ?b => exact H
  | H : tx_step ?a ?b |- fi_step ?a ?b => exact (fi_step_tx _ _ H)
  | H : fi_step ?a ?b |- fi_step ?a _ => apply (fi_step_trans a b _ H); clear H
  | H : tx_step ?a ?b |- fi_step ?a _ => apply (fi_step_trans a b _ (fi_step_tx _ _ H)); clear H
  end.

Lemma fs_thread_inodes {D : DiskDriver} {L : DiskLaws D} w V Dt H f :
  fs_thread w V Dt H → fs_thread (w <| w_inodes ::= f |>) V Dt H.
Proof.
  intros [Ht (pi & Hbc)]. split.
  - unfold thread, at_ease, calm, lock_free in *. by rsimpl.
  - exists pi. eapply bcache_at_frame; [..|done]; by rsimpl.
Qed.

Lemma fstx_inodes {D : DiskDriver} {L : DiskLaws D} ls sz sb w V bl H f :
  fstx ls sz sb w V bl H → fstx ls sz sb (w <| w_inodes ::= f |>) V bl H.
Proof.
  intros [[H1 H2 H3 H4 H5 H6 H7] H8 H9 H10]. split; [split|..]; try done; [by apply fs_thread_inodes|..];
    unfold log_at, lh_is in *; by rsimpl.
Qed.

(** ** The slots of an inode *)

Definition slot (V : list block) (x : inode) (j : nat) : Z :=
  if decide (j < 13)%nat then default 0 (i_addrs x !! j)
  else
    let a := default 0 (i_addrs x !! 12%nat) in
    if a =? 0 then 0
    else match V !! Z.to_nat a with Some d => get 4 (4 * (j - 13)) d | None => 0 end.

Definition nslots : nat := 141.

(** The slot of block [k] of the file. *)
Definition fslot (k : nat) : nat := if decide (k < 12)%nat then k else S k.

Section inode.
  Context (ls sz : Z) (sb : superblock).
  Abbreviation used := (used sb).
  Abbreviation free_blocks := (free_blocks sb).
  Abbreviation data_start := (data_start sb).

Record inode_ok (V : list block) (x : inode) : Prop := {
  in_dev : i_dev x = ROOTDEV;
  in_len : length (i_addrs x) = 13%nat;
  in_data j : (j < nslots)%nat → slot V x j ≠ 0 →
    0 ≤ slot V x j < sb_size sb ∧ data_start ≤ slot V x j ∧ used V (slot V x j) = true;
  in_inj j j' : (j < nslots)%nat → (j' < nslots)%nat → slot V x j ≠ 0 → slot V x j = slot V x j' → j = j'
}.

(** A file and the disk may grow: the slots in use stay, and so do the used
    blocks other than the file's indirect block. *)
Record grow (V : list block) (x : inode) (V' : list block) (x' : inode) : Prop := {
  gr_len : length V' = length V;
  gr_inode : x' = x <| i_addrs := i_addrs x' |>;
  gr_ok : inode_ok V' x';
  gr_meta : meta_ok sb V → meta_ok sb V';
  gr_slot j : (j < nslots)%nat → slot V x j ≠ 0 → slot V' x' j = slot V x j;
  gr_fresh j : (j < nslots)%nat → slot V x j = 0 → slot V' x' j ≠ 0 → used V (slot V' x' j) = false;
  gr_used n : 0 ≤ n < sb_size sb → used V n = true → used V' n = true;
  gr_data n : 0 ≤ n < sb_size sb → data_start ≤ n → used V n = true → n ≠ slot V x 12 →
    V' !! Z.to_nat n = V !! Z.to_nat n;
  gr_low n : 0 ≤ n < sb_bmapstart sb → V' !! Z.to_nat n = V !! Z.to_nat n
}.

Lemma grow_refl V x : inode_ok V x → grow V x V x.
Proof. intros H. split; try done. destruct x; by usetf. Qed.

Lemma grow_trans V1 x1 V2 x2 V3 x3 :
  inode_ok V1 x1 → grow V1 x1 V2 x2 → grow V2 x2 V3 x3 → grow V1 x1 V3 x3.
Proof.
  intros Hok G12 G23. destruct G23 as [A1 A2 A3 A4 A5 A5' A6 A7 A8].
  destruct G12 as [B1 B2 B3 B4 B5 B5' B6 B7 B8]. split; try done.
  - congruence.
  - rewrite A2, B2. destruct x1; by usetf.
  - by auto.
  - intros j Hj Hs. rewrite A5, B5; try done. by rewrite B5.
  - intros j Hj Hs Hs3. destruct (decide (slot V2 x2 j = 0)) as [E|E].
    + specialize (A5' j Hj E Hs3). destruct (used V1 (slot V3 x3 j)) eqn:Hu; [|done].
      rewrite B6 in A5'; [done|by apply A3|done].
    + rewrite A5 by done. by apply B5'.
  - by auto.
  - intros n Hn Hd Hu Hne. rewrite A7, B7; try done; [by apply B6|].
    destruct (decide (slot V1 x1 12 = 0)) as [E|E]; [|by rewrite B5 by (done || unfold nslots; lia)].
    intros ->. destruct (decide (slot V2 x2 12 = 0)) as [E2|E2]; [congruence|].
    rewrite B5' in Hu by (done || unfold nslots; lia). done.
  - intros n Hn. rewrite A8, B8; done.
Qed.

Context (size : nat) (Hg : geometry ls sz size) (Hlay : layout ls sz sb size).

(** The free block [b] is put in slot [j]. *)
Lemma grow_by V x V' x' j b :
  inode_ok V x → length V = size → length V' = size →
  x' = x <| i_addrs := i_addrs x' |> → length (i_addrs x') = 13%nat →
  (∀ j', (j' < nslots)%nat → slot V' x' j' = if decide (j' = j) then b else slot V x j') →
  (j < nslots)%nat → slot V x j = 0 → 0 ≤ b < sb_size sb → data_start ≤ b → used V b = false →
  (∀ n, 0 ≤ n < sb_size sb → used V' n = bool_decide (n = b) || used V n) →
  (∀ n, 0 ≤ n < sb_size sb → data_start ≤ n → used V n = true → n ≠ slot V x 12 →
     V' !! Z.to_nat n = V !! Z.to_nat n) →
  (∀ n, 0 ≤ n < sb_bmapstart sb → V' !! Z.to_nat n = V !! Z.to_nat n) →
  grow V x V' x'.
Proof using Hg Hlay.
  intros [Hdev Hlen Hdata Hinj] HV HV' Hx' Hlen' Hslot Hj Hs0 Hb Hbd Hbf Hused Hkeep Hlow.
  destruct (sb_small ls sz sb size Hg Hlay) as [Hsb Hsm].
  assert (Hds : data_start ≤ sb_size sb) by apply Hlay.
  split; try done.
  - congruence.
  - split; [rewrite Hx'; by rsimpl|done|..].
    + intros j' Hj' Hne. rewrite Hslot in * by done. destruct (decide (j' = j)) as [->|Hn].
      * split_and!; try lia. rewrite Hused, bool_decide_true by done. done.
      * destruct (Hdata j' Hj' Hne) as (H1 & H2 & H3). split_and!; try lia.
        rewrite Hused, H3 by done. apply orb_true_r.
    + intros j1 j2 H1 H2 Hne. rewrite !Hslot in * by done.
      destruct (decide (j1 = j)) as [->|N1], (decide (j2 = j)) as [->|N2]; intros E; try done.
      * destruct (Hdata j2 H2) as (_ & _ & H3); congruence.
      * destruct (Hdata j1 H1) as (_ & _ & H3); congruence.
      * by apply Hinj.
  - intros [Hm (d & Hd & Hsbd)]. split.
    + intros n Hn. rewrite Hused, Hm by lia. apply orb_true_r.
    + exists d. split; [|done]. rewrite <- Hd. apply (Hlow 1). lia.
  - intros j' Hj' Hne. rewrite Hslot by done. rewrite decide_False by congruence. done.
  - intros j' Hj' H0 Hne. rewrite Hslot in * by done. destruct (decide (j' = j)); done.
  - intros n Hn Hu. rewrite Hused, Hu by done. apply orb_true_r.
Qed.

Lemma get_zero_block k : get 4 k zero_block = 0.
Proof.
  unfold get, slice, zero_block. rewrite drop_replicate, take_replicate.
  generalize (4 `min` (Z.to_nat BSIZE - k))%nat. intros n. induction n as [|n IH]; [done|]. cbn.
  by rewrite IH.
Qed.

Lemma lookup_alloc V b n :
  length V = size → 0 ≤ b < sb_size sb → data_start ≤ b → 0 ≤ n →
  (n < sb_bmapstart sb ∨ data_start ≤ n) →
  alloc sb V b !! Z.to_nat n = if decide (n = b) then Some zero_block else V !! Z.to_nat n.
Proof using Hg Hlay.
  intros Hl Hb Hbd Hn Hr. destruct (BBLOCK_eq ls sz sb size Hg Hlay b Hb) as (_ & Hm & Hmh & _).
  destruct (sb_small ls sz sb size Hg Hlay) as [Hsb Hsm]. pose proof (lay_size _ _ _ _ Hlay).
  unfold alloc. destruct (decide (n = b)) as [->|Hne].
  - rewrite list_lookup_insert_eq; [done|]. rewrite length_alter. lia.
  - rewrite list_lookup_insert_ne by lia. rewrite list_lookup_alter_ne by lia. done.
Qed.

Lemma length_alloc V b : length (alloc sb V b) = length V.
Proof. unfold alloc. by rewrite length_insert, length_alter. Qed.

Lemma free_data V b fs : meta_ok sb V → free_blocks V = b :: fs →
  0 ≤ b < sb_size sb ∧ data_start ≤ b ∧ used V b = false.
Proof.
  intros Hme Hfree. assert (Hb : b ∈ free_blocks V) by (rewrite Hfree; left).
  apply free_blocks_spec in Hb as [Hb0 Hbf]. split_and!; try done; [lia..|].
  destruct (Z.le_gt_cases data_start b); [done|]. rewrite (me_used _ _ Hme) in Hbf by lia. done.
Qed.

Lemma slot_addr V x j : (j < 13)%nat → slot V x j = default 0 (i_addrs x !! j).
Proof. intros H. unfold slot. by rewrite decide_True. Qed.

Lemma slot_entry V x j : (13 ≤ j)%nat → slot V x j =
  if slot V x 12 =? 0 then 0
  else match V !! Z.to_nat (slot V x 12) with Some d => get 4 (4 * (j - 13)) d | None => 0 end.
Proof. intros H. unfold slot at 1. rewrite decide_False by lia. by rewrite (slot_addr V x 12) by lia. Qed.

(** A direct block, or the indirect block, is allocated. *)
Lemma grow_addr V x j b fs :
  inode_ok V x → meta_ok sb V → length V = size → Forall blk V → free_blocks V = b :: fs →
  (j < 13)%nat → slot V x j = 0 →
  grow V x (alloc sb V b) (x <| i_addrs ::= <[j := b]> |>) ∧
  slot (alloc sb V b) (x <| i_addrs ::= <[j := b]> |>) j = b.
Proof using Hg Hlay.
  intros Hok Hme Hl HV Hfree Hj Hs. destruct (free_data V b fs Hme Hfree) as (Hb & Hbd & Hbf).
  pose proof (in_len _ _ Hok) as Hla. destruct (sb_small ls sz sb size Hg Hlay) as [Hsb Hsm].
  assert (H13 : ∀ j', (j' < 13)%nat → slot (alloc sb V b) (x <| i_addrs ::= <[j := b]> |>) j' =
                      if decide (j' = j) then b else slot V x j').
  { intros j' Hj'. rewrite !slot_addr by done. rsimpl. destruct (decide (j' = j)) as [->|Hne].
    - by rewrite list_lookup_insert_eq by lia.
    - by rewrite list_lookup_insert_ne by done. }
  split; [|by rewrite H13, decide_True].
  assert (Hslot : ∀ j', (j' < nslots)%nat → slot (alloc sb V b) (x <| i_addrs ::= <[j := b]> |>) j' =
                      if decide (j' = j) then b else slot V x j').
  { intros j' Hj'. destruct (decide (j' < 13)%nat); [by apply H13|].
    rewrite decide_False by lia. rewrite (slot_entry V x j'), slot_entry, H13 by lia.
    destruct (decide (12%nat = j)) as [<-|Hne].
    - rewrite Hs. cbn [Z.eqb]. destruct (b =? 0); [done|].
      rewrite lookup_alloc, decide_True by (done || lia). apply get_zero_block.
    - destruct (Z.eqb_spec (slot V x 12) 0) as [E|E]; [done|].
      destruct (in_data _ _ Hok 12 ltac:(unfold nslots; lia) E) as (H1 & H2 & H3).
      rewrite lookup_alloc, decide_False by (done || lia || congruence). done. }
  eapply (grow_by V x _ _ j b); try done.
  - by rewrite length_alloc.
  - rsimpl. by rewrite length_insert.
  - unfold nslots. lia.
  - intros n Hn. apply (used_alloc ls sz sb size Hg Hlay); done || lia.
  - intros n Hn Hd Hu _. rewrite lookup_alloc, decide_False by (done || lia || congruence). done.
  - intros n Hn. rewrite lookup_alloc by (done || lia). rewrite decide_False; [done|].
    unfold data_start in *. assert (0 ≤ (sb_size sb - 1) / BPB) by (apply Z.div_pos; [lia|done]). lia.
Qed.

Lemma data_start_bmap : sb_bmapstart sb < data_start.
Proof using Hg Hlay.
  destruct (sb_small ls sz sb size Hg Hlay) as [Hsb Hsm]. unfold FsTx.data_start.
  assert (0 ≤ (sb_size sb - 1) / BPB) by (apply Z.div_pos; [lia|done]). lia.
Qed.

(** A block is allocated and entered in the indirect block. *)
Lemma grow_entry V x j b fs d :
  inode_ok V x → meta_ok sb V → length V = size → Forall blk V → free_blocks V = b :: fs →
  (13 ≤ j < nslots)%nat → slot V x j = 0 → slot V x 12 ≠ 0 →
  V !! Z.to_nat (slot V x 12) = Some d →
  let V' := <[Z.to_nat (slot V x 12) := put 4 (4 * (j - 13)) b d]> (alloc sb V b) in
  grow V x V' x ∧ slot V' x j = b ∧ V' !! Z.to_nat b = Some zero_block.
Proof using Hg Hlay.
  intros Hok Hme Hl HV Hfree Hj Hs Ha Hd V'. destruct (free_data V b fs Hme Hfree) as (Hb & Hbd & Hbf).
  destruct (sb_small ls sz sb size Hg Hlay) as [Hsb Hsm]. pose proof data_start_bmap.
  destruct (in_data _ _ Hok 12 ltac:(unfold nslots; lia) Ha) as (Ha1 & Ha2 & Ha3).
  set (a := slot V x 12) in *. pose proof (lay_size _ _ _ _ Hlay).
  assert (Hab : a ≠ b) by congruence.
  assert (Hld : length d = 512%nat).
  { apply length_block. rewrite Forall_lookup in HV. eauto. }
  assert (Ha' : V' !! Z.to_nat a = Some (put 4 (4 * (j - 13)) b d)).
  { unfold V'. apply list_lookup_insert_eq. rewrite length_alloc. lia. }
  assert (Hother : ∀ n, 0 ≤ n → n ≠ a → V' !! Z.to_nat n = alloc sb V b !! Z.to_nat n).
  { intros n Hn Hna. unfold V'. by rewrite list_lookup_insert_ne by lia. }
  assert (H13 : ∀ j', (j' < 13)%nat → slot V' x j' = slot V x j').
  { intros j' Hj'. by rewrite !slot_addr. }
  assert (Hslot : ∀ j', (j' < nslots)%nat → slot V' x j' = if decide (j' = j) then b else slot V x j').
  { intros j' Hj'. destruct (decide (j' < 13)%nat) as [Hlt|Hge]; [rewrite decide_False by lia; by apply H13|].
    rewrite (slot_entry V x j'), slot_entry, (H13 12%nat) by lia. fold a.
    rewrite (proj2 (Z.eqb_neq a 0)), Ha', Hd by done. unfold nslots in *.
    destruct (decide (j' = j)) as [->|Hne].
    - rewrite get_put by lia. apply Z.mod_small. change (256 ^ Z.of_nat 4) with (2 ^ 32). lia.
    - apply get_put_ne; lia. }
  split_and!.
  - eapply (grow_by V x _ _ j b); try done.
    + unfold V'. by rewrite length_insert, length_alloc.
    + destruct x; by usetf.
    + apply Hok.
    + apply Hj.
    + intros n Hn. unfold V'. rewrite (used_insert ls sz sb size Hg Hlay) by (done || lia).
      apply (used_alloc ls sz sb size Hg Hlay); done || lia.
    + intros n Hn Hdn Hu Hna. rewrite Hother by (done || lia).
      rewrite lookup_alloc, decide_False by (done || lia || congruence). done.
    + intros n Hn. rewrite Hother, lookup_alloc, decide_False by (done || lia). done.
  - rewrite Hslot, decide_True by (done || lia). done.
  - rewrite Hother, lookup_alloc, decide_True by (done || lia). done.
Qed.
End inode.

(** ** [bmap] *)

Section bmap.
  Context {D : DiskDriver} {L : DiskLaws D}.
  Context (ls sz : Z) (sb : superblock).
  Abbreviation fstx := (fstx ls sz sb).
  Abbreviation used := (used sb).
  Abbreviation budget := (budget sz).
  Abbreviation inode_ok := (inode_ok sb).
  Abbreviation grow := (grow sb).
  Abbreviation free_blocks := (free_blocks sb).

(** A transaction on inode [x] in slot [i] of the cache. *)
Record on_inode (i : nat) (w : world) (V : list block) (bl : list Z) (x : inode) : Prop := {
  oi_tx : fstx w V bl ∅;
  oi_lay : layout ls sz sb (length V);
  oi_meta : meta_ok sb V;
  oi_ok : inode_ok V x;
  oi_at : w_inodes w !! i = Some x
}.

Lemma on_inode_step i w V bl x w' :
  on_inode i w V bl x → fstx w' V bl ∅ → tx_step w w' → on_inode i w' V bl x.
Proof. intros [] Hf Hs. split; try done. by rewrite (ts_inodes _ _ Hs). Qed.

Lemma on_inode_grow i w V bl x w' V' bl' x' :
  on_inode i w V bl x → grow V x V' x' → fstx w' V' bl' ∅ → w_inodes w' = <[i := x']> (w_inodes w) →
  on_inode i w' V' bl' x'.
Proof.
  intros [Hf Hl Hm Ho Ha] Hgr Hf' Hw. split; try done.
  - by rewrite (gr_len _ _ _ _ _ Hgr).
  - by apply (gr_meta _ _ _ _ _ Hgr).
  - apply (gr_ok _ _ _ _ _ Hgr).
  - rewrite Hw. apply list_lookup_insert_eq. by eapply lookup_lt_Some.
Qed.

Lemma get_addr_eq V i k x w e :
  w_inodes w !! i = Some x → length (i_addrs x) = 13%nat → 0 ≤ k < 13 →
  get_addr i k (KS w e) = Ok (slot V x (Z.to_nat k)) (KS w e).
Proof.
  intros Hx Hl Hk. unfold get_addr. erewrite bind_ok; [|by apply geti_eq].
  destruct (lookup_lt_is_Some_2 (i_addrs x) (Z.to_nat k)) as [a Ha]; [lia|].
  rewrite slot_addr by lia. by rewrite Ha.
Qed.

(** [ip->addrs[k]] is there, or is allocated. *)
Lemma addr_or_alloc_ok i k w V bl x e :
  on_inode i w V bl x → 0 ≤ k < 13 → budget bl 2 →
  slot V x (Z.to_nat k) ≠ 0 ∨ (1 ≤ length (free_blocks V))%nat →
  ∃ a w' V' bl' x', addr_or_alloc i k (KS w e) = Ok a (KS w' e) ∧
    on_inode i w' V' bl' x' ∧ grow V x V' x' ∧ slot V' x' (Z.to_nat k) = a ∧ a ≠ 0 ∧
    fi_step w w' ∧ w_inodes w' = <[i := x']> (w_inodes w) ∧
    (length bl' ≤ 2 + length bl)%nat ∧ (length (free_blocks V) ≤ 1 + length (free_blocks V'))%nat ∧
    (slot V x (Z.to_nat k) ≠ 0 → w' = w ∧ V' = V ∧ bl' = bl ∧ x' = x).
Proof.
  intros Hoi Hk Hbud Hfree. pose proof Hoi as [Hf Hl Hme Hok Hat].
  pose proof (fstx_geom _ _ _ _ _ _ _ Hf) as Hg.
  unfold addr_or_alloc. erewrite bind_ok; [|apply (get_addr_eq V); [done|apply Hok|done]].
  destruct (Z.eqb_spec (slot V x (Z.to_nat k)) 0) as [E|E].
  - destruct (free_blocks V) as [|b fs] eqn:Efree; [destruct Hfree; cbn in *; done || lia|].
    destruct (free_data sb V b fs Hme Efree) as (Hb & Hbd & _).
    erewrite bind_ok; [|by apply geti_eq]. rewrite (in_dev _ _ _ Hok).
    destruct (balloc_ok ls sz sb w V bl ∅ b fs e) as (w1 & Hr1 & Hf1 & Hs1); try done.
    { rewrite map_size_empty. lia. }
    kcall Hr1. unfold set_addr, modi. rewrite bind_modw.
    destruct (grow_addr ls sz sb (length V) Hg Hl V x (Z.to_nat k) b fs) as [Hgr Hsl]; try done.
    { by eapply fstx_blks. }
    { lia. }
    set (x' := x <| i_addrs ::= <[Z.to_nat k := b]> |>) in *.
    assert (Hw : w_inodes (w1 <| w_inodes ::= alter (λ x, x <| i_addrs ::= <[Z.to_nat k := b]> |>) i |>) =
                 <[i := x']> (w_inodes w)).
    { rsimpl. rewrite (ts_inodes _ _ Hs1). by erewrite alter_is_insert. }
    assert (Hf' := fstx_inodes ls sz sb w1 (alloc sb V b) _ ∅ (alter (λ x, x <| i_addrs ::= <[Z.to_nat k := b]> |>) i) Hf1).
    eexists b, _, (alloc sb V b), _, x'. split_and!; try done.
    + by eapply on_inode_grow.
    + pose proof (data_start_bmap ls sz sb (length V) Hg Hl). destruct (sb_small ls sz sb (length V) Hg Hl). lia.
    + eapply fi_step_trans; [by apply fi_step_tx|apply fi_step_modi].
    + pose proof (logged_length b (logged (BBLOCK b sb) bl)). pose proof (logged_length (BBLOCK b sb) bl). lia.
    + by erewrite free_blocks_alloc by done.
  - exists (slot V x (Z.to_nat k)), w, V, bl, x. split_and!; try done.
    + by apply grow_refl.
    + apply fi_step_refl.
    + by rewrite list_insert_id.
    + lia.
    + lia.
Qed.

Lemma tx_room w V bl : fstx w V bl ∅ → (length bl + size (∅ : gmap nat Z) < NBUF)%nat.
Proof.
  intros Hf. rewrite map_size_empty. pose proof (ft_tx _ _ _ _ _ _ _ Hf) as [_ _ _ [_ ? _ _] _ _ Hfit].
  unfold NBUF, LOGSIZE, MAXOPBLOCKS in *. lia.
Qed.

(** The block of a slot in use. *)
Lemma slot_block w V bl x j :
  fstx w V bl ∅ → layout ls sz sb (length V) → inode_ok V x → (j < nslots)%nat → slot V x j ≠ 0 →
  ∃ d, V !! Z.to_nat (slot V x j) = Some d ∧ blk d ∧ home ls sz (length V) (slot V x j) ∧ 0 ≤ slot V x j.
Proof.
  intros Hf Hl Hok Hj Hs. destruct (in_data _ _ _ Hok j Hj Hs) as (H1 & H2 & H3).
  pose proof (fstx_geom _ _ _ _ _ _ _ Hf) as Hg.
  pose proof (data_home ls sz sb (length V) Hg Hl _ (conj H2 (proj2 H1))) as Hh.
  destruct (fstx_home _ _ _ _ _ _ _ _ Hf Hh) as [d Hd]. exists d. split_and!; [done|by eapply fstx_blk|done|lia].
Qed.

Lemma fslot_lt k : (k < Z.to_nat MAXFILE)%nat → (fslot k < nslots)%nat.
Proof. change (Z.to_nat MAXFILE) with 140%nat. unfold fslot, nslots. case_decide; lia. Qed.

Lemma fslot_inj k k' : fslot k = fslot k' → k = k'.
Proof. unfold fslot. repeat case_decide; lia. Qed.

(** The second half of [bmap], once the indirect block is there. *)
Definition bmap_entry (i : nat) (bn addr : Z) : K Z :=
  x ← geti i;
  bp ← bread (i_dev x) addr;
  y ← getb bp;
  let addr := get 4 (Z.to_nat (4 * bn)) (b_data y) in
  addr ← (if addr =? 0 then
            x ← geti i;
            addr ← balloc (i_dev x);
            modb bp (λ y, y <| b_data ::= put 4 (Z.to_nat (4 * bn)) addr |>) ;;
            log_write bp ;;
            mret addr
          else mret addr);
  brelse bp ;;
  mret addr.

Lemma bmap_eq i bn s : bmap i bn s =
  (if bn <? NDIRECT then addr_or_alloc i bn else
   if bn - NDIRECT <? NINDIRECT then
     addr ← addr_or_alloc i NDIRECT; bmap_entry i (bn - NDIRECT) addr
   else panic "bmap: out of range") s.
Proof. unfold bmap, bmap_entry. done. Qed.

Lemma bmap_entry_ok i k w V bl x e :
  on_inode i w V bl x → 0 ≤ k < NINDIRECT → slot V x 12 ≠ 0 → budget bl 3 →
  slot V x (13 + Z.to_nat k) ≠ 0 ∨ (1 ≤ length (free_blocks V))%nat →
  ∃ a w' V' bl', bmap_entry i k (slot V x 12) (KS w e) = Ok a (KS w' e) ∧
    on_inode i w' V' bl' x ∧ grow V x V' x ∧ slot V' x (13 + Z.to_nat k) = a ∧ a ≠ 0 ∧
    tx_step w w' ∧ (length bl' ≤ 3 + length bl)%nat ∧
    (length (free_blocks V) ≤ 1 + length (free_blocks V'))%nat ∧
    (slot V x (13 + Z.to_nat k) ≠ 0 → V' = V ∧ bl' = bl).
Proof.
  intros Hoi Hk Ha Hbud Hfree. pose proof Hoi as [Hf Hl Hme Hok Hat].
  pose proof (fstx_geom _ _ _ _ _ _ _ Hf) as Hg. change NINDIRECT with 128 in Hk.
  set (j := (13 + Z.to_nat k)%nat) in *.
  assert (Hj : (13 ≤ j < nslots)%nat).
  { unfold nslots, j. lia. }
  destruct (slot_block w V bl x 12 Hf Hl Hok ltac:(unfold nslots; lia) Ha) as (d & Hd & Hdb & Hdh & Hd0).
  destruct (tx_bread ls sz sb w V bl ∅ (slot V x 12) d e Hf Hd0 Hd) as
    (bp & w1 & y & Hr1 & Hf1 & Hbp & Hy & Hyd & Hs1 & Hcl); [done|by eapply tx_room|].
  pose proof (ts_inodes _ _ Hs1) as Hi1.
  unfold bmap_entry. erewrite bind_ok; [|by apply geti_eq]. rewrite (in_dev _ _ _ Hok). kcall Hr1.
  erewrite bind_ok; [|by apply getb_eq]. rewrite Hyd.
  assert (Hsl : slot V x j = get 4 (Z.to_nat (4 * k)) d).
  { rewrite slot_entry, Hd by lia. rewrite (proj2 (Z.eqb_neq _ 0)) by done. f_equal. unfold j. lia. }
  rewrite <- Hsl. destruct (Z.eqb_spec (slot V x j) 0) as [E|E].
  - destruct (free_blocks V) as [|b fs] eqn:Efree; [destruct Hfree; cbn in *; done || lia|].
    destruct (free_data sb V b fs Hme Efree) as (Hb & Hbd & Hbf).
    destruct (in_data _ _ _ Hok 12 ltac:(unfold nslots; lia) Ha) as (Ha1 & Ha2 & Ha3).
    rewrite bind_bind. erewrite bind_ok; [|apply (geti_eq i x); by rewrite Hi1]. rewrite (in_dev _ _ _ Hok).
    destruct (balloc_ok ls sz sb w1 V bl (<[bp := slot V x 12]> ∅) b fs e) as (w2 & Hr2 & Hf2 & Hs2); try done.
    { intros h n [[_ <-]|[_ ?]]%lookup_insert_Some; [done|by rewrite lookup_empty in *]. }
    { by eapply budget_le; [|apply Nat.le_succ_diag_r]. }
    { rewrite insert_empty, map_size_singleton. lia. }
    rewrite bind_bind. kcall Hr2.
    destruct (grow_entry ls sz sb (length V) Hg Hl V x j b fs d) as (Hgr & Hsj & _); try done.
    { by eapply fstx_blks. }
    set (V' := <[Z.to_nat (slot V x 12) := put 4 (4 * (j - 13)) b d]> (alloc sb V b)) in *.
    assert (Hd2 : alloc sb V b !! Z.to_nat (slot V x 12) = Some d).
    { rewrite (lookup_alloc ls sz sb (length V) Hg Hl), decide_False by (done || lia || congruence). done. }
    destruct (tx_log ls sz sb w2 (alloc sb V b) _ _ bp (slot V x 12) d (put 4 (Z.to_nat (4 * k)) b) e Hf2)
      as (w2' & w3 & Hr2' & Hr3 & Hf3 & Hs3); try done.
    { apply lookup_insert_eq. }
    { by rewrite length_alloc. }
    { pose proof (data_start_bmap ls sz sb (length V) Hg Hl). destruct (sb_small ls sz sb (length V) Hg Hl). lia. }
    { destruct Hdb. split; [|by apply put_bytes]. rewrite length_put; [done|]. unfold BSIZE in *. lia. }
    { do 2 apply budget_logged. done. }
    replace (<[Z.to_nat (slot V x 12) := put 4 (Z.to_nat (4 * k)) b d]> (alloc sb V b)) with V' in Hf3.
    2: { unfold V'. do 2 f_equal. unfold j. lia. }
    rewrite bind_bind. kcall Hr2'. rewrite bind_bind. kcall Hr3. rewrite bind_ret.
    destruct (tx_brelse ls sz sb w3 V' _ _ bp (slot V x 12) e Hf3) as (w4 & Hr4 & Hf4 & Hs4).
    { apply lookup_insert_eq. }
    { left. unfold logged at 1. case_decide; set_solver. }
    rewrite delete_insert_id in Hf4 by done. kcall Hr4.
    eexists b, w4, V', _. split_and!; try done.
    + eapply on_inode_grow; try done. rewrite list_insert_id; [|done].
      apply ts_inodes. by tstep.
    + pose proof (data_start_bmap ls sz sb (length V) Hg Hl). destruct (sb_small ls sz sb (length V) Hg Hl). lia.
    + by tstep.
    + pose proof (logged_length (slot V x 12) (logged b (logged (BBLOCK b sb) bl))).
      pose proof (logged_length b (logged (BBLOCK b sb) bl)). pose proof (logged_length (BBLOCK b sb) bl). lia.
    + rewrite <- (free_blocks_alloc ls sz sb w V bl ∅ b fs) at 1 by done.
      cbn [length]. apply le_n_S. unfold FsTx.free_blocks. apply Nat.eq_le_incl. f_equal.
      apply filter_ext_on. intros n Hn%elem_of_seqZ. unfold V'.
      by rewrite (used_insert ls sz sb (length V) Hg Hl) by lia.
  - rewrite bind_ret.
    destruct (tx_brelse ls sz sb w1 V bl _ bp (slot V x 12) e Hf1) as (w2 & Hr2 & Hf2 & Hs2).
    { apply lookup_insert_eq. }
    { by rewrite (ts_disk _ _ Hs1). }
    rewrite delete_insert_id in Hf2 by done. kcall Hr2.
    exists (slot V x j), w2, V, bl. split_and!; try done; try lia.
    + eapply on_inode_step; [done|done|by tstep].
    + by apply grow_refl.
    + by tstep.
Qed.

Lemma bmap_ok i bn w V bl x e :
  on_inode i w V bl x → 0 ≤ bn < MAXFILE → budget bl 5 →
  slot V x (fslot (Z.to_nat bn)) ≠ 0 ∨ (2 ≤ length (free_blocks V))%nat →
  ∃ a w' V' bl' x', bmap i bn (KS w e) = Ok a (KS w' e) ∧
    on_inode i w' V' bl' x' ∧ grow V x V' x' ∧ slot V' x' (fslot (Z.to_nat bn)) = a ∧ a ≠ 0 ∧
    fi_step w w' ∧ w_inodes w' = <[i := x']> (w_inodes w) ∧
    (length bl' ≤ 5 + length bl)%nat ∧ (length (free_blocks V) ≤ 2 + length (free_blocks V'))%nat ∧
    (slot V x (fslot (Z.to_nat bn)) ≠ 0 → V' = V ∧ bl' = bl ∧ x' = x).
Proof.
  intros Hoi Hbn Hbud Hfree. rewrite bmap_eq. change MAXFILE with 140 in Hbn.
  change NDIRECT with 12. change NINDIRECT with 128. unfold fslot in *.
  destruct (Z.ltb_spec bn 12) as [Hlt|Hge].
  - rewrite decide_True in * by lia.
    destruct (addr_or_alloc_ok i bn w V bl x e) as (a & w' & V' & bl' & x' & Hr & H1 & H2 & H3 & H4 & H5 & H6 & H7 & H8 & H9);
      try done.
    { lia. }
    { eapply budget_le; [done|lia]. }
    { destruct Hfree; [by left|right; lia]. }
    exists a, w', V', bl', x'. split_and!; try done; try lia. intros Hs. by destruct (H9 Hs) as (-> & -> & -> & ->).
  - rewrite decide_False in * by lia. rewrite (proj2 (Z.ltb_lt (bn - 12) 128)) by lia.
    assert (Hj : S (Z.to_nat bn) = (13 + Z.to_nat (bn - 12))%nat) by lia. rewrite Hj in *.
    destruct (addr_or_alloc_ok i 12 w V bl x e) as (a & w1 & V1 & bl1 & x1 & Hr1 & Ho1 & G1 & S1 & N1 & F1 & I1 & B1 & L1 & E1);
      try done.
    { eapply budget_le; [done|lia]. }
    { destruct Hfree as [Hs|]; [|right; lia]. left. intros E. rewrite slot_entry in Hs by lia.
      change (Z.to_nat 12) with 12%nat in E. by rewrite E in Hs. }
    kcall Hr1. change (Z.to_nat 12) with 12%nat in *. subst a.
    assert (Hkeep : slot V x (13 + Z.to_nat (bn - 12)) ≠ 0 → w1 = w ∧ V1 = V ∧ bl1 = bl ∧ x1 = x).
    { intros Hs. apply E1. intros E. rewrite slot_entry in Hs by lia. by rewrite E in Hs. }
    destruct (bmap_entry_ok i (bn - 12) w1 V1 bl1 x1 e Ho1) as (a & w2 & V2 & bl2 & Hr2 & Ho2 & G2 & S2 & N2 & F2 & B2 & L2 & E2);
      try done.
    { change NINDIRECT with 128. lia. }
    { unfold FsTx.budget in *. lia. }
    { destruct Hfree as [Hs|]; [|right; lia]. left. by destruct (Hkeep Hs) as (_ & -> & _ & ->). }
    exists a, w2, V2, bl2, x1. split_and!; try done; try lia.
    + eapply grow_trans; [apply Hoi|done|done].
    + by fistep.
    + by rewrite (ts_inodes _ _ F2).
    + intros Hs. destruct (Hkeep Hs) as (-> & -> & -> & ->). by destruct (E2 Hs) as (-> & ->).
Qed.

(** Where the file has the block, [bmap] only reads, and needs no room in the
    log. *)
Lemma bmap_mapped i bn w V bl x e :
  on_inode i w V bl x → 0 ≤ bn < MAXFILE → slot V x (fslot (Z.to_nat bn)) ≠ 0 →
  ∃ w', bmap i bn (KS w e) = Ok (slot V x (fslot (Z.to_nat bn))) (KS w' e) ∧
    on_inode i w' V bl x ∧ tx_step w w'.
Proof.
  intros Hoi Hbn Hs. pose proof Hoi as [Hf Hl Hme Hok Hat]. rewrite bmap_eq.
  change MAXFILE with 140 in Hbn. change NDIRECT with 12. change NINDIRECT with 128. unfold fslot in *.
  unfold addr_or_alloc.
  destruct (Z.ltb_spec bn 12) as [Hlt|Hge].
  - rewrite decide_True in * by lia. exists w.
    erewrite bind_ok; [|apply (get_addr_eq V); [done|apply Hok|lia]].
    rewrite (proj2 (Z.eqb_neq _ 0)) by done. split_and!; [done|done|apply tx_step_refl].
  - rewrite decide_False in * by lia. rewrite (proj2 (Z.ltb_lt (bn - 12) 128)) by lia.
    rewrite bind_bind. erewrite bind_ok; [|apply (get_addr_eq V); [done|apply Hok|lia]].
    change (Z.to_nat 12) with 12%nat.
    assert (Ha : slot V x 12 ≠ 0).
    { intros E. rewrite slot_entry in Hs by lia. by rewrite E in Hs. }
    rewrite (proj2 (Z.eqb_neq _ 0)) by done. rewrite bind_ret.
    destruct (slot_block w V bl x 12 Hf Hl Hok ltac:(unfold nslots; lia) Ha) as (d & Hd & Hdb & Hdh & Hd0).
    destruct (tx_look ls sz sb w V bl ∅ (slot V x 12) d e Hf Hd0 Hd) as
      (bp & w1 & y & w2 & Hr1 & Hy & Hyd & Hs1 & Hr2 & Hf2 & Hs2); [done|by eapply tx_room|].
    unfold bmap_entry. erewrite bind_ok; [|by apply geti_eq]. rewrite (in_dev _ _ _ Hok). kcall Hr1.
    erewrite bind_ok; [|by apply getb_eq]. rewrite Hyd.
    replace (get 4 _ d) with (slot V x (S (Z.to_nat bn))).
    2: { rewrite slot_entry, Hd by lia. rewrite (proj2 (Z.eqb_neq _ 0)) by done. f_equal. lia. }
    rewrite (proj2 (Z.eqb_neq (slot V x (S (Z.to_nat bn))) 0)) by done. rewrite bind_ret. kcall Hr2.
    exists w2. split_and!; [done| |by tstep]. eapply on_inode_step; [done|done|by tstep].
Qed.
End bmap.

(** ** Inodes on disk *)

Definition short (v : Z) : Prop := - 2 ^ 15 ≤ v < 2 ^ 15.

(** The fields an inode can have on disk. *)
Record fields_ok (x : inode) : Prop := {
  fo_type : short (i_type x);
  fo_major : short (i_major x);
  fo_minor : short (i_minor x);
  fo_nlink : short (i_nlink x);
  fo_size : 0 ≤ i_size x < 2 ^ 32;
  fo_len : length (i_addrs x) = 13%nat;
  fo_addrs : Forall (λ a, 0 ≤ a < 2 ^ 32) (i_addrs x)
}.

Lemma s16_mod v : short v → s16 (v mod 256 ^ Z.of_nat 2) = v.
Proof.
  unfold short, s16. change (256 ^ Z.of_nat 2) with (2 ^ 16). intros Hv.
  rewrite Z.add_mod_idemp_l by lia. rewrite Z.mod_small; lia.
Qed.

Lemma length_concat_le (l : list Z) n : length (concat (le_bytes n <$> l)) = (n * length l)%nat.
Proof. induction l as [|a l IH]; cbn; [lia|]. rewrite length_app, length_le_bytes, IH. lia. Qed.

Lemma slice_concat_le (l : list Z) n k a :
  l !! k = Some a → slice (n * k) n (concat (le_bytes n <$> l)) = le_bytes n a.
Proof.
  revert k. induction l as [|b l IH]; intros k Hk; [done|]. cbn [fmap list_fmap concat].
  destruct k as [|k]; cbn in Hk.
  - injection Hk as ->. rewrite Nat.mul_0_r. unfold slice. rewrite drop_0.
    rewrite take_app_length' by (by rewrite length_le_bytes). done.
  - unfold slice. rewrite drop_app_ge by (rewrite length_le_bytes; lia).
    rewrite length_le_bytes. replace (n * S k - n)%nat with (n * k)%nat by lia. by apply IH.
Qed.

Lemma get_splice_ne n' off' off s d :
  (off + length s ≤ length d)%nat → (off' + n' ≤ off ∨ off + length s ≤ off')%nat →
  get n' off' (splice off s d) = get n' off' d.
Proof. intros H1 H2. unfold get. by rewrite slice_splice_ne. Qed.

Lemma slice_splice_in off s d o n :
  (off + length s ≤ length d)%nat → (o + n ≤ length s)%nat →
  slice (off + o) n (splice off s d) = slice o n s.
Proof.
  intros H1 H2. apply list_eq; intros k. rewrite !lookup_slice. case_decide; [|done].
  rewrite lookup_splice, decide_True by lia. f_equal. lia.
Qed.

(** [plen] computes the length of a block after writes of fields. *)
Ltac plen :=
  repeat first
    [ rewrite length_le_bytes | rewrite length_concat_le
    | match goal with H : fields_ok ?x |- context [length (i_addrs ?x)] => rewrite (fo_len _ H) end
    | rewrite length_put by plen | rewrite length_splice by plen ];
  try lia.

Section dinode.
  Context (o : nat) (x : inode) (d : block).
  Context (Hx : fields_ok x) (Hd : (o + 64 ≤ length d)%nat).

Lemma length_put_dinode : length (put_dinode o x d) = length d.
Proof using Hx Hd. unfold put_dinode. plen. Qed.

(** The fields read back, and nothing else of the block changes. *)
Lemma dinode_fields :
  let d' := put_dinode o x d in
  di_type o d' = i_type x ∧ di_major o d' = i_major x ∧ di_minor o d' = i_minor x ∧
  di_nlink o d' = i_nlink x ∧ di_size o d' = i_size x ∧ di_addrs o d' = i_addrs x.
Proof using Hx Hd.
  pose proof Hx as [Ht Hma Hmi Hnl Hsz Hlen Had]. intros d'. unfold d', put_dinode.
  split_and!; unfold di_type, di_major, di_minor, di_nlink, di_size.
  1-5: rewrite get_splice_ne by (plen; lia); repeat (rewrite get_put_ne by (plen; lia));
    rewrite get_put by plen; try (by apply s16_mod); apply Z.mod_small; by change (256 ^ Z.of_nat 4) with (2 ^ 32).
  unfold di_addrs. apply list_eq; intros k. rewrite list_lookup_fmap.
  destruct (decide (k < 13)%nat) as [Hk|Hk].
  - rewrite lookup_seq_lt by done. cbn [fmap option_fmap option_map Nat.add].
    destruct (lookup_lt_is_Some_2 (i_addrs x) k) as [a Ha]; [lia|]. rewrite Ha. f_equal.
    unfold get. rewrite slice_splice_in by (plen; lia). rewrite (slice_concat_le _ _ _ _ Ha).
    apply le_val_bytes_small. rewrite Forall_lookup in Had. apply (Had _ _ Ha).
  - rewrite !lookup_ge_None_2; [done|lia|rewrite length_seq; lia].
Qed.

Lemma dinode_else n off : (off + n ≤ o ∨ o + 64 ≤ off)%nat → get n off (put_dinode o x d) = get n off d.
Proof using Hx Hd.
  intros Ho. unfold put_dinode. rewrite get_splice_ne by (plen; lia).
  repeat (rewrite get_put_ne by (plen; lia)). done.
Qed.

Lemma put_dinode_blk : blk d → blk (put_dinode o x d).
Proof using Hx Hd.
  intros [Hl Hb]. split; [by rewrite length_put_dinode|]. unfold put_dinode.
  apply splice_bytes; [|repeat apply put_bytes; done].
  induction (i_addrs x) as [|a l IH]; [constructor|]. cbn [fmap list_fmap concat].
  apply Forall_app_2; [apply le_bytes_range|done].
Qed.
End dinode.

(** ** The bytes of a file *)

Definition fbyte (V : list block) (x : inode) (p : nat) : option Z :=
  let a := slot V x (fslot (p / 512)) in
  if a =? 0 then None else V !! Z.to_nat a ≫= λ d, d !! (p mod 512)%nat.

(** The file's contents are the bytes [l]. *)
Record file_is (V : list block) (x : inode) (l : list Z) : Prop := {
  fi_size : i_size x = Z.of_nat (length l);
  fi_max : Z.of_nat (length l) ≤ MAXFILE * BSIZE;
  fi_byte p : (p < length l)%nat → fbyte V x p = l !! p
}.

Lemma fblock_lt p : Z.of_nat p < MAXFILE * BSIZE → (fslot (p / 512) < nslots)%nat.
Proof.
  intros Hp. apply fslot_lt. change (MAXFILE * BSIZE) with 71680 in Hp. change (Z.to_nat MAXFILE) with 140%nat.
  apply Nat.Div0.div_lt_upper_bound. lia.
Qed.

Lemma fi_mapped V x l p : file_is V x l → (p < length l)%nat → slot V x (fslot (p / 512)) ≠ 0.
Proof.
  intros Hfi Hp E. pose proof (fi_byte _ _ _ Hfi p Hp) as Hb. unfold fbyte in Hb. rewrite E in Hb. cbn in Hb.
  symmetry in Hb. apply lookup_ge_None in Hb. lia.
Qed.

(** A piece within one block. *)
Lemma piece_eq V x l off m d :
  file_is V x l → (off + m ≤ length l)%nat → (off mod 512 + m ≤ 512)%nat → (0 < m)%nat →
  V !! Z.to_nat (slot V x (fslot (off / 512))) = Some d →
  slice (off mod 512) m d = slice off m l.
Proof.
  intros Hfi Hl Hm Hm0 Hd. apply list_eq; intros k. rewrite !lookup_slice. case_decide as Hk; [|done].
  rewrite <- (fi_byte _ _ _ Hfi) by lia. unfold fbyte.
  pose proof (Nat.div_mod_eq off 512). pose proof (Nat.mod_upper_bound off 512).
  replace ((off + k) / 512)%nat with (off / 512)%nat.
  2: { apply (Nat.div_unique _ _ _ (off mod 512 + k)); lia. }
  replace ((off + k) mod 512)%nat with (off mod 512 + k)%nat.
  2: { apply (Nat.mod_unique _ _ (off / 512)); lia. }
  rewrite Hd. pose proof (fi_mapped V x l off Hfi ltac:(lia)) as Hs.
  by rewrite (proj2 (Z.eqb_neq _ 0)).
Qed.

Lemma off_div (off : nat) : Z.of_nat off / BSIZE = Z.of_nat (off / 512) ∧ Z.of_nat off mod BSIZE = Z.of_nat (off mod 512).
Proof. unfold BSIZE. change 512 with (Z.of_nat 512). by rewrite Nat2Z.inj_div, Nat2Z.inj_mod. Qed.

(** ** What a write to a file may change

    The file keeps the blocks it has and gets new ones only from the free ones;
    blocks in use that are not the file's, and the blocks below the free map
    other than the one of the inode itself, stay as they are. *)

Section touch.
  Context (ls sz : Z) (sb : superblock).
  Abbreviation used := (used sb).
  Abbreviation data_start := (data_start sb).
  Abbreviation inode_ok := (inode_ok sb).
  Abbreviation grow := (grow sb).

Record touch (V : list block) (x : inode) (V' : list block) (x' : inode) : Prop := {
  to_len : length V' = length V;
  to_inode : x' = x <| i_addrs := i_addrs x' |> <| i_size := i_size x' |>;
  to_ok : inode_ok V' x';
  to_meta : meta_ok sb V → meta_ok sb V';
  to_slot j : (j < nslots)%nat → slot V x j ≠ 0 → slot V' x' j = slot V x j;
  to_fresh j : (j < nslots)%nat → slot V x j = 0 → slot V' x' j ≠ 0 → used V (slot V' x' j) = false;
  to_used n : 0 ≤ n < sb_size sb → used V n = true → used V' n = true;
  to_data n : 0 < n < sb_size sb → data_start ≤ n → used V n = true →
    (∀ j, (j < nslots)%nat → n ≠ slot V x j) → V' !! Z.to_nat n = V !! Z.to_nat n;
  to_low n : 0 ≤ n < sb_bmapstart sb → n ≠ IBLOCK (i_inum x) sb → V' !! Z.to_nat n = V !! Z.to_nat n
}.

Lemma grow_touch V x V' x' : grow V x V' x' → touch V x V' x'.
Proof.
  intros [A1 A2 A3 A4 A5 A6 A7 A8 A9]. split; try done.
  - rewrite A2 at 1. rewrite A2. destruct x; by usetf.
  - intros n Hn Hd Hu Hs. apply A8; try done; [lia|]. apply Hs. unfold nslots. lia.
  - intros n Hn _. by apply A9.
Qed.

Lemma touch_trans V1 x1 V2 x2 V3 x3 :
  inode_ok V1 x1 → touch V1 x1 V2 x2 → touch V2 x2 V3 x3 → touch V1 x1 V3 x3.
Proof.
  intros Hok [B1 B2 B3 B4 B5 B5' B6 B7 B8] [A1 A2 A3 A4 A5 A5' A6 A7 A8]. split; try done.
  - congruence.
  - rewrite A2 at 1. rewrite B2. destruct x1; by usetf.
  - by auto.
  - intros j Hj Hs. rewrite A5, B5; try done. by rewrite B5.
  - intros j Hj Hs Hs3. destruct (decide (slot V2 x2 j = 0)) as [E|E].
    + specialize (A5' j Hj E Hs3). destruct (used V1 (slot V3 x3 j)) eqn:Hu; [|done].
      rewrite B6 in A5'; [done|by apply A3|done].
    + rewrite A5 by done. by apply B5'.
  - by auto.
  - intros n Hn Hd Hu Hne. rewrite A7, B7; try done; [apply B6; [lia|done]|].
    intros j Hj ->. destruct (decide (slot V1 x1 j = 0)) as [E|E]; [|by apply (Hne j Hj), B5].
    destruct (decide (slot V2 x2 j = 0)) as [E2|E2]; [lia|].
    rewrite B5' in Hu by done. done.
  - intros n Hn Hi. rewrite A8, B8; try done.
    replace (i_inum x2) with (i_inum x1); [done|]. rewrite B2. by rsimpl.
Qed.

Context (size : nat) (Hg : geometry ls sz size) (Hlay : layout ls sz sb size).

(** The contents of one of the file's data blocks change. *)
Lemma touch_block V x j d :
  inode_ok V x → length V = size → (j < nslots)%nat → j ≠ 12%nat → slot V x j ≠ 0 →
  let V' := <[Z.to_nat (slot V x j) := d]> V in
  touch V x V' x ∧ (∀ j', (j' < nslots)%nat → slot V' x j' = slot V x j') ∧
  (∀ n, 0 ≤ n < sb_size sb → used V' n = used V n).
Proof using Hg Hlay.
  intros Hok Hl Hj Hj12 Hs V'. pose proof (data_start_bmap ls sz sb size Hg Hlay) as Hdb.
  destruct (sb_small ls sz sb size Hg Hlay) as [Hsb Hsm].
  destruct (in_data _ _ _ Hok j Hj Hs) as (H1 & H2 & H3).
  assert (Hslot : ∀ j', (j' < nslots)%nat → slot V' x j' = slot V x j').
  { intros j' Hj'. destruct (decide (j' < 13)%nat); [by rewrite !slot_addr|].
    rewrite (slot_entry V x j'), slot_entry by lia. rewrite (slot_addr V' x 12), <- (slot_addr V x 12) by lia.
    destruct (Z.eqb_spec (slot V x 12) 0) as [|E]; [done|].
    unfold V'. rewrite list_lookup_insert_ne; [done|]. intros E2. apply Hj12.
    apply (in_inj _ _ _ Hok j 12); try done; [unfold nslots; lia|].
    destruct (in_data _ _ _ Hok 12 ltac:(unfold nslots; lia) E). lia. }
  assert (Hused : ∀ n, 0 ≤ n < sb_size sb → used V' n = used V n).
  { intros n Hn. unfold V'. by apply (used_insert ls sz sb size Hg Hlay). }
  split_and!; [|done|done]. split.
  - unfold V'. by rewrite length_insert.
  - destruct x; by usetf.
  - split; try apply Hok.
    + intros j' Hj'. rewrite Hslot by done. intros Hne. destruct (in_data _ _ _ Hok j' Hj' Hne) as (G1 & G2 & G3).
      rewrite Hused by done. done.
    + intros j1 j2 G1 G2. rewrite !Hslot by done. by apply Hok.
  - intros [Hm (d1 & Hd1 & Hsbd)]. split.
    + intros n Hn. rewrite Hused by (pose proof (lay_bmap _ _ _ _ Hlay); lia). by apply Hm.
    + exists d1. split; [|done]. rewrite <- Hd1. unfold V'. apply list_lookup_insert_ne. lia.
  - intros j' Hj' _. by apply Hslot.
  - intros j' Hj' E. by rewrite Hslot, E by done.
  - intros n Hn. by rewrite Hused.
  - intros n Hn Hd Hu Hne. unfold V'. apply list_lookup_insert_ne. specialize (Hne j Hj). lia.
  - intros n Hn _. unfold V'. apply list_lookup_insert_ne. lia.
Qed.
End touch.

Section contents.
  Context {D : DiskDriver} {L : DiskLaws D}.
  Context (ls sz : Z) (sb : superblock).
  Abbreviation fstx := (fstx ls sz sb).
  Abbreviation budget := (budget sz).
  Abbreviation inode_ok := (inode_ok sb).
  Abbreviation on_inode := (on_inode ls sz sb).
  Abbreviation free_blocks := (free_blocks sb).

(** ** [readi] *)

Lemma readi_loop_ok it fuel i (off n : nat) w V bl x l got e :
  on_inode i w V bl x → file_is V x l → (off + n ≤ length l)%nat →
  (n ≠ 0 → off mod 512 + n ≤ 512 * it)%nat → (it ≤ fuel)%nat →
  ∃ w', readi_loop fuel i (Z.of_nat off) (Z.of_nat n) got (KS w e) = Ok (got ++ slice off n l) (KS w' e) ∧
    on_inode i w' V bl x ∧ tx_step w w'.
Proof.
  intros Hoi Hfi. revert fuel off n w got Hoi. induction it as [|it IH]; intros fuel off n w got Hoi Hl Hit Hfuel.
  all: destruct (decide (n = 0%nat)) as [->|Hn].
  1, 3: exists w; destruct fuel; cbn [readi_loop Z.of_nat]; unfold slice; rewrite take_0, app_nil_r;
    split_and!; try done; apply tx_step_refl.
  1: lia.
  specialize (Hit Hn). destruct fuel as [|fuel]; [lia|]. cbn [readi_loop]. rewrite (proj2 (Z.leb_gt _ 0)) by lia.
  pose proof Hoi as [Hf Hly Hme Hok Hat]. erewrite bind_ok; [|by apply geti_eq].
  destruct (off_div off) as [-> ->].
  pose proof (fi_max _ _ _ Hfi) as Hmax. change (MAXFILE * BSIZE) with 71680 in Hmax.
  pose proof (fblock_lt off ltac:(change (MAXFILE * BSIZE) with 71680; lia)) as Hjl.
  pose proof (fi_mapped V x l off Hfi ltac:(lia)) as Hs.
  destruct (bmap_mapped ls sz sb i (Z.of_nat (off / 512)) w V bl x e Hoi) as (w1 & Hr1 & Ho1 & S1).
  { change MAXFILE with 140. split; [lia|]. assert (off / 512 < 140)%nat; [|lia].
    apply Nat.Div0.div_lt_upper_bound. lia. }
  { by rewrite Nat2Z.id. }
  rewrite Nat2Z.id in Hr1. kcall Hr1. rewrite (in_dev _ _ _ Hok).
  pose proof Ho1 as [Hf1 _ _ _ Hat1].
  destruct (slot_block ls sz sb w1 V bl x _ Hf1 Hly Hok Hjl Hs) as (d & Hd & Hdb & _ & Hd0).
  destruct (tx_look ls sz sb w1 V bl ∅ _ d e Hf1 Hd0 Hd) as
    (bp & w2 & y & w3 & Hr2 & Hy & Hyd & S2 & Hr3 & Hf3 & S3); [done|by eapply tx_room|].
  kcall Hr2. erewrite bind_ok; [|by apply getb_eq]. kcall Hr3. rewrite Hyd.
  pose proof (Nat.mod_upper_bound off 512). pose proof (Nat.div_mod_eq off 512).
  set (m := Nat.min n (512 - off mod 512)).
  assert (Hm : Z.min (Z.of_nat n) (BSIZE - Z.of_nat (off mod 512)) = Z.of_nat m).
  { unfold m, BSIZE. lia. }
  rewrite Hm, !Nat2Z.id, <- Nat2Z.inj_add, <- Nat2Z.inj_sub by lia.
  rewrite (piece_eq V x l off m d Hfi) by (done || lia).
  destruct (IH fuel (off + m)%nat (n - m)%nat w3 (got ++ slice off m l)) as (w4 & Hr4 & Ho4 & S4).
  - eapply on_inode_step; [done|done|by tstep].
  - lia.
  - intros Hmn. assert (m = 512 - off mod 512)%nat as Em by lia.
    replace (off + m)%nat with (S (off / 512) * 512)%nat by lia. rewrite Nat.Div0.mod_mul. lia.
  - lia.
  - exists w4. split_and!; [|done|by tstep]. rewrite Hr4. f_equal. rewrite <- app_assoc. f_equal.
    unfold slice. rewrite <- (drop_drop l m off). rewrite take_take_drop. f_equal. lia.
Qed.

(** Reading: the bytes from [off] on, at most [n]. *)
Lemma readi_ok i (off n : nat) w V bl x l e :
  on_inode i w V bl x → file_is V x l → i_type x ≠ T_DEV →
  (off ≤ length l)%nat → Z.of_nat (off + n) < 2 ^ 32 →
  ∃ w', readi i (Z.of_nat off) (Z.of_nat n) (KS w e) =
          Ok (Z.of_nat (length (slice off n l)), slice off n l) (KS w' e) ∧
    on_inode i w' V bl x ∧ tx_step w w'.
Proof.
  intros Hoi Hfi Hty Hoff Hn. pose proof Hoi as [Hf Hly Hme Hok Hat].
  unfold readi. erewrite bind_ok; [|by apply geti_eq].
  rewrite (proj2 (Z.eqb_neq _ _)) by done. rewrite (fi_size _ _ _ Hfi), u32_small by lia.
  rewrite Z.gtb_ltb, (proj2 (Z.ltb_ge (Z.of_nat (length l)) _)) by lia.
  rewrite (proj2 (Z.ltb_ge (_ + _) _)) by lia. cbn [orb].
  set (n' := Nat.min n (length l - off)).
  replace (if _ >? _ then _ else _) with (Z.of_nat n').
  2: { unfold n'. destruct (Z.gtb_spec (Z.of_nat off + Z.of_nat n) (Z.of_nat (length l))); lia. }
  assert (Hsl : slice off n' l = slice off n l).
  { unfold slice, n'. rewrite <- length_drop. by rewrite <- take_take, (take_ge (drop off l)). }
  destruct (readi_loop_ok (Z.to_nat ((Z.of_nat off mod BSIZE + Z.of_nat n') / BSIZE) + 1)
    (blocks_fuel (Z.of_nat off) (Z.of_nat n')) i off n' w V bl x l [] e Hoi Hfi) as (w' & Hr & Ho' & Hs').
  { lia. }
  { intros _. destruct (off_div off) as [_ ->]. unfold BSIZE.
    pose proof (Z.div_mod (Z.of_nat (off mod 512) + Z.of_nat n') 512).
    pose proof (Z.mod_pos_bound (Z.of_nat (off mod 512) + Z.of_nat n') 512). lia. }
  { unfold blocks_fuel. lia. }
  kcall Hr. exists w'. split_and!; [|done|done]. cbn [app]. rewrite Hsl.
  unfold mret, M_ret. f_equal. f_equal.
  pose proof (fi_max _ _ _ Hfi) as Hmax. change (MAXFILE * BSIZE) with 71680 in Hmax.
  rewrite <- Hsl. rewrite length_slice by lia. apply s32_small. lia.
Qed.
End contents.
