(* ===== verification/FsWrite.v ===== *)
(** * Writing files

    [writei] and [iupdate] inside a transaction: the bytes of the file from the
    offset on become the bytes written, the file grows where the write goes
    beyond its end, and the inode on disk is the inode in memory again. *)

From S2P Require Import Prelude Kernel Bytes Spinlock Sched Sleeplock Disk Bio Bcache Log LogSpec LogCrash LogTx Inode FsTx Fs FsFile.

Section bytes.
  Context (ls sz : Z) (sb : superblock).
  Context (size : nat) (Hg : geometry ls sz size) (Hlay : layout ls sz sb size).

(** Growing keeps the bytes the file has. *)
Lemma grow_fbyte V x V' x' p c :
  inode_ok sb V x → grow sb V x V' x' → Z.of_nat p < MAXFILE * BSIZE →
  fbyte V x p = Some c → fbyte V' x' p = Some c.
Proof.
  intros Hok Hgr Hp Hc. unfold fbyte in *. pose proof (fblock_lt p Hp) as Hj.
  destruct (Z.eqb_spec (slot V x (fslot (p / 512))) 0) as [|E]; [done|].
  rewrite (gr_slot _ _ _ _ _ Hgr) by done. rewrite (proj2 (Z.eqb_neq _ 0)) by done.
  destruct (in_data _ _ _ Hok _ Hj E) as (H1 & H2 & H3).
  rewrite (gr_data _ _ _ _ _ Hgr); try done. intros E2.
  assert (fslot (p / 512) = 12%nat) as E3.
  { apply (in_inj _ _ _ Hok _ 12); try done. unfold nslots. lia. }
  revert E3. unfold fslot. case_decide; lia.
Qed.

Lemma div_eq (p q k : nat) : (p / 512 = k)%nat → (q / 512 = k)%nat → (p mod 512 = q mod 512)%nat → p = q.
Proof. pose proof (Nat.div_mod_eq p 512). pose proof (Nat.div_mod_eq q 512). lia. Qed.

(** The bytes after a write of [s] at [off] within one block. *)
Lemma write_fbyte V x off s d p :
  inode_ok sb V x → length V = size → Z.of_nat off < MAXFILE * BSIZE → Z.of_nat p < MAXFILE * BSIZE →
  slot V x (fslot (off / 512)) ≠ 0 → V !! Z.to_nat (slot V x (fslot (off / 512))) = Some d → length d = 512%nat →
  (off mod 512 + length s ≤ 512)%nat →
  fbyte (<[Z.to_nat (slot V x (fslot (off / 512))) := splice (off mod 512) s d]> V) x p =
    if decide (off ≤ p < off + length s)%nat then s !! (p - off)%nat else fbyte V x p.
Proof using Hg Hlay.
  intros Hok Hl Hoff Hp Hs Hd Hld Hfit. pose proof (fblock_lt off Hoff) as Hj. pose proof (fblock_lt p Hp) as Hjp.
  destruct (touch_block ls sz sb size Hg Hlay V x (fslot (off / 512)) (splice (off mod 512) s d) Hok Hl Hj)
    as (_ & Hslot & _); [unfold fslot; case_decide; lia|done|].
  set (V' := <[_ := _]> V) in *. unfold fbyte. rewrite Hslot by done.
  destruct (in_data _ _ _ Hok _ Hj Hs) as (H1 & _). pose proof (lay_size _ _ _ _ Hlay).
  pose proof (Nat.div_mod_eq p 512). pose proof (Nat.div_mod_eq off 512).
  pose proof (Nat.mod_upper_bound p 512). pose proof (Nat.mod_upper_bound off 512).
  destruct (decide (p / 512 = off / 512)%nat) as [E|E].
  - rewrite E. rewrite (proj2 (Z.eqb_neq _ 0)) by done. unfold V'.
    rewrite list_lookup_insert_eq by lia. rewrite Hd. cbn [mbind option_bind].
    rewrite lookup_splice by lia.
    destruct (decide (off ≤ p < off + length s)%nat); [rewrite decide_True by lia; f_equal; lia|].
    rewrite decide_False by lia. done.
  - rewrite decide_False.
    2: { intros [Ha Hb]. apply E. symmetry. apply (Nat.div_unique _ _ _ (off mod 512 + (p - off))); lia. }
    destruct (Z.eqb_spec (slot V x (fslot (p / 512))) 0) as [|E2]; [done|].
    unfold V'. rewrite list_lookup_insert_ne; [done|]. intros E3. apply E, fslot_inj.
    destruct (in_data _ _ _ Hok _ Hjp E2) as (G2 & _).
    apply (in_inj _ _ _ Hok); try done. lia.
Qed.
End bytes.

Lemma free_blocks_ext sb V V' :
  (∀ n, 0 ≤ n < sb_size sb → used sb V' n = used sb V n) → free_blocks sb V' = free_blocks sb V.
Proof. intros H. apply filter_ext_on. intros n Hn%elem_of_seqZ. rewrite H by lia. done. Qed.

Section writei.
  Context {D : DiskDriver} {L : DiskLaws D}.
  Context (ls sz : Z) (sb : superblock).
  Abbreviation fstx := (fstx ls sz sb).
  Abbreviation budget := (budget sz).
  Abbreviation inode_ok := (inode_ok sb).
  Abbreviation on_inode := (on_inode ls sz sb).
  Abbreviation free_blocks := (free_blocks sb).
  Abbreviation touch := (touch sb).

(** What the copy loop has done when it has written [src] at [off]. *)
Record wrote (off : nat) (src : list Z) (i : nat) (w : world) (V : list block) (x : inode)
    (w' : world) (V' : list block) (x' : inode) : Prop := {
  wr_touch : touch V x V' x';
  wr_inode : x' = x <| i_addrs := i_addrs x' |>;
  wr_step : fi_step w w';
  wr_at : w_inodes w' = <[i := x']> (w_inodes w);
  wr_in p : (off ≤ p < off + length src)%nat → fbyte V' x' p = src !! (p - off)%nat;
  wr_out p c : (p < off ∨ off + length src ≤ p)%nat → Z.of_nat p < MAXFILE * BSIZE →
    fbyte V x p = Some c → fbyte V' x' p = Some c;
  wr_low n : 0 ≤ n < sb_bmapstart sb → V' !! Z.to_nat n = V !! Z.to_nat n;
  wr_same : (∀ p, (off ≤ p < off + length src)%nat → slot V x (fslot (p / 512)) ≠ 0) → x' = x
}.

Lemma wrote_nil off i w V bl x : on_inode i w V bl x → wrote off [] i w V x w V x.
Proof.
  intros [Hf Hl Hm Hok Hat]. split; try done.
  - by apply grow_touch, grow_refl.
  - destruct x; by usetf.
  - apply fi_step_refl.
  - by rewrite list_insert_id.
  - intros p Hp. cbn in Hp. lia.
Qed.

(** The pieces of a write, one after the other. *)
Lemma wrote_app off s1 s2 i w V bl x w1 V1 x1 w2 V2 x2 :
  on_inode i w V bl x → (0 < length s1)%nat → Z.of_nat (off + length s1 + length s2) ≤ MAXFILE * BSIZE →
  wrote off s1 i w V x w1 V1 x1 → wrote (off + length s1) s2 i w1 V1 x1 w2 V2 x2 →
  wrote off (s1 ++ s2) i w V x w2 V2 x2.
Proof.
  intros Hoi Hs1 Hmax [A1 A2 A3 A4 A5 A6 A7 A8] [B1 B2 B3 B4 B5 B6 B7 B8].
  pose proof (oi_ok _ _ _ _ _ _ _ _ Hoi) as Hok. split; rewrite ?length_app.
  - by eapply touch_trans.
  - rewrite B2 at 1. rewrite A2 at 1. destruct x; by usetf.
  - by eapply fi_step_trans.
  - by rewrite B4, A4, list_insert_insert_eq.
  - intros p Hp. destruct (decide (p < off + length s1)%nat).
    + rewrite lookup_app_l by lia. destruct (lookup_lt_is_Some_2 s1 (p - off)) as [c Hc]; [lia|].
      rewrite Hc. apply B6; [lia|lia|]. rewrite A5 by lia. done.
    + rewrite lookup_app_r by lia. rewrite B5 by lia. f_equal. lia.
  - intros p c Hp Hpm Hc. apply B6; [lia|done|]. apply A6; [lia|done|done].
  - intros n Hn. by rewrite B7, A7.
  - intros Hall. assert (x1 = x) as -> by (apply A8; intros p Hp; apply Hall; lia).
    apply B8. intros p Hp E. apply (Hall p); [lia|].
    destruct (decide (slot V x (fslot (p / 512)) = 0)) as [|E2]; [done|].
    rewrite (to_slot _ _ _ _ _ A1) in E; try done. apply fblock_lt. lia.
Qed.

(** One turn of the loop: [s] at [off], within one block. *)
Definition write_piece (i : nat) (off : Z) (s : list Z) : K unit :=
  x ← geti i;
  a ← bmap i (off / BSIZE);
  bp ← bread (i_dev x) a;
  modb bp (λ y, y <| b_data ::= splice (Z.to_nat (off mod BSIZE)) s |>) ;;
  log_write bp ;;
  brelse bp.

Lemma writei_loop_eq f i off src st :
  src ≠ [] → writei_loop (S f) i off src st =
    (let m := Z.min (Z.of_nat (length src)) (BSIZE - off mod BSIZE) in
     write_piece i off (take (Z.to_nat m) src) ;;
     writei_loop f i (off + m) (drop (Z.to_nat m) src)) st.
Proof.
  intros Hs. destruct src as [|c src]; [done|]. cbn [writei_loop]. cbv zeta. unfold write_piece, mbind, M_bind.
  repeat (match goal with |- context [match ?m ?s with Ok _ _ => _ | Stop _ _ => _ end] => destruct (m s) end;
    try done).
Qed.

Lemma write_piece_ok i (off : nat) s w V bl x e :
  on_inode i w V bl x → Forall is_byte s → (0 < length s)%nat → (off mod 512 + length s ≤ 512)%nat →
  Z.of_nat (off + length s) ≤ MAXFILE * BSIZE → budget bl 6 → (2 ≤ length (free_blocks V))%nat →
  ∃ w' V' bl' x', write_piece i (Z.of_nat off) s (KS w e) = Ok tt (KS w' e) ∧
    on_inode i w' V' bl' x' ∧ wrote off s i w V x w' V' x' ∧
    (length bl' ≤ 6 + length bl)%nat ∧ (length (free_blocks V) ≤ 2 + length (free_blocks V'))%nat.
Proof.
  intros Hoi Hsb Hs0 Hfit Hmax Hbud Hfree. pose proof Hoi as [Hf Hl Hme Hok Hat].
  unfold write_piece. destruct (off_div off) as [-> ->]. rewrite Nat2Z.id.
  erewrite bind_ok; [|by apply geti_eq]. rewrite (in_dev _ _ _ Hok).
  pose proof (fblock_lt off ltac:(lia)) as Hj.
  destruct (bmap_ok ls sz sb i (Z.of_nat (off / 512)) w V bl x e Hoi)
    as (a & w1 & V1 & bl1 & x1 & Hr1 & Ho1 & G1 & Sl1 & N1 & F1 & I1 & B1 & L1 & E1).
  { change MAXFILE with 140. change (MAXFILE * BSIZE) with 71680 in Hmax. split; [lia|].
    assert (off / 512 < 140)%nat; [|lia]. apply Nat.Div0.div_lt_upper_bound. lia. }
  { eapply budget_le; [done|lia]. }
  { right. lia. }
  rewrite Nat2Z.id in *. kcall Hr1. pose proof Ho1 as [Hf1 Hl1 Hme1 Hok1 Hat1]. subst a.
  pose proof (fstx_geom _ _ _ _ _ _ _ Hf1) as Hg1.
  destruct (slot_block ls sz sb w1 V1 bl1 x1 _ Hf1 Hl1 Hok1 Hj N1) as (d & Hd & Hdb & Hdh & Hd0).
  pose proof (length_block d Hdb) as Hld.
  destruct (tx_update ls sz sb w1 V1 bl1 ∅ _ d (splice (off mod 512) s) e Hf1 Hdh)
    as (bp & w2 & w3 & y & Hr2 & _ & _ & S2 & Hr3 & Hf3 & S3).
  { pose proof (data_start_bmap ls sz sb (length V1) Hg1 Hl1). destruct (sb_small ls sz sb (length V1) Hg1 Hl1).
    destruct (in_data _ _ _ Hok1 _ Hj N1). lia. }
  { done. }
  { split; [rewrite length_splice; [done|lia]|]. apply splice_bytes; [done|apply Hdb]. }
  { done. }
  { by eapply tx_room. }
  { unfold FsTx.budget in *. lia. }
  kcall Hr2. set (j := fslot (off / 512)) in *. set (V3 := <[_ := _]> V1) in *.
  destruct (touch_block ls sz sb (length V1) Hg1 Hl1 V1 x1 j (splice (off mod 512) s d) Hok1 eq_refl Hj)
    as (T3 & Sl3 & U3); [unfold j, fslot; case_decide; lia|done|]. fold V3 in T3, Sl3, U3.
  exists w3, V3, (logged (slot V1 x1 j) bl1), x1.
  assert (Hi3 : w_inodes w3 = w_inodes w1) by (apply ts_inodes; by tstep).
  split_and!.
  - exact Hr3.
  - split; try done.
    + by rewrite (to_len _ _ _ _ _ T3).
    + by apply (to_meta _ _ _ _ _ T3).
    + apply (to_ok _ _ _ _ _ T3).
    + by rewrite Hi3.
  - split.
    + eapply touch_trans; [done|by apply grow_touch|done].
    + apply G1.
    + by fistep.
    + by rewrite Hi3.
    + intros p Hp. unfold V3, j. rewrite (write_fbyte ls sz sb (length V1) Hg1 Hl1) by (done || lia).
      by rewrite decide_True.
    + intros p c Hp Hpm Hc. unfold V3, j. rewrite (write_fbyte ls sz sb (length V1) Hg1 Hl1) by (done || lia).
      rewrite decide_False by lia. by apply (grow_fbyte sb V x).
    + intros n Hn. unfold V3. destruct (in_data _ _ _ Hok1 j Hj N1) as (H1 & H2 & _).
      pose proof (data_start_bmap ls sz sb (length V1) Hg1 Hl1).
      rewrite list_lookup_insert_ne by lia. by apply (gr_low _ _ _ _ _ G1).
    + intros Hall. apply E1. apply Hall. lia.
  - pose proof (logged_length (slot V1 x1 j) bl1). lia.
  - by rewrite (free_blocks_ext sb V1 V3).
Qed.

Lemma writei_loop_ok it fuel i (off : nat) src w V bl x e :
  on_inode i w V bl x → Forall is_byte src → Z.of_nat (off + length src) ≤ MAXFILE * BSIZE →
  (src ≠ [] → off mod 512 + length src ≤ 512 * it)%nat → (it ≤ fuel)%nat →
  budget bl (6 * it) → (2 * it ≤ length (free_blocks V))%nat →
  ∃ w' V' bl' x', writei_loop fuel i (Z.of_nat off) src (KS w e) = Ok (Z.of_nat (off + length src)) (KS w' e) ∧
    on_inode i w' V' bl' x' ∧ wrote off src i w V x w' V' x' ∧ (length bl' ≤ 6 * it + length bl)%nat.
Proof.
  revert fuel off src w V bl x. induction it as [|it IH]; intros fuel off src w V bl x Hoi Hsb Hmax Hit Hfuel Hbud Hfree.
  all: destruct (decide (src = [])) as [->|Hsrc].
  1, 3: exists w, V, bl, x; destruct fuel; cbn [writei_loop length]; rewrite Nat.add_0_r;
    (split_and!; [done|done|by eapply wrote_nil|lia]).
  1: { specialize (Hit Hsrc). destruct src; cbn in *; [done|lia]. }
  specialize (Hit Hsrc). destruct fuel as [|fuel]; [lia|]. rewrite writei_loop_eq by done. cbv zeta.
  assert (Hls : (0 < length src)%nat) by (destruct src; [done|cbn; lia]).
  pose proof (Nat.mod_upper_bound off 512). pose proof (Nat.div_mod_eq off 512).
  set (m := Nat.min (length src) (512 - off mod 512)).
  replace (Z.min _ _) with (Z.of_nat m).
  2: { destruct (off_div off) as [_ ->]. unfold m, BSIZE. lia. }
  rewrite Nat2Z.id, <- Nat2Z.inj_add.
  assert (Hlt : length (take m src) = m) by (rewrite length_take; lia).
  destruct (write_piece_ok i off (take m src) w V bl x e Hoi) as (w1 & V1 & bl1 & x1 & Hr1 & Ho1 & W1 & B1 & L1);
    rewrite ?Hlt; try lia.
  { by apply Forall_take. }
  { eapply budget_le; [done|lia]. }
  kcall Hr1.
  destruct (IH fuel (off + m)%nat (drop m src) w1 V1 bl1 x1 Ho1) as (w2 & V2 & bl2 & x2 & Hr2 & Ho2 & W2 & B2);
    rewrite ?length_drop; try lia.
  { by apply Forall_drop. }
  { intros Hne. assert (m = 512 - off mod 512)%nat as Em.
    { destruct (decide (m = length src)) as [E|]; [|lia]. rewrite E, drop_all in Hne. done. }
    replace (off + m)%nat with (S (off / 512) * 512)%nat by lia. rewrite Nat.Div0.mod_mul. lia. }
  { unfold FsTx.budget in *. lia. }
  rewrite Hr2. exists w2, V2, bl2, x2. split_and!; [| done | |lia].
  - rewrite length_drop. do 2 f_equal. lia.
  - rewrite <- (take_drop m src). eapply wrote_app; [done|rewrite Hlt; lia| |done|by rewrite Hlt].
    rewrite Hlt, length_drop. lia.
Qed.

(** ** [iupdate] *)

Lemma IBLOCK_eq (size : nat) inum :
  geometry ls sz size → layout ls sz sb size → 0 ≤ inum < sb_ninodes sb →
  sb_inodestart sb ≤ IBLOCK inum sb < sb_bmapstart sb ∧ 1 < IBLOCK inum sb ∧ home ls sz size (IBLOCK inum sb).
Proof.
  intros Hg Hl Hi. destruct (sb_small ls sz sb size Hg Hl) as [Hsb Hsm]. pose proof (data_start_bmap ls sz sb size Hg Hl).
  destruct Hg, Hl as [H0 [H1 H2] H3 H4].
  assert (0 ≤ inum / IPB ≤ (sb_ninodes sb - 1) / IPB).
  { split; [apply Z.div_pos; [lia|done]|apply Z.div_le_mono; [done|lia]]. }
  unfold IBLOCK. rewrite u32_small by lia. unfold home. lia.
Qed.

(** The inode on disk is the inode in memory. *)
Definition synced (V : list block) (x : inode) : Prop :=
  ∃ d, V !! Z.to_nat (IBLOCK (i_inum x) sb) = Some d ∧ load_dinode d x = x.

Lemma load_put_dinode d x : fields_ok x → blk d → load_dinode (put_dinode (dip_off (i_inum x)) x d) x = x.
Proof.
  intros Hx Hd. unfold load_dinode. pose proof (length_block d Hd).
  destruct (dinode_fields (dip_off (i_inum x)) x d Hx) as (-> & -> & -> & -> & -> & ->).
  - unfold dip_off, IPB, BSIZE. change (512 / 64) with 8. pose proof (Z.mod_pos_bound (i_inum x) 8). lia.
  - destruct x; by usetf.
Qed.

Lemma touch_low (V : list block) x d :
  geometry ls sz (length V) → layout ls sz sb (length V) → inode_ok V x → 0 ≤ i_inum x < sb_ninodes sb →
  let V' := <[Z.to_nat (IBLOCK (i_inum x) sb) := d]> V in
  touch V x V' x ∧ (∀ p, Z.of_nat p < MAXFILE * BSIZE → fbyte V' x p = fbyte V x p).
Proof.
  intros Hg Hl Hok Hi V'. destruct (IBLOCK_eq (length V) (i_inum x) Hg Hl Hi) as (Hib & Hi1 & _).
  pose proof (data_start_bmap ls sz sb (length V) Hg Hl) as Hdb. pose proof (lay_bmap _ _ _ _ Hl).
  assert (Hdata : ∀ n, sb_bmapstart sb ≤ n → V' !! Z.to_nat n = V !! Z.to_nat n).
  { intros n Hn. unfold V'. apply list_lookup_insert_ne. lia. }
  assert (Hslot : ∀ j, (j < nslots)%nat → slot V' x j = slot V x j).
  { intros j Hj. destruct (decide (j < 13)%nat); [by rewrite !slot_addr|].
    rewrite (slot_entry V x j), slot_entry by lia. rewrite (slot_addr V' x 12), <- (slot_addr V x 12) by lia.
    destruct (Z.eqb_spec (slot V x 12) 0) as [|E]; [done|].
    destruct (in_data _ _ _ Hok 12 ltac:(unfold nslots; lia) E) as (H1 & H2 & _). by rewrite Hdata by lia. }
  assert (Hused : ∀ n, 0 ≤ n < sb_size sb → used sb V' n = used sb V n).
  { intros n Hn. unfold used. destruct (BBLOCK_eq ls sz sb (length V) Hg Hl n Hn) as (_ & Hm & _).
    by rewrite Hdata by lia. }
  split; [split|].
  - unfold V'. by rewrite length_insert.
  - destruct x; by usetf.
  - split; try apply Hok.
    + intros j Hj. rewrite Hslot by done. intros Hne. destruct (in_data _ _ _ Hok j Hj Hne) as (G1 & G2 & G3).
      rewrite Hused by done. done.
    + intros j1 j2 G1 G2. rewrite !Hslot by done. by apply Hok.
  - intros [Hm (d1 & Hd1 & Hsbd)]. split.
    + intros n Hn. rewrite Hused by lia. by apply Hm.
    + exists d1. split; [|done]. rewrite <- Hd1. unfold V'. apply list_lookup_insert_ne. lia.
  - intros j Hj _. by apply Hslot.
  - intros j Hj E. by rewrite Hslot, E by done.
  - intros n Hn. by rewrite Hused.
  - intros n Hn Hd Hu Hne. apply Hdata. lia.
  - intros n Hn Hne. unfold V'. apply list_lookup_insert_ne. lia.
  - intros p Hp. unfold fbyte. rewrite Hslot by by apply fblock_lt.
    destruct (Z.eqb_spec (slot V x (fslot (p / 512))) 0) as [|E]; [done|].
    destruct (in_data _ _ _ Hok _ (fblock_lt p Hp) E) as (H1 & H2 & _). by rewrite Hdata by lia.
Qed.

Lemma iupdate_ok i w V bl x e :
  on_inode i w V bl x → fields_ok x → 0 ≤ i_inum x < sb_ninodes sb → budget bl 1 →
  ∃ w' V', iupdate i (KS w e) = Ok tt (KS w' e) ∧
    on_inode i w' V' (logged (IBLOCK (i_inum x) sb) bl) x ∧ touch V x V' x ∧ synced V' x ∧ tx_step w w' ∧
    (∀ p, Z.of_nat p < MAXFILE * BSIZE → fbyte V' x p = fbyte V x p).
Proof.
  intros Hoi Hx Hi Hbud. pose proof Hoi as [Hf Hl Hme Hok Hat]. pose proof (fstx_geom _ _ _ _ _ _ _ Hf) as Hg.
  destruct (IBLOCK_eq (length V) (i_inum x) Hg Hl Hi) as (Hib & Hi1 & Hh).
  destruct (fstx_home _ _ _ _ _ _ _ _ Hf Hh) as [d Hd].
  assert (Hdb : blk d) by (by eapply fstx_blk).
  destruct (tx_update ls sz sb w V bl ∅ _ d (put_dinode (dip_off (i_inum x)) x) e Hf Hh)
    as (bp & w1 & w2 & y & Hr1 & _ & _ & S1 & Hr2 & Hf2 & S2); try done.
  { lia. }
  { apply put_dinode_blk; try done. pose proof (length_block d Hdb).
    unfold dip_off, IPB, BSIZE. change (512 / 64) with 8. pose proof (Z.mod_pos_bound (i_inum x) 8). lia. }
  { by eapply tx_room. }
  destruct (touch_low V x (put_dinode (dip_off (i_inum x)) x d) Hg Hl Hok Hi) as [T Hfb].
  exists w2, (<[Z.to_nat (IBLOCK (i_inum x) sb) := put_dinode (dip_off (i_inum x)) x d]> V). split_and!; try done.
  - unfold iupdate. erewrite bind_ok; [|by apply geti_eq]. kstep.
    rewrite (ft_sb _ _ _ _ _ _ _ Hf), (in_dev _ _ _ Hok). kcall Hr1.
    erewrite bind_ok; [|apply (geti_eq i x); by rewrite (ts_inodes _ _ S1)]. exact Hr2.
  - split; [done|by rewrite length_insert|by apply (to_meta _ _ _ _ _ T)|apply (to_ok _ _ _ _ _ T)|].
    rewrite (ts_inodes _ _ S2), (ts_inodes _ _ S1). done.
  - exists (put_dinode (dip_off (i_inum x)) x d). split; [|by apply load_put_dinode].
    apply list_lookup_insert_eq. destruct Hh. lia.
  - by tstep.
Qed.
End writei.
