(* ===== verification/FsContents.v ===== *)
(** * Files as byte strings

    The results on [readi] and [writei] put together: a file is a string of
    bytes, writing it leaves every other file alone, reading gives back what
    was written, and a write inside a transaction survives a crash entirely or
    not at all. *)

From S2P Require Import Prelude Kernel Bytes Spinlock Sched Sleeplock Disk Memide Bio Bcache Log LogSpec LogCrash LogTx Inode FsTx Fs FsFile FsWrite.

(** The number of blocks that [n] bytes at [off] touch. *)
Definition blocks_of (off n : nat) : nat :=
  if decide (n = 0%nat) then 0%nat else S ((off mod 512 + n - 1) / 512).

Lemma blocks_of_bound off n : (n ≠ 0 → off mod 512 + n ≤ 512 * blocks_of off n)%nat.
Proof.
  intros Hn. unfold blocks_of. rewrite decide_False by done.
  pose proof (Nat.div_mod_eq (off mod 512 + n - 1) 512). pose proof (Nat.mod_upper_bound (off mod 512 + n - 1) 512). lia.
Qed.

Lemma blocks_of_fuel off n : (blocks_of off n ≤ blocks_fuel (Z.of_nat off) (Z.of_nat n))%nat.
Proof.
  unfold blocks_of, blocks_fuel. case_decide; [lia|]. apply le_n_S. destruct (off_div off) as [_ ->].
  unfold BSIZE. rewrite <- Nat2Z.inj_add. change 512 with (Z.of_nat 512). rewrite <- Nat2Z.inj_div, Nat2Z.id.
  apply Nat.Div0.div_le_mono. lia.
Qed.

(** The types of an inode's fields. *)
Record inode_types (x : inode) : Prop := {
  it_type : short (i_type x);
  it_major : short (i_major x);
  it_minor : short (i_minor x);
  it_nlink : short (i_nlink x)
}.

Section contents.
  Context {D : DiskDriver} {L : DiskLaws D}.
  Context (ls sz : Z) (sb : superblock).
  Abbreviation fstx := (fstx ls sz sb).
  Abbreviation budget := (budget sz).
  Abbreviation inode_ok := (inode_ok sb).
  Abbreviation on_inode := (on_inode ls sz sb).
  Abbreviation free_blocks := (free_blocks sb).
  Abbreviation touch := (touch sb).
  Abbreviation synced := (synced sb).

Lemma inode_fields (size : nat) V x :
  geometry ls sz size → layout ls sz sb size → inode_ok V x → inode_types x → 0 ≤ i_size x < 2 ^ 32 → fields_ok x.
Proof.
  intros Hg Hl Hok [] Hs. split; try done; [apply Hok|]. apply Forall_lookup. intros k a Ha.
  destruct (decide (a = 0)) as [->|Hne]; [lia|]. assert (Hk : (k < 13)%nat).
  { apply lookup_lt_Some in Ha. rewrite (in_len _ _ _ Hok) in Ha. done. }
  assert (Hsl : slot V x k = a) by (rewrite slot_addr by done; by rewrite Ha).
  destruct (in_data _ _ _ Hok k) as (H1 & _); [unfold nslots; lia|by rewrite Hsl|]. rewrite Hsl in H1.
  destruct (sb_small ls sz sb size Hg Hl). lia.
Qed.

Lemma splice_length off src (l : list Z) : (off ≤ length l)%nat →
  length (splice off src l) = Nat.max (length l) (off + length src).
Proof. intros H. unfold splice. rewrite !length_app, length_take, length_drop. lia. Qed.

Lemma splice_lookup off src (l : list Z) p : (off ≤ length l)%nat →
  splice off src l !! p = if decide (off ≤ p < off + length src)%nat then src !! (p - off)%nat else l !! p.
Proof.
  intros Ho. unfold splice. case_decide as Hk.
  - rewrite lookup_app_r by (rewrite length_take; lia). rewrite length_take, Nat.min_l by lia.
    by rewrite lookup_app_l by lia.
  - destruct (decide (p < off)%nat).
    + rewrite lookup_app_l by (rewrite length_take; lia). by rewrite lookup_take_lt by lia.
    + rewrite lookup_app_r by (rewrite length_take; lia). rewrite length_take, Nat.min_l by lia.
      rewrite lookup_app_r by lia. rewrite lookup_drop. f_equal. lia.
Qed.

(** The contents after the copy loop, with the size the file then has. *)
Lemma wrote_contents off src i w V bl x w' V' x' l :
  on_inode i w V bl x → file_is V x l → (off ≤ length l)%nat →
  Z.of_nat (off + length src) ≤ MAXFILE * BSIZE → wrote sb off src i w V x w' V' x' →
  file_is V' (x' <| i_size := Z.of_nat (Nat.max (length l) (off + length src)) |>) (splice off src l).
Proof.
  intros Hoi Hfi Hoff Hmax Hw. pose proof (fi_max _ _ _ Hfi). split.
  - rsimpl. by rewrite splice_length.
  - rewrite splice_length by done. lia.
  - intros p Hp. rewrite splice_length in Hp by done. rewrite splice_lookup by done.
    assert (E : ∀ y z, i_addrs y = i_addrs z → fbyte V' y p = fbyte V' z p).
    { intros y z E. unfold fbyte, slot. by rewrite E. }
    rewrite (E _ x') by by rsimpl. case_decide as Hd; [by apply (wr_in _ _ _ _ _ _ _ _ _ _ Hw)|].
    destruct (lookup_lt_is_Some_2 l p) as [c Hc]; [lia|]. rewrite Hc.
    apply (wr_out _ _ _ _ _ _ _ _ _ _ Hw); [lia|lia|]. by rewrite (fi_byte _ _ _ Hfi) by lia.
Qed.

(** Changes of the in-memory size only. *)
Lemma inode_ok_size V x n : inode_ok V x → inode_ok V (x <| i_size := n |>).
Proof.
  intros [H1 H2 H3 H4]. assert (Hs : ∀ j, slot V (x <| i_size := n |>) j = slot V x j).
  { intros j. unfold slot. by rsimpl. }
  split; rsimpl; try done; intros *; rewrite ?Hs; auto.
Qed.

Lemma touch_size V x V' x' n : touch V x V' x' → touch V x V' (x' <| i_size := n |>).
Proof.
  assert (Hs : ∀ j, slot V' (x' <| i_size := n |>) j = slot V' x' j).
  { intros j. unfold slot. by rsimpl. }
  intros [H1 H2 H3 H4 H5 H6 H7 H8 H9]. split; try done.
  - rewrite H2. destruct x; by usetf.
  - by apply inode_ok_size.
Qed.

Lemma writei_ok i (off : nat) src w V bl x l e :
  on_inode i w V bl x → file_is V x l → synced V x → inode_types x → i_type x ≠ T_DEV →
  0 ≤ i_inum x < sb_ninodes sb → Forall is_byte src → (off ≤ length l)%nat →
  Z.of_nat (off + length src) ≤ MAXFILE * BSIZE → budget bl (S (6 * blocks_of off (length src))) →
  (2 * blocks_of off (length src) ≤ length (free_blocks V))%nat →
  ∃ w' V' bl' x', writei i src (Z.of_nat off) (KS w e) = Ok (Z.of_nat (length src)) (KS w' e) ∧
    on_inode i w' V' bl' x' ∧ file_is V' x' (splice off src l) ∧ synced V' x' ∧ touch V x V' x' ∧
    fi_step w w' ∧ w_inodes w' = <[i := x']> (w_inodes w) ∧
    (length bl' ≤ S (6 * blocks_of off (length src)) + length bl)%nat.
Proof.
  intros Hoi Hfi Hsy Hty Hdev Hi Hsb Hoff Hmax Hbud Hfree. pose proof Hoi as [Hf Hl Hme Hok Hat].
  pose proof (fi_size _ _ _ Hfi) as Hsz. pose proof (fi_max _ _ _ Hfi) as Hlm.
  change (MAXFILE * BSIZE) with 71680 in Hmax, Hlm.
  destruct (writei_loop_ok ls sz sb (blocks_of off (length src)) (blocks_fuel (Z.of_nat off) (Z.of_nat (length src)))
    i off src w V bl x e Hoi Hsb) as (w1 & V1 & bl1 & x1 & Hr1 & Ho1 & W1 & B1); try done.
  { intros Hne. apply blocks_of_bound. by destruct src. }
  { apply blocks_of_fuel. }
  { eapply budget_le; [done|lia]. }
  pose proof (wrote_contents off src i w V bl x w1 V1 x1 l Hoi Hfi Hoff Hmax W1) as Hfi1.
  pose proof Ho1 as [Hf1 Hl1 Hme1 Hok1 Hat1]. pose proof (fstx_geom _ _ _ _ _ _ _ Hf1) as Hg1.
  assert (Hx1 : i_size x1 = i_size x ∧ i_inum x1 = i_inum x ∧ i_type x1 = i_type x ∧ i_major x1 = i_major x ∧
                i_minor x1 = i_minor x ∧ i_nlink x1 = i_nlink x).
  { rewrite (wr_inode _ _ _ _ _ _ _ _ _ _ W1). by rsimpl. }
  destruct Hx1 as (Hxs & Hxi & Hxt & Hxma & Hxmi & Hxn).
  unfold writei. cbv zeta. erewrite bind_ok; [|by apply geti_eq].
  rewrite (proj2 (Z.eqb_neq _ _)) by done. rewrite Hsz, u32_small by lia.
  rewrite Z.gtb_ltb, (proj2 (Z.ltb_ge (Z.of_nat (length l)) _)) by lia.
  rewrite (proj2 (Z.ltb_ge (_ + _) _)) by lia. cbn [orb].
  rewrite Z.gtb_ltb, (proj2 (Z.ltb_ge (MAXFILE * BSIZE) _)) by (change (MAXFILE * BSIZE) with 71680; lia).
  kcall Hr1. erewrite bind_ok; [|by apply geti_eq]. rewrite Hxs, Hsz, s32_small by lia.
  set (n' := Nat.max (length l) (off + length src)) in *.
  destruct (decide (length l < off + length src)%nat) as [Hlt|Hge].
  - replace ((Z.of_nat (length src) >? 0) && _) with true.
    2: { symmetry. apply andb_true_iff. rewrite !Z.gtb_lt. lia. }
    rewrite bind_bind. unfold modi. rewrite bind_modw.
    set (x2 := x1 <| i_size := Z.of_nat (off + length src) |>).
    replace n' with (off + length src)%nat in Hfi1 by (unfold n'; lia). fold x2 in Hfi1.
    assert (Hin : w_inodes (w1 <| w_inodes ::= alter (λ x, x <| i_size := Z.of_nat (off + length src) |>) i |>) =
                  <[i := x2]> (w_inodes w)).
    { rsimpl. rewrite (alter_is_insert _ _ _ x1) by done. rewrite (wr_at _ _ _ _ _ _ _ _ _ _ W1).
      by rewrite list_insert_insert_eq. }
    set (w2 := w1 <| w_inodes ::= _ |>) in *.
    assert (Ho2 : on_inode i w2 V1 bl1 x2).
    { split; try done; [by apply fstx_inodes|by apply inode_ok_size|]. rewrite Hin.
      apply list_lookup_insert_eq. by eapply lookup_lt_Some. }
    destruct (iupdate_ok ls sz sb i w2 V1 bl1 x2 e Ho2) as (w3 & V3 & Hr3 & Ho3 & T3 & Sy3 & S3 & Fb3).
    { apply (inode_fields (length V1) V1); try done; [apply Ho2| |unfold x2; rsimpl; lia].
      destruct Hty. split; unfold x2; rsimpl; congruence. }
    { unfold x2. rsimpl. by rewrite Hxi. }
    { unfold FsTx.budget in *. lia. }
    kcall Hr3. exists w3, V3, (logged (IBLOCK (i_inum x2) sb) bl1), x2. split_and!; try done.
    + split; [apply Hfi1|apply Hfi1|]. intros p Hp. pose proof (fi_max _ _ _ Hfi1).
      rewrite Fb3 by lia. by apply (fi_byte _ _ _ Hfi1).
    + eapply touch_trans; [done| |exact T3]. apply touch_size. apply W1.
    + eapply fi_step_trans; [apply (wr_step _ _ _ _ _ _ _ _ _ _ W1)|].
      eapply fi_step_trans; [apply fi_step_modi|by apply fi_step_tx].
    + by rewrite (ts_inodes _ _ S3).
    + pose proof (logged_length (IBLOCK (i_inum x2) sb) bl1). lia.
  - replace ((Z.of_nat (length src) >? 0) && _) with false.
    2: { symmetry. apply andb_false_iff. right. rewrite Z.gtb_ltb. apply Z.ltb_ge. lia. }
    rewrite bind_ret.
    assert (x1 = x) as ->.
    { apply (wr_same _ _ _ _ _ _ _ _ _ _ W1). intros p Hp. apply (fi_mapped V x l p Hfi). lia. }
    exists w1, V1, bl1, x. split_and!; try done; try apply W1; try lia.
    + replace (x <| i_size := Z.of_nat n' |>) with x in Hfi1; [done|].
      unfold n'. rewrite Nat.max_l by lia. rewrite <- Hsz. destruct x; by usetf.
    + destruct Hsy as (d & Hd & Hld). exists d. split; [|done].
      pose proof (fstx_geom _ _ _ _ _ _ _ Hf) as Hg.
      destruct (IBLOCK_eq ls sz sb (length V) (i_inum x) Hg Hl Hi) as (Hib & Hi1 & _).
      rewrite (wr_low _ _ _ _ _ _ _ _ _ _ W1); [done|]. lia.
Qed.

(** ** Other files *)

(** No block belongs to both files. *)
Definition disjoint_files (V : list block) (x y : inode) : Prop :=
  ∀ j j', (j < nslots)%nat → (j' < nslots)%nat → slot V x j ≠ 0 → slot V x j ≠ slot V y j'.

Lemma touch_other (V V' : list block) x x' y :
  geometry ls sz (length V) → layout ls sz sb (length V) → inode_ok V y → disjoint_files V x y →
  touch V x V' x' →
  (∀ j, (j < nslots)%nat → slot V' y j = slot V y j) ∧
  (∀ p, Z.of_nat p < MAXFILE * BSIZE → fbyte V' y p = fbyte V y p) ∧
  inode_ok V' y ∧ disjoint_files V' x' y.
Proof.
  intros Hg Hl Hoky Hdis T. pose proof (data_start_bmap ls sz sb (length V) Hg Hl) as Hdb.
  destruct (sb_small ls sz sb (length V) Hg Hl) as [Hsb Hsm].
  assert (Hblock : ∀ j, (j < nslots)%nat → slot V y j ≠ 0 →
    V' !! Z.to_nat (slot V y j) = V !! Z.to_nat (slot V y j)).
  { intros j Hj Hne. destruct (in_data _ _ _ Hoky j Hj Hne) as (H1 & H2 & H3).
    apply (to_data _ _ _ _ _ T); try done; [lia|]. intros k Hk E. apply (Hdis k j Hk Hj); [congruence|done]. }
  assert (Hslot : ∀ j, (j < nslots)%nat → slot V' y j = slot V y j).
  { intros j Hj. destruct (decide (j < 13)%nat); [by rewrite !slot_addr|].
    rewrite (slot_entry V y j), slot_entry by lia. rewrite (slot_addr V' y 12), <- (slot_addr V y 12) by lia.
    destruct (Z.eqb_spec (slot V y 12) 0) as [|E]; [done|]. rewrite Hblock; [done| |done]. unfold nslots. lia. }
  split_and!; [done| | |].
  - intros p Hp. unfold fbyte. rewrite Hslot by by apply fblock_lt.
    destruct (Z.eqb_spec (slot V y (fslot (p / 512))) 0) as [|E]; [done|].
    rewrite Hblock; [done|by apply fblock_lt|done].
  - split; try apply Hoky.
    + intros j Hj. rewrite Hslot by done. intros Hne. destruct (in_data _ _ _ Hoky j Hj Hne) as (G1 & G2 & G3).
      split_and!; try done; try lia. by apply (to_used _ _ _ _ _ T).
    + intros j1 j2 G1 G2. rewrite !Hslot by done. by apply Hoky.
  - intros j j' Hj Hj' Hne. rewrite Hslot by done. intros E.
    destruct (decide (slot V x j = 0)) as [E0|E0].
    + pose proof (to_fresh _ _ _ _ _ T j Hj E0 Hne) as Hfr. rewrite E in Hfr.
      destruct (in_data _ _ _ Hoky j' Hj') as (_ & _ & Hu); [by rewrite <- E|congruence].
    + rewrite (to_slot _ _ _ _ _ T) in E by done. by apply (Hdis j j').
Qed.

(** C3: a file is a string of bytes.  In a transaction with room in the log and
    enough free blocks, [writei] of any bytes at any offset up to the end of
    the file, across direct and indirect blocks and block boundaries, returns
    their number and makes the contents the old ones with these bytes from the
    offset on, longer if the write goes beyond the end; the inode on disk is
    that of memory again; every other file keeps its contents; and [readi] then
    returns the bytes of the new contents at any offset, as many as there
    are. *)
Theorem file_write_read i (off : nat) src w V bl x l e :
  on_inode i w V bl x → file_is V x l → synced V x → inode_types x → i_type x ≠ T_DEV →
  0 ≤ i_inum x < sb_ninodes sb → Forall is_byte src → (off ≤ length l)%nat →
  Z.of_nat (off + length src) ≤ MAXFILE * BSIZE → budget bl (S (6 * blocks_of off (length src))) →
  (2 * blocks_of off (length src) ≤ length (free_blocks V))%nat →
  let l' := splice off src l in
  ∃ w' V' bl' x', writei i src (Z.of_nat off) (KS w e) = Ok (Z.of_nat (length src)) (KS w' e) ∧
    on_inode i w' V' bl' x' ∧ file_is V' x' l' ∧ synced V' x' ∧
    (∀ y k, inode_ok V y → disjoint_files V x y → file_is V y k →
       file_is V' y k ∧ inode_ok V' y ∧ disjoint_files V' x' y) ∧
    (∀ off' n, (off' ≤ length l')%nat → Z.of_nat (off' + n) < 2 ^ 32 →
       ∃ w'', readi i (Z.of_nat off') (Z.of_nat n) (KS w' e) =
         Ok (Z.of_nat (length (slice off' n l')), slice off' n l') (KS w'' e)).
Proof.
  intros Hoi Hfi Hsy Hty Hdev Hi Hsb Hoff Hmax Hbud Hfree l'.
  destruct (writei_ok i off src w V bl x l e) as (w' & V' & bl' & x' & Hr & Ho' & Hfi' & Hsy' & T & _); try done.
  exists w', V', bl', x'. split_and!; try done.
  - intros y k Hy Hd Hk. pose proof Hoi as [Hf Hl _ _ _]. pose proof (fstx_geom _ _ _ _ _ _ _ Hf) as Hg.
    destruct (touch_other V V' x x' y Hg Hl Hy Hd T) as (_ & Hb & Hok' & Hd'). split_and!; try done.
    split; try apply Hk. intros p Hp. pose proof (fi_max _ _ _ Hk). rewrite Hb by lia. by apply Hk.
  - intros off' n Ho Hn. destruct (readi_ok ls sz sb i off' n w' V' bl' x' l' e) as (w'' & Hr2 & _); try done; [|by exists w''].
    rewrite (to_inode _ _ _ _ _ T). by rsimpl.
Qed.

(** ** Crashes *)

Lemma homes_slot (r V : list block) x j :
  geometry ls sz (length V) → layout ls sz sb (length V) → inode_ok V x → same_homes ls sz r V → (j < nslots)%nat →
  slot r x j = slot V x j ∧
  (slot V x j ≠ 0 → r !! Z.to_nat (slot V x j) = V !! Z.to_nat (slot V x j)).
Proof.
  intros Hg Hl Hok [Hlen Hh] Hj.
  assert (Hb : ∀ j, (j < nslots)%nat → slot V x j ≠ 0 → r !! Z.to_nat (slot V x j) = V !! Z.to_nat (slot V x j)).
  { intros k Hk Hne. destruct (in_data _ _ _ Hok k Hk Hne) as (H1 & H2 & _).
    apply Hh. apply (data_home ls sz sb (length V) Hg Hl). lia. }
  split; [|by apply Hb]. destruct (decide (j < 13)%nat); [by rewrite !slot_addr|].
  rewrite (slot_entry V x j), slot_entry by lia. rewrite (slot_addr r x 12), <- (slot_addr V x 12) by lia.
  destruct (Z.eqb_spec (slot V x 12) 0) as [|E]; [done|]. rewrite Hb; [done| |done]. unfold nslots. lia.
Qed.

(** Contents and inode only depend on the blocks outside the log. *)
Lemma homes_file (r V : list block) x l :
  geometry ls sz (length V) → layout ls sz sb (length V) → inode_ok V x → 0 ≤ i_inum x < sb_ninodes sb →
  same_homes ls sz r V → file_is V x l → synced V x → file_is r x l ∧ synced r x.
Proof.
  intros Hg Hl Hok Hi Hsh Hfi Hsy. split.
  - split; try apply Hfi. intros p Hp. pose proof (fi_max _ _ _ Hfi).
    rewrite <- (fi_byte _ _ _ Hfi) by done. unfold fbyte.
    destruct (homes_slot r V x (fslot (p / 512)) Hg Hl Hok Hsh) as [-> Hb]; [apply fblock_lt; lia|].
    destruct (Z.eqb_spec (slot V x (fslot (p / 512))) 0) as [|E]; [done|]. by rewrite Hb.
  - destruct Hsy as (d & Hd & Hld). exists d. split; [|done]. rewrite <- Hd. apply Hsh.
    by apply IBLOCK_eq.
Qed.

(** The system call's transaction around the write. *)
Definition write_op (i : nat) (src : list Z) (off : Z) : K Z :=
  begin_op ;; r ← writei i src off; end_op ;; mret r.

End contents.

(** ** A small file system *)

(** 80 blocks: log in blocks 2 to 11, inodes in block 12, the free map in block
    13, data from block 14 on.  Inode 1 is a file of three bytes in block 14. *)
Definition demo_sb : superblock := mk_superblock 80 66 8 10 2 12 13.
Definition demo_file : inode := mk_inode ROOTDEV 1 1 I_VALID T_FILE 0 0 1 3 (14 :: replicate 12 0).
Definition demo_sblock : block :=
  put 4 24 13 (put 4 20 12 (put 4 16 2 (put 4 12 10 (put 4 8 8 (put 4 4 66 (put 4 0 80 zero_block)))))).
Definition demo_inodes : block := put_dinode (dip_off 1) demo_file zero_block.
Definition demo_map : block := [255; 127] ++ replicate 510 0.
Definition demo_data : block := [97; 98; 99] ++ replicate 509 0.
Definition demo_fdisk : list block :=
  [zero_block; demo_sblock] ++ replicate 10 zero_block ++ [demo_inodes; demo_map; demo_data] ++
    replicate 65 zero_block.

Definition blkb (d : block) : bool :=
  bool_decide (length d = 512%nat) && forallb (λ b, (0 <=? b) && (b <? 256)) d.

Lemma blkb_blk l : forallb blkb l = true → Forall blk l.
Proof.
  intros H. apply Forall_forall. intros d Hd%list_elem_of_In.
  apply (proj1 (forallb_forall _ _) H) in Hd. unfold blkb in Hd. apply andb_true_iff in Hd as [H1 H2].
  apply bool_decide_eq_true in H1. split; [exact H1|]. apply Forall_forall. intros b Hb%list_elem_of_In.
  apply (proj1 (forallb_forall _ _) H2) in Hb. unfold is_byte. lia.
Qed.

Lemma demo_fdisk_blk : Forall blk demo_fdisk.
Proof. apply blkb_blk. vm_compute. reflexivity. Qed.

(** The log of such a disk is empty. *)
Lemma demo_log (d : list block) :
  length d = 80%nat → d !! 1%nat = Some demo_sblock → d !! 2%nat = Some zero_block →
  log_disk 2 10 d zero_block [] [].
Proof.
  intros Hl H1 H2. split.
  - split; rewrite ?Hl; unfold LOGSIZE, MAXOPBLOCKS; lia.
  - exists demo_sblock. split; [exact H1|]. split; vm_compute; reflexivity.
  - split; [exact H2|apply hdr_is_zero].
  - constructor.
  - cbn [length]. lia.
  - split; [reflexivity|]. by intros k v.
Qed.

Lemma demo_layout : layout 2 10 demo_sb 80.
Proof. split; vm_compute; try done. Qed.

Lemma demo_meta : meta_ok demo_sb demo_fdisk.
Proof.
  split.
  - intros b Hb. assert (H : forallb (used demo_sb demo_fdisk) (seqZ 0 14) = true) by (vm_compute; reflexivity).
    apply (proj1 (forallb_forall _ _) H), list_elem_of_In, elem_of_seqZ.
    change (data_start demo_sb) with 14 in Hb. lia.
  - exists demo_sblock. split; [reflexivity|]. vm_compute. reflexivity.
Qed.

Lemma demo_slot V j : slot V demo_file j = if decide (j = 0%nat) then 14 else 0.
Proof.
  unfold slot. cbn [i_addrs demo_file]. destruct j as [|j]; [reflexivity|].
  rewrite (decide_False (P := S j = 0%nat)) by done. case_decide as Hj; [|reflexivity].
  change ((14 :: replicate 12 0) !! S j) with (replicate 12 0 !! j). by rewrite lookup_replicate_2 by lia.
Qed.

Lemma demo_inode_ok : inode_ok demo_sb demo_fdisk demo_file.
Proof.
  split; [reflexivity|reflexivity|..].
  - intros j Hj. rewrite demo_slot. case_decide; [|done]. intros _. split_and!; [lia|reflexivity|done|vm_compute; reflexivity].
  - intros j j' _ _. rewrite !demo_slot. repeat case_decide; congruence || done.
Qed.

Lemma demo_contents : file_is demo_fdisk demo_file [97; 98; 99].
Proof.
  split; [reflexivity|vm_compute; done|]. intros p Hp. cbn [length] in Hp.
  destruct p as [|[|[|p]]]; [vm_compute; reflexivity..|lia].
Qed.

Lemma demo_synced : synced demo_sb demo_fdisk demo_file.
Proof. exists demo_inodes. split; [reflexivity|]. vm_compute. reflexivity. Qed.

Lemma quiescent_sb {D : DiskDriver} {L : DiskLaws D} w ls sz sb js :
  quiescent w ls sz → quiescent (w <| w_sb := sb |> <| w_inodes := js |>) ls sz.
Proof.
  intros [[[Ht (pi & Hbc)] H2 H3 H4 H5 H6 H7] (hd & H8) H9]. split; [|exists hd; by rsimpl|by rsimpl].
  rsimpl. split; try done; [|unfold log_at, lh_is in *; by rsimpl..]. split.
  - unfold thread, at_ease, calm, lock_free in *. by rsimpl.
  - exists pi. eapply bcache_at_frame; [..|done]; by rsimpl.
Qed.

(** The kernel running on such a disk, with the inodes [js] in its table. *)
Lemma running_fs d js :
  Forall blk d → length d = 80%nat → d !! 1%nat = Some demo_sblock → d !! 2%nat = Some zero_block →
  ∃ w, quiescent (L := memide_laws) w 2 10 ∧ w_sb w = demo_sb ∧ w_disk w = d ∧ w_inodes w = js.
Proof.
  intros Hb Hl H1 H2.
  destruct (boot_quiescent d 2 10 zero_block Hb Hl (demo_log d Hl H1 H2) blk_zero)
    as (w0 & w & _ & _ & Hq & Hd).
  exists (w <| w_sb := demo_sb |> <| w_inodes := js |>). split; [by apply quiescent_sb|].
  rsimpl. split; [reflexivity|]. split; [|reflexivity]. rewrite Hd. apply list_insert_id. exact H2.
Qed.

Lemma demo_running_fs js :
  ∃ w, quiescent (L := memide_laws) w 2 10 ∧ w_sb w = demo_sb ∧ w_disk w = demo_fdisk ∧ w_inodes w = js.
Proof. apply running_fs; [exact demo_fdisk_blk|reflexivity..]. Qed.

Definition demo_write : list Z := [120; 121].

Lemma file_write_read_witness :
  ∃ w w', writei (D := iderw_mem) 0 demo_write 2 (KS w []) = Ok 2 (KS w' []) ∧
    ∃ w'', readi (D := iderw_mem) 0 0 100 (KS w' []) = Ok (4, [97; 98; 120; 121]) (KS w'' []).
Proof.
  destruct (demo_running_fs [demo_file]) as (w & [Htx _ [Ho _]] & Hsb & Hd & Hi).
  set (w1 := w <| w_log ::= λ l, l <| outstanding ::= λ n, n + 1 |> |>).
  assert (Hoi : on_inode (L := memide_laws) 2 10 demo_sb 0 w1 demo_fdisk [] demo_file).
  { rewrite Hd in Htx. split; [|exact demo_layout|exact demo_meta|exact demo_inode_ok|].
    - split; [|unfold w1; rsimpl; lia|unfold w1; by rsimpl|apply not_elem_of_nil].
      destruct Htx as [H1 H2 H3 H4 H5 H6 H7]. split; [by apply fs_thread_log|exact H2|exact H3|exact H4|exact H5|exact H6|exact H7].
    - unfold w1. rsimpl. by rewrite Hi. }
  destruct (file_write_read (L := memide_laws) 2 10 demo_sb 0 2 demo_write w1 demo_fdisk [] demo_file [97; 98; 99] [])
    as (w' & V' & bl' & x' & Hr & _ & _ & _ & _ & Hread).
  - exact Hoi.
  - exact demo_contents.
  - exact demo_synced.
  - split; vm_compute; split; discriminate || reflexivity.
  - discriminate.
  - split; [discriminate|reflexivity].
  - apply Forall_cons_2; [split; [discriminate|reflexivity]|].
    apply Forall_cons_2; [split; [discriminate|reflexivity]|apply Forall_nil_2].
  - cbn [length]. lia.
  - discriminate.
  - discriminate.
  - vm_compute. lia.
  - exists w1, w'. split; [exact Hr|]. apply (Hread 0%nat 100%nat); [cbn; lia|reflexivity].
Defined.

