(* ===== verification/Icache.v ===== *)
(** * The cache of in-memory inodes

    [iget], [idup] and [iput] keep a reference count per inode number: [refs]
    is the count the table records for a number, and each number is in at most
    one slot in use.  A valid slot agrees with the inode on disk, and [ilock]
    makes it valid.  The operations are proved against the block-level view of
    a transaction, since [iput] must run in one. *)

From S2P Require Import Prelude Kernel Bytes Spinlock Sched Sleeplock Disk Memide Bio Bcache Log LogSpec LogCrash LogTx Inode FsTx Fs FsFile FsWrite FsContents.

(** ** Steps that leave the blocks alone *)

(** Only in-memory inodes, their sleep-locks and sleeping processes change. *)
Definition ic_step (w w' : world) : Prop :=
  ∃ js sl ps, w' = w <| w_inodes := js |> <| w_slocks := sl |> <| w_procs := ps |> ∧
    (∀ b, sl (SL_buf b) = w_slocks w (SL_buf b)) ∧ Forall2 roused (w_procs w) ps.

Lemma ic_step_inodes w js : ic_step w (w <| w_inodes := js |>).
Proof. exists js, (w_slocks w), (w_procs w). split_and!; [weq|done|apply roused_refl]. Qed.

Lemma ic_step_lock w i l : ic_step w (slock_set (SL_inode i) l w).
Proof.
  exists (w_inodes w), (<[SL_inode i := l]> (w_slocks w)), (w_procs w). unfold slock_set.
  split_and!; [weq|done|apply roused_refl].
Qed.

Lemma ic_step_wake w c : ic_step w (wake_all c w).
Proof.
  exists (w_inodes w), (w_slocks w), (wake_one c <$> w_procs w). unfold wake_all.
  split_and!; [weq|done|apply wake_all_roused].
Qed.

Lemma ic_step_trans w1 w2 w3 : ic_step w1 w2 → ic_step w2 w3 → ic_step w1 w3.
Proof.
  intros (js & sl & ps & -> & H1 & H2) (js' & sl' & ps' & -> & H3 & H4). revert H3 H4. rsimpl. intros H3 H4.
  exists js', sl', ps'. split_and!; [weq|intros b; by rewrite H3|].
  clear -H2 H4. revert ps' H4. induction H2; intros ps' H4; inversion H4; subst; constructor; eauto.
  by eapply roused_trans.
Qed.

Lemma roused_lookup ps ps' i p :
  Forall2 roused ps ps' → ps !! i = Some p → ∃ p', ps' !! i = Some p' ∧ pid p' = pid p.
Proof.
  intros H Hp. destruct (Forall2_lookup_l _ _ _ _ _ H Hp) as (p' & Hp' & [->|[_ ->]]); [by exists p|].
  eexists. split; [done|by rsimpl].
Qed.

Section cache.
  Context {D : DiskDriver} {L : DiskLaws D}.

Lemma fs_thread_ic w w' V Dt H : ic_step w w' → fs_thread w V Dt H → fs_thread w' V Dt H.
Proof.
  intros (js & sl & ps & -> & Hsl & Hps) [(Ha & Hl & (i & p & Hi & Hp)) (pi & Hbc)]. split.
  - destruct (roused_lookup _ _ _ _ Hps Hp) as (p' & Hp' & _).
    unfold thread, at_ease, calm, lock_free in *. rsimpl. split_and!; try apply Ha; [done|by exists i, p'].
  - exists pi. destruct Hbc as [H1 H2 H3 H4 H5 H6 H7 H8 H9 H10 H11]. split; unfold cached in *; rsimpl; try done.
    + intros b x Hb Hx. destruct (H4 b x Hb Hx) as [Ho1 Ho2]. split; rsimpl; [by rewrite Hsl|done].
    + eapply disk_ready_frame; [..|done]; by rsimpl.
Qed.

Lemma fstx_ic ls sz sb w w' V bl H : ic_step w w' → fstx ls sz sb w V bl H → fstx ls sz sb w' V bl H.
Proof.
  intros Hs [[H1 H2 H3 H4 H5 H6 H7] H8 H9 H10].
  pose proof (fs_thread_ic _ _ _ _ _ Hs H1) as H1'. destruct Hs as (js & sl & ps & -> & _).
  split; [split|..]; try done; unfold log_at, lh_is in *; by rsimpl.
Qed.
End cache.

(** ** Reference counts *)

Definition refs (l : list inode) (n : Z) : Z :=
  foldr (λ x a, (if i_inum x =? n then i_ref x else 0) + a) 0 l.

Definition counts (x : inode) (n : Z) : Z := if i_inum x =? n then i_ref x else 0.

Lemma refs_insert l i x y n :
  l !! i = Some x → refs (<[i := y]> l) n = refs l n - counts x n + counts y n.
Proof.
  unfold refs, counts. revert i. induction l as [|z l IH]; intros [|i] Hx; try done.
  - injection Hx as ->. change (<[0%nat := y]> (x :: l)) with (y :: l). cbn [foldr]. lia.
  - change (<[S i := y]> (z :: l)) with (z :: <[i := y]> l). cbn [foldr]. rewrite (IH i Hx). lia.
Qed.

Definition nfree (l : list inode) : nat := length (filter (λ x, i_ref x = 0) l).

Definition isfree (x : inode) : nat := if decide (i_ref x = 0) then 1 else 0.

Lemma nfree_insert l i x y : l !! i = Some x → (nfree (<[i := y]> l) + isfree x = nfree l + isfree y)%nat.
Proof.
  unfold nfree, isfree. revert i. induction l as [|z l IH]; intros [|i] Hx; try done.
  - injection Hx as ->. change (<[0%nat := y]> (x :: l)) with (y :: l). rewrite !filter_cons. repeat case_decide; cbn [length]; lia.
  - specialize (IH i Hx). change (<[S i := y]> (z :: l)) with (z :: <[i := y]> l). rewrite !filter_cons. repeat case_decide; cbn [length] in *; lia.
Qed.

(** The scan of [iget]. *)
Lemma iget_scan_spec l k dev inum empty :
  match iget_scan l k dev inum empty with
  | inl i => ∃ x, (k ≤ i)%nat ∧ l !! (i - k)%nat = Some x ∧ 0 < i_ref x ∧ i_dev x = dev ∧ i_inum x = inum
  | inr r => (∀ j x, l !! j = Some x → 0 < i_ref x → ¬ (i_dev x = dev ∧ i_inum x = inum)) ∧
      (r = empty ∧ (empty = None → ∀ j x, l !! j = Some x → i_ref x ≠ 0) ∨
       empty = None ∧ ∃ i x, r = Some i ∧ (k ≤ i)%nat ∧ l !! (i - k)%nat = Some x ∧ i_ref x = 0)
  end.
Proof.
  revert k empty. induction l as [|x l IH]; intros k empty; cbn [iget_scan].
  - split; [by intros j x|]. left. split; [done|]. by intros _ j x.
  - destruct ((i_ref x >? 0) && (i_dev x =? dev) && (i_inum x =? inum)) eqn:E.
    + exists x. rewrite Nat.sub_diag. apply andb_true_iff in E as [E E3]. apply andb_true_iff in E as [E1 E2].
      split_and!; try done; lia.
    + set (em := match empty with None => if i_ref x =? 0 then Some k else None | Some _ => empty end).
      specialize (IH (S k) em). destruct (iget_scan l (S k) dev inum em) as [i|r].
      * destruct IH as (y & H1 & H2 & H3). exists y. split_and!; try apply H3; [lia|].
        replace (i - k)%nat with (S (i - S k)) by lia. done.
      * destruct IH as [H1 H2]. split.
        { intros [|j] y Hy Hr [Hd Hn]; cbn in Hy; [|by eapply H1].
          injection Hy as ->. rewrite Hd, Hn, !Z.eqb_refl, (proj2 (Z.gtb_lt _ _)) in E by lia. done. }
        unfold em in *. clear em. destruct empty as [e0|].
        { destruct H2 as [[-> _]|[? _]]; [|done]. left. by split. }
        destruct (Z.eqb_spec (i_ref x) 0) as [E0|E0].
        { destruct H2 as [[-> _]|[? _]]; [|done]. right. split; [done|]. exists k, x.
          rewrite Nat.sub_diag. split_and!; [done|lia|done|done]. }
        destruct H2 as [[-> H2]|[_ (i & y & -> & Hk & Hy & Hr)]].
        { left. split; [done|]. intros _ [|j] y Hy; cbn in Hy; [by injection Hy as ->|by eapply H2]. }
        right. split; [done|]. exists i, y. split_and!; try done; [lia|].
        replace (i - k)%nat with (S (i - S k)) by lia. done.
Qed.

(** ** Agreement with the disk *)

Lemma inode_eq x y :
  i_dev x = i_dev y → i_inum x = i_inum y → i_ref x = i_ref y → i_flags x = i_flags y →
  i_type x = i_type y → i_major x = i_major y → i_minor x = i_minor y → i_nlink x = i_nlink y →
  i_size x = i_size y → i_addrs x = i_addrs y → x = y.
Proof. destruct x, y; cbn; intros; by subst. Qed.

(** The fields of inode [n] on disk. *)
Record din (V : list block) (sb : superblock) (n : Z) (x : inode) : Prop := {
  dn_block : ∃ d, V !! Z.to_nat (IBLOCK n sb) = Some d ∧
    di_type (dip_off n) d = i_type x ∧ di_major (dip_off n) d = i_major x ∧ di_minor (dip_off n) d = i_minor x ∧
    di_nlink (dip_off n) d = i_nlink x ∧ di_size (dip_off n) d = i_size x ∧ di_addrs (dip_off n) d = i_addrs x
}.

Lemma synced_din sb V x : synced sb V x ↔ din V sb (i_inum x) x.
Proof.
  split.
  - intros (d & Hd & Hl). split. exists d. split; [done|]. unfold load_dinode in Hl.
    split_and!; rewrite <- Hl at 2; by rsimpl.
  - intros [(d & Hd & H1 & H2 & H3 & H4 & H5 & H6)]. exists d. split; [done|].
    unfold load_dinode. apply inode_eq; by rsimpl.
Qed.

Lemma din_ext V sb n x y :
  i_type x = i_type y → i_major x = i_major y → i_minor x = i_minor y → i_nlink x = i_nlink y →
  i_size x = i_size y → i_addrs x = i_addrs y → din V sb n x → din V sb n y.
Proof. intros E1 E2 E3 E4 E5 E6 [(d & Hd & H)]. split. exists d. by rewrite <- E1, <- E2, <- E3, <- E4, <- E5, <- E6. Qed.

Lemma synced_ref sb V x f : synced sb V x → synced sb V (x <| i_ref ::= f |>).
Proof. rewrite !synced_din. rsimpl. apply din_ext; by rsimpl. Qed.

(** Neither the disk nor the log's transaction count changes. *)
Record quiet (w w' : world) : Prop := {
  qt_disk : w_disk w' = w_disk w;
  qt_hist : w_hist w' = w_hist w;
  qt_out : outstanding (w_log w') = outstanding (w_log w)
}.
Lemma quiet_refl w : quiet w w. Proof. done. Qed.
Lemma quiet_trans w1 w2 w3 : quiet w1 w2 → quiet w2 w3 → quiet w1 w3.
Proof. intros [] []. split; congruence. Qed.
Lemma quiet_tx w w' : tx_step w w' → quiet w w'.
Proof. intros []. by split. Qed.
Lemma quiet_ic w w' : ic_step w w' → quiet w w'.
Proof. intros (js & sl & ps & -> & _). split; by rsimpl. Qed.

(** [qstep] chains the steps in the context. *)
Ltac qstep :=
  repeat match goal with
  | |- quiet ?a ?a => apply quiet_refl
  | H : quiet ?a ?b |- quiet ?a _ => apply (quiet_trans a b _ H); clear H
  | H : tx_step ?a ?b |- quiet ?a _ => apply (quiet_trans a b _ (quiet_tx _ _ H)); clear H
  | H : ic_step ?a ?b |- quiet ?a _ => apply (quiet_trans a b _ (quiet_ic _ _ H)); clear H
  end.

Section icache.
  Context {D : DiskDriver} {L : DiskLaws D}.
  Context (ls sz : Z) (sb : superblock).
  Abbreviation fstx := (fstx ls sz sb).
  Abbreviation synced := (synced sb).

(** The table, with the slot [lk] locked by the running thread. *)
Record icache (w : world) (V : list block) (lk : option nat) : Prop := {
  ic_uniq i j x y : w_inodes w !! i = Some x → w_inodes w !! j = Some y →
    0 < i_ref x → 0 < i_ref y → i_inum x = i_inum y → i = j;
  ic_ref i x : w_inodes w !! i = Some x → 0 ≤ i_ref x < 2 ^ 31;
  ic_slot i x : w_inodes w !! i = Some x → 0 < i_ref x →
    i_dev x = ROOTDEV ∧ 0 < i_inum x < sb_ninodes sb ∧
    (i_flags x = 0 ∨ i_flags x = I_VALID ∧ synced V x ∧ i_type x ≠ 0);
  ic_lock i : slocked (w_slocks w (SL_inode i)) = if decide (lk = Some i) then 1 else 0
}.

Lemma icache_tx w w' V lk : tx_step w w' → icache w V lk → icache w' V lk.
Proof.
  intros Hs [H1 H2 H3 H4]. pose proof (ts_inodes _ _ Hs) as Hi.
  destruct (ts_only _ _ Hs) as (l & bs & sl & dk & hi & ps & Hw & _ & Hsl & _).
  split; rewrite ?Hi; try done. intros i. rewrite Hw. rsimpl. rewrite Hsl. rsimpl. apply H4.
Qed.

(** A slot's count is the count of its number. *)
Lemma refs_slot w V lk i x :
  icache w V lk → w_inodes w !! i = Some x → 0 < i_ref x → i_ref x = refs (w_inodes w) (i_inum x).
Proof.
  intros Hic Hx Hr.
  assert (Hz : ∀ l n, (∀ j y, l !! j = Some y → counts y n = 0) → refs l n = 0).
  { intros l n. induction l as [|y l IH]; intros Hl; [done|]. pose proof (Hl 0%nat y eq_refl) as Hy.
    unfold refs in *. cbn [foldr]. unfold counts in Hy. rewrite Hy, IH; [done|]. intros j z. apply (Hl (S j)). }
  pose proof (refs_insert (w_inodes w) i x (x <| i_ref := 0 |>) (i_inum x) Hx) as E.
  rewrite Hz in E.
  - unfold counts in E. revert E. rsimpl. rewrite Z.eqb_refl. lia.
  - intros j y Hy. unfold counts. destruct (Z.eqb_spec (i_inum y) (i_inum x)) as [En|]; [|done].
    destruct (decide (i = j)) as [->|Hne].
    + rewrite list_lookup_insert_eq in Hy by (by eapply lookup_lt_Some). injection Hy as <-. by rsimpl.
    + rewrite list_lookup_insert_ne in Hy by done. pose proof (ic_ref _ _ _ Hic j y Hy).
      destruct (decide (i_ref y = 0)); [done|]. exfalso. apply Hne.
      eapply ic_uniq; [done|exact Hx|exact Hy|lia|lia|done].
Qed.

(** A change of slot [i] that keeps the table well-formed. *)
Lemma icache_insert w V lk i x y :
  icache w V lk → w_inodes w !! i = Some x → 0 ≤ i_ref y < 2 ^ 31 →
  (0 < i_ref y → i_dev y = ROOTDEV ∧ 0 < i_inum y < sb_ninodes sb ∧
     (i_flags y = 0 ∨ i_flags y = I_VALID ∧ synced V y ∧ i_type y ≠ 0)) →
  (0 < i_ref y → ∀ j z, j ≠ i → w_inodes w !! j = Some z → 0 < i_ref z → i_inum z ≠ i_inum y) →
  icache (w <| w_inodes ::= <[i := y]> |>) V lk.
Proof.
  intros [H1 H2 H3 H4] Hx Hr Hs Hu. pose proof (lookup_lt_Some _ _ _ Hx) as Hlt.
  assert (Hcase : ∀ j z, <[i := y]> (w_inodes w) !! j = Some z → (j = i ∧ z = y) ∨ (j ≠ i ∧ w_inodes w !! j = Some z)).
  { intros j z Hz. destruct (decide (j = i)) as [->|].
    - rewrite list_lookup_insert_eq in Hz by done. left. by injection Hz.
    - rewrite list_lookup_insert_ne in Hz by done. by right. }
  split; rsimpl; try done.
  - intros j k z z' [[-> ->]|[Hj Hz]]%Hcase [[-> ->]|[Hk Hz']]%Hcase G1 G2 E; try done.
    + exfalso. eapply (Hu G1 k z'); done.
    + exfalso. eapply (Hu G2 j z); done.
    + by eapply H1.
  - intros j z [[-> ->]|[Hj Hz]]%Hcase; [done|by eapply H2].
  - intros j z [[-> ->]|[Hj Hz]]%Hcase; [done|by eapply H3].
Qed.

(** ** [iget] *)

Lemma iget_eq w V bl H dev n e :
  fstx w V bl H →
  iget dev n (KS w e) =
    match iget_scan (w_inodes w) 0 dev n None with
    | inl i => Ok i (KS (w <| w_inodes ::= alter (λ x, x <| i_ref ::= λ n, s32 (n + 1) |>) i |>) e)
    | inr (Some i) => Ok i (KS (w <| w_inodes ::= alter (λ x, x <| i_dev := dev |> <| i_inum := n |>
                                  <| i_ref := 1 |> <| i_flags := 0 |>) i |>) e)
    | inr None => Stop (Panicked "iget: no inodes") (KS (acquired L_icache w) e)
    end.
Proof.
  intros Hf. pose proof (proj1 (tx_thread _ _ _ _ _ _ (ft_tx _ _ _ _ _ _ _ Hf))) as ([Hc _] & Hl & _).
  unfold iget, modi. kcall (acquire_free L_icache w e (proj1 (Hl L_icache))). kstep.
  replace (w_inodes (acquired L_icache w)) with (w_inodes w) by (unfold acquired; by rsimpl).
  destruct (iget_scan (w_inodes w) 0 dev n None) as [i|[i|]]; [| |done].
  - kstep. erewrite bind_ok; [|apply (release_calm L_icache w); done || by rsimpl].
    unfold mret, M_ret, acquired. weq.
  - kstep. erewrite bind_ok; [|apply (release_calm L_icache w); done || by rsimpl].
    unfold mret, M_ret, acquired. weq. rewrite !alter_alter. done.
Qed.

(** The other slots in use stay; the slot of [n] may count one more. *)
Definition keeps (w w' : world) (n : Z) : Prop :=
  ∀ j y, w_inodes w !! j = Some y → 0 < i_ref y →
    w_inodes w' !! j = Some (if i_inum y =? n then y <| i_ref ::= λ k, k + 1 |> else y).

(** Slot [i] holds one more reference to inode [n]. *)
Definition got w w' V lk n i : Prop :=
  ∃ x, ic_step w w' ∧ w_slocks w' = w_slocks w ∧
    icache w' V lk ∧ w_inodes w' !! i = Some x ∧ i_inum x = n ∧ 0 < i_ref x ∧
    (∀ m, refs (w_inodes w') m = refs (w_inodes w) m + if m =? n then 1 else 0) ∧
    (nfree (w_inodes w') + (if decide (i_ref x = 1%Z) then 1 else 0) = nfree (w_inodes w))%nat ∧
    keeps w w' n.

Lemma iget_hit w V lk n i x :
  icache w V lk → w_inodes w !! i = Some x → 0 < i_ref x → i_inum x = n → refs (w_inodes w) n < 2 ^ 31 - 1 →
  got w (w <| w_inodes ::= alter (λ x, x <| i_ref ::= λ n, s32 (n + 1) |>) i |>) V lk n i.
Proof.
  intros Hic Hx Hr Hi Hrefs. pose proof (refs_slot w V lk i x Hic Hx Hr) as Href. rewrite Hi in Href.
  set (y := x <| i_ref ::= λ n, n + 1 |>).
  assert (Hw : w <| w_inodes ::= alter (λ x, x <| i_ref ::= λ n, s32 (n + 1) |>) i |> =
               w <| w_inodes ::= <[i := y]> |>).
  { weq. rewrite (alter_is_insert _ _ _ _ Hx). f_equal. unfold y. destruct x; cbn in *; usetf; cbn.
    f_equal. apply s32_small. lia. }
  apply (eq_ind_r (λ w', got w w' V lk n i)) with (2 := Hw).
  pose proof (ic_slot _ _ _ Hic i x Hx Hr) as (S1 & S2 & S3).
  assert (Hlt := lookup_lt_Some _ _ _ Hx).
  exists y. split_and!.
  - replace (w <| w_inodes ::= <[i := y]> |>) with (w <| w_inodes := <[i := y]> (w_inodes w) |>) by weq.
    apply ic_step_inodes.
  - by rsimpl.
  - eapply icache_insert; [done|done|..]; unfold y; rsimpl.
    + lia.
    + intros _. split_and!; try done; try lia. destruct S3 as [S3|(S3 & S4 & S5)]; [by left|right].
      split_and!; try done. by apply synced_ref.
    + intros _ j z Hj Hz Hzr E. apply Hj. by eapply (ic_uniq _ _ _ Hic).
  - rsimpl. by apply list_lookup_insert_eq.
  - unfold y. by rsimpl.
  - unfold y. rsimpl. lia.
  - intros m. rsimpl. rewrite (refs_insert _ _ _ _ _ Hx). unfold counts, y. rsimpl. rewrite Hi.
    rewrite (Z.eqb_sym m n). destruct (n =? m); lia.
  - rsimpl. pose proof (nfree_insert (w_inodes w) i x y Hx) as E. unfold isfree in E.
    rewrite decide_False in E by lia. rewrite !decide_False in *; [lia|unfold y; rsimpl; lia..].
  - intros j z Hz Hzr. rsimpl. destruct (decide (j = i)) as [->|Hne].
    + rewrite list_lookup_insert_eq by done. replace z with x by congruence. by rewrite Hi, Z.eqb_refl.
    + rewrite list_lookup_insert_ne by done. rewrite Hz. destruct (Z.eqb_spec (i_inum z) n) as [En|]; [|done].
      exfalso. apply Hne. eapply (ic_uniq _ _ _ Hic); [exact Hz|exact Hx|lia|lia|congruence].
Qed.

Lemma iget_recycle w V lk n i x :
  icache w V lk → w_inodes w !! i = Some x → i_ref x = 0 → 0 < n < sb_ninodes sb →
  (∀ j z, w_inodes w !! j = Some z → 0 < i_ref z → ¬ (i_dev z = ROOTDEV ∧ i_inum z = n)) →
  got w (w <| w_inodes ::= alter (λ x, x <| i_dev := ROOTDEV |> <| i_inum := n |>
           <| i_ref := 1 |> <| i_flags := 0 |>) i |>) V lk n i.
Proof.
  intros Hic Hx Hr0 Hn Hnone. assert (Hlt := lookup_lt_Some _ _ _ Hx).
  set (y := x <| i_dev := ROOTDEV |> <| i_inum := n |> <| i_ref := 1 |> <| i_flags := 0 |>).
  assert (Hw : w <| w_inodes ::= alter (λ x, x <| i_dev := ROOTDEV |> <| i_inum := n |>
                   <| i_ref := 1 |> <| i_flags := 0 |>) i |> = w <| w_inodes ::= <[i := y]> |>).
  { weq. by rewrite (alter_is_insert _ _ _ _ Hx). }
  apply (eq_ind_r (λ w', got w w' V lk n i)) with (2 := Hw). clear Hw.
  assert (Huniq : ∀ j z, w_inodes w !! j = Some z → 0 < i_ref z → i_inum z ≠ n).
  { intros j z Hz Hzr E. apply (Hnone j z Hz Hzr). split; [|done]. by apply (ic_slot _ _ _ Hic j z). }
  exists y. split_and!.
  - replace (w <| w_inodes ::= <[i := y]> |>) with (w <| w_inodes := <[i := y]> (w_inodes w) |>) by weq.
    apply ic_step_inodes.
  - by rsimpl.
  - eapply icache_insert; [done|done|..]; unfold y; rsimpl; [lia|by eauto|].
    intros _ j z _ Hz Hzr. by eapply Huniq.
  - rsimpl. by apply list_lookup_insert_eq.
  - unfold y. by rsimpl.
  - unfold y. rsimpl. lia.
  - intros m. rsimpl. rewrite (refs_insert _ _ _ _ _ Hx). unfold counts, y. rsimpl. rewrite Hr0.
    rewrite (Z.eqb_sym m n). destruct (n =? m); destruct (i_inum x =? m); lia.
  - rsimpl. pose proof (nfree_insert (w_inodes w) i x y Hx) as E. unfold isfree in E.
    rewrite decide_True in E by done. rewrite decide_False in E by (unfold y; rsimpl; lia).
    rewrite decide_True by (unfold y; by rsimpl). lia.
  - intros j z Hz Hzr. rsimpl. destruct (decide (j = i)) as [->|Hne]; [replace z with x in Hzr by congruence; lia|].
    rewrite list_lookup_insert_ne by done. rewrite Hz. destruct (Z.eqb_spec (i_inum z) n) as [En|]; [|done].
    exfalso. by eapply Huniq.
Qed.

Lemma iget_ok w V bl H lk n e :
  fstx w V bl H → icache w V lk → 0 < n < sb_ninodes sb → refs (w_inodes w) n < 2 ^ 31 - 1 →
  (1 ≤ nfree (w_inodes w))%nat →
  ∃ i w' x, iget ROOTDEV n (KS w e) = Ok i (KS w' e) ∧ ic_step w w' ∧ w_slocks w' = w_slocks w ∧
    icache w' V lk ∧ w_inodes w' !! i = Some x ∧ i_inum x = n ∧ 0 < i_ref x ∧
    (∀ m, refs (w_inodes w') m = refs (w_inodes w) m + if m =? n then 1 else 0) ∧
    (nfree (w_inodes w') + (if decide (i_ref x = 1%Z) then 1 else 0) = nfree (w_inodes w))%nat ∧
    keeps w w' n.
Proof.
  intros Hf Hic Hn Hrefs Hfree. rewrite (iget_eq w V bl H) by done.
  pose proof (iget_scan_spec (w_inodes w) 0 ROOTDEV n None) as Hs.
  destruct (iget_scan (w_inodes w) 0 ROOTDEV n None) as [i|r].
  - destruct Hs as (x & _ & Hx & Hr & Hd & Hi). rewrite Nat.sub_0_r in Hx.
    destruct (iget_hit w V lk n i x Hic Hx Hr Hi Hrefs) as (y & Hy). eexists i, _, y. split; [done|exact Hy].
  - destruct Hs as [Hnone [[-> Hall]|[_ (i & x & -> & _ & Hx & Hr0)]]].
    + exfalso. specialize (Hall eq_refl). unfold nfree in Hfree.
      destruct (filter (λ x, i_ref x = 0) (w_inodes w)) as [|z l'] eqn:E; [cbn in Hfree; lia|].
      assert (Hz : z ∈ filter (λ x, i_ref x = 0) (w_inodes w)) by (rewrite E; left).
      apply list_elem_of_filter in Hz as [Hz0 (j & Hj)%list_elem_of_lookup]. by apply (Hall j z).
    + rewrite Nat.sub_0_r in Hx.
      destruct (iget_recycle w V lk n i x Hic Hx Hr0 Hn) as (y & Hy); [by apply Hnone|].
      eexists i, _, y. split; [done|exact Hy].
Qed.

(** ** [ilock] and [iunlock] *)

Lemma icache_lock w V lk lk' i l :
  icache w V lk → slocked l = (if decide (lk' = Some i) then 1 else 0) →
  (∀ j, j ≠ i → (lk = Some j ↔ lk' = Some j)) → icache (slock_set (SL_inode i) l w) V lk'.
Proof.
  intros [H1 H2 H3 H4] Hl Hlk. unfold slock_set. split; rsimpl; try done.
  intros j. rewrite fn_lookup_insert_case. destruct (decide (SL_inode i = SL_inode j)) as [[= ->]|Hne]; [done|].
  rewrite H4. specialize (Hlk j ltac:(congruence)). repeat case_decide; tauto.
Qed.

Lemma icache_ext w w' V lk :
  w_inodes w' = w_inodes w → (∀ i, w_slocks w' (SL_inode i) = w_slocks w (SL_inode i)) →
  icache w V lk → icache w' V lk.
Proof. intros E1 E2 [H1 H2 H3 H4]. split; rewrite ?E1; try done. intros i. by rewrite E2. Qed.

Lemma ts_slocks w w' i : tx_step w w' → w_slocks w' (SL_inode i) = w_slocks w (SL_inode i).
Proof.
  intros Hs. destruct (ts_only _ _ Hs) as (l & bs & sl & dk & hi & ps & -> & _ & Hsl & _). rsimpl.
  rewrite Hsl. by rsimpl.
Qed.

Lemma fstx_thread w V bl H : fstx w V bl H → thread w.
Proof. intros Hf. apply (tx_thread _ _ _ _ _ _ (ft_tx _ _ _ _ _ _ _ Hf)). Qed.

(** Filling a slot in use from the disk. *)
Lemma icache_load w V lk i x y :
  icache w V lk → w_inodes w !! i = Some x → 0 < i_ref x → din V sb (i_inum x) y → i_type y ≠ 0 →
  i_flags y = I_VALID → i_ref y = i_ref x → i_inum y = i_inum x → i_dev y = ROOTDEV →
  icache (w <| w_inodes ::= <[i := y]> |>) V lk.
Proof.
  intros Hic Hx Hr Hdin Ht X1 X2 X3 X4. destruct (ic_slot _ _ _ Hic i x Hx Hr) as (_ & Hn & _).
  eapply icache_insert; [done|done|..].
  - rewrite X2. by apply (ic_ref _ _ _ Hic i).
  - intros _. rewrite X3, X4, X1. split_and!; try done; try lia. right. split_and!; try done.
    apply synced_din. by rewrite X3.
  - intros _ j z Hj Hz Hzr. rewrite X3. intros E. apply Hj. by eapply (ic_uniq _ _ _ Hic).
Qed.

Lemma ilock_ok w V bl i x d e :
  fstx w V bl ∅ → layout ls sz sb (length V) → icache w V None → w_inodes w !! i = Some x → 0 < i_ref x →
  V !! Z.to_nat (IBLOCK (i_inum x) sb) = Some d → di_type (dip_off (i_inum x)) d ≠ 0 →
  ∃ w' x', ilock (Some i) (KS w e) = Ok tt (KS w' e) ∧ fstx w' V bl ∅ ∧ icache w' V (Some i) ∧
    quiet w w' ∧ w_inodes w' = <[i := x']> (w_inodes w) ∧ i_flags x' = I_VALID ∧ din V sb (i_inum x) x' ∧
    i_ref x' = i_ref x ∧ i_inum x' = i_inum x ∧ i_dev x' = ROOTDEV.
Proof.
  intros Hf Hlay Hic Hx Hr Hd Hty. destruct (fstx_thread _ _ _ _ Hf) as ([Hc _] & Hl & (k & p & Hk & Hp)).
  destruct (ic_slot _ _ _ Hic i x Hx Hr) as (Hdev & Hn & Hfl).
  unfold ilock. erewrite bind_ok; [|by apply geti_eq]. rewrite (proj2 (Z.ltb_ge _ 1)) by lia.
  erewrite bind_ok; [|eapply (acquiresleep_free (SL_inode i) k p); try done; apply (ic_lock _ _ _ Hic i)].
  set (w1 := slock_set _ _ w). assert (Hs1 : ic_step w w1) by apply ic_step_lock.
  assert (Hf1 : fstx w1 V bl ∅) by (by eapply fstx_ic).
  assert (Hi1 : w_inodes w1 = w_inodes w) by (unfold w1, slock_set; by rsimpl).
  assert (Hic1 : icache w1 V (Some i)).
  { unfold w1. eapply (icache_lock w V None (Some i)); [done|by rewrite decide_True|].
    intros j Hj. split; [done|]. intros [= <-]. done. }
  erewrite bind_ok; [|apply (geti_eq i x); by rewrite Hi1].
  destruct Hfl as [Hfl|(Hfl & Hsy & Ht)]; rewrite Hfl.
  - change (has I_VALID 0) with false. kstep. rewrite (ft_sb _ _ _ _ _ _ _ Hf1), Hdev.
    pose proof (fstx_geom _ _ _ _ _ _ _ Hf) as Hg.
    destruct (IBLOCK_eq ls sz sb (length V) (i_inum x) Hg Hlay ltac:(lia)) as (Hib & Hi2 & _).
    destruct (tx_bread ls sz sb w1 V bl ∅ (IBLOCK (i_inum x) sb) d e Hf1) as
      (bp & w2 & y & Hr2 & Hf2 & Hbp & Hy & Hyd & S2 & Hcl); [lia|done|done|by eapply tx_room|].
    kcall Hr2. erewrite bind_ok; [|by apply getb_eq]. unfold modi. rewrite bind_modw, Hyd.
    pose proof (fstx_inodes ls sz sb w2 V bl _ (alter (load_dinode d) i) Hf2) as Hf2'.
    set (w2' := w2 <| w_inodes ::= alter (load_dinode d) i |>) in *.
    destruct (tx_brelse ls sz sb w2' V bl _ bp (IBLOCK (i_inum x) sb) e Hf2') as (w3 & Hr3 & Hf3 & S3).
    { apply lookup_insert_eq. }
    { unfold w2'. rsimpl. by rewrite (ts_disk _ _ S2). }
    rewrite delete_insert_id in Hf3 by done. kcall Hr3. rewrite bind_modw.
    set (x2 := load_dinode d x <| i_flags ::= add_flag I_VALID |>).
    assert (Hi3 : w_inodes (w3 <| w_inodes ::= alter (λ x, x <| i_flags ::= add_flag I_VALID |>) i |>) =
                  <[i := x2]> (w_inodes w)).
    { rsimpl. rewrite (ts_inodes _ _ S3). unfold w2'. rsimpl. rewrite alter_alter, (ts_inodes _ _ S2), Hi1.
      by rewrite (alter_is_insert _ _ _ _ Hx). }
    assert (Hat : w_inodes (w3 <| w_inodes ::= alter (λ x, x <| i_flags ::= add_flag I_VALID |>) i |>) !! i = Some x2).
    { rewrite Hi3. apply list_lookup_insert_eq. by eapply lookup_lt_Some. }
    erewrite bind_ok; [|by apply geti_eq]. unfold x2 at 1. unfold load_dinode at 1. rsimpl.
    rewrite (proj2 (Z.eqb_neq _ 0)) by done.
    assert (Hdin : din V sb (i_inum x) x2).
    { split. exists d. split; [done|]. unfold x2, load_dinode. by rsimpl. }
    assert (Hx2 : i_flags x2 = I_VALID ∧ i_ref x2 = i_ref x ∧ i_inum x2 = i_inum x ∧ i_dev x2 = ROOTDEV).
    { unfold x2, load_dinode. rsimpl. rewrite Hfl. done. }
    destruct Hx2 as (X1 & X2 & X3 & X4).
    eexists _, x2. split_and!; try done.
    + by apply fstx_inodes.
    + apply (icache_ext (w1 <| w_inodes ::= <[i := x2]> |>)).
      * rewrite Hi3. rsimpl. by rewrite Hi1.
      * intros j. rsimpl. rewrite (ts_slocks _ _ j S3). unfold w2'. rsimpl. apply (ts_slocks _ _ j S2).
      * apply (icache_load w1 V (Some i) i x); done.
    + apply (quiet_trans _ w2); [qstep; done|]. apply (quiet_trans _ w2'); [split; unfold w2'; by rsimpl|].
      apply (quiet_trans _ w3); [by apply quiet_tx|]. split; by rsimpl.
  - change (has I_VALID I_VALID) with true. cbn iota. exists w1, x. split_and!; try done.
    + by rewrite Hi1, list_insert_id.
    + by apply synced_din.
Qed.

Lemma iunlock_ok w V bl i x e :
  fstx w V bl ∅ → icache w V (Some i) → w_inodes w !! i = Some x → 0 < i_ref x →
  ∃ w', iunlock (Some i) (KS w e) = Ok tt (KS w' e) ∧ fstx w' V bl ∅ ∧ icache w' V None ∧
    quiet w w' ∧ w_inodes w' = w_inodes w.
Proof.
  intros Hf Hic Hx Hr. destruct (fstx_thread _ _ _ _ Hf) as (Ha & Hl & _).
  unfold iunlock. erewrite bind_ok; [|by apply holdingsleep_eq; [apply Ha|]].
  rewrite (ic_lock _ _ _ Hic i), decide_True by done. cbn [Z.eqb negb].
  erewrite bind_ok; [|by apply geti_eq]. rewrite (proj2 (Z.ltb_ge _ 1)) by lia.
  rewrite releasesleep_eq by done. set (w1 := slock_set _ _ w). eexists. split; [done|].
  assert (Hs : ic_step w (wake_all (C_slk (SL_inode i)) w1)).
  { eapply ic_step_trans; [apply ic_step_lock|apply ic_step_wake]. }
  split_and!; [by eapply fstx_ic| |by apply quiet_ic|unfold wake_all, w1, slock_set; by rsimpl].
  apply (icache_ext w1); [unfold wake_all; by rsimpl..|].
  eapply (icache_lock w V (Some i) None); [done|done|]. intros j Hj. split; [|done]. intros [= <-]. done.
Qed.

(** ** [iput] *)

Lemma iput_ok w V bl lk i x e :
  fstx w V bl ∅ → icache w V lk → w_inodes w !! i = Some x → 0 < i_ref x →
  (i_ref x = 1 → i_flags x = I_VALID → i_nlink x ≠ 0) →
  ∃ w', iput i (KS w e) = Ok tt (KS w' e) ∧ fstx w' V bl ∅ ∧ icache w' V lk ∧ quiet w w' ∧
    w_inodes w' = <[i := x <| i_ref ::= λ k, k - 1 |>]> (w_inodes w) ∧ w_slocks w' = w_slocks w.
Proof.
  intros Hf Hic Hx Hr Hlive. destruct (fstx_thread _ _ _ _ Hf) as ([Hc _] & Hl & _).
  destruct (ic_slot _ _ _ Hic i x Hx Hr) as (Hdev & Hn & Hfl). pose proof (ic_ref _ _ _ Hic i x Hx) as Hb.
  unfold iput, modi. kcall (acquire_free L_icache w e (proj1 (Hl L_icache))).
  erewrite bind_ok; [|apply (geti_eq i x); unfold acquired; by rsimpl].
  replace ((i_ref x =? 1) && _ && _) with false.
  2: { symmetry. destruct Hfl as [Hfl|(Hfl & _)]; rewrite Hfl; [by rewrite andb_false_r|].
       destruct (Z.eqb_spec (i_ref x) 1) as [E|]; [|done]. cbn [andb]. apply Z.eqb_neq. by apply Hlive. }
  rewrite bind_ret, bind_modw.
  rewrite (release_calm L_icache w) by (done || by rsimpl).
  set (y := x <| i_ref ::= λ k, k - 1 |>).
  match goal with |- context [Ok tt (KS ?u e)] => replace u with (w <| w_inodes ::= <[i := y]> |>) end.
  2: { unfold acquired. weq. rewrite (alter_is_insert _ _ _ _ Hx). f_equal. unfold y.
       destruct x; cbn in *; usetf; cbn. f_equal. symmetry. apply s32_small. lia. }
  assert (Hs : ic_step w (w <| w_inodes ::= <[i := y]> |>)).
  { replace (w <| w_inodes ::= <[i := y]> |>) with (w <| w_inodes := <[i := y]> (w_inodes w) |>) by weq.
    apply ic_step_inodes. }
  eexists. split; [done|]. split_and!; [by eapply fstx_ic| |by apply quiet_ic|by rsimpl|by rsimpl].
  eapply icache_insert; [done|done|..]; unfold y; rsimpl.
  - lia.
  - intros _. split_and!; try done; try lia. destruct Hfl as [Hfl|(S1 & S2 & S3)]; [by left|right].
    split_and!; try done. by apply synced_ref.
  - intros _ j z Hj Hz Hzr E. apply Hj. by eapply (ic_uniq _ _ _ Hic).
Qed.

Lemma idup_ok w V bl lk i x e :
  fstx w V bl ∅ → icache w V lk → w_inodes w !! i = Some x → 0 < i_ref x → i_ref x < 2 ^ 31 - 1 →
  ∃ w', idup i (KS w e) = Ok i (KS w' e) ∧ fstx w' V bl ∅ ∧ icache w' V lk ∧ quiet w w' ∧
    w_inodes w' = <[i := x <| i_ref ::= λ k, k + 1 |>]> (w_inodes w) ∧ w_slocks w' = w_slocks w.
Proof.
  intros Hf Hic Hx Hr Hb. destruct (fstx_thread _ _ _ _ Hf) as ([Hc _] & Hl & _).
  destruct (ic_slot _ _ _ Hic i x Hx Hr) as (Hdev & Hn & Hfl).
  unfold idup, modi. kcall (acquire_free L_icache w e (proj1 (Hl L_icache))). rewrite bind_modw.
  erewrite bind_ok; [|apply (release_calm L_icache w); done || by rsimpl].
  set (y := x <| i_ref ::= λ k, k + 1 |>). unfold mret, M_ret.
  match goal with |- context [Ok i (KS ?u e)] => replace u with (w <| w_inodes ::= <[i := y]> |>) end.
  2: { unfold acquired. weq. rewrite (alter_is_insert _ _ _ _ Hx). f_equal. unfold y.
       destruct x; cbn in *; usetf; cbn. f_equal. symmetry. apply s32_small. lia. }
  assert (Hs : ic_step w (w <| w_inodes ::= <[i := y]> |>)).
  { replace (w <| w_inodes ::= <[i := y]> |>) with (w <| w_inodes := <[i := y]> (w_inodes w) |>) by weq.
    apply ic_step_inodes. }
  eexists. split; [done|]. split_and!; [by eapply fstx_ic| |by apply quiet_ic|by rsimpl|by rsimpl].
  eapply icache_insert; [done|done|..]; unfold y; rsimpl.
  - lia.
  - intros _. split_and!; try done; try lia. destruct Hfl as [Hfl|(S1 & S2 & S3)]; [by left|right].
    split_and!; try done. by apply synced_ref.
  - intros _ j z Hj Hz Hzr E. apply Hj. by eapply (ic_uniq _ _ _ Hic).
Qed.

(** The counts after a change of one slot's count by [k]. *)
Lemma refs_shift w V lk i x k m :
  icache w V lk → w_inodes w !! i = Some x → 0 < i_ref x →
  refs (<[i := x <| i_ref ::= λ r, r + k |>]> (w_inodes w)) m =
    refs (w_inodes w) m + if m =? i_inum x then k else 0.
Proof.
  intros Hic Hx Hr. rewrite (refs_insert _ _ _ _ _ Hx). unfold counts. rsimpl.
  rewrite (Z.eqb_sym m). destruct (i_inum x =? m); lia.
Qed.

End icache.

(** A table of three slots, the first of which caches the file of the small file
    system. *)
Definition demo_table : list inode := [demo_file; zero_inode; zero_inode].

Lemma demo_icache w :
  w_inodes w = demo_table → (∀ i, slocked (w_slocks w (SL_inode i)) = 0) → icache demo_sb w demo_fdisk None.
Proof.
  intros Hi Hl.
  assert (Hone : ∀ i x, w_inodes w !! i = Some x → 0 < i_ref x → i = 0%nat ∧ x = demo_file).
  { rewrite Hi. intros [|[|[|i]]] x [= <-] Hr; [done|cbn in Hr; lia..]. }
  split.
  - intros i j x y Hx Hy Hrx Hry _. destruct (Hone i x Hx Hrx) as [-> _]. by destruct (Hone j y Hy Hry).
  - rewrite Hi. intros [|[|[|i]]] x [= <-]; cbn; lia.
  - intros i x Hx Hr. destruct (Hone i x Hx Hr) as [_ ->]. cbn. split_and!; try lia; try done.
    right. split; [done|]. split; [exact demo_synced|done].
  - intros i. by rewrite Hl.
Qed.

(** A transaction on such a file system, with these inodes and no inode locked. *)
Lemma demo_fstx d js :
  Forall blk d → length d = 80%nat → d !! 1%nat = Some demo_sblock → d !! 2%nat = Some zero_block →
  ∃ w, fstx (L := memide_laws) 2 10 demo_sb w d [] ∅ ∧ w_inodes w = js ∧
    ∀ i, slocked (w_slocks w (SL_inode i)) = 0.
Proof.
  intros Hb Hl H1 H2. destruct (running_fs d js Hb Hl H1 H2) as (w & [Htx _ [Ho _]] & Hsb & Hd & Hi).
  set (w1 := w <| w_log ::= λ l, l <| outstanding ::= λ n, n + 1 |> |>).
  set (sl := λ s, match s with SL_buf b => w_slocks w (SL_buf b) | SL_inode _ => free_slk end).
  exists (w1 <| w_slocks := sl |>). split; [|split; [unfold w1; by rsimpl|intros i; by rsimpl]].
  apply (fstx_ic (L := memide_laws) _ _ _ w1).
  { exists (w_inodes w1), sl, (w_procs w1). split_and!; [weq|unfold w1; by rsimpl|apply roused_refl]. }
  rewrite Hd in Htx. split; [|unfold w1; rsimpl; lia|unfold w1; by rsimpl|apply not_elem_of_nil].
  destruct Htx as [? ? ? ? ? ? ?]. split; try assumption. by apply fs_thread_log.
Qed.

