(* ===== verification/FsPath.v ===== *)
(** * Names and paths

    What [namecmp] and [skipelem] compute on C strings: [cut n s] is the string
    an array of at most [n] bytes holds, and [elems p] the list of the elements
    of a path. *)

From S2P Require Import Prelude Kernel Bytes CString Inode Fs.

(** ** Names *)

(** The bytes before the terminator, at most [n]. *)
Fixpoint cut (n : nat) (s : list Z) : list Z :=
  match n, s with
  | S n, c :: s => if c =? 0 then [] else c :: cut n s
  | _, _ => []
  end.

Lemma u8_byte c : is_byte c → u8 c = c.
Proof. intros H. unfold u8. apply Z.mod_small. exact H. Qed.

(** [strncmp] is 0 exactly on equal strings. *)
Lemma strncmp_cut n p q :
  (n ≤ length p)%nat → (n ≤ length q)%nat → Forall is_byte p → Forall is_byte q →
  ∃ r, strncmp p q n = Some r ∧ (r = 0 ↔ cut n p = cut n q).
Proof.
  revert p q. induction n as [|n IH]; intros p q Hp Hq Bp Bq; [by exists 0|].
  destruct p as [|a p], q as [|b q]; cbn in Hp, Hq; try lia.
  apply Forall_cons in Bp as [Ba Bp]. apply Forall_cons in Bq as [Bb Bq]. cbn [strncmp head mbind option_bind tail cut].
  destruct (Z.eqb_spec a 0) as [->|Ha]; cbn [negb andb].
  - exists (u8 0 - u8 b). split; [done|]. rewrite !u8_byte by done.
    destruct (Z.eqb_spec b 0) as [->|]; [done|]. split; [lia|done].
  - destruct (Z.eqb_spec a b) as [->|Hab].
    + rewrite (proj2 (Z.eqb_neq b 0)) by done. destruct (IH p q) as (r & Hr & Hiff); try done; try lia.
      exists r. split; [done|]. rewrite Hiff. split; congruence.
    + exists (u8 a - u8 b). split; [done|]. rewrite !u8_byte by done. split; [lia|].
      destruct (b =? 0); [done|]. intros [= ->]. done.
Qed.

Lemma cut_app_zero n s t : 0 ∉ s → cut n (s ++ 0 :: t) = take n s.
Proof.
  revert n. induction s as [|c s IH]; intros n Hs; destruct n as [|n]; try done.
  apply not_elem_of_cons in Hs as [Hc Hs]. cbn [app cut take]. rewrite (proj2 (Z.eqb_neq c 0)) by done.
  f_equal. by apply IH.
Qed.

Lemma cut_all n s : 0 ∉ s → cut n s = take n s.
Proof.
  revert n. induction s as [|c s IH]; intros n Hs; destruct n as [|n]; try done.
  apply not_elem_of_cons in Hs as [Hc Hs]. cbn [cut take]. rewrite (proj2 (Z.eqb_neq c 0)) by done.
  f_equal. by apply IH.
Qed.

(** ** Paths *)

(** The pieces between slashes, and those that are not empty. *)
Fixpoint pieces (p : list Z) : list (list Z) :=
  match p with
  | [] => [[]]
  | c :: p =>
      if c =? 47 then [] :: pieces p
      else match pieces p with
           | s :: ss => (c :: s) :: ss
           | [] => [[c]]
           end
  end.
Definition elems (p : list Z) : list (list Z) := filter (λ s, s ≠ []) (pieces p).

Lemma pieces_cons p : ∃ s ss, pieces p = s :: ss.
Proof. destruct p as [|c p]; cbn; [by eexists _, _|]. case_match; [by eexists _, _|]. case_match; by eexists _, _. Qed.

Lemma elems_slash p : elems (47 :: p) = elems p.
Proof. unfold elems. cbn [pieces]. change (47 =? 47) with true. cbn iota. by rewrite filter_cons_False by (intros H; by apply H). Qed.

Lemma pieces_app s p :
  47 ∉ s → pieces (s ++ p) = (s ++ hd [] (pieces p)) :: tail (pieces p).
Proof.
  induction s as [|c s IH]; intros Hs; cbn [app pieces].
  - by destruct (pieces_cons p) as (x & xs & ->).
  - apply not_elem_of_cons in Hs as [Hc Hs]. rewrite (proj2 (Z.eqb_neq c 47)) by done. by rewrite IH.
Qed.

(** An element is followed by a slash or the end. *)
Definition bounded (p : list Z) : Prop := p = [] ∨ ∃ q, p = 47 :: q.

Lemma elems_elem s p : 47 ∉ s → s ≠ [] → bounded p → elems (s ++ p) = s :: elems p.
Proof.
  intros Hs Hne Hp. unfold elems. rewrite pieces_app by done.
  destruct Hp as [->|(q & ->)]; cbn [pieces]; [|change (47 =? 47) with true; cbn iota];
    cbn [hd tail]; rewrite app_nil_r; rewrite filter_cons_True by done; f_equal;
    by rewrite filter_cons_False by (intros H; by apply H).
Qed.

Lemma skip_slashes_spec p :
  0 ∉ p → ∃ q, skip_slashes (p ++ [0]) = Some (q ++ [0]) ∧ elems p = elems q ∧ q `suffix_of` p ∧
    (q = [] ∨ ∃ c q', q = c :: q' ∧ c ≠ 47).
Proof.
  induction p as [|c p IH]; intros Hp; cbn [app skip_slashes].
  - exists []. split_and!; try done. by left.
  - apply not_elem_of_cons in Hp as [Hc Hp]. destruct (Z.eqb_spec c 47) as [->|Hne].
    + destruct (IH Hp) as (q & H1 & H2 & H3 & H4). exists q.
      split_and!; [done|by rewrite elems_slash|by apply suffix_cons_r|done].
    + exists (c :: p). split_and!; try done. right. by exists c, p.
Qed.

Lemma take_elem_spec p :
  0 ∉ p → ∃ s q, take_elem (p ++ [0]) = Some (s, q ++ [0]) ∧ p = s ++ q ∧ (47 ∉ s) ∧ bounded q.
Proof.
  induction p as [|c p IH]; intros Hp; cbn [app take_elem].
  - exists [], []. split_and!; try done; [apply not_elem_of_nil|by left].
  - apply not_elem_of_cons in Hp as [Hc Hp]. destruct (Z.eqb_spec c 47) as [->|Hne].
    + exists [], (47 :: p). split_and!; try done; [apply not_elem_of_nil|right; by eexists].
    + rewrite (proj2 (Z.eqb_neq c 0)) by done. cbn [orb].
      destruct (IH Hp) as (s & q & H1 & H2 & H3 & H4). exists (c :: s), q. rewrite H1. cbn.
      split_and!; try done; [by subst|]. apply not_elem_of_cons. by split.
Qed.

(** [skipelem] takes the first element off a path; the name buffer holds its
    first [DIRSIZ] bytes. *)
Lemma skipelem_spec p name :
  0 ∉ p → length name = 14%nat →
  match elems p with
  | [] => skipelem (p ++ [0]) name = Some None
  | s :: ss => ∃ name' q, skipelem (p ++ [0]) name = Some (Some (name', q ++ [0])) ∧
      elems q = ss ∧ cut 14 name' = take 14 s ∧ length name' = 14%nat ∧ (0 ∉ q) ∧
      (length q < length p)%nat ∧ (Forall is_byte p → Forall is_byte name → Forall is_byte name') ∧
      (Forall is_byte p → Forall is_byte q) ∧ (ss = [] ↔ q = [])
  end.
Proof.
  intros Hp Hn. destruct (skip_slashes_spec p Hp) as (q & H1 & -> & Hsuf & H3).
  unfold skipelem. rewrite H1. cbn [mbind option_bind].
  destruct H3 as [->|(c & q' & -> & Hc)]; [done|].
  assert (Hq : 0 ∉ c :: q').
  { destruct Hsuf as [k ->]. set_solver. }
  pose proof Hq as [Hc0 Hq']%not_elem_of_cons.
  cbn [app hd_error mbind option_bind]. rewrite (proj2 (Z.eqb_neq c 0)) by done.
  destruct (take_elem_spec (c :: q') Hq) as (s & r & H4 & H5 & H6 & H7).
  change (c :: q' ++ [0]) with ((c :: q') ++ [0]). rewrite H4. cbn [mbind option_bind].
  assert (Hs : s ≠ []).
  { intros ->. cbn in H5. subst r. destruct H7 as [?|(r' & [= -> _])]; done. }
  assert (Hs0 : 0 ∉ s) by (rewrite H5 in Hq; set_solver).
  assert (Hr0 : 0 ∉ r) by (rewrite H5 in Hq; set_solver).
  rewrite H5, elems_elem by done.
  destruct (skip_slashes_spec r Hr0) as (r' & H8 & H9 & H10 & H11). rewrite H8. cbn [mbind option_bind].
  eexists _, r'. split; [done|]. assert (Hlr : (length r' ≤ length r)%nat) by by apply suffix_length.
  assert (Hlq : (length (c :: q') ≤ length p)%nat) by by apply suffix_length.
  assert (Hlen : (length s + length r = length (c :: q'))%nat) by (rewrite H5, length_app; lia).
  assert (Hls : (0 < length s)%nat) by (destruct s; [done|cbn; lia]).
  assert (Hbytes : Forall is_byte p → Forall is_byte s ∧ Forall is_byte r).
  { intros Hb. destruct Hsuf as [k ->]. apply Forall_app in Hb as [_ Hb]. rewrite H5 in Hb.
    by apply Forall_app in Hb. }
  set (name' := if _ >=? DIRSIZ then _ else _).
  assert (Hname : cut 14 name' = take 14 s ∧ length name' = 14%nat ∧
                  (Forall is_byte s → Forall is_byte name → Forall is_byte name')).
  { unfold name', DIRSIZ. destruct (Z.geb_spec (Z.of_nat (length s)) 14) as [Hge|Hlt].
    - assert (Hlt14 : length (take (Z.to_nat 14) s) = 14%nat) by (rewrite length_take; lia).
      unfold splice. rewrite take_0, Nat.add_0_l, Hlt14. cbn [app]. rewrite (drop_ge name), app_nil_r by lia.
      split_and!; [|done|intros; by apply Forall_take].
      rewrite cut_all by (intros Hin; apply Hs0; by eapply subseteq_take). rewrite take_take. done.
    - unfold splice. rewrite take_0, Nat.add_0_l, length_app. cbn [app length].
      rewrite <- app_assoc. cbn [app]. split_and!.
      + by apply cut_app_zero.
      + rewrite length_app. cbn [length]. rewrite length_drop. lia.
      + intros Bs Bn. apply Forall_app_2; [done|]. constructor; [unfold is_byte; lia|by apply Forall_drop]. }
  destruct Hname as (N1 & N2 & N3). split_and!; try done.
  - destruct H10 as [k ->]. set_solver.
  - lia.
  - intros Hb. by apply N3, Hbytes.
  - intros Hb. apply Hbytes in Hb as [_ Hb]. destruct H10 as [k ->]. by apply Forall_app in Hb as [_ Hb].
  - rewrite H9. destruct H11 as [->|(c' & r'' & -> & Hc')]; [done|]. split; [|done].
    intros E. exfalso. destruct (take_elem_spec (c' :: r'')) as (s' & u & _ & E2 & E3 & E4).
    { destruct H10 as [k ->]. set_solver. }
    destruct s' as [|z s']; cbn in E2; [subst u; by destruct E4 as [?|(? & [= ? _])]|].
    rewrite E2 in E. change (z :: s' ++ u) with ((z :: s') ++ u) in E. by rewrite elems_elem in E.
Qed.
