(* ===== verification/FsDir.v ===== *)
(** * Directories and path resolution

    A directory is a file of 16-byte entries.  [dirlookup] finds the first entry
    in use with the name, and [namei] follows a path from the root through the
    directories on disk.  The specification [walk] knows nothing of caches and
    locks: it reads the inodes and the directories' contents off the blocks. *)

From S2P Require Import Prelude Kernel Bytes CString Spinlock Sched Sleeplock Disk Memide Bio Bcache Log LogSpec LogCrash LogTx Inode FsTx Fs FsFile FsWrite FsContents Icache FsPath.

(** ** Lookup in the contents of a directory *)

Definition entry (l : list Z) (k : nat) : list Z := slice (16 * k) 16 l.

(** The number and the index of the first entry with the name, from [k] on. *)
Fixpoint find_entry (l : list Z) (name : list Z) (k n : nat) : option (Z * nat) :=
  match n with
  | O => None
  | S n =>
      if (de_inum (entry l k) =? 0) || negb (bool_decide (cut 14 (de_name (entry l k)) = name))
      then find_entry l name (S k) n
      else Some (de_inum (entry l k), k)
  end.

Definition dir_find (l name : list Z) : option (Z * nat) := find_entry l name 0 (length l / 16).

Section dir.
  Context {D : DiskDriver} {L : DiskLaws D}.
  Context (ls sz : Z) (sb : superblock).
  Abbreviation fstx := (fstx ls sz sb).
  Abbreviation on_inode := (on_inode ls sz sb).

Lemma read_de_ok dp (k : nat) who w V bl x l e :
  on_inode dp w V bl x → file_is V x l → i_type x ≠ T_DEV → (16 * k + 16 ≤ length l)%nat →
  ∃ w', read_de dp (Z.of_nat (16 * k)) who (KS w e) = Ok (entry l k) (KS w' e) ∧
    on_inode dp w' V bl x ∧ tx_step w w'.
Proof.
  intros Hoi Hfi Hty Hk. pose proof (fi_max _ _ _ Hfi) as Hmax. change (MAXFILE * BSIZE) with 71680 in Hmax.
  destruct (readi_ok ls sz sb dp (16 * k) 16 w V bl x l e Hoi Hfi Hty) as (w' & Hr & Ho & Hs); [lia|lia|].
  exists w'. split_and!; try done. unfold read_de, sizeof_de. change (Z.of_nat 16) with 16 in Hr. kcall Hr.
  rewrite length_slice by lia. done.
Qed.

Lemma entry_bytes l k : Forall is_byte l → Forall is_byte (entry l k).
Proof. apply slice_bytes. Qed.

(** The scan of [dirlookup]: it ends, or finds an entry and gets its inode. *)
Lemma dirlookup_from_ok fuel dp name (k m : nat) w V bl x l e :
  on_inode dp w V bl x → file_is V x l → i_type x ≠ T_DEV → Forall is_byte l →
  length name = 14%nat → Forall is_byte name → length l = (16 * m)%nat → (k ≤ m)%nat → (m - k ≤ fuel)%nat →
  ∃ w', on_inode dp w' V bl x ∧ tx_step w w' ∧
    dirlookup_from fuel dp name (Z.of_nat (16 * k)) (KS w e) =
      match find_entry l (cut 14 name) k (m - k) with
      | None => Ok None (KS w' e)
      | Some (n, k') => (ip ← iget ROOTDEV n; mret (Some (ip, Z.of_nat (16 * k')))) (KS w' e)
      end.
Proof.
  intros Hoi Hfi Hty Hlb Hn Hnb Hl. revert k w Hoi. induction fuel as [|fuel IH]; intros k w Hoi Hk Hfuel.
  all: cbn [dirlookup_from]; erewrite bind_ok; [|apply (geti_eq dp x), Hoi]; rewrite (fi_size _ _ _ Hfi), Hl.
  { replace k with m by lia. rewrite Z.ltb_irrefl, Nat.sub_diag. exists w. split_and!; [done|apply tx_step_refl|done]. }
  destruct (decide (k = m)) as [->|Hne].
  { rewrite Z.ltb_irrefl, Nat.sub_diag. exists w. split_and!; [done|apply tx_step_refl|done]. }
  rewrite (proj2 (Z.ltb_lt _ _)) by lia.
  destruct (read_de_ok dp k "dirlookup read" w V bl x l e Hoi Hfi Hty) as (w1 & Hr1 & Ho1 & S1); [lia|].
  kcall Hr1. replace (m - k)%nat with (S (m - S k)) by lia. cbn [find_entry].
  replace (Z.of_nat (16 * k) + sizeof_de) with (Z.of_nat (16 * S k)) by (unfold sizeof_de; lia).
  destruct (IH (S k) w1 Ho1) as (w2 & Ho2 & S2 & Hr2); [lia|lia|].
  destruct (Z.eqb_spec (de_inum (entry l k)) 0) as [E0|E0]; cbn [orb].
  { rewrite Hr2. exists w2. split_and!; [done|by tstep|done]. }
  assert (Hle : length (entry l k) = 16%nat) by (apply length_slice; lia).
  destruct (strncmp_cut 14 name (de_name (entry l k))) as (r & Hcmp & Hiff); try done.
  { lia. }
  { unfold de_name. rewrite length_slice by lia. lia. }
  { by apply slice_bytes, entry_bytes. }
  unfold namecmp. change (Z.to_nat DIRSIZ) with 14%nat. rewrite Hcmp, bind_munwrap.
  destruct (Z.eqb_spec r 0) as [Er|Er].
  - rewrite bool_decide_true by (symmetry; by apply Hiff). cbn [negb].
    erewrite bind_ok; [|apply (geti_eq dp x), Ho1]. rewrite (in_dev _ _ _ (oi_ok _ _ _ _ _ _ _ _ Ho1)).
    exists w1. split_and!; done.
  - rewrite bool_decide_false by (intros E; apply Er, Hiff; done). cbn [negb].
    rewrite Hr2. exists w2. split_and!; [done|by tstep|done].
Qed.

Lemma dirlookup_ok dp name w V bl x l e :
  on_inode dp w V bl x → file_is V x l → i_type x = T_DIR → Forall is_byte l →
  length name = 14%nat → Forall is_byte name → (length l mod 16 = 0)%nat →
  ∃ w', on_inode dp w' V bl x ∧ tx_step w w' ∧
    dirlookup dp name (KS w e) =
      match dir_find l (cut 14 name) with
      | None => Ok None (KS w' e)
      | Some (n, k) => (ip ← iget ROOTDEV n; mret (Some (ip, Z.of_nat (16 * k)))) (KS w' e)
      end.
Proof.
  intros Hoi Hfi Hty Hlb Hn Hnb Hl. unfold dirlookup. erewrite bind_ok; [|apply (geti_eq dp x), Hoi].
  rewrite Hty. cbn [negb Z.eqb T_DIR]. change (negb (Pos.eqb 1 1)) with false. cbn iota.
  assert (Hlen : length l = (16 * (length l / 16))%nat) by (pose proof (Nat.div_mod_eq (length l) 16); lia).
  destruct (dirlookup_from_ok (de_fuel (i_size x)) dp name 0 (length l / 16) w V bl x l e Hoi Hfi) as (w' & H1 & H2 & H3);
    try done; try lia.
  - by rewrite Hty.
  - unfold de_fuel. rewrite (fi_size _ _ _ Hfi). unfold sizeof_de. change 16 with (Z.of_nat 16).
    rewrite <- Nat2Z.inj_div, Nat2Z.id. lia.
  - exists w'. split_and!; try done. rewrite Nat.sub_0_r in H3. exact H3.
Qed.
End dir.

(** ** The tree on disk *)

Section tree.
  Context (sb : superblock).

Definition disk_inode (V : list block) (n : Z) : option inode :=
  (λ d, load_dinode d (mk_inode ROOTDEV n 0 0 0 0 0 0 0 [])) <$> V !! Z.to_nat (IBLOCK n sb).

Definition contents_of (V : list block) (x : inode) : list Z :=
  (λ p, default 0 (fbyte V x p)) <$> seq 0 (Z.to_nat (i_size x)).

(** Where the names lead from inode [n]. *)
Fixpoint walk (V : list block) (n : Z) (names : list (list Z)) : option Z :=
  match names with
  | [] => Some n
  | s :: names =>
      x ← disk_inode V n;
      if i_type x =? T_DIR then
        '(m, _) ← dir_find (contents_of V x) s;
        walk V m names
      else None
  end.

Definition allocated (V : list block) (n : Z) : Prop :=
  0 < n < sb_ninodes sb ∧ ∃ x, disk_inode V n = Some x ∧ i_type x ≠ 0.

(** Every inode in use is linked, and every directory in use is a well-formed
    file whose entries name inodes in use. *)
Definition tree_ok (V : list block) : Prop :=
  ∀ n x, allocated V n → disk_inode V n = Some x →
    i_nlink x ≠ 0 ∧
    (i_type x = T_DIR → inode_ok sb V x ∧ file_is V x (contents_of V x) ∧
       (length (contents_of V x) mod 16 = 0)%nat ∧ Forall is_byte (contents_of V x) ∧
       ∀ k, (k < length (contents_of V x) / 16)%nat → de_inum (entry (contents_of V x) k) ≠ 0 →
         allocated V (de_inum (entry (contents_of V x) k))).

Lemma find_entry_spec l name k n m k' :
  find_entry l name k n = Some (m, k') → (k ≤ k' < k + n)%nat ∧ m = de_inum (entry l k') ∧ m ≠ 0.
Proof.
  revert k. induction n as [|n IH]; intros k; cbn [find_entry]; [done|].
  destruct (Z.eqb_spec (de_inum (entry l k)) 0) as [E|E]; cbn [orb].
  - intros H%IH. destruct H as ((? & ?) & ? & ?). split_and!; try lia; done.
  - case_bool_decide; cbn [negb]; [intros [= <- <-]; split_and!; try lia; done|].
    intros H1%IH. destruct H1 as ((? & ?) & ? & ?). split_and!; try lia; done.
Qed.

(** An inode in memory that agrees with the disk stands for the one on disk. *)
Lemma din_disk V n x y :
  disk_inode V n = Some y → din V sb n x →
  i_type x = i_type y ∧ i_nlink x = i_nlink y ∧ i_size x = i_size y ∧ i_addrs x = i_addrs y.
Proof.
  unfold disk_inode. intros Hy [(d & Hd & E1 & E2 & E3 & E4 & E5 & E6)]. rewrite Hd in Hy. injection Hy as <-.
  unfold load_dinode. rsimpl. cbn [i_inum]. done.
Qed.

Lemma contents_same V x y : i_size x = i_size y → i_addrs x = i_addrs y → contents_of V x = contents_of V y.
Proof. intros E1 E2. unfold contents_of, fbyte, slot. by rewrite E1, E2. Qed.

Lemma file_is_same V x y l : i_size x = i_size y → i_addrs x = i_addrs y → file_is V x l → file_is V y l.
Proof.
  intros E1 E2 [H1 H2 H3]. split; [congruence|done|]. intros p Hp. rewrite <- H3 by done.
  unfold fbyte, slot. by rewrite E2.
Qed.

Lemma inode_ok_same V x y :
  i_dev y = ROOTDEV → i_addrs x = i_addrs y → inode_ok sb V x → inode_ok sb V y.
Proof.
  intros E1 E2 [H1 H2 H3 H4]. assert (Hs : ∀ j, slot V y j = slot V x j) by (intros j; unfold slot; by rewrite E2).
  split; [done|congruence|..]; intros *; rewrite !Hs; auto.
Qed.
End tree.

Section namei.
  Context {D : DiskDriver} {L : DiskLaws D}.
  Context (ls sz : Z) (sb : superblock).
  Abbreviation fstx := (fstx ls sz sb).
  Abbreviation icache := (icache sb).
  Abbreviation allocated := (allocated sb).
  Abbreviation tree_ok := (tree_ok sb).
  Abbreviation walk := (walk sb).

(** What path resolution works in. *)
Record resolving (w : world) (V : list block) (bl : list Z) : Prop := {
  rs_tx : fstx w V bl ∅;
  rs_lay : layout ls sz sb (length V);
  rs_meta : meta_ok sb V;
  rs_ic : icache w V None
}.

Lemma iunlockput_ok w V bl i x e :
  fstx w V bl ∅ → icache w V (Some i) → w_inodes w !! i = Some x → 0 < i_ref x → i_nlink x ≠ 0 →
  ∃ w', iunlockput i (KS w e) = Ok tt (KS w' e) ∧ fstx w' V bl ∅ ∧ icache w' V None ∧ quiet w w' ∧
    w_inodes w' = <[i := x <| i_ref ::= λ k, k - 1 |>]> (w_inodes w).
Proof.
  intros Hf Hic Hx Hr Hnl.
  destruct (iunlock_ok ls sz sb w V bl i x e Hf Hic Hx Hr) as (w1 & Hr1 & Hf1 & Hic1 & Q1 & Hi1).
  destruct (iput_ok ls sz sb w1 V bl None i x e Hf1 Hic1) as (w2 & Hr2 & Hf2 & Hic2 & Q2 & Hi2 & _);
    [by rewrite Hi1|done|done|].
  exists w2. unfold iunlockput. kcall Hr1. split_and!; try done; [by qstep|by rewrite Hi2, Hi1].
Qed.

(** The share of free slots that holding slot [x] leaves. *)
Definition spare (w : world) (x : inode) : nat := nfree (w_inodes w) + (if decide (i_ref x = 1) then 1 else 0).

(** Giving up slot [i], which then counts one less. *)
Lemma slot_drop w V bl i x e :
  fstx w V bl ∅ → icache w V (Some i) → w_inodes w !! i = Some x → 0 < i_ref x → i_nlink x ≠ 0 →
  ∃ w', iunlockput i (KS w e) = Ok tt (KS w' e) ∧ fstx w' V bl ∅ ∧ icache w' V None ∧ quiet w w' ∧
    w_inodes w' = <[i := x <| i_ref ::= λ k, k - 1 |>]> (w_inodes w) ∧
    (∀ m, refs (w_inodes w') m = refs (w_inodes w) m - (if m =? i_inum x then 1 else 0)) ∧
    (nfree (w_inodes w') = nfree (w_inodes w) + (if decide (i_ref x = 1%Z) then 1 else 0))%nat.
Proof.
  intros G1 G2 G3 G4 G5. destruct (iunlockput_ok w V bl i x e G1 G2 G3 G4 G5) as (w3 & K1 & K2 & K3 & K4 & K5).
  exists w3. split_and!; try done.
  - intros m. rewrite K5. rewrite (refs_shift sb w V (Some i) i x (-1)) by done. destruct (m =? i_inum x); lia.
  - rewrite K5. pose proof (nfree_insert (w_inodes w) i x (x <| i_ref ::= λ k, k - 1 |>) G3) as E.
    unfold isfree in E. revert E. rsimpl. repeat case_decide; lia.
Qed.

(** Locking an inode in use. *)
Lemma ilock_alloc w V bl i x e :
  resolving w V bl → w_inodes w !! i = Some x → 0 < i_ref x → allocated V (i_inum x) →
  ∃ w1 x1 y, ilock (Some i) (KS w e) = Ok tt (KS w1 e) ∧ fstx w1 V bl ∅ ∧ icache w1 V (Some i) ∧ quiet w w1 ∧
    w_inodes w1 !! i = Some x1 ∧ disk_inode sb V (i_inum x) = Some y ∧
    (i_type x1 = i_type y ∧ i_nlink x1 = i_nlink y ∧ i_size x1 = i_size y ∧ i_addrs x1 = i_addrs y) ∧
    i_ref x1 = i_ref x ∧ i_inum x1 = i_inum x ∧ i_dev x1 = ROOTDEV ∧
    (∀ m, refs (w_inodes w1) m = refs (w_inodes w) m) ∧ nfree (w_inodes w1) = nfree (w_inodes w).
Proof.
  intros [Hf Hlay Hme Hic] Hx Hr (Hnr & y & Hy & Hyt).
  assert (Hyd : ∃ d, V !! Z.to_nat (IBLOCK (i_inum x) sb) = Some d ∧ di_type (dip_off (i_inum x)) d ≠ 0).
  { unfold disk_inode in Hy. destruct (V !! Z.to_nat (IBLOCK (i_inum x) sb)) as [d|] eqn:Ed; [|done].
    exists d. split; [done|]. injection Hy as <-. revert Hyt. unfold load_dinode. by rsimpl. }
  destruct Hyd as (d & Hd & Hdt).
  destruct (ilock_ok ls sz sb w V bl i x d e Hf Hlay Hic Hx Hr Hd Hdt)
    as (w1 & x1 & Hr1 & Hf1 & Hic1 & Q1 & Hi1 & Hfl1 & Hdin1 & Hrf1 & Hin1 & Hdev1).
  exists w1, x1, y. split_and!; try done; try (by eapply din_disk).
  - rewrite Hi1. apply list_lookup_insert_eq. by eapply lookup_lt_Some.
  - intros m. rewrite Hi1, (refs_insert _ _ _ _ _ Hx). unfold counts. rewrite Hrf1, Hin1. lia.
  - rewrite Hi1. pose proof (nfree_insert (w_inodes w) i x x1 Hx) as E. unfold isfree in E. rewrite Hrf1 in E. lia.
Qed.

(** The slot [j] of a directory's entry, once the directory's slot [i] is given up. *)
Lemma child_slot w V w' i x j z r n :
  icache w V (Some i) → w_inodes w !! i = Some x → w_inodes w !! j = Some z → 0 < i_ref z → 0 < r →
  i_ref x = r + (if i_inum x =? i_inum z then 1 else 0) →
  w_inodes w' = <[i := x <| i_ref ::= λ k, k - 1 |>]> (w_inodes w) →
  (nfree (w_inodes w') = nfree (w_inodes w) + (if decide (i_ref x = 1%Z) then 1 else 0))%nat →
  (nfree (w_inodes w) + (if decide (i_ref z = 1%Z) then 1 else 0) = n)%nat →
  (2 ≤ n + (if decide (r = 1%Z) then 1 else 0))%nat →
  ∃ z', w_inodes w' !! j = Some z' ∧ i_inum z' = i_inum z ∧ 0 < i_ref z' ∧ (2 ≤ spare w' z')%nat.
Proof.
  intros Hic Hx Hz Hzr Hr F Hi Hnf Hn Hsp. unfold spare. destruct (decide (j = i)) as [->|Hne].
  - replace z with x in * by congruence. rewrite Z.eqb_refl in F.
    exists (x <| i_ref ::= λ k, k - 1 |>). rewrite Hi. split_and!.
    + apply list_lookup_insert_eq. by eapply lookup_lt_Some.
    + by rsimpl.
    + rsimpl. lia.
    + rsimpl. rewrite F in *. rewrite <- Hi. repeat case_decide; lia.
  - exists z. split_and!; try done; [rewrite Hi; by rewrite list_lookup_insert_ne|].
    assert (i_inum x ≠ i_inum z) as Hnm.
    { intros E. apply Hne. eapply (ic_uniq _ _ _ _ Hic); [exact Hz|exact Hx|done| |congruence].
      destruct (i_inum x =? i_inum z); lia. }
    rewrite (proj2 (Z.eqb_neq _ _) Hnm) in F. rewrite F in *. repeat case_decide; lia.
Qed.

Lemma namex_loop_ok fuel p i name w V bl x e :
  resolving w V bl → tree_ok V → w_inodes w !! i = Some x → 0 < i_ref x → allocated V (i_inum x) →
  (∀ q, refs (w_inodes w) q - (if q =? i_inum x then 1 else 0) < 2 ^ 31 - 2) →
  (2 ≤ spare w x)%nat → 0 ∉ p → Forall is_byte p → length name = 14%nat → Forall is_byte name →
  (length p < fuel)%nat →
  ∃ r name' w', namex_loop fuel i (p ++ [0]) false name (KS w e) = Ok (r, name') (KS w' e) ∧
    fstx w' V bl ∅ ∧ icache w' V None ∧ quiet w w' ∧
    match walk V (i_inum x) (take 14 <$> elems p) with
    | Some m => ∃ j y, r = Some j ∧ w_inodes w' !! j = Some y ∧ i_inum y = m ∧ 0 < i_ref y ∧
        ∀ q, refs (w_inodes w') q = refs (w_inodes w) q - (if q =? i_inum x then 1 else 0) + (if q =? m then 1 else 0)
    | None => r = None ∧
        ∀ q, refs (w_inodes w') q = refs (w_inodes w) q - (if q =? i_inum x then 1 else 0)
    end.
Proof.
  revert p i name w x. induction fuel as [|fuel IH]; intros p i name w x Hrs Htree Hx Hr Hal Hrefs Hsp Hp Hpb Hn Hnb Hfuel; [lia|].
  pose proof (skipelem_spec p name Hp Hn) as Hskip. cbn [namex_loop].
  pose proof Hrs as [Hf Hlay Hme Hic].
  destruct (elems p) as [|s ss] eqn:Eel.
  { rewrite Hskip, bind_munwrap. cbn iota. exists (Some i), name, w. split_and!; try done.
    cbn [fmap list_fmap FsDir.walk]. exists i, x. split_and!; try done. intros q. lia. }
  destruct Hskip as (name' & q & Hsk & Hq & Hcut & Hn' & Hq0 & Hqlt & Hnb' & Hqb & _).
  rewrite Hsk, bind_munwrap. cbn iota.
  destruct (ilock_alloc w V bl i x e Hrs Hx Hr Hal)
    as (w1 & x1 & y & Hr1 & Hf1 & Hic1 & Q1 & Hx1 & Hy & (Et & En & Es & Ea) & Hrf1 & Hin1 & Hdev1 & Hsame1 & Hnf1).
  destruct (Htree _ _ Hal Hy) as [Hnl Hdir]. kcall Hr1. erewrite bind_ok; [|by apply geti_eq].
  cbn [fmap list_fmap FsDir.walk]. rewrite Hy. cbn [mbind option_bind]. rewrite <- Et.
  destruct (Z.eqb_spec (i_type x1) T_DIR) as [Hdir1|Hdir1]; cbn [negb]; cycle 1.
  { destruct (slot_drop w1 V bl i x1 e Hf1 Hic1 Hx1) as (w2 & Hr2 & Hf2 & Hic2 & Q2 & _ & Hrf2 & _); [lia|by rewrite En|].
    kcall Hr2. exists None, name', w2. split_and!; try done; [by qstep|]. intros m. by rewrite Hrf2, Hsame1, Hin1. }
  cbn [andb]. destruct (Hdir ltac:(congruence)) as (Hok & Hfi & Hmod & Hlb & Hent).
  rewrite (contents_same V y x1) in * by done.
  assert (Hoi : on_inode ls sz sb i w1 V bl x1).
  { split; try done. by eapply inode_ok_same. }
  destruct (dirlookup_ok ls sz sb i name' w1 V bl x1 (contents_of V x1) e Hoi) as (w2 & Hoi2 & S2 & Hr2); try done.
  { by eapply file_is_same; [symmetry|symmetry|]. }
  { by apply Hnb'. }
  rewrite Hcut in Hr2. pose proof (icache_tx sb _ _ _ _ S2 Hic1) as Hic2. pose proof (ts_inodes _ _ S2) as Hi2.
  assert (Hf2 : fstx w2 V bl ∅) by apply Hoi2.
  destruct (dir_find (contents_of V x1) (take 14 s)) as [[m k]|] eqn:Efind; cbn [mbind option_bind]; cycle 1.
  { kcall Hr2. cbn iota.
    destruct (slot_drop w2 V bl i x1 e Hf2 Hic2) as (w3 & Hr3 & Hf3 & Hic3 & Q3 & _ & Hrf3 & _);
      [by rewrite Hi2|lia|by rewrite En|].
    kcall Hr3. exists None, name', w3. split_and!; try done; [by qstep|]. intros m'. by rewrite Hrf3, Hi2, Hsame1, Hin1. }
  destruct (find_entry_spec _ _ _ _ _ _ Efind) as (Hk & Hm & Hm0).
  assert (Hal2 : allocated V m) by (rewrite Hm; apply Hent; [lia|congruence]).
  assert (Hcase : ((if decide (i_ref x = 1%Z) then 1 else 0) ≤ 1)%nat) by (case_decide; lia).
  destruct (iget_ok ls sz sb w2 V bl ∅ (Some i) m e Hf2 Hic2 (proj1 Hal2)) as
    (j & w3 & z & Hr3 & S3 & Hsl3 & Hic3 & Hz & Hzn & Hzr & Hrf3 & Hnf3 & Hkeep).
  { rewrite Hi2, Hsame1. specialize (Hrefs m). destruct (m =? i_inum x); lia. }
  { rewrite Hi2, Hnf1. unfold spare in Hsp. lia. }
  rewrite (bind_ok _ _ _ _ _ Hr3) in Hr2. kcall Hr2. cbn iota.
  assert (Hi1' : w_inodes w2 !! i = Some x1) by (by rewrite Hi2).
  pose proof (Hkeep i x1 Hi1' ltac:(lia)) as Hx3. set (x3 := if i_inum x1 =? m then _ else _) in Hx3.
  assert (Hf3 : fstx w3 V bl ∅) by (by eapply fstx_ic).
  assert (Hx3f : i_inum x3 = i_inum x ∧ i_nlink x3 = i_nlink y ∧ i_ref x3 = i_ref x + (if i_inum x =? m then 1 else 0)).
  { unfold x3. rewrite Hin1. destruct (i_inum x =? m); rsimpl; split_and!; congruence || lia. }
  destruct Hx3f as (F1 & F2 & F3).
  destruct (slot_drop w3 V bl i x3 e Hf3 Hic3 Hx3) as (w4 & Hr4 & Hf4 & Hic4 & Q4 & Hi4 & Hrf4 & Hnf4);
    [destruct (i_inum x =? m); lia|congruence|]. kcall Hr4. rewrite F1 in Hrf4.
  assert (Hall : ∀ q, refs (w_inodes w4) q = refs (w_inodes w) q - (if q =? i_inum x then 1 else 0) + (if q =? m then 1 else 0)).
  { intros q'. rewrite Hrf4, Hrf3, Hi2, Hsame1. lia. }
  destruct (child_slot w3 V w4 i x3 j z (i_ref x) (nfree (w_inodes w)) Hic3 Hx3 Hz Hzr Hr) as (z' & Hz4 & Hzn4 & Hzr4 & Hsp4);
    [by rewrite F1, Hzn|done|done|by rewrite Hnf3, Hi2|done|]. rewrite Hzn in Hzn4.
  destruct (IH q j name' w4 z') as (r & nm & w5 & Hr5 & Hf5 & Hic5 & Q5 & Hres); try done.
  { by rewrite Hzn4. }
  { intros q'. rewrite Hall, Hzn4. specialize (Hrefs q'). lia. }
  { by apply Hqb. }
  { by apply Hnb'. }
  { lia. }
  exists r, nm, w5. split_and!; try done; [by qstep|]. rewrite Hq, Hzn4 in Hres.
  destruct (walk V m (take 14 <$> ss)) as [m'|].
  - destruct Hres as (j' & y' & G1 & G2 & G3 & G4 & G5). exists j', y'. split_and!; try done.
    intros q'. rewrite G5, Hall. lia.
  - destruct Hres as (G1 & G2). split; [done|]. intros q'. rewrite G2, Hall. lia.
Qed.

(** Where a path starts: at the root, or in the working directory. *)
Definition starts (w : world) (p : list Z) (n : Z) : Prop :=
  hd_error p = Some 47 ∧ n = ROOTINO ∨
  hd_error p ≠ Some 47 ∧ ∃ i pr d x, w_proc w = Some i ∧ w_procs w !! i = Some pr ∧ cwd pr = Some d ∧
    w_inodes w !! d = Some x ∧ 0 < i_ref x ∧ i_inum x = n.

(** The first step of [namex]: a reference to the inode where the path starts. *)
Lemma start_ok w V bl p n e :
  resolving w V bl → allocated V n → starts w p n → (∀ q, refs (w_inodes w) q < 2 ^ 31 - 2) →
  (2 ≤ nfree (w_inodes w))%nat →
  ∃ i w' x, (c ← munwrap "path" (hd_error (p ++ [0]));
             if (c : Z) =? 47 then iget ROOTDEV ROOTINO
             else i ← myproc; p ← getp i; d ← munwrap "proc->cwd" (cwd p); idup d) (KS w e) = Ok i (KS w' e) ∧
    resolving w' V bl ∧ quiet w w' ∧ w_inodes w' !! i = Some x ∧ 0 < i_ref x ∧ i_inum x = n ∧
    (2 ≤ spare w' x)%nat ∧
    ∀ q, refs (w_inodes w') q = refs (w_inodes w) q + (if q =? n then 1 else 0).
Proof.
  intros [Hf Hlay Hme Hic] Hal Hst Hrefs Hfree. destruct Hst as [[Hp ->]|[Hp (k & pr & d & x & Hk & Hpr & Hd & Hx & Hr & Hn)]].
  - destruct p as [|c p]; [done|]. injection Hp as ->. cbn [app hd_error]. rewrite bind_munwrap.
    change (47 =? 47) with true. cbn iota.
    destruct (iget_ok ls sz sb w V bl ∅ None ROOTINO e Hf Hic (proj1 Hal)) as
      (i & w' & x & H1 & S1 & _ & H2 & H3 & H4 & H5 & H6 & H7 & _); [specialize (Hrefs ROOTINO); lia|lia|].
    exists i, w', x. split_and!; try done; [|by apply quiet_ic|unfold spare; lia].
    split; try done. by eapply fstx_ic.
  - assert (Hc : ∃ c, hd_error (p ++ [0]) = Some c ∧ c ≠ 47).
    { destruct p as [|c p]; [by exists 0|]. exists c. split; [done|]. intros ->. by apply Hp. }
    destruct Hc as (c & -> & Hc). rewrite bind_munwrap, (proj2 (Z.eqb_neq c 47)) by done.
    unfold myproc. kstep. rewrite Hk. kstep. erewrite bind_ok; [|by apply getp_eq]. rewrite Hd, bind_munwrap.
    pose proof (refs_slot sb w V None d x Hic Hx Hr) as Href.
    destruct (idup_ok ls sz sb w V bl None d x e Hf Hic Hx Hr) as (w' & H1 & H2 & H3 & H4 & H5 & _).
    { specialize (Hrefs (i_inum x)). lia. }
    exists d, w', (x <| i_ref ::= λ k, k + 1 |>). split_and!; try done.
    + rewrite H5. apply list_lookup_insert_eq. by eapply lookup_lt_Some.
    + rsimpl. lia.
    + unfold spare. rewrite H5. rsimpl. pose proof (nfree_insert (w_inodes w) d x (x <| i_ref ::= λ k, k + 1 |>) Hx) as E.
      unfold isfree in E. revert E. rsimpl. repeat case_decide; lia.
    + intros q. rewrite H5, (refs_shift sb w V None d x 1) by done. by rewrite Hn.
Qed.

(** C4: [namei] resolves paths.  In a transaction, with the inode cache in order
    and two free slots in it, looking up any path, absolute or relative, returns
    a reference to the inode that following the path through the directories on
    disk leads to, and nothing when an element is missing or is not a
    directory.  Repeated and trailing slashes do not matter, and elements count
    up to their first [DIRSIZ] bytes.  Nothing is left locked, nothing is
    written, and the reference counts are as before but for the one returned. *)
Theorem namei_resolves w V bl p n e :
  resolving w V bl → tree_ok V → allocated V n → starts w p n → (∀ q, refs (w_inodes w) q < 2 ^ 31 - 2) →
  (2 ≤ nfree (w_inodes w))%nat → 0 ∉ p → Forall is_byte p →
  ∃ r w', namei (p ++ [0]) (KS w e) = Ok r (KS w' e) ∧ resolving w' V bl ∧ quiet w w' ∧
    match walk V n (take 14 <$> elems p) with
    | Some m => ∃ i x, r = Some i ∧ w_inodes w' !! i = Some x ∧ i_inum x = m ∧
        ∀ q, refs (w_inodes w') q = refs (w_inodes w) q + (if q =? m then 1 else 0)
    | None => r = None ∧ ∀ q, refs (w_inodes w') q = refs (w_inodes w) q
    end.
Proof.
  intros Hrs Htree Hal Hst Hrefs Hfree Hp Hpb.
  destruct (start_ok w V bl p n e Hrs Hal Hst Hrefs Hfree) as (i & w1 & x & Hr1 & Hrs1 & Q1 & Hx & Hr & Hn & Hsp & Hrf1).
  destruct (namex_loop_ok (length (p ++ [0])) p i (replicate 14 0) w1 V bl x e Hrs1 Htree Hx Hr)
    as (r & nm & w2 & Hr2 & Hf2 & Hic2 & Q2 & Hres); try done.
  { by rewrite Hn. }
  { intros q. rewrite Hrf1, Hn. specialize (Hrefs q). lia. }
  { apply Forall_replicate. unfold is_byte. lia. }
  { rewrite length_app. cbn. lia. }
  exists r, w2. split_and!; [| |by qstep|].
  - unfold namei, namex. unfold mbind, M_bind in Hr1 |- *.
    destruct (munwrap "path" (hd_error (p ++ [0])) (KS w e)) as [c st|]; [|done]. rewrite Hr1.
    change (replicate (Z.to_nat DIRSIZ) 0) with (replicate 14 0). by rewrite Hr2.
  - split; try done; apply Hrs1.
  - rewrite Hn in Hres. destruct (walk V n (take 14 <$> elems p)) as [m|].
    + destruct Hres as (j & y & -> & H1 & H2 & _ & H3). exists j, y. split_and!; try done.
      intros q. rewrite H3, Hrf1. lia.
    + destruct Hres as [-> H1]. split; [done|]. intros q. rewrite H1, Hrf1. lia.
Qed.
End namei.

(** ** A small tree *)

(** The root directory, inode 1, holds itself twice and the file [f], inode 2. *)
Definition demo_root : inode := mk_inode ROOTDEV 1 0 0 T_DIR 0 0 1 48 (14 :: replicate 12 0).
Definition demo_f : inode := mk_inode ROOTDEV 2 0 0 T_FILE 0 0 1 3 (15 :: replicate 12 0).
Definition demo_entry (n : Z) (name : string) : list Z :=
  le_bytes 2 n ++ take 14 (chars name ++ replicate 14 0).
Definition demo_dir : block :=
  demo_entry 1 "." ++ demo_entry 1 ".." ++ demo_entry 2 "f" ++ replicate 464 0.
Definition demo_tdisk : list block :=
  [zero_block; demo_sblock] ++ replicate 10 zero_block ++
    [put_dinode (dip_off 2) demo_f (put_dinode (dip_off 1) demo_root zero_block);
     [255; 255] ++ replicate 510 0; demo_dir; demo_data] ++ replicate 64 zero_block.

Lemma one_slot V x a j :
  i_addrs x = a :: replicate 12 0 → slot V x j = if decide (j = 0%nat) then a else 0.
Proof.
  intros E. unfold slot. rewrite E. destruct j as [|j]; [reflexivity|].
  rewrite (decide_False (P := S j = 0%nat)) by done. case_decide as Hj; [|reflexivity].
  change ((a :: replicate 12 0) !! S j) with (replicate 12 0 !! j). by rewrite lookup_replicate_2 by lia.
Qed.

Lemma one_inode_ok sb V x a :
  i_dev x = ROOTDEV → i_addrs x = a :: replicate 12 0 → 0 ≤ a < sb_size sb → data_start sb ≤ a →
  used sb V a = true → inode_ok sb V x.
Proof.
  intros Hd Ha H1 H2 H3. split; [done|by rewrite Ha|..].
  - intros j Hj. rewrite (one_slot V x a j Ha). case_decide; done.
  - intros j j' _ _. rewrite !(one_slot V x a _ Ha). repeat case_decide; congruence || done.
Qed.

Lemma demo_tdisk_blk : Forall blk demo_tdisk.
Proof. apply blkb_blk. vm_compute. reflexivity. Qed.

Lemma demo_disk_root : disk_inode demo_sb demo_tdisk 1 = Some demo_root.
Proof. vm_compute. reflexivity. Qed.
Lemma demo_disk_f : disk_inode demo_sb demo_tdisk 2 = Some demo_f.
Proof. vm_compute. reflexivity. Qed.
Lemma demo_disk_none n : 3 ≤ n < 8 → i_type <$> disk_inode demo_sb demo_tdisk n = Some 0.
Proof.
  intros Hn. assert (H : forallb (λ n, bool_decide (i_type <$> disk_inode demo_sb demo_tdisk n = Some 0)) (seqZ 3 5) = true)
    by (vm_compute; reflexivity).
  rewrite forallb_forall in H. specialize (H n). rewrite <- list_elem_of_In, elem_of_seqZ in H.
  specialize (H ltac:(lia)). by apply bool_decide_eq_true in H.
Qed.

Lemma demo_root_file : file_is demo_tdisk demo_root (contents_of demo_tdisk demo_root).
Proof.
  split; [vm_compute; reflexivity|vm_compute; discriminate|]. intros p Hp.
  change (length (contents_of demo_tdisk demo_root)) with 48%nat in Hp.
  assert (H : forallb (λ p, bool_decide (fbyte demo_tdisk demo_root p = contents_of demo_tdisk demo_root !! p)) (seq 0 48) = true)
    by (vm_compute; reflexivity).
  rewrite forallb_forall in H. specialize (H p). rewrite <- list_elem_of_In, elem_of_seq in H.
  specialize (H ltac:(lia)). by apply bool_decide_eq_true in H.
Qed.

Lemma demo_allocated n : n = 1 ∨ n = 2 → allocated demo_sb demo_tdisk n.
Proof.
  intros [->| ->]; (split; [split; reflexivity|]); [exists demo_root|exists demo_f]; split; [|discriminate| |discriminate].
  - exact demo_disk_root.
  - exact demo_disk_f.
Qed.

Lemma demo_tree : tree_ok demo_sb demo_tdisk.
Proof.
  intros n x [Hn (y & Hy & Hyt)] Hx. change (sb_ninodes demo_sb) with 8 in Hn.
  assert (n = 1 ∨ n = 2 ∨ 3 ≤ n) as [->|[->|Hge]] by lia.
  - rewrite demo_disk_root in Hx. injection Hx as <-. split; [discriminate|]. intros _. split_and!.
    + apply (one_inode_ok _ _ _ 14); [reflexivity|reflexivity|split; [discriminate|reflexivity]|discriminate|vm_compute; reflexivity].
    + exact demo_root_file.
    + vm_compute. reflexivity.
    + assert (H : forallb (λ b, (0 <=? b) && (b <? 256)) (contents_of demo_tdisk demo_root) = true) by (vm_compute; reflexivity).
      apply Forall_forall. intros b Hb%list_elem_of_In. rewrite forallb_forall in H. specialize (H b Hb). unfold is_byte. lia.
    + intros k Hk _. change (length (contents_of demo_tdisk demo_root) / 16)%nat with 3%nat in Hk. apply demo_allocated.
      destruct k as [|[|[|k]]]; [left|left|right|lia]; vm_compute; reflexivity.
  - rewrite demo_disk_f in Hx. injection Hx as <-. split; [discriminate|]. discriminate.
  - exfalso. pose proof (demo_disk_none n ltac:(lia)) as H0. rewrite Hy in H0. cbn in H0. injection H0 as H0. done.
Qed.

Lemma demo_tmeta : meta_ok demo_sb demo_tdisk.
Proof.
  split.
  - intros b Hb. assert (H : forallb (used demo_sb demo_tdisk) (seqZ 0 14) = true) by (vm_compute; reflexivity).
    apply (proj1 (forallb_forall _ _) H), list_elem_of_In, elem_of_seqZ.
    change (data_start demo_sb) with 14 in Hb. lia.
  - exists demo_sblock. split; [reflexivity|]. vm_compute. reflexivity.
Qed.

Lemma namei_resolves_witness :
  ∃ w i w' x, namei (D := iderw_mem) (chars "//f/" ++ [0]) (KS w []) = Ok (Some i) (KS w' []) ∧
    w_inodes w' !! i = Some x ∧ i_inum x = 2.
Proof.
  destruct (demo_fstx demo_tdisk (replicate 3 zero_inode) demo_tdisk_blk eq_refl eq_refl eq_refl) as (w & Hf & Hi & Hl).
  destruct (namei_resolves (L := memide_laws) 2 10 demo_sb w demo_tdisk [] (chars "//f/") 1 [])
    as (r & w' & Hr & _ & _ & Hres).
  - split; [exact Hf|exact demo_layout|exact demo_tmeta|]. split.
    + rewrite Hi. intros [|[|[|i]]] j x y [= <-] _ Hrx; cbn in Hrx; lia.
    + rewrite Hi. intros [|[|[|i]]] x [= <-]; cbn; lia.
    + rewrite Hi. intros [|[|[|i]]] x [= <-] Hrx; cbn in Hrx; lia.
    + intros i. apply Hl.
  - exact demo_tree.
  - apply demo_allocated. by left.
  - left. split; reflexivity.
  - intros q. rewrite Hi. cbn. destruct q; reflexivity.
  - rewrite Hi. vm_compute. lia.
  - vm_compute. intros H. repeat (apply elem_of_cons in H as [H|H]; [discriminate|]). by apply elem_of_nil in H.
  - repeat (apply Forall_cons_2; [split; [discriminate|reflexivity]|]). apply Forall_nil_2.
  - replace (walk demo_sb demo_tdisk 1 (take 14 <$> elems (chars "//f/"))) with (Some 2) in Hres
      by (vm_compute; reflexivity).
    destruct Hres as (i & x & -> & Hx & Hn & _). exists w, i, w', x. split; [exact Hr|]. split; [exact Hx|exact Hn].
Defined.
