(* ===== verification/FsLink.v ===== *)
(** * Adding a directory entry

    [dirlink] puts a new name in the first unused entry of a directory, or
    behind the last one, and a lookup then finds exactly that name more. *)

From S2P Require Import Prelude Kernel Bytes CString Spinlock Sched Sleeplock Disk Memide Bio Bcache Log LogSpec LogCrash LogTx Inode FsTx Fs FsFile FsWrite FsContents Icache FsPath FsDir.

(** ** [strncpy] into a cleared name *)

Lemma take_S_insert {A} i (c : A) s : (i < length s)%nat → take (S i) (<[i := c]> s) = take i s ++ [c].
Proof.
  intros Hi. rewrite (take_S_r _ _ c) by by apply list_lookup_insert_eq. by rewrite take_insert_ge by lia.
Qed.

Lemma cut_length n s : (length (cut n s) ≤ n)%nat.
Proof.
  revert s. induction n as [|n IH]; intros [|c s]; cbn; try lia. destruct (c =? 0); cbn; [lia|].
  specialize (IH s). lia.
Qed.

Lemma strncpy_at_spec n i s t :
  (i + n = length s)%nat → (n ≤ length t)%nat →
  strncpy_at s i t n = Some (take i s ++ cut n t ++ replicate (n - length (cut n t)) 0).
Proof.
  revert i s t. induction n as [|n IH]; intros i s t Hi Ht; cbn [strncpy_at].
  - cbn [cut]. rewrite take_ge by lia. cbn. by rewrite app_nil_r.
  - destruct t as [|c t]; [cbn in Ht; lia|]. cbn [list.head mbind option_bind tail cut length] in *.
    destruct (lookup_lt_is_Some_2 s i) as [x Hx]; [lia|]. rewrite Hx. cbn [mbind option_bind].
    destruct (Z.eqb_spec c 0) as [->|Hc].
    + rewrite decide_True by lia. rewrite take_S_insert by lia.
      rewrite drop_ge by (rewrite length_insert; lia). rewrite app_nil_r, <- app_assoc. done.
    + rewrite IH by (rewrite ?length_insert; lia). rewrite take_S_insert by lia. by rewrite <- app_assoc.
Qed.

(** The name field of the new entry holds the name. *)
Lemma strncpy_name name :
  length name = 14%nat → Forall is_byte name →
  ∃ nm, strncpy (replicate (Z.to_nat DIRSIZ) 0) name DIRSIZ = Some nm ∧ length nm = 14%nat ∧
    cut 14 nm = cut 14 name ∧ Forall is_byte nm.
Proof.
  intros Hl Hb. unfold strncpy. change (Z.to_nat DIRSIZ) with 14%nat. rewrite strncpy_at_spec by (rewrite ?length_replicate; lia).
  pose proof (cut_length 14 name) as Hc. eexists. split; [done|]. rewrite take_0. cbn [app].
  assert (H0 : 0 ∉ cut 14 name).
  { clear. generalize 14%nat as n. intros n; revert name. induction n as [|n IH]; intros [|c s]; cbn [cut]; try apply not_elem_of_nil.
    destruct (Z.eqb_spec c 0); [apply not_elem_of_nil|]. apply not_elem_of_cons. split; [done|apply IH]. }
  assert (Hbc : Forall is_byte (cut 14 name)).
  { clear -Hb. generalize 14%nat as n. intros n; revert n. induction Hb as [|c s Hc Hs IH]; intros [|n]; cbn [cut]; try constructor.
    destruct (c =? 0); constructor; done || apply IH. }
  split_and!.
  - rewrite length_app, length_replicate. lia.
  - destruct (14 - length (cut 14 name))%nat as [|k] eqn:E; cbn [replicate].
    + rewrite app_nil_r, cut_all by done. apply take_ge. lia.
    + rewrite cut_app_zero by done. apply take_ge. lia.
  - apply Forall_app_2; [done|]. apply Forall_replicate. unfold is_byte. lia.
Qed.

(** ** The entry that is used *)

Fixpoint free_entry (l : list Z) (k n : nat) : nat :=
  match n with
  | O => k
  | S n => if de_inum (entry l k) =? 0 then k else free_entry l (S k) n
  end.

Lemma free_entry_spec l k n :
  (k ≤ free_entry l k n ≤ k + n)%nat ∧
  (∀ j, (k ≤ j < free_entry l k n)%nat → de_inum (entry l j) ≠ 0) ∧
  ((free_entry l k n < k + n)%nat → de_inum (entry l (free_entry l k n)) = 0).
Proof.
  revert k. induction n as [|n IH]; intros k; cbn [free_entry]; [split_and!; lia|].
  destruct (Z.eqb_spec (de_inum (entry l k)) 0) as [E|E]; [split_and!; try lia; done|].
  destruct (IH (S k)) as (H1 & H2 & H3). split; [lia|]. split.
  - intros j Hj. destruct (decide (j = k)) as [->|]; [done|]. apply H2. lia.
  - intros Hlt. apply H3. lia.
Qed.

Lemma free_de_ok {D : DiskDriver} {L : DiskLaws D} ls sz sb fuel dp (k m : nat) w V bl x l e :
  on_inode ls sz sb dp w V bl x → file_is V x l → i_type x ≠ T_DEV → length l = (16 * m)%nat →
  (k ≤ m)%nat → (m - k ≤ fuel)%nat →
  ∃ w', free_de fuel dp (Z.of_nat (16 * k)) (KS w e) = Ok (Z.of_nat (16 * free_entry l k (m - k))) (KS w' e) ∧
    on_inode ls sz sb dp w' V bl x ∧ tx_step w w'.
Proof.
  intros Hoi Hfi Hty Hl. revert k w Hoi. induction fuel as [|fuel IH]; intros k w Hoi Hk Hfuel.
  all: cbn [free_de]; erewrite bind_ok; [|apply (geti_eq dp x), Hoi]; rewrite (fi_size _ _ _ Hfi), Hl.
  { replace k with m by lia. rewrite Z.ltb_irrefl, Nat.sub_diag. exists w. split_and!; [done|done|apply tx_step_refl]. }
  destruct (decide (k = m)) as [->|Hne].
  { rewrite Z.ltb_irrefl, Nat.sub_diag. exists w. split_and!; [done|done|apply tx_step_refl]. }
  rewrite (proj2 (Z.ltb_lt _ _)) by lia.
  destruct (read_de_ok ls sz sb dp k "dirlink read" w V bl x l e Hoi Hfi Hty) as (w1 & Hr1 & Ho1 & S1); [lia|].
  kcall Hr1. replace (m - k)%nat with (S (m - S k)) by lia. cbn [free_entry].
  replace (Z.of_nat (16 * k) + sizeof_de) with (Z.of_nat (16 * S k)) by (unfold sizeof_de; lia).
  destruct (Z.eqb_spec (de_inum (entry l k)) 0) as [E0|E0]; [by exists w1|].
  destruct (IH (S k) w1 Ho1) as (w2 & Hr2 & Ho2 & S2); [lia|lia|].
  rewrite Hr2. exists w2. split_and!; [done|done|by tstep].
Qed.

(** Lookup after entry [k] has been replaced. *)
Lemma find_entry_ext l l' name k n :
  (∀ j, (k ≤ j < k + n)%nat → entry l' j = entry l j) → find_entry l' name k n = find_entry l name k n.
Proof.
  revert k. induction n as [|n IH]; intros k H; cbn [find_entry]; [done|].
  rewrite H by lia. rewrite IH; [done|]. intros j Hj. apply H. lia.
Qed.

Lemma find_entry_app l name k n1 n2 :
  find_entry l name k (n1 + n2) =
    match find_entry l name k n1 with Some r => Some r | None => find_entry l name (k + n1) n2 end.
Proof.
  revert k. induction n1 as [|n1 IH]; intros k; cbn [find_entry Nat.add]; [by rewrite Nat.add_0_r|].
  destruct (_ || _); [|done]. rewrite IH. by replace (S k + n1)%nat with (k + S n1)%nat by lia.
Qed.

Lemma entry_splice l de k j :
  length de = 16%nat → (16 * k ≤ length l)%nat → (length l mod 16 = 0)%nat →
  entry (splice (16 * k) de l) j = if decide (j = k) then de else entry l j.
Proof.
  intros Hd Hk Hl. unfold entry. apply list_eq; intros p. rewrite lookup_slice.
  destruct (decide (j = k)) as [->|Hne].
  - destruct (decide (p < 16)%nat) as [Hp|Hp].
    + rewrite splice_lookup, decide_True by lia. f_equal. lia.
    + symmetry. apply lookup_ge_None. lia.
  - rewrite lookup_slice. destruct (decide (p < 16)%nat) as [Hp|Hp]; [|done].
    rewrite splice_lookup, decide_False by lia. done.
Qed.

(** The new entry is found under its name, and nothing else changes. *)
Lemma dir_find_link l de k name s :
  length de = 16%nat → (length l mod 16 = 0)%nat → (k ≤ length l / 16)%nat →
  ((k < length l / 16)%nat → de_inum (entry l k) = 0) → de_inum de ≠ 0 → cut 14 (de_name de) = name →
  dir_find l name = None →
  dir_find (splice (16 * k) de l) s = if decide (s = name) then Some (de_inum de, k) else dir_find l s.
Proof.
  intros Hd Hl Hk Hfree Hn Hname Hnone. set (l' := splice (16 * k) de l).
  pose proof (Nat.div_mod_eq (length l) 16) as Hdm.
  assert (Hlen : length l' = Nat.max (length l) (16 * k + 16)) by (unfold l'; rewrite splice_length, Hd by lia; done).
  set (m := (length l / 16)%nat) in *.
  assert (Hm' : (length l' / 16 = Nat.max m (S k))%nat).
  { rewrite Hlen. destruct (decide (k < m)%nat).
    - rewrite !Nat.max_l by lia. done.
    - rewrite !Nat.max_r by lia. replace (16 * k + 16)%nat with (S k * 16)%nat by lia. by apply Nat.div_mul. }
  assert (Hent : ∀ j, entry l' j = if decide (j = k) then de else entry l j).
  { intros j. apply entry_splice; [done|lia|done]. }
  assert (Hone : ∀ t, find_entry l' t k 1 = if decide (t = name) then Some (de_inum de, k) else None).
  { intros t. cbn [find_entry]. rewrite Hent, decide_True by done. rewrite (proj2 (Z.eqb_neq _ 0)) by done. cbn [orb].
    rewrite Hname. case_decide as Hdt; [subst t; by rewrite bool_decide_true|]. by rewrite bool_decide_false by congruence. }
  assert (Hbefore : ∀ t, find_entry l' t 0 k = find_entry l t 0 k).
  { intros t. apply find_entry_ext. intros j Hj. rewrite Hent, decide_False by lia. done. }
  unfold dir_find in *. fold m in Hnone |- *. rewrite Hm'. destruct (decide (k < m)%nat) as [Hlt|Hge].
  - rewrite Nat.max_l by lia. clearbody m.
    assert (∃ r, m = (k + (1 + r))%nat) as (r & Em) by (exists (m - S k)%nat; lia). rewrite Em in Hnone |- *.
    rewrite !find_entry_app. rewrite !find_entry_app in Hnone. rewrite Hbefore, Hone.
    assert (Hold : ∀ t, find_entry l t k 1 = None).
    { intros t. cbn [find_entry]. rewrite Hfree by lia. done. }
    rewrite Hold in Hnone. rewrite Hold. rewrite (find_entry_ext l l' s (k + 1)) by (intros j Hj; rewrite Hent, decide_False by lia; done).
    destruct (decide (s = name)) as [->|]; [|done].
    destruct (find_entry l name 0 k); [done|]. done.
  - rewrite Nat.max_r by lia. replace (S k) with (k + 1)%nat by lia. rewrite find_entry_app, Hbefore, Hone.
    replace k with m in * by lia. destruct (decide (s = name)) as [->|]; [by rewrite Hnone|].
    by destruct (find_entry l s 0 m).
Qed.

Section dirlink.
  Context {D : DiskDriver} {L : DiskLaws D}.
  Context (ls sz : Z) (sb : superblock).
  Abbreviation on_inode := (on_inode ls sz sb).

Lemma blocks_of_entry k : blocks_of (16 * k) 16 = 1%nat.
Proof.
  unfold blocks_of. rewrite decide_False by lia. f_equal. apply Nat.div_small.
  assert ((16 * k) mod 512 ≤ 496)%nat; [|lia].
  pose proof (Nat.div_mod_eq (16 * k) 512). pose proof (Nat.mod_upper_bound (16 * k) 512). lia.
Qed.

End dirlink.

(** The root directory of the small tree, in the table. *)
Definition demo_root_slot : inode := demo_root <| i_ref := 1 |> <| i_flags := I_VALID |>.

