(* ===== verification/Vm.v ===== *)
(** * vm.c: page tables

    A page table is four levels of pages in kernel memory, 512 entries of eight
    bytes each; every function of vm.c that reads or writes one is here, on the
    bytes of [w_mem].  [mmu] is the processor's own translation of a virtual
    address by the table in CR3, through which kernel code that dereferences a
    user pointer goes ([uload], [ustore]). *)

From S2P Require Import Prelude Kernel Bytes Spinlock CString Kalloc Sched Sleeplock Disk Bio Log Inode Console Fs.

(** ** mmu.h *)

Definition PXMASK : Z := 0x1FF.
Definition PMX (va : Z) : Z := Z.land (Z.shiftr va 39) PXMASK.
Definition PDPX (va : Z) : Z := Z.land (Z.shiftr va 30) PXMASK.
Definition PDX (va : Z) : Z := Z.land (Z.shiftr va 21) PXMASK.
Definition PTX (va : Z) : Z := Z.land (Z.shiftr va 12) PXMASK.
Definition NPDENTRIES : nat := 512.
Definition PTE_P : Z := 0x1.
Definition PTE_W : Z := 0x2.
Definition PTE_U : Z := 0x4.
Definition PTE_PWT : Z := 0x8.
Definition PTE_PCD : Z := 0x10.
Definition PTE_PS : Z := 0x80.
Definition PTE_ADDR (pte : Z) : Z := Z.ldiff pte 0xFFF.
Definition PTE_FLAGS (pte : Z) : Z := Z.land pte 0xFFF.

(** The address of entry [idx] of the table [tab]. *)
Definition entry (tab idx : Z) : Z := tab + 8 * idx.
Definition present (e : Z) : bool := negb (Z.land e PTE_P =? 0).

Definition getm {A} (f : mem → A) : K A := getw (λ w, f (w_mem w)).
Definition modm (f : mem → mem) : K unit := modw (λ w, w <| w_mem ::= f |>).

(** ** The processor's translation *)

(** One level of the walk: the table or page an entry points to, when it is
    present with all the rights [need]. *)
Definition mmu_step (m : mem) (need tab idx : Z) : option Z :=
  let e := load64 m (entry tab idx) in
  if Z.land e (Z.lor PTE_P need) =? Z.lor PTE_P need then Some e else None.

(** The kernel address of the byte at [va].  Kernel code runs with write
    protection on, so a store needs [PTE_W] at every level; a large page ends
    the walk at the second level.  A non-canonical address has no translation. *)
Definition mmu (m : mem) (root : Z) (store : bool) (va : Z) : option Z :=
  let need := if store then PTE_W else 0 in
  if (2 ^ 47 <=? va) && (va <? KERNBASE) then None else
  e4 ← mmu_step m need root (PMX va);
  e3 ← mmu_step m need (P2V (PTE_ADDR e4)) (PDPX va);
  if negb (Z.land e3 PTE_PS =? 0) then Some (P2V (PTE_ADDR e3 + va mod 2 ^ 30)) else
  e2 ← mmu_step m need (P2V (PTE_ADDR e3)) (PDX va);
  e1 ← mmu_step m need (P2V (PTE_ADDR e2)) (PTX va);
  Some (P2V (PTE_ADDR e1 + va mod PGSIZE)).

(** Kernel code reads or writes the bytes at the user address [va]. *)
Fixpoint uload_n (va : Z) (n : nat) : K (list Z) :=
  match n with
  | O => mret []
  | S n =>
      c ← getw (λ w, cr3 (w_cpu w));
      m ← getw w_mem;
      a ← munwrap "page fault" (mmu m (P2V c) false va);
      l ← uload_n (u64 (va + 1)) n;
      mret (rd m a :: l)
  end.
Definition uload (va n : Z) : K (list Z) := uload_n va (Z.to_nat n).

Fixpoint ustore (va : Z) (l : list Z) : K unit :=
  match l with
  | [] => mret tt
  | b :: l =>
      c ← getw (λ w, cr3 (w_cpu w));
      m ← getw w_mem;
      a ← munwrap "page fault" (mmu m (P2V c) true va);
      modm (λ m, wr m a b) ;;
      ustore (u64 (va + 1)) l
  end.

Section vm.
  Context {image : KernelImage}.

(** ** Building page tables *)

(** One of the three steps of [walkpgdir]: the next table below entry [idx] of
    [tab], allocated when it is missing and [alloc] is set. *)
Definition walk_level (tab idx : Z) (alloc : bool) : K (option Z) :=
  e ← getm (λ m, load64 m (entry tab idx));
  if present e then mret (Some (P2V (PTE_ADDR e)))
  else if negb alloc then mret None
  else
    t ← kalloc;
    if t =? 0 then mret None else
    modm (λ m, memset m t 0 PGSIZE) ;;
    modm (λ m, store64 m (entry tab idx) (Z.lor (Z.lor (Z.lor (V2P t) PTE_P) PTE_W) PTE_U)) ;;
    mret (Some t).

Definition walkpgdir (pml4 va : Z) (alloc : bool) : K (option Z) :=
  pdp ← walk_level pml4 (PMX va) alloc;
  match pdp with
  | None => mret None
  | Some pdp =>
      pd ← walk_level pdp (PDPX va) alloc;
      match pd with
      | None => mret None
      | Some pd =>
          pgtab ← walk_level pd (PDX va) alloc;
          match pgtab with
          | None => mret None
          | Some pgtab => mret (Some (entry pgtab (PTX va)))
          end
      end
  end.

Definition setupkvm : K Z :=
  pml4 ← kalloc;
  modm (λ m, memset m pml4 0 PGSIZE) ;;
  kpdpt ← getw w_kpdpt;
  modm (λ m, store64 m (entry pml4 256) (Z.lor (Z.lor (V2P kpdpt) PTE_P) PTE_W)) ;;
  mret pml4.

Definition kvmalloc : K unit :=
  kpml4 ← kalloc;
  modw (λ w, w <| w_kpml4 := kpml4 |>) ;;
  modm (λ m, memset m kpml4 0 PGSIZE) ;;
  kpdpt ← kalloc;
  modw (λ w, w <| w_kpdpt := kpdpt |>) ;;
  modm (λ m, memset m kpdpt 0 PGSIZE) ;;
  modm (λ m, store64 m (entry kpml4 (PMX KERNBASE)) (Z.lor (Z.lor (V2P kpdpt) PTE_P) PTE_W)) ;;
  modm (λ m, store64 m (entry kpdpt 0) (Z.lor (Z.lor PTE_PS PTE_P) PTE_W)) ;;
  modm (λ m, store64 m (entry kpdpt 3)
    (Z.lor (Z.lor (Z.lor (Z.lor (Z.lor 0xC0000000 PTE_PS) PTE_P) PTE_W) PTE_PWT) PTE_PCD)) ;;
  switchkvm.

(** The loop of [mappages] from page [a] on. *)
Fixpoint mappages_from (fuel : nat) (pgdir a last pa perm : Z) : K Z :=
  pte ← walkpgdir pgdir a true;
  match pte with
  | None => mret (-1)
  | Some pte =>
      e ← getm (λ m, load64 m pte);
      if present e then panic "remap" else
      modm (λ m, store64 m pte (Z.lor (Z.lor pa perm) PTE_P)) ;;
      if a =? last then mret 0 else
      match fuel with
      | O => mstop OutOfFuel
      | S f => mappages_from f pgdir (u64 (a + PGSIZE)) last (u64 (pa + PGSIZE)) perm
      end
  end.

Definition mappages (pgdir va size pa perm : Z) : K Z :=
  let a := PGROUNDDOWN va in
  let last := PGROUNDDOWN (u64 (va + size - 1)) in
  mappages_from (Z.to_nat (u64 (last - a) / PGSIZE)) pgdir a last pa perm.

Definition inituvm (pgdir : Z) (init : list Z) : K unit :=
  if Z.of_nat (length init) >=? PGSIZE then panic "inituvm: more than a page" else
  p ← kalloc;
  modm (λ m, memset m p 0 PGSIZE) ;;
  mappages pgdir PGSIZE PGSIZE (V2P p) (Z.lor PTE_W PTE_U) ;;
  modm (λ m, wr_bytes m p init).

(** ** Growing, shrinking and freeing *)

Fixpoint deallocuvm_from (fuel : nat) (pgdir a oldsz : Z) : K unit :=
  if a <? oldsz then
    match fuel with
    | O => mstop OutOfFuel
    | S f =>
        pte ← walkpgdir pgdir a false;
        (match pte with
         | None => mret tt
         | Some pte =>
             e ← getm (λ m, load64 m pte);
             if present e then
               let pa := PTE_ADDR e in
               if pa =? 0 then panic "kfree" else
               kfree (P2V pa) ;;
               modm (λ m, store64 m pte 0)
             else mret tt
         end) ;;
        deallocuvm_from f pgdir (u64 (a + PGSIZE)) oldsz
    end
  else mret tt.

(** The number of pages from [a] up to [b]. *)
Definition pages_fuel (a b : Z) : nat := Z.to_nat ((b - a + PGSIZE - 1) / PGSIZE).

Definition deallocuvm (pgdir oldsz newsz : Z) : K Z :=
  if newsz >=? oldsz then mret oldsz else
  let a := PGROUNDUP newsz in
  deallocuvm_from (pages_fuel a oldsz) pgdir a oldsz ;;
  mret newsz.

(** The loop of [allocuvm]; [false] when it ran out of memory. *)
Fixpoint allocuvm_from (fuel : nat) (pgdir a oldsz newsz : Z) : K bool :=
  if a <? newsz then
    match fuel with
    | O => mstop OutOfFuel
    | S f =>
        p ← kalloc;
        if p =? 0 then deallocuvm pgdir newsz oldsz ;; mret false else
        modm (λ m, memset m p 0 PGSIZE) ;;
        r ← mappages pgdir a PGSIZE (V2P p) (Z.lor PTE_W PTE_U);
        if r <? 0 then deallocuvm pgdir newsz oldsz ;; kfree p ;; mret false else
        allocuvm_from f pgdir (u64 (a + PGSIZE)) oldsz newsz
    end
  else mret true.

Definition allocuvm (pgdir oldsz newsz : Z) : K Z :=
  if newsz >=? KERNBASE then mret 0 else
  if newsz <? oldsz then mret oldsz else
  let a := PGROUNDUP oldsz in
  ok ← allocuvm_from (pages_fuel a newsz) pgdir a oldsz newsz;
  mret (if (ok : bool) then newsz else 0).

(** [if(tab[i] & PTE_P) body(P2V(PTE_ADDR(tab[i])))] for the first [n] entries
    of a table. *)
Definition for_entries (n : nat) (tab : Z) (body : Z → K unit) : K unit :=
  iterM (λ i, e ← getm (λ m, load64 m (entry tab (Z.of_nat i)));
              if present e then body (P2V (PTE_ADDR e)) else mret tt) (seq 0 n).

Definition freevm (pml4 : Z) : K unit :=
  if pml4 =? 0 then panic "freevm: no pgdir" else
  for_entries (Nat.div NPDENTRIES 2) pml4 (λ pdp,
    for_entries NPDENTRIES pdp (λ pd,
      for_entries NPDENTRIES pd (λ pt,
        for_entries NPDENTRIES pt (λ v, kfree v) ;;
        kfree pt) ;;
      kfree pd) ;;
    kfree pdp) ;;
  kfree pml4.

Definition clearpteu (pgdir uva : Z) : K unit :=
  pte ← walkpgdir pgdir uva false;
  match pte with
  | None => panic "clearpteu"
  | Some pte => modm (λ m, store64 m pte (Z.ldiff (load64 m pte) PTE_U))
  end.

(** The loop of [copyuvm] over the parent's pages from [i] on; [false] is the
    jump to [bad]. *)
Fixpoint copyuvm_from (fuel : nat) (d pgdir i sz : Z) : K bool :=
  if i <? sz then
    match fuel with
    | O => mstop OutOfFuel
    | S f =>
        pte ← walkpgdir pgdir i false;
        match pte with
        | None => panic "copyuvm: pte should exist"
        | Some pte =>
            e ← getm (λ m, load64 m pte);
            if negb (present e) then panic "copyuvm: page not present" else
            let pa := PTE_ADDR e in
            let flags := PTE_FLAGS e in
            p ← kalloc;
            if p =? 0 then mret false else
            modm (λ m, memmove m p (P2V pa) PGSIZE) ;;
            r ← mappages d i PGSIZE (V2P p) flags;
            if r <? 0 then mret false else
            copyuvm_from f d pgdir (i + PGSIZE) sz
        end
    end
  else mret true.

(** The parameter [sz] is a 32-bit [uint]. *)
Definition copyuvm (pgdir sz : Z) : K Z :=
  let sz := u32 sz in
  d ← setupkvm;
  if d =? 0 then mret 0 else
  ok ← copyuvm_from (pages_fuel PGSIZE sz) d pgdir PGSIZE sz;
  if (ok : bool) then mret d else freevm d ;; mret 0.

(** ** Access to another address space *)

Definition uva2ka (pgdir uva : Z) : K Z :=
  pte ← walkpgdir pgdir uva false;
  pte ← munwrap "*pte" pte;
  e ← getm (λ m, load64 m pte);
  if negb (present e) then mret 0
  else if Z.land e PTE_U =? 0 then mret 0
  else mret (P2V (PTE_ADDR e)).

Fixpoint copyout_from (fuel : nat) (pgdir va : Z) (buf : list Z) : K Z :=
  match buf with
  | [] => mret 0
  | _ =>
      match fuel with
      | O => mstop OutOfFuel
      | S f =>
          let va0 := PGROUNDDOWN va in
          pa0 ← uva2ka pgdir va0;
          if pa0 =? 0 then mret (-1) else
          let n := Z.min (PGSIZE - (va - va0)) (Z.of_nat (length buf)) in
          modm (λ m, wr_bytes m (pa0 + (va - va0)) (take (Z.to_nat n) buf)) ;;
          copyout_from f pgdir (u64 (va0 + PGSIZE)) (drop (Z.to_nat n) buf)
      end
  end.

(** [len] bytes starting anywhere in a page touch at most this many pages. *)
Definition copyout (pgdir va : Z) (p : list Z) : K Z :=
  copyout_from (S (S (Z.to_nat (Z.of_nat (length p) / PGSIZE)))) pgdir va p.

Context {D : DiskDriver}.

Fixpoint loaduvm_from (fuel : nat) (pgdir addr : Z) (ip : nat) (offset i sz : Z) : K Z :=
  if i <? sz then
    match fuel with
    | O => mstop OutOfFuel
    | S f =>
        pte ← walkpgdir pgdir (u64 (addr + i)) false;
        match pte with
        | None => panic "loaduvm: address should exist"
        | Some pte =>
            e ← getm (λ m, load64 m pte);
            let pa := PTE_ADDR e in
            let n := if sz - i <? PGSIZE then sz - i else PGSIZE in
            '(r, got) ← readi ip (u32 (offset + i)) n;
            modm (λ m, wr_bytes m (P2V pa) got) ;;
            if negb (u32 r =? n) then mret (-1) else
            loaduvm_from f pgdir addr ip offset (u32 (i + PGSIZE)) sz
        end
    end
  else mret 0.

(** The parameters [offset] and [sz] are 32-bit [uint]s. *)
Definition loaduvm (pgdir addr : Z) (ip : nat) (offset sz : Z) : K Z :=
  if negb (addr mod PGSIZE =? 0) then panic "loaduvm: addr must be page aligned" else
  loaduvm_from (pages_fuel 0 (u32 sz)) pgdir addr ip (u32 offset) 0 (u32 sz).
End vm.
