(* ===== verification/VmSpec.v ===== *)
(** * Page tables as maps

    A page table is described by the map [T] from a level and a prefix of the
    page number to the table page that covers it: the root is at level 3 with
    prefix 0, and the table at level [k] with prefix [q] has its entry [i]
    point to the table at level [k - 1] with prefix [512 * q + i].  [pt_ok] says
    that the bytes in memory are such a table, made of distinct pages that are
    not on the free list.  [walkpgdir] and [mappages] are proved on it, and the
    processor's own walk [mmu] is shown to read the same entries. *)

From S2P Require Import Prelude Kernel Bytes Spinlock CString Kalloc Vm.

(** ** Entries *)

Lemma lor_add x f : x mod 4096 = 0 → 0 ≤ f < 4096 → Z.lor x f = x + f.
Proof.
  intros Hx Hf. symmetry. apply Z.add_nocarry_lor. apply Z.bits_inj'. intros i Hi.
  rewrite Z.land_spec, Z.bits_0. destruct (Z.lt_ge_cases i 12).
  - replace (Z.testbit x i) with false; [done|]. symmetry.
    assert (E : x = Z.shiftl (x / 4096) 12).
    { rewrite Z.shiftl_mul_pow2 by lia. change (2 ^ 12) with 4096. pose proof (Z.div_mod x 4096). lia. }
    rewrite E, Z.shiftl_spec by lia. apply Z.testbit_neg_r. lia.
  - replace (Z.testbit f i) with false; [apply andb_false_r|]. symmetry.
    destruct (decide (f = 0)) as [->|]; [apply Z.bits_0|]. apply Z.bits_above_log2; [lia|].
    apply Z.lt_le_trans with 12; [|lia]. apply Z.log2_lt_pow2; lia.
Qed.

Lemma pte_flags x f : x mod 4096 = 0 → 0 ≤ f < 4096 → PTE_FLAGS (x + f) = f.
Proof.
  intros Hx Hf. unfold PTE_FLAGS. change 0xFFF with (Z.ones 12). rewrite Z.land_ones by lia.
  change (2 ^ 12) with 4096. rewrite Z.add_mod, Hx by lia. rewrite Z.add_0_l, Z.mod_mod by lia. apply Z.mod_small. lia.
Qed.

Lemma pte_addr x f : x mod 4096 = 0 → 0 ≤ f < 4096 → PTE_ADDR (x + f) = x.
Proof.
  intros Hx Hf. pose proof (pte_flags x f Hx Hf) as Hl. unfold PTE_ADDR, PTE_FLAGS in *.
  assert (E : Z.lor (Z.land (x + f) 0xFFF) (Z.ldiff (x + f) 0xFFF) = x + f).
  { apply Z.bits_inj'. intros i Hi. rewrite Z.lor_spec, Z.land_spec, Z.ldiff_spec.
    destruct (Z.testbit (x + f) i), (Z.testbit 0xFFF i); done. }
  rewrite <- Z.add_nocarry_lor in E.
  - lia.
  - apply Z.bits_inj'. intros i Hi. rewrite !Z.land_spec, Z.ldiff_spec, Z.bits_0.
    destruct (Z.testbit (x + f) i), (Z.testbit 0xFFF i); done.
Qed.

(** The low bits of an entry are its flags. *)
Lemma land_flags x f k : x mod 4096 = 0 → 0 ≤ f < 4096 → 0 ≤ k < 4096 → Z.land (x + f) k = Z.land f k.
Proof.
  intros Hx Hf Hk. rewrite <- (pte_flags x f Hx Hf) at 2. unfold PTE_FLAGS.
  rewrite <- Z.land_assoc. f_equal. change 0xFFF with (Z.ones 12).
  rewrite Z.land_comm, Z.land_ones by lia. symmetry. apply Z.mod_small. lia.
Qed.

(** ** Page numbers *)

(** The index of page [v] in a table of level [k], and the prefix that names
    the table. *)
Definition vidx (k : nat) (v : Z) : Z := (v / 512 ^ Z.of_nat k) mod 512.
Definition vpre (k : nat) (v : Z) : Z := v / 512 ^ (Z.of_nat k + 1).

Lemma vpre_step k v : 512 * vpre (S k) v + vidx (S k) v = vpre k v.
Proof.
  unfold vpre, vidx. replace (Z.of_nat (S k)) with (Z.of_nat k + 1) by lia.
  rewrite (Z.pow_add_r 512 (Z.of_nat k + 1) 1) by lia. rewrite <- Z.div_div by lia.
  change (512 ^ 1) with 512. symmetry. apply Z.div_mod. lia.
Qed.

Lemma vidx_range k v : 0 ≤ vidx k v < 512.
Proof. unfold vidx. apply Z.mod_pos_bound. lia. Qed.

Definition uva (va : Z) : Prop := 0 ≤ va < 2 ^ 47.

Lemma shift_idx va s k : s = 12 + 9 * Z.of_nat k → 0 ≤ va →
  Z.land (Z.shiftr va s) PXMASK = vidx k (va / PGSIZE).
Proof.
  intros -> Hva. unfold PXMASK, vidx, PGSIZE. change 0x1FF with (Z.ones 9). rewrite Z.land_ones by lia.
  change (2 ^ 9) with 512. f_equal. rewrite Z.shiftr_div_pow2 by lia.
  rewrite Z.pow_add_r, Z.pow_mul_r by lia. change (2 ^ 12) with 4096. change (2 ^ 9) with 512.
  rewrite Z.div_div; [done|lia|]. apply Z.pow_pos_nonneg; lia.
Qed.

Lemma PMX_eq va : 0 ≤ va → PMX va = vidx 3 (va / PGSIZE).
Proof. intros. by apply (shift_idx va 39 3). Qed.
Lemma PDPX_eq va : 0 ≤ va → PDPX va = vidx 2 (va / PGSIZE).
Proof. intros. by apply (shift_idx va 30 2). Qed.
Lemma PDX_eq va : 0 ≤ va → PDX va = vidx 1 (va / PGSIZE).
Proof. intros. by apply (shift_idx va 21 1). Qed.
Lemma PTX_eq va : 0 ≤ va → PTX va = vidx 0 (va / PGSIZE).
Proof. intros. by apply (shift_idx va 12 0). Qed.

Definition upage (v : Z) : Prop := 0 ≤ v < 2 ^ 35.

Lemma uva_page va : uva va → upage (va / PGSIZE).
Proof.
  unfold uva, upage, PGSIZE. intros H. split; [apply Z.div_pos; lia|]. apply Z.div_lt_upper_bound; lia.
Qed.

Lemma upage_top v : upage v → vpre 3 v = 0 ∧ vidx 3 v < 256.
Proof.
  unfold upage, vpre, vidx. intros Hv. split.
  - apply Z.div_small. change (512 ^ (Z.of_nat 3 + 1)) with (2 ^ 36). lia.
  - change (512 ^ Z.of_nat 3) with (2 ^ 27). rewrite Z.mod_small.
    + apply Z.div_lt_upper_bound; lia.
    + split; [apply Z.div_pos; lia|]. apply Z.div_lt_upper_bound; lia.
Qed.

(** A page number is determined by the prefix and the index at level 0. *)
Lemma vpage_eq v v' : vpre 0 v = vpre 0 v' → vidx 0 v = vidx 0 v' → v = v'.
Proof.
  unfold vpre, vidx. change (512 ^ (Z.of_nat 0 + 1)) with 512. change (512 ^ Z.of_nat 0) with 1.
  rewrite !Z.div_1_r. intros E1 E2. rewrite (Z.div_mod v 512), (Z.div_mod v' 512) by lia. lia.
Qed.

(** The tables of a page table by level and prefix. *)
Abbreviation tables := (gmap (nat * Z) Z).

(** The kernel image lies in the kernel's half of the address space. *)
Class HighImage {image : KernelImage} : Prop := high_image : KERNBASE < kend.

Section tables.
  Context {image : KernelImage} {Hkend : HighImage}.

(** ** Memory and free list *)

(** The virtual-memory code changes memory and the head of the free list. *)
Definition vmw (w : world) (m : mem) (f : Z) : world :=
  w <| w_mem := m |> <| w_kmem ::= λ k, k <| freelist := f |> |>.

Lemma vmw_vmw w m f m' f' : vmw (vmw w m f) m' f' = vmw w m' f'.
Proof. unfold vmw. weq. by destruct (w_kmem w). Qed.

Lemma vmw_mem w m f : w_mem (vmw w m f) = m.
Proof. unfold vmw. by rsimpl. Qed.

Lemma vmw_self w : vmw w (w_mem w) (freelist (w_kmem w)) = w.
Proof. unfold vmw. weq. by destruct (w_kmem w). Qed.

(** The free list of memory [m] from [f] on is [fl]. *)
Record freel (m : mem) (f : Z) (fl : list Z) : Prop := {
  fr_chain : chain m f fl;
  fr_nodup : NoDup fl;
  fr_ok : Forall page_ok fl
}.

(** The thread may use the allocator: it holds no locks. *)
Definition vm_calm (w : world) : Prop := calm w ∧ lock_free w L_kmem.

Lemma vm_calm_vmw w m f : vm_calm w → vm_calm (vmw w m f).
Proof. unfold vm_calm, calm, lock_free, vmw. by rsimpl. Qed.

Lemma kalloc_vm w m f v fl e :
  vm_calm w → freel m f (v :: fl) →
  kalloc (KS (vmw w m f) e) = Ok v (KS (vmw w m (load64 m v)) e) ∧ freel m (load64 m v) fl ∧ page_ok v ∧ v ∉ fl.
Proof.
  intros Hc [[-> Hch] Hnd Hok]. inversion Hok as [|?? Hv Hok']; inversion Hnd; subst.
  split; [|done]. erewrite kalloc_eq; [|by unfold vmw; rsimpl| |].
  - unfold kmem_step, vmw. weq; [|by destruct (w_kmem w)]. destruct (use_lock _); [|done]. apply Hc.
  - destruct Hv as (_ & _ & _ & ?). lia.
  - pose proof (vm_calm_vmw w m v Hc) as [Hc1 Hc2]. split; [done|apply Hc1].
Qed.

Lemma kfree_vm w m f v fl e :
  vm_calm w → freel m f fl → page_ok v → v ∉ fl →
  ∃ m', kfree v (KS (vmw w m f) e) = Ok tt (KS (vmw w m' v) e) ∧ freel m' v (v :: fl) ∧
    ∀ b, ¬ (v ≤ b < v + PGSIZE) → rd m' b = rd m b.
Proof.
  intros Hc [Hch Hnd Hok] Hv Hin. pose proof (vm_calm_vmw w m f Hc) as [Hc1 Hc2].
  exists (store64 (memset m v 1 PGSIZE) v f). split; [|split].
  - rewrite kfree_eq; [|done|split; [done|apply Hc1]].
    unfold kmem_step, vmw. weq; [|by destruct (w_kmem w)]. destruct (use_lock _); [|done]. apply Hc.
  - split; [split; [done|]|by constructor|by constructor]. rewrite load64_store64.
    + apply (chain_write m _ _ fl v); [by destruct Hv|done|done| |done]. intros; by apply kfree_mem_frame.
    + destruct fl as [|v' l]; cbn in Hch; [lia|]. destruct Hch as [-> _].
      inversion Hok as [|?? (_ & _ & _ & ?)]; subst. lia.
  - intros. by apply kfree_mem_frame.
Qed.
(** ** The tables of a page table *)

(** A page seen by the processor, and back. *)
Lemma page_V2P t : page_ok t → V2P t = t - KERNBASE ∧ 0 ≤ t - KERNBASE < 2 ^ 64 - 4096 ∧ (t - KERNBASE) mod 4096 = 0.
Proof.
  intros (Ha & Hk & Hp & Hr). pose proof high_image. unfold V2P in *. rewrite u64_small in * by (unfold KERNBASE in *; lia).
  unfold PHYSTOP, KERNBASE, PGSIZE in *. split_and!; try lia.
  replace (t - 0xFFFF800000000000) with (t + (- 0xFFFF800000000) * 4096) by lia.
  by rewrite Z.mod_add by lia.
Qed.

Lemma P2V_page t : page_ok t → P2V (t - KERNBASE) = t.
Proof. intros Ht. destruct Ht as (_ & _ & _ & ?). unfold P2V. rewrite u64_small; lia. Qed.

(** What [walk_level] stores in the entry of a table above. *)
Definition tentry (t : Z) : Z := Z.lor (Z.lor (Z.lor (V2P t) PTE_P) PTE_W) PTE_U.

Lemma tentry_eq t : page_ok t → tentry t = t - KERNBASE + 7.
Proof.
  intros Ht. destruct (page_V2P t Ht) as (E & Hr & Hm). unfold tentry. rewrite E, <- !Z.lor_assoc.
  by apply lor_add.
Qed.

Lemma tentry_addr t : page_ok t → P2V (PTE_ADDR (tentry t)) = t.
Proof.
  intros Ht. rewrite tentry_eq by done. rewrite pte_addr; [by apply P2V_page|by apply page_V2P|lia].
Qed.

Lemma tentry_present t : page_ok t → present (tentry t) = true.
Proof.
  intros Ht. unfold present, PTE_P. rewrite tentry_eq by done. rewrite land_flags; [done|by apply page_V2P|lia|lia].
Qed.

Lemma tentry_range t : page_ok t → 0 ≤ tentry t < 2 ^ 64.
Proof. intros Ht. rewrite tentry_eq by done. pose proof (page_V2P t Ht). lia. Qed.

(** Entry [i] of a table at level [k + 1] that the walk of a user address may use. *)
Definition uidx (k : nat) (i : Z) : Prop := 0 ≤ i < 512 ∧ (k = 2%nat → i < 256).

Record pt_ok (m : mem) (root : Z) (T : tables) : Prop := {
  pt_root : T !! (3%nat, 0) = Some root;
  pt_page k t : T !! k = Some t → page_ok t;
  pt_inj a b t : T !! a = Some t → T !! b = Some t → a = b;
  pt_up k q : is_Some (T !! (k, q)) →
    (k, q) = (3%nat, 0) ∨ (k < 3)%nat ∧ is_Some (T !! (S k, q / 512)) ∧ (k = 2%nat → q < 256);
  pt_down k q t i : T !! (S k, q) = Some t → uidx k i →
    match T !! (k, 512 * q + i) with
    | Some t' => load64 m (entry t i) = tentry t'
    | None => present (load64 m (entry t i)) = false
    end
}.

(** The page-table entry of page [v]; 0 where there is no table. *)
Definition pte (m : mem) (T : tables) (v : Z) : Z :=
  match T !! (0%nat, vpre 0 v) with
  | Some t => load64 m (entry t (vidx 0 v))
  | None => 0
  end.

(** Memory with a page table and the free list in it. *)
Record vm_ok (m : mem) (f : Z) (fl : list Z) (root : Z) (T : tables) : Prop := {
  vm_free : freel m f fl;
  vm_pt : pt_ok m root T;
  vm_apart k t : T !! k = Some t → t ∉ fl
}.

Definition same_page (m m' : mem) (p : Z) : Prop := ∀ b, p ≤ b < p + PGSIZE → rd m' b = rd m b.

(** What building a page table does to everything else: it takes at most [n]
    pages off the free list, adds tables among them, and writes nothing but
    these and the tables there were. *)
Record vstep (n : nat) (m : mem) (fl : list Z) (T : tables) (m' : mem) (fl' : list Z) (T' : tables) : Prop := {
  vs_sub : T ⊆ T';
  vs_new k t : T' !! k = Some t → T !! k = Some t ∨ t ∈ fl;
  vs_drop : ∃ j, (j ≤ n)%nat ∧ fl' = drop j fl;
  vs_same p : p mod PGSIZE = 0 → p ∉ fl → (∀ k, T !! k ≠ Some p) → same_page m m' p
}.

Lemma vstep_refl m fl T : vstep 0 m fl T m fl T.
Proof. split; [done|by left|by exists 0%nat|]. by intros p _ _ _ b _. Qed.

Lemma vstep_trans n1 n2 m fl T m1 fl1 T1 m2 fl2 T2 :
  vstep n1 m fl T m1 fl1 T1 → vstep n2 m1 fl1 T1 m2 fl2 T2 → vstep (n1 + n2) m fl T m2 fl2 T2.
Proof.
  intros [A1 A2 (j1 & Hj1 & ->) A4] [B1 B2 (j2 & Hj2 & ->) B4].
  assert (Hd : ∀ x, x ∈ drop j1 fl → x ∈ fl).
  { intros x Hx. rewrite <- (take_drop j1 fl). set_solver. }
  split.
  - by etrans.
  - intros k t [H|H]%B2; [by apply A2|]. right. by apply Hd.
  - exists (j1 + j2)%nat. split; [lia|]. by rewrite drop_drop.
  - intros p Hp Hin HT b Hb. rewrite (B4 p), (A4 p); try done.
    + intros H%Hd. done.
    + intros k [H|H]%A2; [by apply (HT k)|done].
Qed.

Lemma vstep_le n n' m fl T m' fl' T' : (n ≤ n')%nat → vstep n m fl T m' fl' T' → vstep n' m fl T m' fl' T'.
Proof. intros Hn [? ? (j & ? & ?) ?]. split; try done. exists j. split; [lia|done]. Qed.
(** ** Reading and writing entries *)

Lemma same_page_load m m' t i : same_page m m' t → 0 ≤ i < 512 → load64 m' (entry t i) = load64 m (entry t i).
Proof.
  intros Hs Hi. apply load64_ext. intros b Hb. apply Hs. unfold entry, PGSIZE in *. lia.
Qed.

(** A store to an entry leaves the other entries of its table and all other
    pages alone. *)
Lemma entry_store_ne m t i e j : i ≠ j → load64 (store64 m (entry t i) e) (entry t j) = load64 m (entry t j).
Proof. intros Hij. apply load64_ext. intros b Hb. apply rd_store64_ne. unfold entry in *. lia. Qed.

Lemma entry_store_page m t i e p :
  t mod PGSIZE = 0 → p mod PGSIZE = 0 → p ≠ t → 0 ≤ i < 512 → same_page m (store64 m (entry t i) e) p.
Proof.
  intros Ht Hp Hne Hi b Hb. apply rd_store64_ne. pose proof (pages_apart p t b Hp Ht Hne Hb) as H.
  unfold entry, PGSIZE in *. lia.
Qed.

Lemma memset_page m v c p :
  v mod PGSIZE = 0 → p mod PGSIZE = 0 → p ≠ v → same_page m (memset m v c PGSIZE) p.
Proof.
  intros Hv Hp Hne b Hb. pose proof (pages_apart p v b Hp Hv Hne Hb) as H.
  by rewrite memset_bytes, decide_False by (unfold PGSIZE in *; lia).
Qed.

Lemma same_page_trans m m1 m2 p : same_page m m1 p → same_page m1 m2 p → same_page m m2 p.
Proof. intros H1 H2 b Hb. by rewrite (H2 b), (H1 b). Qed.

(** The free list only depends on the pages of it. *)
Lemma freel_same m m' f fl : freel m f fl → (∀ p, p ∈ fl → same_page m m' p) → freel m' f fl.
Proof.
  intros [Hc Hn Ho] Hs. split; [|done..]. eapply chain_ext; [|done]. intros v b Hv Hb.
  symmetry. apply (Hs v Hv). unfold PGSIZE. lia.
Qed.

(** ** One level of the walk *)

(** A zeroed page [v] becomes the table below entry [i] of [tab]. *)
Definition add_table (m : mem) (tab i v : Z) : mem := store64 (memset m v 0 PGSIZE) (entry tab i) (tentry v).

Section add_table.
  Context (m : mem) (f v : Z) (fl : list Z) (root : Z) (T : tables) (k : nat) (q i tab : Z).
  Context (Hvm : vm_ok m f (v :: fl) root T) (Htab : T !! (S k, q) = Some tab) (Hi : uidx k i)
    (Hnone : T !! (k, 512 * q + i) = None).
Let m' := add_table m tab i v.
Let T' := <[(k, 512 * q + i) := v]> T.

Lemma at_page : page_ok v.
Proof. destruct Hvm as [[_ _ Hok] _ _]. by inversion Hok. Qed.

Lemma at_aligned a t : T !! a = Some t → t mod PGSIZE = 0.
Proof. intros Ha. by destruct (pt_page _ _ _ (vm_pt _ _ _ _ _ Hvm) _ _ Ha). Qed.

Lemma at_fresh a : T !! a ≠ Some v.
Proof. intros Ha. apply (vm_apart _ _ _ _ _ Hvm _ _ Ha). set_solver. Qed.

Lemma at_other p : p mod PGSIZE = 0 → p ≠ v → p ≠ tab → same_page m m' p.
Proof.
  intros Hp H1 H2. eapply same_page_trans.
  - apply memset_page with (c := 0); [|done|exact H1]. apply at_page.
  - apply entry_store_page; [by eapply at_aligned|done|done|apply Hi].
Qed.

Lemma at_zero j : 0 ≤ j < 512 → load64 m' (entry v j) = 0.
Proof.
  intros Hj. unfold m', add_table.
  rewrite (same_page_load (memset m v 0 PGSIZE)); [|apply entry_store_page|done].
  - apply load64_zero. intros b Hb. rewrite memset_bytes, decide_True; [done| |unfold PGSIZE; lia].
    unfold entry, PGSIZE in *. lia.
  - by eapply at_aligned.
  - apply at_page.
  - intros E. apply (at_fresh (S k, q)). by rewrite E.
  - apply Hi.
Qed.

Lemma at_same j : 0 ≤ j < 512 → j ≠ i → load64 m' (entry tab j) = load64 m (entry tab j).
Proof.
  intros Hj Hne. unfold m', add_table. rewrite entry_store_ne by done.
  apply same_page_load; [|done]. apply memset_page; [apply at_page|by eapply at_aligned|].
  intros E. apply (at_fresh (S k, q)). by rewrite <- E.
Qed.

Lemma at_new : load64 m' (entry tab i) = tentry v.
Proof. apply load64_store64, tentry_range, at_page. Qed.
(** The key of an entry determines its table and its index. *)
Lemma key_inj (q' i' : Z) : 0 ≤ i' < 512 → 512 * q' + i' = 512 * q + i → q' = q ∧ i' = i.
Proof. destruct Hi as [? _]. lia. Qed.

(** The new table is empty and has no table below it. *)
Lemma at_empty a j : k = S a → 0 ≤ j < 512 → T !! (a, 512 * (512 * q + i) + j) = None.
Proof.
  intros Hk Hj. destruct (T !! (a, 512 * (512 * q + i) + j)) eqn:Ea; [|done]. exfalso.
  destruct (pt_up _ _ _ (vm_pt _ _ _ _ _ Hvm) _ _ (ex_intro _ _ Ea)) as [[= -> _]|(_ & [t1 H1] & _)].
  - destruct (pt_up _ _ _ (vm_pt _ _ _ _ _ Hvm) _ _ (ex_intro _ _ Htab)) as [[=]|[? _]]; lia.
  - assert (E : (512 * (512 * q + i) + j) / 512 = 512 * q + i) by (symmetry; apply (Z.div_unique _ _ _ j); lia).
    rewrite E, <- Hk, Hnone in H1. done.
Qed.

Lemma at_down a p t j : T' !! (S a, p) = Some t → uidx a j →
  match T' !! (a, 512 * p + j) with
  | Some t' => load64 m' (entry t j) = tentry t'
  | None => present (load64 m' (entry t j)) = false
  end.
Proof.
  intros Ht Hj. pose proof (vm_pt _ _ _ _ _ Hvm) as HP. unfold T' in Ht |- *.
  destruct (decide ((k, 512 * q + i) = (S a, p))) as [E|Hne].
  { rewrite E, lookup_insert_eq in Ht. injection Ht as <-. injection E as E1 E2.
    rewrite lookup_insert_ne by (intros [=]; lia). rewrite at_zero by apply Hj.
    rewrite <- E2, at_empty; [done|done|apply Hj]. }
  rewrite lookup_insert_ne in Ht by done.
  destruct (decide (t = tab)) as [Et|Htt].
  - rewrite Et in Ht |- *. pose proof (pt_inj _ _ _ HP _ _ _ Ht Htab) as [= -> ->].
    destruct (decide (i = j)) as [<-|Hij]; [rewrite lookup_insert_eq; apply at_new|].
    rewrite lookup_insert_ne by (intros [=]; lia). rewrite at_same by (done || apply Hj). by apply HP.
  - rewrite lookup_insert_ne.
    + rewrite (same_page_load m); [by apply HP| |apply Hj]. apply at_other; [by eapply at_aligned| |done].
      intros ->. by apply at_fresh in Ht.
    + intros [= E1 E2]. symmetry in E2. apply key_inj in E2 as [-> ->]; [|apply Hj]. rewrite <- E1, Htab in Ht. congruence.
Qed.

Lemma at_pt : pt_ok m' root T'.
Proof.
  pose proof (vm_pt _ _ _ _ _ Hvm) as HP. pose proof at_page as Hv. split.
  - unfold T'. rewrite lookup_insert_ne; [apply HP|]. intros [= -> E].
    destruct (pt_up _ _ _ HP _ _ (ex_intro _ tab Htab)) as [E'|[? _]]; [by injection E'|lia].
  - intros a t. unfold T'. destruct (decide ((k, 512 * q + i) = a)) as [<-|];
      [rewrite lookup_insert_eq; by intros [= <-]|rewrite lookup_insert_ne by done; apply HP].
  - intros a b t. unfold T'.
    destruct (decide ((k, 512 * q + i) = a)) as [<-|], (decide ((k, 512 * q + i) = b)) as [<-|];
      rewrite ?lookup_insert_eq, ?lookup_insert_ne by done; [done|intros [= <-] Hb|intros Ha [= <-]|apply HP].
    + by apply at_fresh in Hb.
    + by apply at_fresh in Ha.
  - intros a p. unfold T'. destruct (decide ((k, 512 * q + i) = (a, p))) as [[= <- <-]|Hne].
    + intros _. right. destruct Hi as [Hi1 Hi2].
      assert (E : (512 * q + i) / 512 = q) by (symmetry; apply (Z.div_unique _ _ q i); lia).
      rewrite E, lookup_insert_ne by (intros [=]; lia). rewrite Htab.
      destruct (pt_up _ _ _ HP _ _ (ex_intro _ tab Htab)) as [[= -> ->]|[? _]]; (split; [lia|]); (split; [done|]); lia.
    + rewrite lookup_insert_ne by done. intros [?|(H1 & H2 & H3)]%(pt_up _ _ _ HP); [by left|right].
      split_and!; [done| |done]. by apply lookup_insert_is_Some'; right.
  - apply at_down.
Qed.

Lemma at_vm : vm_ok m' (load64 m v) fl root T'.
Proof.
  destruct (vm_free _ _ _ _ _ Hvm) as [[_ Hc] Hn Ho]. inversion Hn; inversion Ho; subst. split.
  - apply (freel_same m); [done|]. intros p Hp. apply at_other.
    + rewrite Forall_forall in *. by destruct (H6 p Hp).
    + set_solver.
    + intros E. apply (vm_apart _ _ _ _ _ Hvm _ _ Htab). rewrite <- E. by right.
  - apply at_pt.
  - intros a t. unfold T'. destruct (decide ((k, 512 * q + i) = a)) as [<-|].
    + rewrite lookup_insert_eq. by intros [= <-].
    + rewrite lookup_insert_ne by done. intros Ha Hin. apply (vm_apart _ _ _ _ _ Hvm _ _ Ha). by right.
Qed.

Lemma at_step : vstep 1 m (v :: fl) T m' fl T'.
Proof.
  split.
  - by apply insert_subseteq.
  - intros a t. unfold T'. destruct (decide ((k, 512 * q + i) = a)) as [<-|].
    + rewrite lookup_insert_eq. intros [= <-]. right. set_solver.
    + rewrite lookup_insert_ne by done. by left.
  - by exists 1%nat.
  - intros p Hp Hin HT. apply at_other; [done|set_solver|]. intros E. apply (HT (S k, q)). by rewrite E.
Qed.

Lemma at_pte u : pte m' T' u = pte m T u.
Proof.
  unfold pte, T'. destruct (decide ((k, 512 * q + i) = (0%nat, vpre 0 u))) as [E|Hne].
  - rewrite E, lookup_insert_eq, <- E, Hnone. apply at_zero, vidx_range.
  - rewrite lookup_insert_ne by done. destruct (T !! (0%nat, vpre 0 u)) as [t|] eqn:Et; [|done].
    apply same_page_load; [|apply vidx_range]. apply at_other; [by eapply at_aligned| |].
    + intros E. apply (at_fresh (0%nat, vpre 0 u)). by rewrite Et, E.
    + intros E. rewrite E in Et. by pose proof (pt_inj _ _ _ (vm_pt _ _ _ _ _ Hvm) _ _ _ Et Htab).
Qed.
End add_table.
Lemma bind_getm {A B} (g : mem → A) (k : A → K B) w m f e :
  (getm g ≫= k) (KS (vmw w m f) e) = k (g m) (KS (vmw w m f) e).
Proof. unfold getm. by rewrite bind_getw, vmw_mem. Qed.

Lemma bind_modm {B} g (k : unit → K B) w m f e :
  (modm g ≫= k) (KS (vmw w m f) e) = k tt (KS (vmw w (g m) f) e).
Proof. unfold modm. rewrite bind_modw. by do 2 f_equal. Qed.

Lemma modm_vmw g w m f e : modm g (KS (vmw w m f) e) = Ok tt (KS (vmw w (g m) f) e).
Proof. unfold modm. rewrite modw_eq. unfold vmw. weq. Qed.

Lemma pt_entry m root T k q tab i :
  pt_ok m root T → T !! (S k, q) = Some tab → uidx k i →
  present (load64 m (entry tab i)) = bool_decide (is_Some (T !! (k, 512 * q + i))) ∧
  (∀ t, T !! (k, 512 * q + i) = Some t → P2V (PTE_ADDR (load64 m (entry tab i))) = t).
Proof.
  intros HP Ht Hi. pose proof (pt_down _ _ _ HP _ _ _ _ Ht Hi) as Hd.
  destruct (T !! (k, 512 * q + i)) as [t|] eqn:Et; cycle 1.
  { split; [by rewrite Hd|done]. }
  pose proof (pt_page _ _ _ HP _ _ Et). rewrite Hd. split; [by rewrite tentry_present|].
  intros ? [= <-]. by apply tentry_addr.
Qed.

(** Without [alloc] the walk of a level reads the map. *)
Lemma walk_level_look w m f root T k q tab i e :
  pt_ok m root T → T !! (S k, q) = Some tab → uidx k i →
  walk_level tab i false (KS (vmw w m f) e) = Ok (T !! (k, 512 * q + i)) (KS (vmw w m f) e).
Proof.
  intros HP Ht Hi. destruct (pt_entry _ _ _ _ _ _ _ HP Ht Hi) as [E1 E2]. unfold walk_level.
  rewrite bind_getm, E1. destruct (T !! (k, 512 * q + i)) as [t|]; [|done]. by rewrite (E2 t eq_refl).
Qed.

(** With [alloc] it finds or adds the table. *)
Lemma walk_level_alloc w m f fl root T k q tab i e :
  vm_calm w → vm_ok m f fl root T → T !! (S k, q) = Some tab → uidx k i → (1 ≤ length fl)%nat →
  ∃ t m' f' fl' T', walk_level tab i true (KS (vmw w m f) e) = Ok (Some t) (KS (vmw w m' f') e) ∧
    T' !! (k, 512 * q + i) = Some t ∧ vm_ok m' f' fl' root T' ∧ vstep 1 m fl T m' fl' T' ∧
    ∀ u, pte m' T' u = pte m T u.
Proof.
  intros Hc Hvm Ht Hi Hlen. destruct (pt_entry _ _ _ _ _ _ _ (vm_pt _ _ _ _ _ Hvm) Ht Hi) as [E1 E2].
  unfold walk_level. rewrite bind_getm, E1. destruct (T !! (k, 512 * q + i)) as [t|] eqn:Et.
  { cbn. rewrite (E2 t) by done. exists t, m, f, fl, T. split_and!; try done.
    apply vstep_le with 0%nat; [lia|]. apply vstep_refl. }
  cbn [bool_decide negb]. destruct fl as [|v fl]; [cbn in Hlen; lia|].
  destruct (kalloc_vm w m f v fl e Hc (vm_free _ _ _ _ _ Hvm)) as (Hk & _ & Hv & _).
  rewrite bool_decide_eq_false_2 by (intros [? [=]]). cbv iota. rewrite (bind_ok _ _ _ _ _ Hk).
  rewrite (proj2 (Z.eqb_neq v 0)) by (destruct Hv; lia). rewrite !bind_modm.
  exists v, (add_table m tab i v), (load64 m v), fl, (<[(k, 512 * q + i) := v]> T). split_and!.
  - done.
  - by rewrite lookup_insert_eq.
  - by eapply at_vm.
  - by eapply at_step.
  - intros u. by eapply at_pte.
Qed.

(** ** The walk *)

Definition walk_to (v : Z) (T : tables) : option Z := (λ t, entry t (vidx 0 v)) <$> T !! (0%nat, vpre 0 v).

Lemma vpre_div k v : vpre k v / 512 = vpre (S k) v.
Proof.
  rewrite <- (vpre_step k v). symmetry. apply (Z.div_unique _ _ _ (vidx (S k) v)); [|lia].
  left. apply vidx_range.
Qed.

Lemma upage_uidx k v : upage v → uidx k (vidx (S k) v).
Proof. intros Hv. split; [apply vidx_range|]. intros ->. by apply upage_top. Qed.

(** Nothing is below a missing table. *)
Lemma pt_closed m root T k v : pt_ok m root T → (k < 3)%nat → T !! (S k, vpre (S k) v) = None → T !! (k, vpre k v) = None.
Proof.
  intros HP Hk Hn. destruct (T !! (k, vpre k v)) eqn:E; [|done].
  destruct (pt_up _ _ _ HP _ _ (ex_intro _ _ E)) as [[= -> _]|(_ & [t Ht] & _)]; [lia|].
  rewrite vpre_div, Hn in Ht. done.
Qed.

Lemma pt_top m root T v : pt_ok m root T → upage v → T !! (3%nat, vpre 3 v) = Some root.
Proof. intros HP Hv. destruct (upage_top v Hv) as [-> _]. apply HP. Qed.

Lemma walk_look w m f root T va e :
  pt_ok m root T → uva va →
  walkpgdir root va false (KS (vmw w m f) e) = Ok (walk_to (va / PGSIZE) T) (KS (vmw w m f) e).
Proof.
  intros HP Hva. pose proof (uva_page va Hva) as Hu. destruct Hva as [Hva _].
  unfold walkpgdir. rewrite PMX_eq, PDPX_eq, PDX_eq, PTX_eq by done. set (v := va / PGSIZE) in *. clearbody v.
  pose proof (pt_top _ _ _ v HP Hu) as H3. unfold walk_to.
  pose proof (walk_level_look w m f root T 2 _ root (vidx 3 v) e HP H3 (upage_uidx 2 v Hu)) as W3.
  rewrite vpre_step in W3. rewrite (bind_ok _ _ _ _ _ W3).
  destruct (T !! (2%nat, vpre 2 v)) as [t2|] eqn:E2; cycle 1.
  { rewrite (pt_closed m root T 0 v HP); [done|lia|]. apply (pt_closed m root T 1 v HP); [lia|done]. }
  pose proof (walk_level_look w m f root T 1 _ t2 (vidx 2 v) e HP E2 (upage_uidx 1 v Hu)) as W2.
  rewrite vpre_step in W2. rewrite (bind_ok _ _ _ _ _ W2).
  destruct (T !! (1%nat, vpre 1 v)) as [t1|] eqn:E1; cycle 1.
  { by rewrite (pt_closed m root T 0 v HP); [|lia|]. }
  pose proof (walk_level_look w m f root T 0 _ t1 (vidx 1 v) e HP E1 (upage_uidx 0 v Hu)) as W1.
  rewrite vpre_step in W1. rewrite (bind_ok _ _ _ _ _ W1).
  by destruct (T !! (0%nat, vpre 0 v)).
Qed.

Lemma vstep_len n m fl T m' fl' T' : vstep n m fl T m' fl' T' → (length fl ≤ length fl' + n)%nat.
Proof. intros [_ _ (j & Hj & ->) _]. rewrite length_drop. lia. Qed.

Lemma walk_alloc w m f fl root T va e :
  vm_calm w → vm_ok m f fl root T → uva va → (3 ≤ length fl)%nat →
  ∃ t m' f' fl' T',
    walkpgdir root va true (KS (vmw w m f) e) = Ok (Some (entry t (vidx 0 (va / PGSIZE)))) (KS (vmw w m' f') e) ∧
    T' !! (0%nat, vpre 0 (va / PGSIZE)) = Some t ∧ vm_ok m' f' fl' root T' ∧ vstep 3 m fl T m' fl' T' ∧
    ∀ u, pte m' T' u = pte m T u.
Proof.
  intros Hc Hvm Hva Hlen. pose proof (uva_page va Hva) as Hu. destruct Hva as [Hva _].
  unfold walkpgdir. rewrite PMX_eq, PDPX_eq, PDX_eq, PTX_eq by done. set (v := va / PGSIZE) in *. clearbody v.
  pose proof (pt_top _ _ _ v (vm_pt _ _ _ _ _ Hvm) Hu) as H3.
  destruct (walk_level_alloc w m f fl root T 2 _ root (vidx 3 v) e Hc Hvm H3 (upage_uidx 2 v Hu))
    as (t2 & m2 & f2 & fl2 & T2 & W2 & E2 & Hvm2 & S2 & P2); [lia|].
  pose proof (vstep_len _ _ _ _ _ _ _ S2). rewrite (bind_ok _ _ _ _ _ W2). rewrite vpre_step in E2.
  destruct (walk_level_alloc w m2 f2 fl2 root T2 1 _ t2 (vidx 2 v) e Hc Hvm2 E2 (upage_uidx 1 v Hu))
    as (t1 & m1 & f1 & fl1 & T1 & W1 & E1 & Hvm1 & S1 & P1); [lia|].
  pose proof (vstep_len _ _ _ _ _ _ _ S1). rewrite (bind_ok _ _ _ _ _ W1). rewrite vpre_step in E1.
  destruct (walk_level_alloc w m1 f1 fl1 root T1 0 _ t1 (vidx 1 v) e Hc Hvm1 E1 (upage_uidx 0 v Hu))
    as (t0 & m0 & f0 & fl0 & T0 & W0 & E0 & Hvm0 & S0 & P0); [lia|].
  rewrite (bind_ok _ _ _ _ _ W0). rewrite vpre_step in E0.
  exists t0, m0, f0, fl0, T0. split_and!; [done|done|done| |].
  - apply (vstep_trans 1 2 _ _ _ m2 fl2 T2); [done|]. by apply (vstep_trans 1 1 _ _ _ m1 fl1 T1).
  - intros u. by rewrite P0, P1, P2.
Qed.
(** ** Writing an entry *)

Section set_pte.
  Context (m : mem) (f : Z) (fl : list Z) (root : Z) (T : tables) (v t x : Z).
  Context (Hvm : vm_ok m f fl root T) (Ht : T !! (0%nat, vpre 0 v) = Some t).
Let m' := store64 m (entry t (vidx 0 v)) x.

Lemma sp_other p : p mod PGSIZE = 0 → p ≠ t → same_page m m' p.
Proof.
  intros Hp Hne. apply entry_store_page; [|done|done|apply vidx_range].
  by destruct (pt_page _ _ _ (vm_pt _ _ _ _ _ Hvm) _ _ Ht).
Qed.

Lemma sp_vm : vm_ok m' f fl root T.
Proof.
  pose proof (vm_pt _ _ _ _ _ Hvm) as HP. split.
  - apply (freel_same m); [apply Hvm|]. intros p Hp. apply sp_other.
    + pose proof (fr_ok _ _ _ (vm_free _ _ _ _ _ Hvm)) as Ho. rewrite Forall_forall in Ho. by destruct (Ho p Hp).
    + intros E. apply (vm_apart _ _ _ _ _ Hvm _ _ Ht). by rewrite <- E.
  - split; [apply HP..|]. intros k q t' i Ht' Hi. rewrite (same_page_load m); [by apply HP| |apply Hi].
    apply sp_other; [by destruct (pt_page _ _ _ HP _ _ Ht')|]. intros E. rewrite E in Ht'.
    by pose proof (pt_inj _ _ _ HP _ _ _ Ht' Ht).
  - apply Hvm.
Qed.

Lemma sp_step : vstep 0 m fl T m' fl T.
Proof.
  split; [done|by left|by exists 0%nat|]. intros p Hp _ HT. apply sp_other; [done|].
  intros E. apply (HT (0%nat, vpre 0 v)). by rewrite Ht, E.
Qed.

Lemma sp_pte u : 0 ≤ x < 2 ^ 64 → pte m' T u = if decide (u = v) then x else pte m T u.
Proof.
  intros Hx. unfold pte. destruct (decide (u = v)) as [->|Huv]; [rewrite Ht; by apply load64_store64|].
  destruct (T !! (0%nat, vpre 0 u)) as [t'|] eqn:Et; [|done]. destruct (decide (t' = t)) as [E|Hne].
  - rewrite E in Et |- *. pose proof (pt_inj _ _ _ (vm_pt _ _ _ _ _ Hvm) _ _ _ Et Ht) as [= E'].
    apply entry_store_ne. intros E2. apply Huv. by apply vpage_eq.
  - apply same_page_load; [|apply vidx_range]. apply sp_other; [|done].
    by destruct (pt_page _ _ _ (vm_pt _ _ _ _ _ Hvm) _ _ Et).
Qed.
End set_pte.

(** ** The processor reads the same tables *)

Lemma mmu_step_down m root T k q tab i need :
  pt_ok m root T → T !! (S k, q) = Some tab → uidx k i → need = 0 ∨ need = PTE_W →
  mmu_step m need tab i = tentry <$> T !! (k, 512 * q + i).
Proof.
  intros HP Ht Hi Hn. pose proof (pt_down _ _ _ HP _ _ _ _ Ht Hi) as Hd. unfold mmu_step.
  destruct (T !! (k, 512 * q + i)) as [t|] eqn:Et; cbn.
  - pose proof (pt_page _ _ _ HP _ _ Et) as Hp. rewrite Hd, tentry_eq by done.
    rewrite land_flags; [|by apply page_V2P|lia|destruct Hn as [->| ->]; done].
    by destruct Hn as [->| ->].
  - unfold present, PTE_P in Hd. apply negb_false_iff, Z.eqb_eq in Hd.
    destruct (Z.eqb_spec (Z.land (load64 m (entry tab i)) (Z.lor PTE_P need)) (Z.lor PTE_P need)) as [E|]; [|done].
    exfalso. apply (f_equal (Z.land 1)) in E. rewrite Z.land_comm, <- Z.land_assoc in E.
    replace (Z.land (Z.lor PTE_P need) 1) with 1 in E by (by destruct Hn as [->| ->]).
    replace (Z.land 1 (Z.lor PTE_P need)) with 1 in E by (by destruct Hn as [->| ->]). lia.
Qed.

(** The translation of a user address by the entry of its page. *)
Definition translate (store : bool) (x va : Z) : option Z :=
  let need := Z.lor PTE_P (if store then PTE_W else 0) in
  if Z.land x need =? need then Some (P2V (PTE_ADDR x + va mod PGSIZE)) else None.

Lemma mmu_pte m root T st va :
  pt_ok m root T → uva va → mmu m root st va = translate st (pte m T (va / PGSIZE)) va.
Proof.
  intros HP Hva. pose proof (uva_page va Hva) as Hu. unfold mmu.
  rewrite (proj2 (Z.leb_gt (2 ^ 47) va)) by (unfold uva in *; lia). cbn [andb].
  destruct Hva as [Hva _]. rewrite PMX_eq, PDPX_eq, PDX_eq, PTX_eq by done.
  set (need := if st then PTE_W else 0). assert (Hn : need = 0 ∨ need = PTE_W) by (destruct st; auto).
  set (v := va / PGSIZE) in *. clearbody v. pose proof (pt_top _ _ _ v HP Hu) as H3. unfold pte, translate. fold need.
  assert (Hz : (Z.land 0 (Z.lor PTE_P need) =? Z.lor PTE_P need) = false) by (destruct Hn as [->| ->]; done).
  rewrite (mmu_step_down m root T 2 _ root _ need HP H3 (upage_uidx 2 v Hu) Hn), vpre_step.
  destruct (T !! (2%nat, vpre 2 v)) as [t2|] eqn:E2; cycle 1.
  { rewrite (pt_closed m root T 0 v HP); [cbn; by rewrite Hz|lia|]. apply (pt_closed m root T 1 v HP); [lia|done]. }
  pose proof (pt_page _ _ _ HP _ _ E2) as Hp2. cbn. rewrite tentry_addr by done.
  rewrite (mmu_step_down m root T 1 _ t2 _ need HP E2 (upage_uidx 1 v Hu) Hn), vpre_step.
  destruct (T !! (1%nat, vpre 1 v)) as [t1|] eqn:E1; cycle 1.
  { rewrite (pt_closed m root T 0 v HP); [cbn; by rewrite Hz|lia|done]. }
  pose proof (pt_page _ _ _ HP _ _ E1) as Hp1. cbn. rewrite (tentry_addr t1) by done.
  rewrite (tentry_eq t1), land_flags by (done || by apply page_V2P). change (negb (Z.land 7 PTE_PS =? 0)) with false. cbv iota.
  rewrite (mmu_step_down m root T 0 _ t1 _ need HP E1 (upage_uidx 0 v Hu) Hn), vpre_step.
  destruct (T !! (0%nat, vpre 0 v)) as [t0|] eqn:E0; [|cbn; by rewrite Hz].
  pose proof (pt_page _ _ _ HP _ _ E0) as Hp0. cbn. rewrite (tentry_addr t0) by done.
  unfold mmu_step. by destruct (Z.land (load64 _ _) (Z.lor PTE_P need) =? _).
Qed.
(** A page the processor has no translation for has no entry that is present. *)
Lemma mmu_none m root T u : pt_ok m root T → upage u → mmu m root false (u * PGSIZE) = None → present (pte m T u) = false.
Proof.
  intros HP Hu. rewrite (mmu_pte m root T) by (done || unfold uva, upage, PGSIZE in *; lia).
  rewrite Z.div_mul by done. unfold translate, present. cbn [Z.lor].
  change (Z.lor PTE_P 0) with PTE_P. intros H. apply negb_false_iff, Z.eqb_eq.
  destruct (Z.eqb_spec (Z.land (pte m T u) PTE_P) PTE_P) as [|Hne]; [done|]. unfold PTE_P in *.
  change 1 with (Z.ones 1) in *. rewrite Z.land_ones in * by done. pose proof (Z.mod_pos_bound (pte m T u) (2 ^ 1)).
  change (Z.ones 1) with 1 in *. lia.
Qed.

(** ** mappages *)

(** The entry [mappages] writes. *)
Lemma leaf_eq pa perm : pa mod 4096 = 0 → 0 ≤ perm < 4096 →
  Z.lor (Z.lor pa perm) PTE_P = pa + Z.lor perm PTE_P ∧ 0 ≤ Z.lor perm PTE_P < 4096.
Proof.
  intros Hpa Hperm. assert (Hr : 0 ≤ Z.lor perm PTE_P < 4096).
  { split; [apply Z.lor_nonneg; unfold PTE_P; lia|]. change 4096 with (2 ^ 12). destruct (decide (Z.lor perm PTE_P = 0)); [lia|].
    apply Z.log2_lt_pow2; [pose proof (proj2 (Z.lor_nonneg perm PTE_P)); unfold PTE_P in *; lia|].
    rewrite Z.log2_lor by (unfold PTE_P; lia). change (Z.log2 PTE_P) with 0. apply Z.max_lub_lt; [|lia].
    destruct (decide (perm = 0)) as [->|]; [done|]. apply Z.log2_lt_pow2; lia. }
  split; [|done]. rewrite <- Z.lor_assoc. by apply lor_add.
Qed.

Lemma page_next a : 0 ≤ a → a mod PGSIZE = 0 → (a + PGSIZE) mod PGSIZE = 0 ∧ (a + PGSIZE) / PGSIZE = a / PGSIZE + 1.
Proof.
  unfold PGSIZE. intros Ha Hm. split.
  - replace (a + 4096) with (a + 1 * 4096) by lia. by rewrite Z.mod_add.
  - replace (a + 4096) with (a + 1 * 4096) by lia. by rewrite Z.div_add.
Qed.

(** Where the pages from page number [a0] on map, [n + 1] of them. *)
Definition mapped (a0 : Z) (n : nat) (pa perm : Z) (old : Z → Z) (u : Z) : Z :=
  if decide (a0 ≤ u ≤ a0 + Z.of_nat n) then pa + (u - a0) * PGSIZE + Z.lor perm PTE_P else old u.

Lemma mappages_from_ok n : ∀ w m f fl root T a last pa perm e,
  vm_calm w → vm_ok m f fl root T → 0 ≤ a → a mod PGSIZE = 0 → last = a + Z.of_nat n * PGSIZE → last < 2 ^ 47 →
  0 ≤ perm < 4096 → 0 ≤ pa → pa mod PGSIZE = 0 → pa + Z.of_nat n * PGSIZE < 2 ^ 64 - PGSIZE →
  (3 * S n ≤ length fl)%nat →
  (∀ u, a / PGSIZE ≤ u ≤ a / PGSIZE + Z.of_nat n → present (pte m T u) = false) →
  ∃ m' f' fl' T', mappages_from n root a last pa perm (KS (vmw w m f) e) = Ok 0 (KS (vmw w m' f') e) ∧
    vm_ok m' f' fl' root T' ∧ vstep (3 * S n) m fl T m' fl' T' ∧
    ∀ u, pte m' T' u = mapped (a / PGSIZE) n pa perm (pte m T) u.
Proof.
  induction n as [|n IH]; intros w m f fl root T a last pa perm e Hc Hvm Ha0 Ham Hl Hl2 Hperm Hpa0 Hpam Hpa1 Hlen Hnp;
    (destruct (walk_alloc w m f fl root T a e Hc Hvm)
      as (t & m1 & f1 & fl1 & T1 & Hw & Ht & Hvm1 & Hs1 & Hp1); [unfold uva, PGSIZE in *; lia|lia|]);
    (destruct (leaf_eq pa perm) as [El Er]; [done|done|]);
    cbn [mappages_from]; rewrite (bind_ok _ _ _ _ _ Hw), bind_getm;
    (assert (E1 : load64 m1 (entry t (vidx 0 (a / PGSIZE))) = pte m1 T1 (a / PGSIZE)) by (unfold pte; by rewrite Ht));
    rewrite E1, Hp1, Hnp, bind_modm, El by lia;
    (assert (Hx : 0 ≤ pa + Z.lor perm PTE_P < 2 ^ 64) by (unfold PGSIZE in *; lia));
    pose proof (sp_vm m1 f1 fl1 root T1 (a / PGSIZE) t (pa + Z.lor perm PTE_P) Hvm1 Ht) as Hvm2;
    pose proof (sp_step m1 f1 fl1 root T1 (a / PGSIZE) t (pa + Z.lor perm PTE_P) Hvm1 Ht) as Hs2;
    pose proof (λ u, sp_pte m1 f1 fl1 root T1 (a / PGSIZE) t (pa + Z.lor perm PTE_P) Hvm1 Ht u Hx) as Hp2;
    set (m2 := store64 m1 _ _) in *; clearbody m2.
  - rewrite (proj2 (Z.eqb_eq a last)) by lia. exists m2, f1, fl1, T1. split_and!; [done|done| |].
    + by apply (vstep_trans 3 0 _ _ _ m1 fl1 T1).
    + intros u. rewrite Hp2, Hp1. unfold mapped. destruct (decide (u = a / PGSIZE)) as [->|].
      * rewrite decide_True by lia. lia.
      * by rewrite decide_False by lia.
  - rewrite (proj2 (Z.eqb_neq a last)) by (unfold PGSIZE in *; lia).
    destruct (page_next a Ha0 Ham) as [Ham' Had]. destruct (page_next pa Hpa0 Hpam) as [Hpam' _].
    rewrite !u64_small by (unfold PGSIZE in *; lia). pose proof (vstep_len _ _ _ _ _ _ _ Hs1).
    destruct (IH w m2 f1 fl1 root T1 (a + PGSIZE) last (pa + PGSIZE) perm e)
      as (m3 & f3 & fl3 & T3 & Hm & Hvm3 & Hs3 & Hp3); try done; try (unfold PGSIZE in *; lia).
    { intros u Hu. rewrite Had in Hu. rewrite Hp2, decide_False, Hp1 by lia. apply Hnp. lia. }
    exists m3, f3, fl3, T3. split_and!; [done|done| |].
    + apply (vstep_le (3 + 0 + 3 * S n)); [lia|]. eapply vstep_trans; [|done]. by eapply vstep_trans.
    + intros u. rewrite Hp3, Had. unfold mapped. rewrite Hp2, Hp1.
      destruct (decide (u = a / PGSIZE)) as [->|].
      * rewrite decide_False, decide_True by lia. lia.
      * destruct (decide (a / PGSIZE + 1 ≤ u ≤ a / PGSIZE + 1 + Z.of_nat n)).
        -- rewrite decide_True by lia. lia.
        -- by rewrite decide_False by lia.
Qed.
End tables.
