(* ===== verification/Uspace.v ===== *)
(** * User address spaces

    The user half of an address space is the map [U] from page numbers to
    physical pages and flags, and through it the partial function [ub] from
    user addresses to bytes.  [as_ok] says that a page table in memory
    represents it.  The operations of vm.c on address spaces are proved against
    [ub]. *)

From S2P Require Import Prelude Kernel Bytes Spinlock CString Kalloc Vm VmSpec.

Abbreviation upages := (gmap Z (Z * Z)).

(** The byte at a user address. *)
Definition ub (m : mem) (U : upages) (va : Z) : option Z :=
  match U !! (va / PGSIZE) with
  | Some (p, _) => Some (rd m (p + va mod PGSIZE))
  | None => None
  end.

Section uspace.
  Context {image : KernelImage} {Hkend : HighImage}.

Record as_ok (m : mem) (f : Z) (fl : list Z) (root : Z) (T : tables) (U : upages) : Prop := {
  as_vm : vm_ok m f fl root T;
  as_map v : upage v →
    match U !! v with
    | Some (p, g) => pte m T v = p - KERNBASE + g
    | None => present (pte m T v) = false
    end;
  as_page v p g : U !! v = Some (p, g) → upage v ∧ page_ok p ∧ 0 ≤ g < 4096 ∧ Z.land g PTE_P = PTE_P;
  as_apart v p g : U !! v = Some (p, g) → (p ∉ fl) ∧ ∀ k, T !! k ≠ Some p;
  as_inj v v' p g g' : U !! v = Some (p, g) → U !! v' = Some (p, g') → v = v'
}.

Lemma as_pte_none m f fl root T U v : as_ok m f fl root T U → upage v → U !! v = None → present (pte m T v) = false.
Proof. intros HA Hv Hn. pose proof (as_map _ _ _ _ _ _ HA v Hv) as H. by rewrite Hn in H. Qed.

(** User pages are outside what building tables writes. *)
Lemma as_same n m f fl root T U m' fl' T' v p g :
  as_ok m f fl root T U → vstep n m fl T m' fl' T' → U !! v = Some (p, g) → same_page m m' p.
Proof.
  intros HA HS Hv. destruct (as_apart _ _ _ _ _ _ HA _ _ _ Hv) as [H1 H2].
  apply (vs_same _ _ _ _ _ _ _ HS); [|done|done]. by destruct (as_page _ _ _ _ _ _ HA _ _ _ Hv) as (_ & (? & _) & _).
Qed.

Lemma va_offset va : 0 ≤ va mod PGSIZE < PGSIZE.
Proof. apply Z.mod_pos_bound. done. Qed.

Lemma ub_same m m' U va : (∀ p g, U !! (va / PGSIZE) = Some (p, g) → same_page m m' p) → ub m' U va = ub m U va.
Proof.
  intros H. unfold ub. destruct (U !! _) as [[p g]|] eqn:E; [|done]. f_equal. apply (H p g eq_refl).
  pose proof (va_offset va). lia.
Qed.

(** ** Mapping one page *)

Lemma vstep_apart n m fl T m' fl' T' p :
  vstep n m fl T m' fl' T' → p ∉ fl → (∀ k, T !! k ≠ Some p) → (p ∉ fl') ∧ ∀ k, T' !! k ≠ Some p.
Proof.
  intros [_ Hn (j & _ & ->) _] Hf HT. split.
  - intros H. apply Hf. rewrite <- (take_drop j fl). set_solver.
  - intros k [H|H]%Hn; [by apply (HT k)|done].
Qed.

Lemma mappages_page w m f fl root T U v p perm e :
  vm_calm w → as_ok m f fl root T U → upage v → U !! v = None → (3 ≤ length fl)%nat →
  page_ok p → p ∉ fl → (∀ k, T !! k ≠ Some p) → (∀ v' g, U !! v' ≠ Some (p, g)) → 0 ≤ perm < 4096 →
  ∃ m' f' fl' T',
    mappages root (v * PGSIZE) PGSIZE (V2P p) perm (KS (vmw w m f) e) = Ok 0 (KS (vmw w m' f') e) ∧
    as_ok m' f' fl' root T' (<[v := (p, Z.lor perm PTE_P)]> U) ∧ vstep 3 m fl T m' fl' T'.
Proof.
  intros Hc HA Hv HU Hlen Hp Hpf HpT HpU Hperm. destruct (page_V2P p Hp) as (EV & HV & HVm).
  assert (Hva : 0 ≤ v * PGSIZE < 2 ^ 47) by (unfold upage, PGSIZE in *; lia).
  assert (Hdiv : v * PGSIZE / PGSIZE = v) by (by apply Z.div_mul).
  unfold mappages. rewrite !PGROUNDDOWN_eq, !(u64_small (_ + _ - 1)) by (rewrite ?u64_small; unfold PGSIZE in *; lia).
  replace ((v * PGSIZE + PGSIZE - 1) / PGSIZE) with v
    by (apply (Z.div_unique _ _ _ (PGSIZE - 1)); unfold PGSIZE; lia).
  rewrite Hdiv, Z.sub_diag. change (Z.to_nat (u64 0 / PGSIZE)) with 0%nat.
  destruct (mappages_from_ok 0 w m f fl root T (v * PGSIZE) (v * PGSIZE) (V2P p) perm e)
    as (m1 & f1 & fl1 & T1 & Hm & Hvm & HS & Hpte); rewrite ?EV in *; try done; try (unfold PGSIZE in *; lia).
  { apply HA. }
  { by apply Z.mod_mul. }
  { intros u Hu. rewrite Hdiv in Hu. replace u with v by lia. by eapply as_pte_none. }
  exists m1, f1, fl1, T1. split_and!; [done| |done]. destruct (leaf_eq 0 perm eq_refl Hperm) as [_ Hg].
  rewrite Hdiv in Hpte. unfold mapped in Hpte. split.
  - done.
  - intros u Hu. rewrite Hpte. destruct (decide (u = v)) as [->|Hne].
    + rewrite lookup_insert_eq, decide_True by lia. lia.
    + rewrite lookup_insert_ne, decide_False by lia. by apply HA.
  - intros u p' g'. destruct (decide (u = v)) as [->|Hne].
    + rewrite lookup_insert_eq. intros [= <- <-]. split_and!; [done|done|lia|lia|].
      unfold PTE_P. rewrite Z.land_lor_distr_l. apply Z.bits_inj'. intros i Hi. rewrite Z.lor_spec, Z.land_spec.
      destruct (Z.testbit perm i), (Z.testbit 1 i) eqn:E; cbn; rewrite ?E; done.
    + rewrite lookup_insert_ne by done. apply HA.
  - intros u p' g'. destruct (decide (u = v)) as [->|Hne].
    + rewrite lookup_insert_eq. intros [= <- <-]. by eapply vstep_apart.
    + rewrite lookup_insert_ne by done. intros [H1 H2]%(as_apart _ _ _ _ _ _ HA). by eapply vstep_apart.
  - intros u u' p' g' g''. destruct (decide (u = v)) as [->|], (decide (u' = v)) as [->|];
      rewrite ?lookup_insert_eq, ?lookup_insert_ne by done; [done|intros [= <- <-] H|intros H [= <- <-]|apply HA];
      by apply HpU in H.
Qed.
(** ** Changes outside the tables *)

Lemma pt_frame m m' root T : pt_ok m root T → (∀ k t, T !! k = Some t → same_page m m' t) →
  pt_ok m' root T ∧ ∀ u, pte m' T u = pte m T u.
Proof.
  intros HP Hs. split.
  - split; [apply HP..|]. intros k q t i Ht Hi. rewrite (same_page_load m); [by apply HP|by eapply Hs|apply Hi].
  - intros u. unfold pte. destruct (T !! _) as [t|] eqn:Et; [|done].
    apply same_page_load; [by eapply Hs|apply vidx_range].
Qed.

Lemma as_frame m f fl root T U m' f' fl' :
  as_ok m f fl root T U → freel m' f' fl' →
  (∀ p, p ∈ fl' → (p ∈ fl) ∨ (∀ k, T !! k ≠ Some p) ∧ (∀ v g, U !! v ≠ Some (p, g))) →
  (∀ k t, T !! k = Some t → same_page m m' t) → as_ok m' f' fl' root T U.
Proof.
  intros HA Hf Hsub Hs. destruct (pt_frame m m' root T) as [HP Hpte]; [apply HA|done|]. split.
  - split; [done|done|]. intros k t Ht [H|[H _]]%Hsub; [|by apply (H k)].
    by apply (vm_apart _ _ _ _ _ (as_vm _ _ _ _ _ _ HA) _ _ Ht).
  - intros v Hv. rewrite Hpte. by apply HA.
  - apply HA.
  - intros v p g Hv. split; [|by eapply HA]. intros [H|[_ H]]%Hsub; [|by apply (H v g)].
    by apply (as_apart _ _ _ _ _ _ HA _ _ _ Hv).
  - apply HA.
Qed.

(** A page in use of either kind is not page [p]. *)
Lemma as_pages_aligned m f fl root T U :
  as_ok m f fl root T U → (∀ k t, T !! k = Some t → t mod PGSIZE = 0) ∧ (∀ p, p ∈ fl → p mod PGSIZE = 0).
Proof.
  intros HA. split.
  - intros k t Ht. by destruct (pt_page _ _ _ (vm_pt _ _ _ _ _ (as_vm _ _ _ _ _ _ HA)) _ _ Ht).
  - intros p Hp. pose proof (fr_ok _ _ _ (vm_free _ _ _ _ _ (as_vm _ _ _ _ _ _ HA))) as H.
    rewrite Forall_forall in H. by destruct (H p Hp).
Qed.

(** The free page [p] is taken and filled by [g], which writes only in it. *)
Lemma as_take m f p fl root T U m' :
  as_ok m f (p :: fl) root T U → (∀ q, q mod PGSIZE = 0 → q ≠ p → same_page m m' q) →
  as_ok m' (load64 m p) fl root T U ∧ vstep 1 m (p :: fl) T m' fl T ∧
  page_ok p ∧ (p ∉ fl) ∧ (∀ k, T !! k ≠ Some p) ∧ (∀ v g, U !! v ≠ Some (p, g)).
Proof.
  intros HA Hs. destruct (vm_free _ _ _ _ _ (as_vm _ _ _ _ _ _ HA)) as [[-> Hch] Hnd Hok].
  inversion Hok; inversion Hnd; subst. destruct (as_pages_aligned _ _ _ _ _ _ HA) as [Hal1 Hal2].
  assert (HT : ∀ k, T !! k ≠ Some p).
  { intros k Hk. apply (vm_apart _ _ _ _ _ (as_vm _ _ _ _ _ _ HA) _ _ Hk). by left. }
  assert (HU : ∀ v g, U !! v ≠ Some (p, g)).
  { intros v g Hv. apply (as_apart _ _ _ _ _ _ HA _ _ _ Hv). by left. }
  split_and!; try done.
  - apply (as_frame m p (p :: fl)); [done| | |].
    + apply (freel_same m); [done|]. intros q Hq. apply Hs; [apply Hal2; by right|]. intros ->. done.
    + intros q Hq. left. by right.
    + intros k t Ht. apply Hs; [by eapply Hal1|]. intros ->. by apply HT in Ht.
  - split; [done|by left|by exists 1%nat|]. intros q Hq Hq2 _. apply Hs; [done|]. intros ->. apply Hq2. by left.
Qed.

(** ** allocuvm *)

Definition PTE_RW : Z := Z.lor (Z.lor PTE_W PTE_U) PTE_P.

(** [kalloc], fill and [mappages] of one page. *)
Lemma new_page w m f fl root T U v perm (g : Z → mem → mem) e :
  vm_calm w → as_ok m f fl root T U → upage v → U !! v = None → (4 ≤ length fl)%nat → 0 ≤ perm < 4096 →
  (∀ p q m, p mod PGSIZE = 0 → q mod PGSIZE = 0 → q ≠ p → same_page m (g p m) q) →
  ∃ p f1 m' f' fl' T',
    kalloc (KS (vmw w m f) e) = Ok p (KS (vmw w m f1) e) ∧ page_ok p ∧ p ∈ fl ∧
    mappages root (v * PGSIZE) PGSIZE (V2P p) perm (KS (vmw w (g p m) f1) e) = Ok 0 (KS (vmw w m' f') e) ∧
    as_ok m' f' fl' root T' (<[v := (p, Z.lor perm PTE_P)]> U) ∧ vstep 4 m fl T m' fl' T' ∧
    same_page (g p m) m' p.
Proof.
  intros Hc HA Hv HU Hlen Hperm Hg. destruct fl as [|p fl]; [cbn in Hlen; lia|].
  destruct (kalloc_vm w m f p fl e Hc) as (Hk & _); [apply HA|].
  assert (Hpal : p mod PGSIZE = 0) by (eapply as_pages_aligned; [done|by left]).
  destruct (as_take m f p fl root T U (g p m) HA) as (HA1 & HS1 & Hp1 & Hp2 & Hp3 & Hp4).
  { intros q Hq Hne. by apply Hg. }
  destruct (mappages_page w (g p m) (load64 m p) fl root T U v p perm e)
    as (m' & f' & fl' & T' & Hm & HA' & HS'); try done.
  { cbn in Hlen. lia. }
  exists p, (load64 m p), m', f', fl', T'. split_and!; try done.
  - by left.
  - by apply (vstep_trans 1 3 _ _ _ (g p m) fl T).
  - by apply (vs_same _ _ _ _ _ _ _ HS').
Qed.
(** The [n] pages from [v0] on are new, zeroed and the user's to write; all else is
    as it was. *)
Record grown (v0 : Z) (n : nat) (m : mem) (fl : list Z) (T : tables) (U : upages)
    (m' : mem) (fl' : list Z) (T' : tables) (U' : upages) : Prop := {
  gr_step : vstep (4 * n) m fl T m' fl' T';
  gr_bytes va : ub m' U' va = if decide (v0 ≤ va / PGSIZE < v0 + Z.of_nat n) then Some 0 else ub m U va;
  gr_new v : v0 ≤ v < v0 + Z.of_nat n → ∃ p, U' !! v = Some (p, PTE_RW) ∧ p ∈ fl;
  gr_old v : ¬ (v0 ≤ v < v0 + Z.of_nat n) → U' !! v = U !! v
}.

Lemma grown_first m f fl root T U v p m' fl' T' :
  as_ok m f fl root T U → vstep 4 m fl T m' fl' T' → U !! v = None → p ∈ fl → page_ok p →
  same_page (memset m p 0 PGSIZE) m' p → grown v 1 m fl T U m' fl' T' (<[v := (p, PTE_RW)]> U).
Proof.
  intros HA HS HU Hin Hp Hz. split; [done| | |].
  - intros va. destruct (decide (v ≤ va / PGSIZE < v + Z.of_nat 1)) as [Hd|Hd].
    + assert (E : va / PGSIZE = v) by lia. unfold ub. rewrite E, lookup_insert_eq. f_equal.
      pose proof (va_offset va). rewrite Hz by lia. rewrite memset_bytes, decide_True; [done|lia|done].
    + transitivity (ub m' U va).
      * unfold ub. by rewrite lookup_insert_ne by lia.
      * apply ub_same. intros p' g' Hl. by eapply as_same.
  - intros u Hu. exists p. replace u with v by lia. by rewrite lookup_insert_eq.
  - intros u Hu. by rewrite lookup_insert_ne by lia.
Qed.

Lemma vstep_incl n m fl T m' fl' T' p : vstep n m fl T m' fl' T' → p ∈ fl' → p ∈ fl.
Proof. intros [_ _ (j & _ & ->) _] H. rewrite <- (take_drop j fl). set_solver. Qed.

Lemma grown_trans v0 n m fl T U m1 fl1 T1 U1 m2 fl2 T2 U2 :
  grown v0 1 m fl T U m1 fl1 T1 U1 → grown (v0 + 1) n m1 fl1 T1 U1 m2 fl2 T2 U2 →
  grown v0 (S n) m fl T U m2 fl2 T2 U2.
Proof.
  intros [A1 A2 A3 A4] [B1 B2 B3 B4]. split.
  - apply (vstep_le (4 * 1 + 4 * n)); [lia|]. by eapply vstep_trans.
  - intros va. rewrite B2, A2. repeat case_decide; try done; lia.
  - intros v Hv. destruct (decide (v = v0)) as [->|Hne].
    + rewrite B4 by lia. apply A3. lia.
    + destruct (B3 v) as (p & ? & ?); [lia|]. exists p. split; [done|]. by eapply vstep_incl.
  - intros v Hv. rewrite B4, A4 by lia. done.
Qed.

Lemma allocuvm_from_ok n : ∀ w m f fl root T U v0 oldsz newsz e,
  vm_calm w → as_ok m f fl root T U → 0 ≤ v0 → v0 + Z.of_nat n ≤ 2 ^ 35 →
  (v0 + Z.of_nat n - 1) * PGSIZE < newsz ≤ (v0 + Z.of_nat n) * PGSIZE ∨ n = 0%nat ∧ newsz ≤ v0 * PGSIZE →
  (4 * n ≤ length fl)%nat → (∀ v, v0 ≤ v < v0 + Z.of_nat n → U !! v = None) →
  ∃ m' f' fl' T' U', allocuvm_from n root (v0 * PGSIZE) oldsz newsz (KS (vmw w m f) e) = Ok true (KS (vmw w m' f') e) ∧
    as_ok m' f' fl' root T' U' ∧ grown v0 n m fl T U m' fl' T' U'.
Proof.
  induction n as [|n IH]; intros w m f fl root T U v0 oldsz newsz e Hc HA Hv0 Hv1 Hsz Hlen HU; cbn [allocuvm_from].
  - rewrite (proj2 (Z.ltb_ge (v0 * PGSIZE) newsz)) by lia. exists m, f, fl, T, U. split_and!; [done|done|].
    split; [apply vstep_refl| | |]; intros; [by rewrite decide_False by lia|lia|done].
  - rewrite (proj2 (Z.ltb_lt (v0 * PGSIZE) newsz)) by (unfold PGSIZE in *; lia).
    destruct (new_page w m f fl root T U v0 (Z.lor PTE_W PTE_U) (λ p m, memset m p 0 PGSIZE) e)
      as (p & f1 & m1 & f2 & fl2 & T2 & Hk & Hp & Hin & Hm & HA2 & HS2 & Hz); try done; [unfold upage; lia|apply HU; lia|lia| |].
    { intros p q m0 Hp Hq Hne. by apply memset_page. }
    rewrite (bind_ok _ _ _ _ _ Hk), (proj2 (Z.eqb_neq p 0)) by (destruct Hp; lia).
    rewrite bind_modm, (bind_ok _ _ _ _ _ Hm). change (0 <? 0) with false. cbv iota.
    rewrite u64_small by (unfold PGSIZE in *; lia).
    replace (v0 * PGSIZE + PGSIZE) with ((v0 + 1) * PGSIZE) by lia.
    pose proof (grown_first m f fl root T U v0 p m1 fl2 T2 HA HS2 (HU v0 ltac:(lia)) Hin Hp Hz) as G1.
    pose proof (vstep_len _ _ _ _ _ _ _ HS2).
    destruct (IH w m1 f2 fl2 root T2 (<[v0 := (p, PTE_RW)]> U) (v0 + 1) oldsz newsz e)
      as (m' & f' & fl' & T' & U' & Hrun & HA' & G2); try done; try lia.
    { intros v Hv. rewrite lookup_insert_ne by lia. apply HU. lia. }
    exists m', f', fl', T', U'. split_and!; [done|done|]. by eapply grown_trans.
Qed.
(** The pages of a user memory of size [sz]. *)
Definition npages (sz : Z) : Z := (sz + PGSIZE - 1) / PGSIZE.

Lemma npages_spec sz : 0 ≤ sz → (npages sz - 1) * PGSIZE < sz ≤ npages sz * PGSIZE.
Proof.
  intros Hsz. unfold npages, PGSIZE. pose proof (Z.div_mod (sz + 4096 - 1) 4096).
  pose proof (Z.mod_pos_bound (sz + 4096 - 1) 4096). lia.
Qed.

Lemma npages_up sz : 0 ≤ sz < 2 ^ 47 → PGROUNDUP sz = npages sz * PGSIZE ∧ 0 ≤ npages sz ≤ 2 ^ 35.
Proof.
  intros Hsz. unfold npages. rewrite PGROUNDUP_eq by (unfold PGSIZE; lia). split; [by rewrite Z.add_sub_assoc|].
  unfold PGSIZE. split; [apply Z.div_pos; lia|]. apply Z.lt_succ_r, Z.div_lt_upper_bound; lia.
Qed.

Lemma npages_mono a b : a ≤ b → npages a ≤ npages b.
Proof. intros H. unfold npages. apply Z.div_le_mono; [done|lia]. Qed.

Lemma pages_fuel_eq a b : a mod PGSIZE = 0 → pages_fuel a b = Z.to_nat (npages b - a / PGSIZE).
Proof.
  intros Ha. unfold pages_fuel, npages. f_equal. unfold PGSIZE in *.
  pose proof (Z.div_mod a 4096). replace (b - a + 4096 - 1) with (b + 4096 - 1 + (- (a / 4096)) * 4096) by lia.
  rewrite Z.div_add by lia. lia.
Qed.

Lemma allocuvm_ok w m f fl root T U oldsz newsz e :
  vm_calm w → as_ok m f fl root T U → 0 ≤ oldsz ≤ newsz → newsz < 2 ^ 47 →
  let n := Z.to_nat (npages newsz - npages oldsz) in
  (4 * n ≤ length fl)%nat → (∀ v, npages oldsz ≤ v < npages newsz → U !! v = None) →
  ∃ m' f' fl' T' U', allocuvm root oldsz newsz (KS (vmw w m f) e) = Ok newsz (KS (vmw w m' f') e) ∧
    as_ok m' f' fl' root T' U' ∧ grown (npages oldsz) n m fl T U m' fl' T' U'.
Proof.
  intros Hc HA Ho Hn n Hlen HU. unfold allocuvm.
  rewrite Z.geb_leb, (proj2 (Z.leb_gt KERNBASE newsz)) by (unfold KERNBASE; lia).
  rewrite (proj2 (Z.ltb_ge newsz oldsz)) by lia.
  destruct (npages_up oldsz) as [-> Hr]; [lia|]. destruct (npages_up newsz) as [_ Hr']; [lia|].
  rewrite pages_fuel_eq, Z.div_mul by (done || by apply Z.mod_mul). fold n.
  pose proof (npages_mono oldsz newsz). pose proof (npages_spec newsz). pose proof (npages_spec oldsz).
  destruct (allocuvm_from_ok n w m f fl root T U (npages oldsz) oldsz newsz e)
    as (m' & f' & fl' & T' & U' & Hrun & HA' & G); try done; try lia.
  { subst n. unfold PGSIZE in *. destruct (decide (npages newsz = npages oldsz)); [right|left]; lia. }
  { intros v Hv. apply HU. lia. }
  exists m', f', fl', T', U'. rewrite (bind_ok _ _ _ _ _ Hrun). done.
Qed.

(** ** deallocuvm *)

Lemma as_walk m f fl root T U v p g :
  as_ok m f fl root T U → U !! v = Some (p, g) →
  ∃ t, T !! (0%nat, vpre 0 v) = Some t ∧ walk_to v T = Some (entry t (vidx 0 v)) ∧
    load64 m (entry t (vidx 0 v)) = p - KERNBASE + g.
Proof.
  intros HA Hv. destruct (as_page _ _ _ _ _ _ HA _ _ _ Hv) as (Hu & Hp & Hg & HP).
  pose proof (as_map _ _ _ _ _ _ HA v Hu) as Hm. rewrite Hv in Hm. unfold pte in Hm. unfold walk_to.
  destruct (T !! (0%nat, vpre 0 v)) as [t|]; [by exists t|]. exfalso.
  pose proof (page_V2P p Hp). destruct (decide (g = 0)) as [->|]; [done|]. lia.
Qed.

Lemma as_entry m f fl root T U v p g :
  as_ok m f fl root T U → U !! v = Some (p, g) →
  present (p - KERNBASE + g) = true ∧ PTE_ADDR (p - KERNBASE + g) = p - KERNBASE ∧ PTE_FLAGS (p - KERNBASE + g) = g ∧
  P2V (p - KERNBASE) = p.
Proof.
  intros HA Hv. destruct (as_page _ _ _ _ _ _ HA _ _ _ Hv) as (Hu & Hp & Hg & HP).
  destruct (page_V2P p Hp) as (_ & _ & Hm). split_and!.
  - unfold present. rewrite land_flags by (done || lia || unfold PTE_P; lia). by rewrite HP.
  - by apply pte_addr.
  - by apply pte_flags.
  - by apply P2V_page.
Qed.
(** The pages that the [n] page numbers from [v0] on are mapped to. *)
Definition upages_in (U : upages) (v0 : Z) (n : nat) : list Z := omap (λ v, fst <$> U !! v) (seqZ v0 (Z.of_nat n)).

Record shrunk (v0 : Z) (n : nat) (m : mem) (fl : list Z) (T : tables) (U : upages)
    (m' : mem) (fl' : list Z) (U' : upages) : Prop := {
  sh_map v : U' !! v = if decide (v0 ≤ v < v0 + Z.of_nat n) then None else U !! v;
  sh_bytes va : ub m' U' va = if decide (v0 ≤ va / PGSIZE < v0 + Z.of_nat n) then None else ub m U va;
  sh_free : fl' = reverse (upages_in U v0 n) ++ fl;
  sh_same p : p mod PGSIZE = 0 → p ∉ upages_in U v0 n → (∀ k, T !! k ≠ Some p) → same_page m m' p
}.

Lemma upages_in_S U v0 n :
  upages_in U v0 (S n) = match U !! v0 with Some (p, _) => p :: upages_in U (v0 + 1) n | None => upages_in U (v0 + 1) n end.
Proof.
  unfold upages_in. rewrite seqZ_cons by lia. replace (Z.pred (Z.of_nat (S n))) with (Z.of_nat n) by lia.
  cbn. by destruct (U !! v0) as [[p g]|].
Qed.

Lemma upages_in_ext U U' v0 n : (∀ v, v0 ≤ v < v0 + Z.of_nat n → U !! v = U' !! v) → upages_in U v0 n = upages_in U' v0 n.
Proof.
  revert v0; induction n as [|n IH]; intros v0 H; [done|]. rewrite !upages_in_S, (H v0), (IH (v0 + 1)) by (done || lia || intros; apply H; lia).
  done.
Qed.

Lemma shrunk_trans v0 n m fl T U m1 fl1 U1 m2 fl2 U2 :
  shrunk v0 1 m fl T U m1 fl1 U1 → shrunk (v0 + 1) n m1 fl1 T U1 m2 fl2 U2 → shrunk v0 (S n) m fl T U m2 fl2 U2.
Proof.
  intros [A1 A2 A3 A4] [B1 B2 B3 B4].
  assert (E : upages_in U v0 (S n) = upages_in U v0 1 ++ upages_in U1 (v0 + 1) n).
  { rewrite (upages_in_ext U1 U) by (intros; rewrite A1, decide_False by lia; done).
    rewrite !upages_in_S. by destruct (U !! v0) as [[p g]|]. }
  split.
  - intros v. rewrite B1, A1. repeat case_decide; try done; lia.
  - intros va. rewrite B2, A2. repeat case_decide; try done; lia.
  - rewrite B3, A3, E, reverse_app. by rewrite (assoc_L (++)).
  - intros p Hp Hin HT. rewrite E in Hin. eapply same_page_trans; [apply A4|apply B4]; set_solver.
Qed.

(** One round of the loop. *)
Definition dealloc_one (root a : Z) : K unit :=
  pte ← walkpgdir root a false;
  match pte with
  | None => mret tt
  | Some pte =>
      e ← getm (λ m, load64 m pte);
      if present e then
        let pa := PTE_ADDR e in
        if pa =? 0 then panic "kfree" else
        kfree (P2V pa) ;;
        modm (λ m, store64 m pte 0)
      else mret tt
  end.

Lemma dealloc_none w m f fl root T U v e :
  as_ok m f fl root T U → upage v → U !! v = None →
  dealloc_one root (v * PGSIZE) (KS (vmw w m f) e) = Ok tt (KS (vmw w m f) e) ∧ shrunk v 1 m fl T U m fl U.
Proof.
  intros HA Hv HU. split.
  - unfold dealloc_one. erewrite bind_ok; [|eapply walk_look; [apply HA|unfold uva, upage, PGSIZE in *; lia]].
    rewrite Z.div_mul by done. pose proof (as_pte_none _ _ _ _ _ _ _ HA Hv HU) as Hn. unfold walk_to, pte in *.
    destruct (T !! (0%nat, vpre 0 v)) as [t|]; [|done]. cbn. by rewrite bind_getm, Hn.
  - split.
    + intros u. case_decide; [|done]. by replace u with v by lia.
    + intros va. case_decide; [|done]. unfold ub. by replace (va / PGSIZE) with v by lia; rewrite HU.
    + by rewrite upages_in_S, HU.
    + by intros p _ _ _ b _.
Qed.

(** Page [p], mapped at [v], is on the free list and the entry is cleared. *)
Section unmap.
  Context (m m1 : mem) (f : Z) (fl : list Z) (root : Z) (T : tables) (U : upages) (v p g t : Z).
  Context (HA : as_ok m f fl root T U) (HU : U !! v = Some (p, g)) (Ht : T !! (0%nat, vpre 0 v) = Some t).
  Context (Hf1 : freel m1 p (p :: fl)) (Hs1 : ∀ q, q mod PGSIZE = 0 → q ≠ p → same_page m m1 q).
Let m2 := store64 m1 (entry t (vidx 0 v)) 0.

Lemma um_tables k t' : T !! k = Some t' → same_page m m1 t'.
Proof.
  intros Ht'. apply Hs1; [by apply (proj1 (as_pages_aligned _ _ _ _ _ _ HA) k)|].
  intros E. rewrite E in Ht'. by apply (as_apart _ _ _ _ _ _ HA _ _ _ HU) in Ht'.
Qed.

Lemma um_vm : vm_ok m1 p (p :: fl) root T.
Proof.
  split; [done|apply (pt_frame m); [apply HA|apply um_tables]|].
  intros k t' Ht' [E|H]%elem_of_cons; [rewrite E in Ht'; by apply (as_apart _ _ _ _ _ _ HA _ _ _ HU) in Ht'|].
  by apply (vm_apart _ _ _ _ _ (as_vm _ _ _ _ _ _ HA) _ _ Ht').
Qed.

Lemma um_same q : q mod PGSIZE = 0 → q ≠ p → (∀ k, T !! k ≠ Some q) → same_page m m2 q.
Proof.
  intros Hq Hne HT. eapply same_page_trans; [by apply Hs1|].
  apply (sp_other m1 p (p :: fl) root T v t 0 um_vm Ht q Hq). intros E. apply (HT (0%nat, vpre 0 v)). by rewrite E.
Qed.

Lemma um_as : as_ok m2 p (p :: fl) root T (delete v U).
Proof.
  split.
  - apply (sp_vm m1 p (p :: fl) root T v t 0 um_vm Ht).
  - intros u Hu. unfold m2. rewrite (sp_pte m1 p (p :: fl) root T v t 0 um_vm Ht u) by lia.
    destruct (decide (u = v)) as [->|]; [by rewrite lookup_delete_eq|].
    rewrite lookup_delete_ne by done. destruct (pt_frame m m1 root T) as [_ ->]; [apply HA|apply um_tables|by apply HA].
  - intros u p' g' [_ Hu]%lookup_delete_Some. by eapply HA.
  - intros u p' g' [Hne Hu]%lookup_delete_Some. destruct (as_apart _ _ _ _ _ _ HA _ _ _ Hu) as [H1 H2].
    split; [|done]. intros [E|?]%elem_of_cons; [|done]. rewrite E in Hu.
    by apply Hne, (as_inj _ _ _ _ _ _ HA _ _ p g g').
  - intros u u' p' g' g'' [_ H1]%lookup_delete_Some [_ H2]%lookup_delete_Some. by eapply (as_inj _ _ _ _ _ _ HA).
Qed.

Lemma um_shrunk : shrunk v 1 m fl T U m2 (p :: fl) (delete v U).
Proof.
  split.
  - intros u. case_decide; [replace u with v by lia; by rewrite lookup_delete_eq|]. by rewrite lookup_delete_ne by lia.
  - intros va. case_decide; [unfold ub; replace (va / PGSIZE) with v by lia; by rewrite lookup_delete_eq|].
    transitivity (ub m2 U va); [unfold ub; by rewrite lookup_delete_ne by lia|]. apply ub_same. intros q g' Hq.
    destruct (as_page _ _ _ _ _ _ HA _ _ _ Hq) as (_ & (Hqa & _) & _). apply um_same; [done| |].
    + intros E. rewrite E in Hq. assert (va / PGSIZE = v) by (by eapply (as_inj _ _ _ _ _ _ HA)). lia.
    + by apply (as_apart _ _ _ _ _ _ HA _ _ _ Hq).
  - by rewrite upages_in_S, HU.
  - intros q Hq Hin HT. rewrite upages_in_S, HU in Hin. apply um_same; [done| |done]. set_solver.
Qed.
End unmap.

Lemma dealloc_some w m f fl root T U v p g e :
  vm_calm w → as_ok m f fl root T U → U !! v = Some (p, g) →
  ∃ m', dealloc_one root (v * PGSIZE) (KS (vmw w m f) e) = Ok tt (KS (vmw w m' p) e) ∧
    as_ok m' p (p :: fl) root T (delete v U) ∧ shrunk v 1 m fl T U m' (p :: fl) (delete v U).
Proof.
  intros Hc HA HU. destruct (as_page _ _ _ _ _ _ HA _ _ _ HU) as (Hv & Hp & _).
  destruct (as_walk _ _ _ _ _ _ _ _ _ HA HU) as (t & Ht & Hw & Hl).
  destruct (as_entry _ _ _ _ _ _ _ _ _ HA HU) as (E1 & E2 & _ & E4).
  destruct (kfree_vm w m f p fl e Hc) as (m1 & Hk & Hf1 & Hm1);
    [apply HA|done|by apply (as_apart _ _ _ _ _ _ HA _ _ _ HU)|].
  assert (Hs1 : ∀ q, q mod PGSIZE = 0 → q ≠ p → same_page m m1 q).
  { intros q Hq Hne b Hb. apply Hm1. apply (pages_apart q p); [done|by destruct Hp|done..]. }
  exists (store64 m1 (entry t (vidx 0 v)) 0). split_and!; [|by eapply um_as|by eapply um_shrunk].
  unfold dealloc_one. erewrite bind_ok; [|eapply walk_look; [apply HA|unfold uva, upage, PGSIZE in *; lia]].
  rewrite Z.div_mul, Hw by done. rewrite bind_getm, Hl, E1, E2, E4.
  rewrite (proj2 (Z.eqb_neq (p - KERNBASE) 0)), (bind_ok _ _ _ _ _ Hk), modm_vmw; [done|].
  pose proof high_image. destruct Hp. lia.
Qed.

Lemma deallocuvm_from_S n root a oldsz s :
  a < oldsz →
  deallocuvm_from (S n) root a oldsz s = (dealloc_one root a ;; deallocuvm_from n root (u64 (a + PGSIZE)) oldsz) s.
Proof.
  intros H. cbn [deallocuvm_from]. rewrite (proj2 (Z.ltb_lt a oldsz) H). unfold dealloc_one. by rewrite bind_bind.
Qed.

Lemma deallocuvm_from_ok n : ∀ w m f fl root T U v0 oldsz e,
  vm_calm w → as_ok m f fl root T U → 0 ≤ v0 → v0 + Z.of_nat n ≤ 2 ^ 35 →
  (v0 + Z.of_nat n - 1) * PGSIZE < oldsz ≤ (v0 + Z.of_nat n) * PGSIZE ∨ n = 0%nat ∧ oldsz ≤ v0 * PGSIZE →
  ∃ m' f' fl' U', deallocuvm_from n root (v0 * PGSIZE) oldsz (KS (vmw w m f) e) = Ok tt (KS (vmw w m' f') e) ∧
    as_ok m' f' fl' root T U' ∧ shrunk v0 n m fl T U m' fl' U'.
Proof.
  induction n as [|n IH]; intros w m f fl root T U v0 oldsz e Hc HA Hv0 Hv1 Hsz.
  - cbn [deallocuvm_from]. rewrite (proj2 (Z.ltb_ge (v0 * PGSIZE) oldsz)) by lia. exists m, f, fl, U. split_and!; [done|done|].
    split; [intros; by rewrite decide_False by lia..|done|]. by intros p _ _ _ b _.
  - rewrite deallocuvm_from_S by (unfold PGSIZE in *; lia).
    assert (H1 : ∃ m1 f1 fl1 U1, dealloc_one root (v0 * PGSIZE) (KS (vmw w m f) e) = Ok tt (KS (vmw w m1 f1) e) ∧
      as_ok m1 f1 fl1 root T U1 ∧ shrunk v0 1 m fl T U m1 fl1 U1).
    { destruct (U !! v0) as [[p g]|] eqn:EU.
      - destruct (dealloc_some w m f fl root T U v0 p g e Hc HA EU) as (m1 & ? & ? & ?). eauto 10.
      - destruct (dealloc_none w m f fl root T U v0 e HA) as [? ?]; [unfold upage; lia|done|]. eauto 10. }
    destruct H1 as (m1 & f1 & fl1 & U1 & Hd & HA1 & G1).
    rewrite (bind_ok _ _ _ _ _ Hd), u64_small by (unfold PGSIZE in *; lia).
    replace (v0 * PGSIZE + PGSIZE) with ((v0 + 1) * PGSIZE) by lia.
    destruct (IH w m1 f1 fl1 root T U1 (v0 + 1) oldsz e) as (m' & f' & fl' & U' & Hrun & HA' & G2); try done; try lia.
    exists m', f', fl', U'. split_and!; [done|done|by eapply shrunk_trans].
Qed.

Lemma deallocuvm_ok w m f fl root T U oldsz newsz e :
  vm_calm w → as_ok m f fl root T U → 0 ≤ newsz < oldsz → oldsz < 2 ^ 47 →
  ∃ m' f' fl' U', deallocuvm root oldsz newsz (KS (vmw w m f) e) = Ok newsz (KS (vmw w m' f') e) ∧
    as_ok m' f' fl' root T U' ∧
    shrunk (npages newsz) (Z.to_nat (npages oldsz - npages newsz)) m fl T U m' fl' U'.
Proof.
  intros Hc HA Ho Hn. unfold deallocuvm. rewrite Z.geb_leb, (proj2 (Z.leb_gt oldsz newsz)) by lia.
  destruct (npages_up newsz) as [-> Hr]; [lia|]. destruct (npages_up oldsz) as [_ Hr']; [lia|].
  rewrite pages_fuel_eq, Z.div_mul by (done || by apply Z.mod_mul). set (n := Z.to_nat (npages oldsz - npages newsz)).
  pose proof (npages_mono newsz oldsz). pose proof (npages_spec newsz). pose proof (npages_spec oldsz).
  destruct (deallocuvm_from_ok n w m f fl root T U (npages newsz) oldsz e)
    as (m' & f' & fl' & U' & Hrun & HA' & G); try done; try lia.
  { subst n. unfold PGSIZE in *. destruct (decide (npages newsz = npages oldsz)); [right|left]; lia. }
  exists m', f', fl', U'. by rewrite (bind_ok _ _ _ _ _ Hrun).
Qed.

(** ** Reading and writing user memory *)

(** Bytes [buf] are written at user address [va]. *)
Record uwrote (m : mem) (U : upages) (va : Z) (buf : list Z) (m' : mem) : Prop := {
  uw_bytes x : ub m' U x = if decide (va ≤ x < va + Z.of_nat (length buf)) then Some (buf !!! Z.to_nat (x - va)) else ub m U x;
  uw_same p : p mod PGSIZE = 0 → (∀ v g, U !! v ≠ Some (p, g)) → same_page m m' p
}.

Lemma uwrote_as m f fl root T U va buf m' : as_ok m f fl root T U → uwrote m U va buf m' → as_ok m' f fl root T U.
Proof.
  intros HA [_ Hs]. destruct (as_pages_aligned _ _ _ _ _ _ HA) as [H1 H2].
  apply (as_frame m f fl); [done| |by left|].
  - apply (freel_same m); [apply HA|]. intros p Hp. apply Hs; [by apply H2|].
    intros v g Hv. by apply (as_apart _ _ _ _ _ _ HA _ _ _ Hv).
  - intros k t Ht. apply Hs; [by eapply H1|]. intros v g Hv. by eapply (as_apart _ _ _ _ _ _ HA _ _ _ Hv).
Qed.

Lemma uwrote_nil m U va : uwrote m U va [] m.
Proof. split; [intros; by rewrite decide_False by (cbn; lia)|]. by intros p _ _ b _. Qed.

Lemma uwrote_app m U va l1 l2 m1 m2 :
  uwrote m U va l1 m1 → uwrote m1 U (va + Z.of_nat (length l1)) l2 m2 → uwrote m U va (l1 ++ l2) m2.
Proof.
  intros [A1 A2] [B1 B2]. split.
  - intros x. rewrite B1, A1, length_app. repeat case_decide; try lia; try done.
    + f_equal. rewrite lookup_total_app_r by lia. f_equal. lia.
    + f_equal. by rewrite lookup_total_app_l by lia.
  - intros p Hp HU. eapply same_page_trans; [by apply A2|by apply B2].
Qed.

(** The part of [buf] that lies in one page. *)
Lemma uwrote_page m f fl root T U v p g off buf :
  as_ok m f fl root T U → U !! v = Some (p, g) → 0 ≤ off → off + Z.of_nat (length buf) ≤ PGSIZE →
  uwrote m U (v * PGSIZE + off) buf (wr_bytes m (p + off) buf).
Proof.
  intros HA HU Ho Hl. destruct (as_page _ _ _ _ _ _ HA _ _ _ HU) as (_ & (Hpa & _) & _).
  assert (Hs : ∀ q, q mod PGSIZE = 0 → q ≠ p → same_page m (wr_bytes m (p + off) buf) q).
  { intros q Hq Hne b Hb. pose proof (pages_apart q p b Hq Hpa Hne Hb). rewrite rd_wr_bytes, decide_False; [done|lia]. }
  split.
  - intros x. destruct (decide (x / PGSIZE = v)) as [Ex|Hx].
    + unfold ub. rewrite Ex, HU, rd_wr_bytes.
      pose proof (Z.div_mod x PGSIZE ltac:(done)) as Hdm. rewrite Ex in Hdm.
      destruct (decide (p + off ≤ p + x mod PGSIZE < p + off + Z.of_nat (length buf))).
      * rewrite decide_True by lia. do 2 f_equal. lia.
      * by rewrite decide_False by lia.
    + rewrite decide_False.
      * apply ub_same. intros q g' Hq. destruct (as_page _ _ _ _ _ _ HA _ _ _ Hq) as (_ & (Hqa & _) & _).
        apply Hs; [done|]. intros ->. by apply Hx, (as_inj _ _ _ _ _ _ HA _ _ p g' g).
      * intros Hr. apply Hx. symmetry. apply (Z.div_unique _ _ _ (x - v * PGSIZE)); lia.
  - intros q Hq HqU. apply Hs; [done|]. intros ->. by apply HqU in HU.
Qed.

(** The user may access every page of the [n] bytes at [va]. *)
Definition uaccess (U : upages) (need va n : Z) : Prop :=
  ∀ x, va ≤ x < va + n → ∃ p g, U !! (x / PGSIZE) = Some (p, g) ∧ Z.land g need = need.

Lemma uva2ka_ok w m f fl root T U v p g e :
  as_ok m f fl root T U → U !! v = Some (p, g) → Z.land g PTE_U = PTE_U →
  uva2ka root (v * PGSIZE) (KS (vmw w m f) e) = Ok p (KS (vmw w m f) e).
Proof.
  intros HA HU Hg. destruct (as_page _ _ _ _ _ _ HA _ _ _ HU) as (Hv & Hp & Hgr & _).
  destruct (as_walk _ _ _ _ _ _ _ _ _ HA HU) as (t & Ht & Hw & Hl).
  destruct (as_entry _ _ _ _ _ _ _ _ _ HA HU) as (E1 & E2 & _ & E4). unfold uva2ka.
  erewrite bind_ok; [|eapply walk_look; [apply HA|unfold uva, upage, PGSIZE in *; lia]].
  rewrite Z.div_mul, Hw, bind_munwrap, bind_getm, Hl, E1, E2, E4 by done. cbn [negb].
  rewrite land_flags, Hg; [done|by apply page_V2P|done|done].
Qed.
Lemma copyout_from_ok n : ∀ w m f fl root T U va buf e,
  as_ok m f fl root T U → 0 ≤ va → va + Z.of_nat (length buf) ≤ 2 ^ 47 →
  va + Z.of_nat (length buf) ≤ (va / PGSIZE + Z.of_nat n) * PGSIZE → va ≤ 2 ^ 47 →
  uaccess U PTE_U va (Z.of_nat (length buf)) →
  ∃ m', copyout_from n root va buf (KS (vmw w m f) e) = Ok 0 (KS (vmw w m' f) e) ∧ uwrote m U va buf m'.
Proof.
  induction n as [|n IH]; intros w m f fl root T U va buf e HA Hva Hva1 Hn Hva2 HU;
    (destruct buf as [|b0 buf0] eqn:Eb; [exists m; split; [done|apply uwrote_nil]|]); rewrite <- Eb in *;
    (assert (Hb : (1 ≤ length buf)%nat) by (rewrite Eb; cbn; lia));
    pose proof (Z.div_mod va PGSIZE ltac:(done)) as Hdm; pose proof (va_offset va) as Hoff.
  { unfold PGSIZE in *. lia. }
  set (v := va / PGSIZE) in *. set (off := va mod PGSIZE) in *.
  destruct (HU va ltac:(lia)) as (p & g & Hp & Hg). fold v in Hp.
  assert (Hc : copyout_from (S n) root va buf = (
          let va0 := PGROUNDDOWN va in
          pa0 ← uva2ka root va0;
          if pa0 =? 0 then mret (-1) else
          let n0 := Z.min (PGSIZE - (va - va0)) (Z.of_nat (length buf)) in
          modm (λ m, wr_bytes m (pa0 + (va - va0)) (take (Z.to_nat n0) buf)) ;;
          copyout_from n root (u64 (va0 + PGSIZE)) (drop (Z.to_nat n0) buf))) by (by rewrite Eb).
  rewrite Hc. cbv zeta. rewrite PGROUNDDOWN_eq by (unfold PGSIZE in *; lia). fold v.
  rewrite (bind_ok _ _ _ _ _ (uva2ka_ok w m f fl root T U v p g e HA Hp Hg)).
  destruct (as_page _ _ _ _ _ _ HA _ _ _ Hp) as (_ & Hpok & _).
  rewrite (proj2 (Z.eqb_neq p 0)), bind_modm by (destruct Hpok; lia).
  replace (va - v * PGSIZE) with off by lia. set (k := Z.min (PGSIZE - off) (Z.of_nat (length buf))).
  assert (Hk : length (take (Z.to_nat k) buf) = Z.to_nat k) by (rewrite length_take; lia).
  pose proof (uwrote_page m f fl root T U v p g off (take (Z.to_nat k) buf) HA Hp ltac:(lia) ltac:(lia)) as W1.
  set (m1 := wr_bytes m (p + off) _) in *. rewrite u64_small by (unfold PGSIZE in *; lia).
  destruct (IH w m1 f fl root T U (v * PGSIZE + PGSIZE) (drop (Z.to_nat k) buf) e) as (m2 & Hr & W2).
  { by eapply uwrote_as. }
  { unfold PGSIZE in *. lia. }
  { rewrite length_drop. unfold PGSIZE in *. lia. }
  { replace ((v * PGSIZE + PGSIZE) / PGSIZE) with (v + 1)
      by (replace (v * PGSIZE + PGSIZE) with ((v + 1) * PGSIZE) by lia; by rewrite Z.div_mul).
    rewrite length_drop. unfold PGSIZE in *. lia. }
  { destruct (as_page _ _ _ _ _ _ HA _ _ _ Hp) as (Hup & _). unfold upage, PGSIZE in *. lia. }
  { intros x Hx. rewrite length_drop in Hx. apply HU. lia. }
  exists m2. split; [done|]. rewrite <- (take_drop (Z.to_nat k) buf). replace va with (v * PGSIZE + off) by lia.
  eapply uwrote_app; [done|]. destruct (decide (k = Z.of_nat (length buf))) as [E|Hne].
  - rewrite (drop_ge buf) in W2 |- * by lia. destruct W2 as [B1 B2]. split; [|done].
    intros x. rewrite B1, !decide_False by (cbn; lia). done.
  - replace (v * PGSIZE + off + Z.of_nat (length (take (Z.to_nat k) buf))) with (v * PGSIZE + PGSIZE) by lia. done.
Qed.

Lemma copyout_ok w m f fl root T U va buf e :
  as_ok m f fl root T U → 0 ≤ va → va + Z.of_nat (length buf) ≤ 2 ^ 47 →
  uaccess U PTE_U va (Z.of_nat (length buf)) →
  ∃ m', copyout root va buf (KS (vmw w m f) e) = Ok 0 (KS (vmw w m' f) e) ∧ uwrote m U va buf m'.
Proof.
  intros HA H0 H1 HU. unfold copyout. eapply copyout_from_ok; try done; [|lia].
  pose proof (Z.div_mod va PGSIZE ltac:(done)). pose proof (va_offset va). pose proof (Z.div_mod (Z.of_nat (length buf)) PGSIZE ltac:(done)).
  pose proof (va_offset (Z.of_nat (length buf))). unfold PGSIZE in *. lia.
Qed.

(** ** Through the processor *)

(** The process whose tables are at [root] is on the CPU. *)
Definition on_cpu (w : world) (root : Z) : Prop := P2V (cr3 (w_cpu w)) = root.

Lemma on_cpu_vmw w m f root : on_cpu w root → P2V (cr3 (w_cpu (vmw w m f))) = root.
Proof. unfold on_cpu, vmw. by rsimpl. Qed.

Lemma mmu_ub m f fl root T U (st : bool) va :
  as_ok m f fl root T U → uva va →
  mmu m root st va = match U !! (va / PGSIZE) with
                     | Some (p, g) => if st && (Z.land g PTE_W =? 0) then None else Some (p + va mod PGSIZE)
                     | None => None
                     end.
Proof.
  intros HA Hva. pose proof (uva_page va Hva) as Hu. rewrite (mmu_pte m root T) by (done || apply HA).
  pose proof (as_map _ _ _ _ _ _ HA _ Hu) as Hm. unfold translate.
  destruct (U !! (va / PGSIZE)) as [[p g]|] eqn:EU.
  - destruct (as_page _ _ _ _ _ _ HA _ _ _ EU) as (_ & Hp & Hg & HgP).
    destruct (as_entry _ _ _ _ _ _ _ _ _ HA EU) as (_ & E2 & _ & E4). destruct (page_V2P p Hp) as (_ & Hr & Hal).
    rewrite Hm, land_flags, E2; [|done|done|by destruct st].
    replace (P2V (p - KERNBASE + va mod PGSIZE)) with (p + va mod PGSIZE); cycle 1.
    { unfold P2V. destruct Hp as (Ha & _ & _ & Hb). pose proof (va_offset va). rewrite u64_small; [lia|].
      unfold PGSIZE in *. pose proof (Z.div_mod p 4096). lia. }
    rewrite Z.land_lor_distr_r, HgP. destruct st; cbn [andb]; [|by rewrite Z.land_0_r].
    assert (Hw : Z.land g PTE_W = 0 ∨ Z.land g PTE_W = PTE_W).
    { destruct (Z.testbit g 1) eqn:Eb; [right|left]; apply Z.bits_inj'; intros i Hi; rewrite Z.land_spec;
        destruct (decide (i = 1)) as [->|]; rewrite ?Eb, ?Z.bits_0; try done;
        unfold PTE_W; change 2 with (2 ^ 1); rewrite Z.pow2_bits_false by done; by rewrite andb_false_r. }
    by destruct Hw as [->| ->].
  - unfold present in Hm. apply negb_false_iff, Z.eqb_eq in Hm.
    destruct (Z.eqb_spec (Z.land (pte m T (va / PGSIZE)) (Z.lor PTE_P (if st then PTE_W else 0))) (Z.lor PTE_P (if st then PTE_W else 0))) as [E|]; [|done].
    exfalso. apply (f_equal (λ z, Z.land z PTE_P)) in E. rewrite <- Z.land_assoc in E.
    replace (Z.land (Z.lor PTE_P (if st then PTE_W else 0)) PTE_P) with PTE_P in E by (by destruct st).
    rewrite Hm in E. done.
Qed.
(** The bytes at [va]. *)
Definition ubytes (m : mem) (U : upages) (va : Z) (n : nat) : list Z :=
  (λ i, default 0 (ub m U (va + Z.of_nat i))) <$> seq 0 n.

Lemma ubytes_S m U va n : ubytes m U va (S n) = default 0 (ub m U va) :: ubytes m U (va + 1) n.
Proof.
  unfold ubytes. cbn [seq fmap list_fmap]. f_equal; [do 2 f_equal; lia|].
  rewrite <- (fmap_S_seq 0 n), <- list_fmap_compose. apply list_fmap_ext. intros i x _. cbn. do 2 f_equal. lia.
Qed.

Lemma uload_ok n : ∀ w m f fl root T U va e,
  as_ok m f fl root T U → on_cpu w root → 0 ≤ va → va + Z.of_nat n ≤ 2 ^ 47 → uaccess U 0 va (Z.of_nat n) →
  uload_n va n (KS (vmw w m f) e) = Ok (ubytes m U va n) (KS (vmw w m f) e).
Proof.
  induction n as [|n IH]; intros w m f fl root T U va e HA Hc H0 H1 HU; [done|]. cbn [uload_n].
  destruct (HU va ltac:(lia)) as (p & g & Hp & _).
  rewrite !bind_getw, (on_cpu_vmw _ _ _ root), vmw_mem by done. erewrite (mmu_ub m) by (done || unfold uva; lia).
  rewrite Hp. cbn [andb]. rewrite bind_munwrap, u64_small by lia.
  erewrite bind_ok; [|apply (IH w m f fl root T U (va + 1)); try done; try lia].
  - rewrite ubytes_S. unfold ub at 1. by rewrite Hp.
  - intros x Hx. apply HU. lia.
Qed.

Lemma ustore_ok buf : ∀ w m f fl root T U va e,
  as_ok m f fl root T U → on_cpu w root → 0 ≤ va → va + Z.of_nat (length buf) ≤ 2 ^ 47 →
  uaccess U PTE_W va (Z.of_nat (length buf)) →
  ∃ m', ustore va buf (KS (vmw w m f) e) = Ok tt (KS (vmw w m' f) e) ∧ uwrote m U va buf m'.
Proof.
  induction buf as [|b buf IH]; intros w m f fl root T U va e HA Hc H0 H1 HU.
  { exists m. split; [done|apply uwrote_nil]. }
  cbn [ustore length] in *. destruct (HU va ltac:(lia)) as (p & g & Hp & Hg).
  rewrite !bind_getw, (on_cpu_vmw _ _ _ root), vmw_mem by done. erewrite (mmu_ub m) by (done || unfold uva; lia).
  rewrite Hp, Hg. change (true && (PTE_W =? 0)) with false. cbv iota. rewrite bind_munwrap, bind_modm, u64_small by lia.
  pose proof (Z.div_mod va PGSIZE ltac:(done)). pose proof (va_offset va).
  pose proof (uwrote_page m f fl root T U (va / PGSIZE) p g (va mod PGSIZE) [b] HA Hp ltac:(lia) ltac:(cbn; lia)) as W1.
  replace (va / PGSIZE * PGSIZE + va mod PGSIZE) with va in W1 by lia. rewrite wr_bytes_1 in W1.
  destruct (IH w (wr m (p + va mod PGSIZE) b) f fl root T U (va + 1) e) as (m' & Hr & W2); try done; try lia.
  { by eapply uwrote_as. }
  { intros x Hx. apply HU. lia. }
  exists m'. split; [done|]. by apply (uwrote_app m U va [b] buf (wr m (p + va mod PGSIZE) b)).
Qed.

(** What was written is what is read. *)
Lemma uwrote_read m U va buf m' : uwrote m U va buf m' → ubytes m' U va (length buf) = buf.
Proof.
  intros [HB _]. apply list_eq_same_length with (length buf); [done|unfold ubytes; by rewrite length_fmap, length_seq|].
  intros i x y Hi H1 H2. unfold ubytes in H1. rewrite list_lookup_fmap, lookup_seq_lt in H1 by done. cbn in H1.
  injection H1 as <-. rewrite HB, decide_True by lia. cbn.
  replace (Z.to_nat (va + Z.of_nat i - va)) with i by lia. by apply list_lookup_total_correct.
Qed.
(** ** Two address spaces *)

(** The pages an address space is made of. *)
Definition uses (T : tables) (U : upages) (p : Z) : Prop := (∃ k, T !! k = Some p) ∨ ∃ v g, U !! v = Some (p, g).

Definition disjoint (T : tables) (U : upages) (T' : tables) (U' : upages) : Prop := ∀ p, uses T U p → ¬ uses T' U' p.

Lemma as_uses m f fl root T U p : as_ok m f fl root T U → uses T U p → (p ∉ fl) ∧ p mod PGSIZE = 0.
Proof.
  intros HA [[k Hk]|(v & g & Hv)].
  - split; [by apply (vm_apart _ _ _ _ _ (as_vm _ _ _ _ _ _ HA) _ _ Hk)|].
    by apply (proj1 (as_pages_aligned _ _ _ _ _ _ HA) k).
  - split; [by apply (as_apart _ _ _ _ _ _ HA _ _ _ Hv)|].
    by destruct (as_page _ _ _ _ _ _ HA _ _ _ Hv) as (_ & (? & _) & _).
Qed.

(** Building tables in one space leaves the other alone. *)
Lemma as_other n m f fl root T U m' f' fl' Td Ud Td' Ud' d :
  as_ok m f fl root T U → disjoint T U Td Ud → vstep n m fl Td m' fl' Td' → as_ok m' f' fl' d Td' Ud' →
  (∀ v p g, Ud' !! v = Some (p, g) → (∃ g', Ud !! v = Some (p, g')) ∨ p ∈ fl) →
  as_ok m' f' fl' root T U ∧ disjoint T U Td' Ud' ∧ ∀ va, ub m' U va = ub m U va.
Proof.
  intros HA Hd HS HA' HUd.
  assert (Hs : ∀ p, uses T U p → same_page m m' p).
  { intros p Hp. destruct (as_uses _ _ _ _ _ _ _ HA Hp) as [H1 H2]. apply (vs_same _ _ _ _ _ _ _ HS); [done|done|].
    intros k Hk. apply (Hd p Hp). left. eauto. }
  split_and!.
  - apply (as_frame m f fl); [done|apply HA'| |].
    + intros p Hp. left. by eapply vstep_incl.
    + intros k t Ht. apply Hs. left. eauto.
  - intros p Hp [[k Hk]|(v & g & Hv)]; destruct (as_uses _ _ _ _ _ _ _ HA Hp) as [H1 _].
    + apply (vs_new _ _ _ _ _ _ _ HS) in Hk as [Hk|Hk]; [|done]. apply (Hd p Hp). left. eauto.
    + apply HUd in Hv as [[g' Hv]|Hv]; [|done]. apply (Hd p Hp). right. eauto.
  - intros va. apply ub_same. intros p g Hp. apply Hs. right. eauto.
Qed.

(** A write in one space is not seen in the other. *)
Lemma uwrote_other m f fl root T U Td Ud va buf m' :
  as_ok m f fl root T U → disjoint T U Td Ud → uwrote m Ud va buf m' → ∀ x, ub m' U x = ub m U x.
Proof.
  intros HA Hd HW x. apply ub_same. intros p g Hp. assert (Hu : uses T U p) by (right; eauto).
  apply (uw_same _ _ _ _ _ HW); [by eapply as_uses|]. intros v g' Hv. apply (Hd p Hu). right. eauto.
Qed.

(** ** setupkvm *)

Lemma setupkvm_ok w m f p fl e :
  vm_calm w → freel m f (p :: fl) →
  ∃ m' f', setupkvm (KS (vmw w m f) e) = Ok p (KS (vmw w m' f') e) ∧
    as_ok m' f' fl p {[ (3%nat, 0) := p ]} ∅ ∧ vstep 1 m (p :: fl) ∅ m' fl {[ (3%nat, 0) := p ]}.
Proof.
  intros Hc Hf. destruct (kalloc_vm w m f p fl e Hc Hf) as (Hk & Hf1 & Hp & Hpf).
  set (m1 := memset m p 0 PGSIZE). set (x := Z.lor (Z.lor (V2P (w_kpdpt w)) PTE_P) PTE_W).
  set (m2 := store64 m1 (entry p 256) x). assert (Hpa : p mod PGSIZE = 0) by (by destruct Hp).
  assert (Hs : ∀ q, q mod PGSIZE = 0 → q ≠ p → same_page m m2 q).
  { intros q Hq Hne. apply (same_page_trans m m1 m2); [by apply memset_page|]. by apply entry_store_page. }
  exists m2, (load64 m p). split_and!.
  - unfold setupkvm. rewrite (bind_ok _ _ _ _ _ Hk), bind_modm, bind_getw, bind_modm.
    unfold m2, x, m1. unfold vmw. by rsimpl.
  - split; try (intros; by rewrite lookup_empty in *).
    + split.
      * apply (freel_same m); [done|]. intros q Hq. apply Hs.
        -- destruct Hf1 as [_ _ Ho]. rewrite Forall_forall in Ho. by destruct (Ho q Hq).
        -- intros ->. done.
      * split.
        -- apply lookup_singleton_eq.
        -- intros k t [_ <-]%lookup_singleton_Some. done.
        -- intros a b t [<- _]%lookup_singleton_Some [<- _]%lookup_singleton_Some. done.
        -- intros k q [t [? _]%lookup_singleton_Some]. by left.
        -- intros k q t i [[= <- <-] <-]%lookup_singleton_Some [Hi1 Hi2]. rewrite lookup_singleton_ne by (intros [=]; lia).
           unfold m2. rewrite entry_store_ne by lia. rewrite load64_zero; [done|]. intros b Hb.
           unfold m1. rewrite memset_bytes, decide_True; [done|unfold entry, PGSIZE in *; lia|done].
      * intros k t [_ <-]%lookup_singleton_Some. done.
    + intros v Hv. rewrite lookup_empty. unfold pte. by rewrite lookup_singleton_ne by (intros [=]).
  - split.
    + apply map_empty_subseteq.
    + intros k t [_ <-]%lookup_singleton_Some. right. by left.
    + by exists 1%nat.
    + intros q Hq Hq2 _. apply Hs; [done|]. intros ->. apply Hq2. by left.
Qed.
(** ** copyuvm *)

Lemma memmove_page m p s q :
  p mod PGSIZE = 0 → q mod PGSIZE = 0 → q ≠ p → same_page m (memmove m p s PGSIZE) q.
Proof.
  intros Hp Hq Hne b Hb. pose proof (pages_apart q p b Hq Hp Hne Hb).
  by rewrite memmove_bytes, decide_False by (done || lia).
Qed.

Lemma lor_present g : Z.land g PTE_P = PTE_P → Z.lor g PTE_P = g.
Proof.
  intros H. apply Z.bits_inj'. intros i Hi. apply (f_equal (λ z, Z.testbit z i)) in H.
  rewrite Z.land_spec in H. rewrite Z.lor_spec. by destruct (Z.testbit g i), (Z.testbit PTE_P i).
Qed.

(** The pages from [v0] on of the space [U] have been copied to [Ud]. *)
Record copied (v0 : Z) (n : nat) (m : mem) (U Ud : upages) (m' : mem) (Ud' : upages) : Prop := {
  cp_parent va : ub m' U va = ub m U va;
  cp_child va : ub m' Ud' va = if decide (v0 ≤ va / PGSIZE < v0 + Z.of_nat n) then ub m U va else ub m Ud va;
  cp_flags v : snd <$> Ud' !! v = if decide (v0 ≤ v < v0 + Z.of_nat n) then snd <$> U !! v else snd <$> Ud !! v
}.

Lemma copied_trans v0 n m U Ud m1 Ud1 m2 Ud2 :
  copied v0 1 m U Ud m1 Ud1 → copied (v0 + 1) n m1 U Ud1 m2 Ud2 → copied v0 (S n) m U Ud m2 Ud2.
Proof.
  intros [A1 A2 A3] [B1 B2 B3]. split.
  - intros va. by rewrite B1, A1.
  - intros va. rewrite B2, A1, A2. repeat case_decide; try done; lia.
  - intros v. rewrite B3, A3. repeat case_decide; try done; lia.
Qed.

Lemma copied_one m f fl d Td Ud U v p q g m' fl' Td' :
  as_ok m f fl d Td Ud → vstep 4 m fl Td m' fl' Td' → U !! v = Some (q, g) → Ud !! v = None →
  same_page (memmove m p q PGSIZE) m' p → (∀ va, ub m' U va = ub m U va) →
  copied v 1 m U Ud m' (<[v := (p, g)]> Ud).
Proof.
  intros HA HS HU HUd Hp Hsame. split; [done| |].
  - intros va. case_decide.
    + assert (E : va / PGSIZE = v) by lia. unfold ub. rewrite E, lookup_insert_eq, HU. f_equal.
      pose proof (va_offset va). rewrite Hp by lia. rewrite memmove_bytes, decide_True by (done || lia). f_equal. lia.
    + transitivity (ub m' Ud va); [unfold ub; by rewrite lookup_insert_ne by lia|].
      apply ub_same. intros p' g' Hl. by eapply as_same.
  - intros u. case_decide; [replace u with v by lia; by rewrite lookup_insert_eq, HU|].
    by rewrite lookup_insert_ne by lia.
Qed.

(** One round of the loop: page [v] of the parent is copied. *)
Lemma copy_page w m f fl root T U d Td Ud v q g e :
  vm_calm w → as_ok m f fl root T U → as_ok m f fl d Td Ud → disjoint T U Td Ud → (4 ≤ length fl)%nat →
  U !! v = Some (q, g) → Ud !! v = None →
  ∃ p f1 m' f' fl' Td' Ud',
    kalloc (KS (vmw w m f) e) = Ok p (KS (vmw w m f1) e) ∧ p ≠ 0 ∧
    mappages d (v * PGSIZE) PGSIZE (V2P p) g (KS (vmw w (memmove m p q PGSIZE) f1) e) = Ok 0 (KS (vmw w m' f') e) ∧
    as_ok m' f' fl' root T U ∧ as_ok m' f' fl' d Td' Ud' ∧ disjoint T U Td' Ud' ∧ copied v 1 m U Ud m' Ud' ∧
    (length fl ≤ length fl' + 4)%nat ∧ (∀ u, u ≠ v → Ud' !! u = Ud !! u).
Proof.
  intros Hc HA HAd Hd Hlen HU HUd. destruct (as_page _ _ _ _ _ _ HA _ _ _ HU) as (Hv & Hq & Hg & HgP).
  destruct (new_page w m f fl d Td Ud v g (λ p m, memmove m p q PGSIZE) e)
    as (p & f1 & m' & f' & fl' & Td' & Hk & Hp & Hin & Hm & HAd' & HS & Hsp); try done.
  { intros. by apply memmove_page. }
  rewrite lor_present in HAd' by done.
  destruct (as_other 4 m f fl root T U m' f' fl' Td Ud Td' (<[v := (p, g)]> Ud) d) as (HA' & Hd' & Hsame); try done.
  { intros u p' g'. destruct (decide (u = v)) as [->|].
    - rewrite lookup_insert_eq. intros [= <- <-]. by right.
    - rewrite lookup_insert_ne by done. left. eauto. }
  exists p, f1, m', f', fl', Td', (<[v := (p, g)]> Ud). split_and!; try done.
  - destruct Hp. lia.
  - by eapply copied_one.
  - by eapply vstep_len.
  - intros u Hu. by rewrite lookup_insert_ne.
Qed.

Lemma copyuvm_from_ok n : ∀ w m f fl root T U d Td Ud v0 sz e,
  vm_calm w → as_ok m f fl root T U → as_ok m f fl d Td Ud → disjoint T U Td Ud → 0 ≤ v0 → v0 + Z.of_nat n ≤ 2 ^ 35 →
  (v0 + Z.of_nat n - 1) * PGSIZE < sz ≤ (v0 + Z.of_nat n) * PGSIZE ∨ n = 0%nat ∧ sz ≤ v0 * PGSIZE →
  (4 * n ≤ length fl)%nat → (∀ v, v0 ≤ v < v0 + Z.of_nat n → is_Some (U !! v) ∧ Ud !! v = None) →
  ∃ m' f' fl' Td' Ud', copyuvm_from n d root (v0 * PGSIZE) sz (KS (vmw w m f) e) = Ok true (KS (vmw w m' f') e) ∧
    as_ok m' f' fl' root T U ∧ as_ok m' f' fl' d Td' Ud' ∧ disjoint T U Td' Ud' ∧ copied v0 n m U Ud m' Ud'.
Proof.
  induction n as [|n IH]; intros w m f fl root T U d Td Ud v0 sz e Hc HA HAd Hd Hv0 Hv1 Hsz Hlen HU; cbn [copyuvm_from].
  - rewrite (proj2 (Z.ltb_ge (v0 * PGSIZE) sz)) by lia. exists m, f, fl, Td, Ud. split_and!; try done.
    split; intros; [done|by rewrite decide_False by lia..].
  - rewrite (proj2 (Z.ltb_lt (v0 * PGSIZE) sz)) by (unfold PGSIZE in *; lia).
    destruct (HU v0 ltac:(lia)) as [[[q g] HUv] HUd].
    destruct (as_walk _ _ _ _ _ _ _ _ _ HA HUv) as (t & Ht & Hw & Hl).
    destruct (as_entry _ _ _ _ _ _ _ _ _ HA HUv) as (E1 & E2 & E3 & E4).
    erewrite bind_ok; [|eapply walk_look; [apply HA|unfold uva, PGSIZE in *; lia]].
    rewrite Z.div_mul, Hw by done. rewrite bind_getm, Hl, E1, E2, E3, E4. cbn [negb]. cbv zeta.
    destruct (copy_page w m f fl root T U d Td Ud v0 q g e) as
      (p & f1 & m1 & f2 & fl2 & Td2 & Ud2 & Hk & Hp & Hm & HA2 & HAd2 & Hd2 & HC & Hl2 & HUd2); try done; [lia|].
    rewrite (bind_ok _ _ _ _ _ Hk), (proj2 (Z.eqb_neq p 0)) by done.
    rewrite bind_modm, (bind_ok _ _ _ _ _ Hm). change (0 <? 0) with false. cbv iota.
    replace (v0 * PGSIZE + PGSIZE) with ((v0 + 1) * PGSIZE) by lia.
    destruct (IH w m1 f2 fl2 root T U d Td2 Ud2 (v0 + 1) sz e)
      as (m' & f' & fl' & Td' & Ud' & Hrun & HA' & HAd' & Hd' & HC'); try done; try lia.
    { intros v Hv. rewrite HUd2 by lia. apply HU. lia. }
    exists m', f', fl', Td', Ud'. split_and!; try done. by eapply copied_trans.
Qed.

Lemma copyuvm_ok w m f fl root T U sz e :
  vm_calm w → as_ok m f fl root T U → 0 ≤ sz < 2 ^ 32 →
  let n := Z.to_nat (npages sz - 1) in
  (4 * n < length fl)%nat → (∀ v, 1 ≤ v < npages sz → is_Some (U !! v)) →
  ∃ d m' f' fl' Td Ud, copyuvm root sz (KS (vmw w m f) e) = Ok d (KS (vmw w m' f') e) ∧
    as_ok m' f' fl' root T U ∧ as_ok m' f' fl' d Td Ud ∧ disjoint T U Td Ud ∧ copied 1 n m U ∅ m' Ud.
Proof.
  intros Hc HA Hsz n Hlen HU. destruct fl as [|p fl]; [cbn in Hlen; lia|].
  destruct (setupkvm_ok w m f p fl e Hc) as (m1 & f1 & Hk & HAd & HS); [apply HA|].
  destruct (as_other 1 m f (p :: fl) root T U m1 f1 fl ∅ ∅ {[ (3%nat, 0) := p ]} ∅ p) as (HA1 & Hd & Hsame); try done.
  { intros q _ [[k Hk']|(v & g & Hv)]; by rewrite lookup_empty in *. }
  unfold copyuvm. rewrite u32_small by lia. rewrite (bind_ok _ _ _ _ _ Hk).
  assert (Hp : p ≠ 0).
  { pose proof (fr_ok _ _ _ (vm_free _ _ _ _ _ (as_vm _ _ _ _ _ _ HA))) as Ho. apply Forall_cons in Ho as [(_ & _ & _ & ?) _]. lia. }
  rewrite (proj2 (Z.eqb_neq p 0)) by done.
  rewrite pages_fuel_eq by done. change (PGSIZE / PGSIZE) with 1. fold n.
  pose proof (npages_spec sz ltac:(lia)). destruct (npages_up sz) as [_ Hr]; [lia|].
  change PGSIZE with (1 * PGSIZE) at 1.
  destruct (copyuvm_from_ok n w m1 f1 fl root T U p {[ (3%nat, 0) := p ]} ∅ 1 sz e)
    as (m' & f' & fl' & Td' & Ud' & Hrun & HA' & HAd' & Hd' & [C1 C2 C3]); try done; try lia.
  { subst n. unfold PGSIZE in *. destruct (decide (npages sz ≤ 1)); [right|left]; lia. }
  { cbn in Hlen. lia. }
  { intros v Hv. split; [apply HU; lia|apply lookup_empty]. }
  exists p, m', f', fl', Td', Ud'. rewrite (bind_ok _ _ _ _ _ Hrun). split_and!; try done.
  split; [intros va; by rewrite C1| |done]. intros va. rewrite C2, Hsame. done.
Qed.
End uspace.
