(* ===== verification/Freevm.v ===== *)
(** * Freeing an address space

    [freevm] walks the four levels of a page table and frees every user page and every
    table.  Nothing is left behind and nothing is freed twice: afterwards the free
    list holds, besides what it held, exactly the pages the address space
    used. *)

From S2P Require Import Prelude Kernel Bytes Spinlock CString Kalloc Vm VmSpec Uspace.

Section freevm.
  Context {image : KernelImage} {Hkend : HighImage}.

(** ** The recursion of [freevm] *)

(** What is freed at a present entry, [k] levels of tables above the pages. *)
Fixpoint free_node (k : nat) (t : Z) : K unit :=
  match k with
  | O => kfree t
  | S k => for_entries NPDENTRIES t (free_node k) ;; kfree t
  end.

Lemma freevm_nodes pml4 :
  freevm pml4 =
    if pml4 =? 0 then panic "freevm: no pgdir" else for_entries (Nat.div NPDENTRIES 2) pml4 (free_node 3) ;; kfree pml4.
Proof. reflexivity. Qed.

(** ** Trees of pages in memory *)

(** The pages [l] are those under entry [i] of table [t], [P] describing the node an entry
    points to. *)
Definition under (m : mem) (P : Z → list Z → Prop) (t : Z) (i : nat) (l : list Z) : Prop :=
  let e := load64 m (entry t (Z.of_nat i)) in
  if present e then P (P2V (PTE_ADDR e)) l else l = [].

(** The pages [l] are those of the tree at [t], in the order of freeing. *)
Fixpoint node (m : mem) (k : nat) (t : Z) (l : list Z) : Prop :=
  match k with
  | O => l = [t]
  | S k => ∃ ls, Forall2 (under m (node m k) t) (seq 0 NPDENTRIES) ls ∧ l = mjoin ls ++ [t]
  end.

Lemma under_frame m m' P P' t i l :
  same_page m m' t → (i < NPDENTRIES)%nat → (∀ t', P t' l → P' t' l) → under m P t i l → under m' P' t i l.
Proof.
  intros Hs Hi HP. unfold under. rewrite (same_page_load m m' t) by (done || (unfold NPDENTRIES in Hi; lia)).
  destruct (present _); [apply HP|done].
Qed.

Lemma node_frame m m' k : ∀ t l, node m k t l → (∀ p, p ∈ l → same_page m m' p) → node m' k t l.
Proof.
  induction k as [|k IH]; intros t l; cbn [node]; [done|]. intros (ls & Hls & ->) Hs.
  exists ls. split; [|done]. rewrite Forall2_lookup in *. intros i. specialize (Hls i).
  destruct (seq 0 NPDENTRIES !! i) as [j|] eqn:Ej, (ls !! i) as [l|] eqn:El; inversion Hls; subst; constructor.
  apply lookup_seq in Ej as [-> Hj]. eapply under_frame; [apply Hs; set_solver|done| |done].
  intros t' Hn. apply IH; [done|]. intros p Hp. apply Hs. rewrite elem_of_app, list_elem_of_join. left.
  exists l. split; [done|]. by eapply list_elem_of_lookup_2.
Qed.

Lemma node_self m k t l : node m k t l → t ∈ l.
Proof. destruct k; cbn [node]; [intros ->|intros (ls & _ & ->)]; set_solver. Qed.

(** ** Freeing a tree *)

(** Freeing the pages [l], with [r] the code that does. *)
Definition frees (r : K unit) (l : list Z) (m : mem) : Prop := ∀ w f fl e,
  vm_calm w → freel m f fl → NoDup l → (∀ p, p ∈ l → page_ok p ∧ p ∉ fl) →
  ∃ m' f', r (KS (vmw w m f) e) = Ok tt (KS (vmw w m' f') e) ∧ freel m' f' (reverse l ++ fl) ∧
    ∀ p, p mod PGSIZE = 0 → p ∉ l → same_page m m' p.

Lemma kfree_frees v m : frees (kfree v) [v] m.
Proof.
  intros w f fl e Hc Hf _ Hp. destruct (Hp v ltac:(set_solver)) as [Hv Hn].
  destruct (kfree_vm w m f v fl e Hc Hf Hv Hn) as (m' & Hk & Hf' & Hs). exists m', v. split_and!; [done|done|].
  intros p Ha Hpv b Hb. apply Hs. intros Hb'. apply Hpv, list_elem_of_singleton. destruct Hv as [Hv _].
  apply Z.mod_divide in Ha as [a ->], Hv as [c ->]; [|done..]. unfold PGSIZE in *. lia.
Qed.

Lemma frees_then r r' l l' m :
  frees r l m → (∀ m1, (∀ p, p mod PGSIZE = 0 → p ∉ l → same_page m m1 p) → frees r' l' m1) → frees (r ;; r') (l ++ l') m.
Proof.
  intros H1 H2 w f fl e Hc Hf Hnd Hp. apply NoDup_app in Hnd as (Hn1 & Hd & Hn2).
  destruct (H1 w f fl e Hc Hf Hn1) as (m1 & f1 & Hr1 & Hf1 & Hs1); [intros p ?; apply Hp; set_solver|].
  destruct (H2 m1 Hs1 w f1 (reverse l ++ fl) e Hc Hf1 Hn2) as (m2 & f2 & Hr2 & Hf2 & Hs2).
  { intros p Hin. destruct (Hp p) as [? ?]; [set_solver|]. split; [done|].
    rewrite elem_of_app, elem_of_reverse. intros [?|?]; [by eapply Hd|done]. }
  exists m2, f2. rewrite (bind_ok _ _ _ _ _ Hr1). split_and!; [done|by rewrite reverse_app, <- (assoc_L (++))|].
  intros p Ha Hni. eapply same_page_trans; [apply Hs1|apply Hs2]; set_solver.
Qed.

(** A loop over the entries [js] of a table whose page is not among those freed. *)
Lemma entries_frees k t m : page_ok t → 
  (∀ t' l m, node m k t' l → frees (free_node k t') l m) → ∀ js ls m1,
  Forall2 (under m (node m k) t) js ls → Forall (λ i, (i < NPDENTRIES)%nat) js → t ∉ mjoin ls →
  (∀ p, p = t ∨ p ∈ mjoin ls → same_page m m1 p) →
  (∀ p, p ∈ mjoin ls → p mod PGSIZE = 0) → NoDup (mjoin ls) →
  frees (iterM (λ i, e ← getm (λ m, load64 m (entry t (Z.of_nat i)));
                     if present e then free_node k (P2V (PTE_ADDR e)) else mret tt) js) (mjoin ls) m1.
Proof.
  intros Ht Hnode js ls m1 Hls. revert m1. induction Hls as [|i l js ls Hi Hls IH]; intros m1 His Hnt Hs Hal Hnd.
  { intros w f fl e _ Hf _ _. exists m1, f. by split_and!. }
  apply Forall_cons in His as [Hi' His]. cbn [mjoin list_join iterM] in *. 
  apply frees_then.
  - intros w f fl e Hc Hf Hn Hp. rewrite bind_getm.
    assert (Hu : under m1 (node m1 k) t i l).
    { eapply under_frame; [apply Hs; by left|done| |done]. intros t' Hn'. eapply node_frame; [done|].
      intros p Hpl. apply Hs. right. set_solver. }
    unfold under in Hu. destruct (present _).
    + by apply (Hnode _ _ _ Hu).
    + subst l. exists m1, f. by split_and!.
  - intros m2 Hs2. apply NoDup_app in Hnd as (_ & Hd & Hnd). apply IH; try done.
    + set_solver.
    + intros p Hp. eapply same_page_trans; [apply Hs; set_solver|]. apply Hs2.
      * destruct Hp as [->|Hp]; [by destruct Ht|apply Hal; set_solver].
      * destruct Hp as [->|Hp]; [set_solver|]. intros Hl. by eapply Hd.
    + set_solver.
Qed.

Lemma free_node_frees k : ∀ t l m, node m k t l → frees (free_node k t) l m.
Proof.
  induction k as [|k IH]; intros t l m; cbn [node free_node]; [intros ->; apply kfree_frees|].
  intros (ls & Hls & ->) w f fl e Hc Hf Hnd Hp.
  assert (Ht : page_ok t) by (apply Hp, elem_of_app; right; by apply list_elem_of_singleton).
  refine (frees_then _ _ (mjoin ls) [t] m _ _ w f fl e Hc Hf Hnd Hp); [|intros; apply kfree_frees].
  apply NoDup_app in Hnd as (Hnd & Hd & _).
  apply (entries_frees k t m Ht IH (seq 0 NPDENTRIES) ls m Hls); [|  |by intros| |done].
  - apply Forall_seq. lia.
  - intros Hin. apply (Hd t Hin). by apply list_elem_of_singleton.
  - intros p Hin. by destruct (Hp p) as [[? _] _]; [apply elem_of_app; left|].
Qed.

(** ** The tree of an address space *)

Section tree.
Context (m : mem) (f : Z) (fl : list Z) (root : Z) (T : tables) (U : upages) (HA : as_ok m f fl root T U).

(** The pages of the tree at a table or, at level 0, of a user page. *)
Fixpoint own (k : nat) (q : Z) (p : Z) : Prop :=
  match k with
  | O => ∃ g, U !! q = Some (p, g)
  | S k => T !! (k, q) = Some p ∨ ∃ i, 0 ≤ i < 512 ∧ own k (512 * q + i) p
  end.

Lemma own_lower k : ∀ q p, own k q p → (∃ j q', (j < k)%nat ∧ T !! (j, q') = Some p) ∨ ∃ v g, U !! v = Some (p, g).
Proof.
  induction k as [|k IH]; intros q p; cbn [own].
  - intros [g H]. right. eauto.
  - intros [H|(i & _ & H)]; [left; eauto|]. destruct (IH _ _ H) as [(j & q' & Hj & HT)|?]; [|by right].
    left. exists j, q'. split; [lia|done].
Qed.

Lemma own_inj k : ∀ q q' p, own k q p → own k q' p → q = q'.
Proof using HA.
  pose proof (vm_pt _ _ _ _ _ (as_vm _ _ _ _ _ _ HA)) as HP.
  assert (Hx : ∀ k q q' i p, T !! (k, q) = Some p → ¬ own k (512 * q' + i) p).
  { intros k' q q' i p HT Ho. destruct (own_lower _ _ _ Ho) as [(j & q'' & Hj & HT')|(v & g & HU)].
    - injection (pt_inj _ _ _ HP _ _ _ HT HT'). lia.
    - by apply (as_apart _ _ _ _ _ _ HA _ _ _ HU) in HT. }
  induction k as [|k IH]; intros q q' p; cbn [own].
  - intros [g H1] [g' H2]. by eapply as_inj.
  - intros [H1|(i & Hi & H1)] [H2|(j & Hj & H2)].
    + by injection (pt_inj _ _ _ HP _ _ _ H1 H2).
    + by destruct (Hx _ _ _ _ _ H1 H2).
    + by destruct (Hx _ _ _ _ _ H2 H1).
    + pose proof (IH _ _ _ H1 H2). lia.
Qed.

Lemma div_child q i : 0 ≤ i < 512 → (512 * q + i) / 512 = q.
Proof. intros. symmetry. apply (Z.div_unique _ _ _ i); lia. Qed.

Lemma own_table k : ∀ q p, (k ≤ 3)%nat → own (S k) q p → is_Some (T !! (k, q)).
Proof using HA Hkend.
  pose proof (vm_pt _ _ _ _ _ (as_vm _ _ _ _ _ _ HA)) as HP.
  induction k as [|k IH]; intros q p Hk [H|(i & Hi & H)]; try by eexists.
  - destruct H as [g H]. destruct (as_walk _ _ _ _ _ _ _ _ _ HA H) as (t & Ht & _).
    assert (E : vpre 0 (512 * q + i) = (512 * q + i) / 512) by reflexivity. rewrite E in Ht.
    rewrite div_child in Ht by done. by eexists.
  - assert (Hs : is_Some (T !! (k, 512 * q + i))) by (eapply IH; [lia|exact H]).
    destruct (pt_up _ _ _ HP _ _ Hs) as [E|(_ & Hu & _)]; [injection E; lia|].
    rewrite div_child in Hu by done. done.
Qed.

Lemma own_climb k q p : own k q p → own (S k) (q / 512) p.
Proof.
  intros H. right. exists (q mod 512). pose proof (Z.mod_pos_bound q 512 ltac:(lia)). split; [done|].
  by rewrite <- Z.div_mod.
Qed.

Lemma own_page k q p : own k q p → page_ok p ∧ p ∉ fl.
Proof using HA.
  intros [(j & q' & _ & HT)|(v & g & HU)]%own_lower.
  - split; [by eapply pt_page; [apply HA|]|by eapply vm_apart; [apply HA|]].
  - split; [by eapply as_page|by eapply as_apart].
Qed.
(** The numbers of the tables below the root. *)
Lemma table_range k q : is_Some (T !! (k, q)) → (k < 3)%nat → 0 ≤ q < 256 * 512 ^ (2 - Z.of_nat k).
Proof using HA.
  pose proof (vm_pt _ _ _ _ _ (as_vm _ _ _ _ _ _ HA)) as HP.
  intros Hs Hk. revert q Hs. remember (2 - k)%nat as d eqn:Ed. revert k Hk Ed.
  induction d as [|d IH]; intros k Hk Ed q Hs; destruct (pt_up _ _ _ HP _ _ Hs) as [E|(_ & Hu & H2)];
    try (injection E; lia).
  - assert (k = 2%nat) as -> by lia. destruct (pt_up _ _ _ HP _ _ Hu) as [E|(? & _)]; [|lia].
    injection E as E. pose proof (Z.div_mod q 512). pose proof (Z.mod_pos_bound q 512). specialize (H2 eq_refl).
    change (512 ^ (2 - Z.of_nat 2)) with 1. lia.
  - pose proof (IH (S k) ltac:(lia) ltac:(lia) _ Hu) as Hq. pose proof (Z.div_mod q 512). pose proof (Z.mod_pos_bound q 512).
    replace (2 - Z.of_nat k) with (Z.succ (2 - Z.of_nat (S k))) by lia. rewrite Z.pow_succ_r by lia. lia.
Qed.

Lemma list_choice {A B} (R : A → B → Prop) (js : list A) :
  (∀ i, i ∈ js → ∃ l, R i l) → ∃ ls, Forall2 R js ls.
Proof.
  induction js as [|i js IH]; intros H; [by exists []|].
  destruct (H i) as [l Hl]; [by left|]. destruct IH as [ls Hls]; [intros; apply H; by right|].
  exists (l :: ls). by constructor.
Qed.

(** The list [l] is, without repetition, the pages of the tree. *)
Definition lists_own (k : nat) (q : Z) (l : list Z) : Prop := NoDup l ∧ ∀ p, p ∈ l ↔ own k q p.

Lemma join_own k q js ls :
  NoDup js → Forall2 (λ i, lists_own k (512 * q + Z.of_nat i)) js ls →
  NoDup (mjoin ls) ∧ ∀ p, p ∈ mjoin ls ↔ ∃ i, i ∈ js ∧ own k (512 * q + Z.of_nat i) p.
Proof using HA.
  intros Hnd Hls. induction Hls as [|i l js ls [Hl1 Hl2] Hls IH]; cbn [mjoin list_join].
  - split; [constructor|]. intros p. split; [by intros ?%not_elem_of_nil|]. by intros (i & ?%not_elem_of_nil & _).
  - apply NoDup_cons in Hnd as [Hi Hnd]. destruct (IH Hnd) as [H1 H2]. split.
    + apply NoDup_app. split_and!; [done| |done]. intros p Hp (j & Hj & Ho)%H2. apply Hl2 in Hp.
      pose proof (own_inj _ _ _ _ Hp Ho). assert (i = j) as -> by lia. done.
    + intros p. rewrite elem_of_app, Hl2, H2. setoid_rewrite elem_of_cons. split.
      * intros [Ho|(j & Hj & Ho)]; eauto.
      * intros (j & [->|Hj] & Ho); eauto.
Qed.

(** The pages under an entry of a leaf table. *)
Lemma under_leaf q t i :
  T !! (0%nat, q) = Some t → (i < 512)%nat → ∃ l, under m (node m 0) t i l ∧ lists_own 0 (512 * q + Z.of_nat i) l.
Proof using HA Hkend.
  intros Ht Hi. set (v := 512 * q + Z.of_nat i).
  assert (Hp : vpre 0 v = q) by (transitivity (v / 512); [done|by apply div_child; lia]).
  assert (Hx : vidx 0 v = Z.of_nat i).
  { transitivity (v mod 512); [unfold vidx; by rewrite Z.div_1_r|]. symmetry. apply (Z.mod_unique _ _ q); lia. }
  assert (Hv : upage v).
  { destruct (table_range 0 q) as [H1 H2]; [by eexists|lia|]. unfold upage. change (256 * 512 ^ (2 - Z.of_nat 0)) with (2 ^ 26) in H2. lia. }
  assert (Hpte : pte m T v = load64 m (entry t (Z.of_nat i))) by (unfold pte; by rewrite Hp, Ht, Hx).
  unfold under. rewrite <- Hpte. destruct (U !! v) as [[p g]|] eqn:EU.
  - destruct (as_entry _ _ _ _ _ _ _ _ _ HA EU) as (E1 & E2 & E3 & E4).
    exists [p].
    pose proof (as_map _ _ _ _ _ _ HA v Hv) as Em. rewrite EU in Em. rewrite Em, E1, E2, E4. split; [done|].
    split; [apply NoDup_singleton|]. intros p'. rewrite list_elem_of_singleton. cbn [own]. rewrite EU. split.
    + intros ->. by eexists.
    + by intros [g' [= -> _]].
  - exists []. rewrite (as_pte_none _ _ _ _ _ _ _ HA Hv EU). split; [done|]. split; [constructor|].
    intros p. cbn [own]. rewrite EU. split; [by intros ?%not_elem_of_nil|by intros [g ?]].
Qed.

(** The pages under an entry of a table above, the tables one level down being trees. *)
Lemma under_table k q t i :
  T !! (S k, q) = Some t → uidx k (Z.of_nat i) → (k < 3)%nat →
  (∀ q t, T !! (k, q) = Some t → ∃ l, node m (S k) t l ∧ lists_own (S k) q l) →
  ∃ l, under m (node m (S k)) t i l ∧ lists_own (S k) (512 * q + Z.of_nat i) l.
Proof using HA Hkend.
  intros Ht Hi Hk IH. pose proof (vm_pt _ _ _ _ _ (as_vm _ _ _ _ _ _ HA)) as HP.
  pose proof (pt_down _ _ _ HP k q t (Z.of_nat i) Ht Hi) as Hd. unfold under.
  destruct (T !! (k, 512 * q + Z.of_nat i)) as [t'|] eqn:E.
  - pose proof (pt_page _ _ _ HP _ _ E) as Hp. rewrite Hd, tentry_present, tentry_addr by done. by apply IH.
  - rewrite Hd. exists []. split; [done|]. split; [constructor|]. intros p. split; [by intros ?%not_elem_of_nil|].
    intros Ho. destruct (own_table k _ _ ltac:(lia) Ho) as [t' Ht']. congruence.
Qed.

(** From the entries of a table to the table. *)
Lemma entries_own k q t n :
  T !! (k, q) = Some t → (k ≤ 3)%nat → (n ≤ 512)%nat →
  (∀ i, 0 ≤ i < 512 → ∀ p, own k (512 * q + i) p → i < Z.of_nat n) →
  (∀ i, (i < n)%nat → ∃ l, under m (node m k) t i l ∧ lists_own k (512 * q + Z.of_nat i) l) →
  ∃ ls, Forall2 (under m (node m k) t) (seq 0 n) ls ∧ lists_own (S k) q (mjoin ls ++ [t]).
Proof using HA.
  intros Ht Hk Hn Hlow Hu.
  destruct (list_choice (λ i l, under m (node m k) t i l ∧ lists_own k (512 * q + Z.of_nat i) l) (seq 0 n)) as [ls Hls].
  { intros i Hi%elem_of_seq. apply Hu. lia. }
  exists ls. split; [eapply Forall2_impl; [done|by intros ?? [? ?]]|].
  destruct (join_own k q (seq 0 n) ls) as [H1 H2]; [apply NoDup_seq|eapply Forall2_impl; [done|by intros ?? [? ?]]|].
  assert (Ht' : ∀ i, ¬ own k (512 * q + i) t).
  { intros i [(j & q' & Hj & HT)|(v & g & HU)]%own_lower.
    - injection (pt_inj _ _ _ (vm_pt _ _ _ _ _ (as_vm _ _ _ _ _ _ HA)) _ _ _ Ht HT). lia.
    - by apply (as_apart _ _ _ _ _ _ HA _ _ _ HU) in Ht. }
  split.
  - apply NoDup_app. split_and!; [done| |apply NoDup_singleton]. intros p (i & _ & Ho)%H2 ->%list_elem_of_singleton.
    by apply Ht' in Ho.
  - intros p. rewrite elem_of_app, list_elem_of_singleton, H2. cbn [own]. rewrite Ht. split.
    + intros [(i & Hi%elem_of_seq & Ho)| ->]; [right; exists (Z.of_nat i); split; [lia|done]|by left].
    + intros [[= ->]|(i & Hi & Ho)]; [by right|left]. pose proof (Hlow _ Hi _ Ho).
      exists (Z.to_nat i). rewrite Z2Nat.id by lia. split; [apply elem_of_seq; lia|done].
Qed.

Lemma table_tree k : ∀ q t, (k < 3)%nat → T !! (k, q) = Some t → ∃ l, node m (S k) t l ∧ lists_own (S k) q l.
Proof using HA Hkend.
  induction k as [|k IH]; intros q t Hk Ht.
  - destruct (entries_own 0 q t 512) as (ls & H1 & H2); [done|lia|lia|intros; lia|intros; by apply under_leaf|].
    exists (mjoin ls ++ [t]). split; [by exists ls|done].
  - destruct (entries_own (S k) q t 512) as (ls & H1 & H2); [done|lia|lia|intros; lia| |].
    + intros i Hi. apply under_table; [done|split; lia|lia|]. intros. apply IH; [lia|done].
    + exists (mjoin ls ++ [t]). split; [by exists ls|done].
Qed.

Lemma root_tree :
  ∃ ls, Forall2 (under m (node m 3) root) (seq 0 256) ls ∧ lists_own 4 0 (mjoin ls ++ [root]).
Proof using HA Hkend.
  pose proof (vm_pt _ _ _ _ _ (as_vm _ _ _ _ _ _ HA)) as HP.
  apply entries_own; [apply HP|lia|lia| |].
  - intros i Hi p Ho. destruct (table_range 2 (512 * 0 + i)); [by eapply own_table; [lia|]|lia|].
    change (256 * 512 ^ (2 - Z.of_nat 2)) with 256 in *. lia.
  - intros i Hi. apply under_table; [apply HP|split; lia|lia|]. intros. apply table_tree; [lia|done].
Qed.

(** All that the address space uses is in the tree. *)
Lemma own_uses p : own 4 0 p ↔ uses T U p.
Proof using HA Hkend.
  pose proof (vm_pt _ _ _ _ _ (as_vm _ _ _ _ _ _ HA)) as HP. split.
  - intros [(j & q & _ & H)|H]%own_lower; [left; eauto|by right].
  - assert (Hup : ∀ d k q, (k + d = 4)%nat → (0 < k)%nat → own k q p → own 4 0 p).
    { induction d as [|d IH]; intros k q Hkd Hk Ho.
      - assert (k = 4%nat) as -> by lia. destruct (own_table 3 q p ltac:(lia) Ho) as [t Ht].
        destruct (pt_up _ _ _ HP 3 q) as [[= ->]|(? & _)]; [by eexists|done|lia].
      - apply (IH (S k) (q / 512)); [lia|lia|by apply own_climb]. }
    intros [[[k q] Hk]|(v & g & Hv)].
    + assert (Hk3 : (k ≤ 3)%nat) by (destruct (pt_up _ _ _ HP k q) as [[= -> _]|(? & _)]; [by eexists|lia..]).
      apply (Hup (3 - k)%nat (S k) q); [lia|lia|by left].
    + apply (Hup 3%nat 1%nat (v / 512)); [lia|lia|]. apply own_climb. by exists g.
Qed.
End tree.

(** ** [freevm] *)

Lemma freevm_ok w m f fl root T U e :
  vm_calm w → as_ok m f fl root T U →
  ∃ m' f' l, freevm root (KS (vmw w m f) e) = Ok tt (KS (vmw w m' f') e) ∧ freel m' f' (l ++ fl) ∧
    (∀ p, p ∈ l ↔ uses T U p) ∧ (∀ p, p mod PGSIZE = 0 → ¬ uses T U p → same_page m m' p).
Proof.
  intros Hc HA. destruct (root_tree _ _ _ _ _ _ HA) as (ls & Hls & Hnd & Hown).
  set (l := mjoin ls ++ [root]) in *.
  assert (Hin : ∀ p, p ∈ l ↔ uses T U p) by (intros p; rewrite Hown; by eapply own_uses).
  assert (Hp : ∀ p, p ∈ l → page_ok p ∧ p ∉ fl) by (intros p Hpl; eapply own_page; [done|by apply Hown]).
  pose proof (pt_page _ _ _ (vm_pt _ _ _ _ _ (as_vm _ _ _ _ _ _ HA)) _ _ (pt_root _ _ _ (vm_pt _ _ _ _ _ (as_vm _ _ _ _ _ _ HA)))) as Hr.
  assert (Hfr : frees (for_entries (Nat.div NPDENTRIES 2) root (free_node 3) ;; kfree root) l m).
  { apply frees_then; [|intros; apply kfree_frees]. apply NoDup_app in Hnd as (Hn & Hd & _).
    apply (entries_frees 3 root m Hr (free_node_frees 3) (seq 0 256) ls m Hls); [|  |by intros| |done].
    - apply Forall_seq. unfold NPDENTRIES. lia.
    - intros Hi. apply (Hd root Hi). by apply list_elem_of_singleton.
    - intros p Hi. by destruct (Hp p) as [[? _] _]; [apply elem_of_app; left|]. }
  destruct (Hfr w f fl e Hc) as (m' & f' & Hrun & Hfl & Hs); [apply HA|done|done|].
  exists m', f', (reverse l). rewrite freevm_nodes, (proj2 (Z.eqb_neq root 0)) by (destruct Hr; lia).
  split_and!; [done|done|intros p; by rewrite elem_of_reverse|]. intros p Ha Hu. apply Hs; [done|by rewrite Hin].
Qed.
End freevm.
