(* ===== verification/UspaceSpec.v ===== *)
(** * What vm.c promises

    The theorems about page tables and address spaces, and a small machine on
    which they are applied. *)

From S2P Require Import Prelude Kernel Bytes Spinlock CString Kalloc Vm VmSpec Uspace.

Section claims.
  Context {image : KernelImage} {Hkend : HighImage}.

(** C34: the kernel and the processor read the same page tables.  For every user
    address of a well-formed table, [walkpgdir] without allocation returns the
    address of a page-table entry, or 0 where a level is missing, and the
    processor's translation is the one that entry gives: none when it is not
    present, or not writable for a store, and else the page of the entry at
    the offset of the address. *)
Theorem walk_is_mmu w m f root T st va e :
  pt_ok m root T → uva va →
  ∃ r, walkpgdir root va false (KS (vmw w m f) e) = Ok r (KS (vmw w m f) e) ∧
    mmu m root st va = r ≫= λ a, translate st (load64 m a) va.
Proof.
  intros HP Hva. eexists. split; [by apply walk_look|]. rewrite (mmu_pte m root T) by done.
  unfold walk_to, pte. destruct (T !! _) as [t|]; [done|]. unfold translate. by destruct st.
Qed.

(** The translations that mapping [n] pages at [a] to [pa] gives. *)
Definition remapped (a : Z) (n : nat) (pa perm : Z) (st : bool) (va : Z) (old : option Z) : option Z :=
  if decide (a ≤ va < a + Z.of_nat n * PGSIZE)
  then translate st (pa + (va / PGSIZE - a / PGSIZE) * PGSIZE + Z.lor perm PTE_P) va else old.


(** C36: [allocuvm] grows user memory.  It returns the new size; every byte
    of the pages above the old size, rounded up to whole pages, then reads as 0 and
    is the user's to read and write; every other user byte keeps its value,
    and the pages come off the free list. *)
Theorem allocuvm_grows w m f fl root T U oldsz newsz e :
  vm_calm w → as_ok m f fl root T U → 0 ≤ oldsz ≤ newsz → newsz < 2 ^ 47 →
  (4 * Z.to_nat (npages newsz - npages oldsz) ≤ length fl)%nat →
  (∀ v, npages oldsz ≤ v < npages newsz → U !! v = None) →
  ∃ m' f' fl' T' U', allocuvm root oldsz newsz (KS (vmw w m f) e) = Ok newsz (KS (vmw w m' f') e) ∧
    as_ok m' f' fl' root T' U' ∧ (∃ j, fl' = drop j fl) ∧
    uaccess U' PTE_RW (npages oldsz * PGSIZE) ((npages newsz - npages oldsz) * PGSIZE) ∧
    ∀ va, ub m' U' va = if decide (npages oldsz ≤ va / PGSIZE < npages newsz) then Some 0 else ub m U va.
Proof.
  intros Hc HA Ho Hn Hlen HU.
  destruct (allocuvm_ok w m f fl root T U oldsz newsz e) as (m' & f' & fl' & T' & U' & Hr & HA' & [G1 G2 G3 G4]); try done.
  pose proof (npages_mono oldsz newsz). rewrite Z2Nat.id in * by lia.
  exists m', f', fl', T', U'. split_and!; try done.
  - destruct (vs_drop _ _ _ _ _ _ _ G1) as (j & _ & ->). eauto.
  - intros x Hx. pose proof (Z.div_mod x PGSIZE ltac:(done)). pose proof (va_offset x).
    destruct (G3 (x / PGSIZE)) as (p & Hp & _); [unfold PGSIZE in *; lia|]. by exists p, PTE_RW.
  - intros va. rewrite G2. repeat case_decide; try done; lia.
Qed.

(** C37: [deallocuvm] shrinks user memory.  It returns the new size; no address
    above it, rounded up to whole pages, up to the old size is mapped any more,
    every other user byte keeps its value, and exactly the pages that were
    mapped there are back on the free list. *)
Theorem deallocuvm_shrinks w m f fl root T U oldsz newsz e :
  vm_calm w → as_ok m f fl root T U → 0 ≤ newsz < oldsz → oldsz < 2 ^ 47 →
  ∃ m' f' fl' U', deallocuvm root oldsz newsz (KS (vmw w m f) e) = Ok newsz (KS (vmw w m' f') e) ∧
    as_ok m' f' fl' root T U' ∧
    fl' = reverse (upages_in U (npages newsz) (Z.to_nat (npages oldsz - npages newsz))) ++ fl ∧
    ∀ va, ub m' U' va = if decide (npages newsz ≤ va / PGSIZE < npages oldsz) then None else ub m U va.
Proof.
  intros Hc HA Hn Ho.
  destruct (deallocuvm_ok w m f fl root T U oldsz newsz e) as (m' & f' & fl' & U' & Hr & HA' & [G1 G2 G3 G4]); try done.
  pose proof (npages_mono newsz oldsz). rewrite Z2Nat.id in G2 by lia.
  exists m', f', fl', U'. split_and!; try done. intros va. rewrite G2. repeat case_decide; try done; lia.
Qed.

(** C38: [copyout] delivers.  Bytes copied out to another address space, across
    page boundaries, are what its process, once it is on the CPU, reads through
    the processor at that address; all its other bytes are as before. *)
Theorem copyout_delivers w m f fl root T U va buf e :
  as_ok m f fl root T U → 0 ≤ va → va + Z.of_nat (length buf) ≤ 2 ^ 47 →
  uaccess U PTE_U va (Z.of_nat (length buf)) →
  ∃ m', copyout root va buf (KS (vmw w m f) e) = Ok 0 (KS (vmw w m' f) e) ∧ as_ok m' f fl root T U ∧
    (∀ w', on_cpu w' root →
       uload va (Z.of_nat (length buf)) (KS (vmw w' m' f) e) = Ok buf (KS (vmw w' m' f) e)) ∧
    ∀ x, ¬ (va ≤ x < va + Z.of_nat (length buf)) → ub m' U x = ub m U x.
Proof.
  intros HA H0 H1 HU. destruct (copyout_ok w m f fl root T U va buf e) as (m' & Hr & HW); try done.
  pose proof (uwrote_as _ _ _ _ _ _ _ _ _ HA HW) as HA'. exists m'. split_and!; try done.
  - intros w' Hc. unfold uload. rewrite Nat2Z.id. rewrite (uload_ok (length buf) w' m' f fl root T U); try done.
    + by rewrite (uwrote_read m U va buf m').
    + intros x Hx. destruct (HU x Hx) as (p & g & Hp & _). exists p, g. split; [done|]. by rewrite Z.land_0_r.
  - intros x Hx. by rewrite (uw_bytes _ _ _ _ _ HW), decide_False.
Qed.

(** C33: [copyuvm], the memory side of fork, makes a copy.  The child's space
    holds the parent's bytes, with the same rights, from the second page up to the
    size and nothing else; the parent's is unchanged; and the two share no page, so
    that whatever is written in one is not seen in the other. *)
Theorem copyuvm_copies w m f fl root T U sz e :
  vm_calm w → as_ok m f fl root T U → 0 ≤ sz < 2 ^ 32 →
  (4 * Z.to_nat (npages sz - 1) < length fl)%nat → (∀ v, 1 ≤ v < npages sz → is_Some (U !! v)) →
  ∃ d m' f' fl' Td Ud, copyuvm root sz (KS (vmw w m f) e) = Ok d (KS (vmw w m' f') e) ∧
    as_ok m' f' fl' root T U ∧ as_ok m' f' fl' d Td Ud ∧
    (∀ va, ub m' U va = ub m U va) ∧
    (∀ va, ub m' Ud va = if decide (1 ≤ va / PGSIZE < npages sz) then ub m U va else None) ∧
    (∀ v, 1 ≤ v < npages sz → snd <$> Ud !! v = snd <$> U !! v) ∧
    (∀ va buf m'', uwrote m' Ud va buf m'' → ∀ x, ub m'' U x = ub m U x) ∧
    (∀ va buf m'', uwrote m' U va buf m'' → ∀ x, ub m'' Ud x = ub m' Ud x).
Proof.
  intros Hc HA Hsz Hlen HU.
  destruct (copyuvm_ok w m f fl root T U sz e) as (d & m' & f' & fl' & Td & Ud & Hr & HA' & HAd & Hd & [C1 C2 C3]); try done.
  exists d, m', f', fl', Td, Ud. split_and!; try done.
  - intros va. rewrite C2. repeat case_decide; try done; lia.
  - intros v Hv. rewrite C3, decide_True by lia. done.
  - intros va buf m'' HW x. rewrite <- C1. by eapply uwrote_other.
  - intros va buf m'' HW x. eapply uwrote_other; [exact HAd| |done]. intros p Hp Hq. by eapply Hd.
Qed.
End claims.

(** ** A small machine *)

#[local] Instance vm_image : KernelImage := demo_end.
#[local] Instance vm_high : HighImage.
Proof. reflexivity. Qed.

(** Sixteen free pages above the kernel, chained through their first words. *)
Definition demo_page (i : nat) : Z := KERNBASE + EXTMEM + (Z.of_nat i + 1) * PGSIZE.
Definition demo_fl : list Z := demo_page <$> seq 0 16.
Definition demo_mem : mem :=
  foldr (λ i m, store64 m (demo_page i) (if decide (i = 15%nat) then 0 else demo_page (S i))) ∅ (seq 0 16).
Definition demo_vm : world := vmw (bss 0 []) demo_mem (demo_page 0).

Lemma demo_calm : vm_calm (bss 0 []).
Proof. repeat split; simpl; lia. Qed.

Lemma demo_freel : freel demo_mem (demo_page 0) demo_fl.
Proof.
  split.
  - vm_compute. repeat split.
  - apply (bool_decide_unpack _). vm_compute. exact I.
  - apply Forall_forall. intros v (i & -> & Hi)%list_elem_of_fmap. apply elem_of_seq in Hi.
    unfold page_ok, demo_page, V2P, KERNBASE, EXTMEM, PHYSTOP, PGSIZE. rewrite u64_small by lia. split_and!; try lia.
    + replace (_ + _ + _) with ((4503565267632128 + 256 + Z.of_nat i + 1) * 4096) by lia. by apply Z.mod_mul.
    + unfold kend, vm_image, demo_end, KERNBASE, EXTMEM. lia.
Qed.

(** An empty address space, and one of two pages from [PGSIZE] on. *)
Lemma demo_empty :
  ∃ m f, setupkvm (KS demo_vm []) = Ok (demo_page 0) (KS (vmw (bss 0 []) m f) []) ∧
    as_ok m f (drop 1 demo_fl) (demo_page 0) {[ (3%nat, 0) := demo_page 0 ]} ∅.
Proof.
  destruct (setupkvm_ok (bss 0 []) demo_mem (demo_page 0) (demo_page 0) (drop 1 demo_fl) [] demo_calm demo_freel)
    as (m & f & Hk & HA & _). exists m, f. split; [exact Hk|exact HA].
Qed.

Definition demo_setup : K Z := root ← setupkvm; allocuvm root PGSIZE (3 * PGSIZE) ;; mret root.

Lemma ub_empty m va : ub m ∅ va = None.
Proof. unfold ub. by rewrite lookup_empty. Qed.

Lemma demo_space :
  ∃ m f fl T U, demo_setup (KS demo_vm []) = Ok (demo_page 0) (KS (vmw (bss 0 []) m f) []) ∧
    as_ok m f fl (demo_page 0) T U ∧ (7 ≤ length fl)%nat ∧ uaccess U PTE_RW PGSIZE (2 * PGSIZE) ∧
    (∀ va, ub m U va = if decide (1 ≤ va / PGSIZE < 3) then Some 0 else None).
Proof.
  destruct demo_empty as (m1 & f1 & Hk & HA1).
  destruct (allocuvm_ok (bss 0 []) m1 f1 (drop 1 demo_fl) (demo_page 0) _ _ PGSIZE (3 * PGSIZE) [] demo_calm HA1)
    as (m & f & fl & T & U & Hr & HA & [G1 G2 G3 G4]); [split; discriminate|reflexivity|vm_compute; lia| |].
  { intros v _. apply lookup_empty. }
  change (Z.to_nat (npages (3 * PGSIZE) - npages PGSIZE)) with 2%nat in *. change (npages PGSIZE) with 1 in *.
  exists m, f, fl, T, U. unfold demo_setup. rewrite (bind_ok _ _ _ _ _ Hk), (bind_ok _ _ _ _ _ Hr).
  split; [reflexivity|]. split; [exact HA|]. split_and!.
  - pose proof (vstep_len _ _ _ _ _ _ _ G1) as Hl. cbn in Hl. lia.
  - intros x Hx. pose proof (Z.div_mod x PGSIZE ltac:(done)). pose proof (va_offset x).
    destruct (G3 (x / PGSIZE)) as (p & Hp & _); [unfold PGSIZE in *; lia|]. exists p, PTE_RW. split; [exact Hp|reflexivity].
  - intros va. rewrite G2, ub_empty. clear. repeat case_decide; first [reflexivity|lia].
Qed.

Lemma uaccess_le U need need' va n : Z.land need need' = need' → uaccess U need va n → uaccess U need' va n.
Proof.
  intros Hn HU x Hx. destruct (HU x Hx) as (p & g & Hp & Hg). exists p, g. split; [done|].
  rewrite <- Hn, Z.land_assoc. by rewrite Hg.
Qed.

Lemma walk_is_mmu_witness :
  ∃ m f r, walkpgdir (demo_page 0) PGSIZE false (KS (vmw (bss 0 []) m f) []) = Ok r (KS (vmw (bss 0 []) m f) []) ∧
    mmu m (demo_page 0) true PGSIZE = r ≫= λ a, translate true (load64 m a) PGSIZE.
Proof.
  destruct demo_space as (m & f & fl & T & U & _ & HA & _).
  destruct (walk_is_mmu (bss 0 []) m f (demo_page 0) T true PGSIZE []) as (r & H1 & H2); [apply HA|split; [discriminate|reflexivity]|].
  exists m, f, r. split; [exact H1|exact H2].
Defined.


Lemma allocuvm_grows_witness :
  ∃ m f m' f' U', allocuvm (demo_page 0) PGSIZE 9000 (KS (vmw (bss 0 []) m f) []) = Ok 9000 (KS (vmw (bss 0 []) m' f') []) ∧
    ub m' U' 10000 = Some 0 ∧ ub m' U' 4000 = None.
Proof.
  destruct demo_empty as (m & f & _ & HA).
  destruct (allocuvm_grows (bss 0 []) m f (drop 1 demo_fl) (demo_page 0) _ ∅ PGSIZE 9000 [] demo_calm HA)
    as (m' & f' & fl' & T' & U' & Hr & _ & _ & _ & Hb); [split; discriminate|reflexivity|vm_compute; lia|intros; apply lookup_empty|].
  exists m, f, m', f', U'. split_and!; [exact Hr|by rewrite Hb|by rewrite Hb].
Defined.

Lemma deallocuvm_shrinks_witness :
  ∃ m f m' f' U', deallocuvm (demo_page 0) (3 * PGSIZE) 5000 (KS (vmw (bss 0 []) m f) []) =
      Ok 5000 (KS (vmw (bss 0 []) m' f') []) ∧ ub m' U' 5000 = Some 0 ∧ ub m' U' 8192 = None.
Proof.
  destruct demo_space as (m & f & fl & T & U & _ & HA & _ & _ & Hb).
  destruct (deallocuvm_shrinks (bss 0 []) m f fl (demo_page 0) T U (3 * PGSIZE) 5000 [] demo_calm HA)
    as (m' & f' & fl' & U' & Hr & _ & _ & Hb'); [split; [discriminate|reflexivity]|reflexivity|].
  exists m, f, m', f', U'. split_and!; [exact Hr|by rewrite Hb', Hb|by rewrite Hb'].
Defined.

(** Four bytes across a page boundary. *)
Lemma copyout_delivers_witness :
  ∃ m f m', copyout (demo_page 0) 8190 [1; 2; 3; 4] (KS (vmw (bss 0 []) m f) []) = Ok 0 (KS (vmw (bss 0 []) m' f) []) ∧
    let w' := (bss 0 []) <| w_cpu ::= λ c, c <| cr3 := V2P (demo_page 0) |> |> in
    uload 8190 4 (KS (vmw w' m' f) []) = Ok [1; 2; 3; 4] (KS (vmw w' m' f) []).
Proof.
  destruct demo_space as (m & f & fl & T & U & _ & HA & _ & Hu & _).
  destruct (copyout_delivers (bss 0 []) m f fl (demo_page 0) T U 8190 [1; 2; 3; 4] [] HA)
    as (m' & Hr & _ & Hl & _); [done|done| |].
  { apply (uaccess_le _ PTE_RW); [done|]. intros x Hx. apply Hu. unfold PGSIZE. cbn in Hx. lia. }
  exists m, f, m'. split; [exact Hr|]. apply Hl. vm_compute. reflexivity.
Defined.

Lemma copyuvm_copies_witness :
  ∃ m f d m' f' Ud, copyuvm (demo_page 0) (2 * PGSIZE) (KS (vmw (bss 0 []) m f) []) = Ok d (KS (vmw (bss 0 []) m' f') []) ∧
    ub m' Ud 5000 = Some 0 ∧ ub m' Ud 9000 = None.
Proof.
  destruct demo_space as (m & f & fl & T & U & _ & HA & Hl & Hu & Hb).
  destruct (copyuvm_copies (bss 0 []) m f fl (demo_page 0) T U (2 * PGSIZE) [] demo_calm HA)
    as (d & m' & f' & fl' & Td & Ud & Hr & _ & _ & _ & Hc & _); [done| | |].
  { vm_compute (4 * _)%nat. lia. }
  { intros v Hv. destruct (Hu (v * PGSIZE)) as (p & g & Hp & _); [vm_compute (npages _) in Hv; unfold PGSIZE; lia|].
    rewrite Z.div_mul in Hp by done. by exists (p, g). }
  exists m, f, d, m', f', Ud. split_and!; [exact Hr|by rewrite Hc, Hb|by rewrite Hc].
Defined.
