(* ===== verification/File.v ===== *)
(** * file.c: the file table, and pipealloc of pipe.c

    An open file is a slot of [ftable] with a reference count, shared by file
    descriptors and processes; reads and writes go to a pipe or, through the
    offset kept in the slot, to an inode.  Reads return their result with the
    bytes stored at [addr]; writes take the bytes at [addr]. *)

From S2P Require Import Prelude Kernel Bytes Spinlock CString Kalloc Sched Sleeplock Disk Bio Log Pipe Inode Console Fs.

Definition getf (f : nat) : K file :=
  r ← getw (λ w, w_files w !! f); munwrap "ftable.file" r.
Definition modf (f : nat) (g : file → file) : K unit :=
  modw (λ w, w <| w_files ::= alter g f |>).

Lemma getf_eq f x w e : w_files w !! f = Some x → getf f (KS w e) = Ok x (KS w e).
Proof. intros H. unfold getf. kstep. by rewrite H. Qed.

Definition fileinit : K unit := initlock L_ftable "ftable".

Definition filealloc : K (option nat) :=
  acquire L_ftable ;;
  l ← getw w_files;
  match list_find (λ f, f_ref f = 0) l with
  | Some (f, _) =>
      modf f (λ x, x <| f_ref := 1 |>) ;;
      release L_ftable ;;
      mret (Some f)
  | None => release L_ftable ;; mret None
  end.

Definition filedup (f : nat) : K nat :=
  acquire L_ftable ;;
  x ← getf f;
  if f_ref x <? 1 then panic "filedup" else
  modf f (λ x, x <| f_ref ::= λ n, s32 (n + 1) |>) ;;
  release L_ftable ;;
  mret f.

Section file.
  Context {image : KernelImage} {D : DiskDriver}.

(** What closing the last reference to the file [ff] does. *)
Definition close_last (ff : file) : K unit :=
  match f_type ff with
  | FD_PIPE => pipeclose (f_pipe ff) (writable ff)
  | FD_INODE =>
      begin_op ;;
      ip ← munwrap "ff.ip" (f_ip ff);
      iput ip ;;
      end_op
  | FD_NONE => mret tt
  end.

Definition fileclose (f : nat) : K unit :=
  acquire L_ftable ;;
  x ← getf f;
  if f_ref x <? 1 then panic "fileclose" else
  modf f (λ x, x <| f_ref ::= λ n, n - 1 |>) ;;
  ff ← getf f;
  if f_ref ff >? 0 then release L_ftable else
  modf f (λ x, x <| f_ref := 0 |>) ;;
  modf f (λ x, x <| f_type := FD_NONE |>) ;;
  release L_ftable ;;
  close_last ff.

(** The result and what is stored at [st]. *)
Definition filestat (f : nat) : K (Z * option stat) :=
  x ← getf f;
  if decide (f_type x = FD_INODE) then
    ilock (f_ip x) ;;
    ip ← munwrap "f->ip" (f_ip x);
    st ← stati ip;
    iunlock (f_ip x) ;;
    mret (0, Some st)
  else mret (-1, None).

Definition fileread (f : nat) (n : Z) : K (Z * list Z) :=
  x ← getf f;
  if readable x =? 0 then mret (-1, []) else
  match f_type x with
  | FD_PIPE => piperead (f_pipe x) n
  | FD_INODE =>
      ilock (f_ip x) ;;
      ip ← munwrap "f->ip" (f_ip x);
      x ← getf f;
      '(r, got) ← readi ip (f_off x) (u32 n);
      (if r >? 0 then modf f (λ x, x <| f_off ::= λ o, u32 (o + r) |>) else mret tt) ;;
      iunlock (f_ip x) ;;
      mret (r, got)
  | FD_NONE => panic "fileread"
  end.

(** [int max = ((LOGSIZE-1-1-2) / 2) * 512;] *)
Definition max_write : Z := (LOGSIZE - 1 - 1 - 2) / 2 * 512.

(** The loop of [filewrite] over the bytes still to write; [false] when a
    [writei] failed. *)
Fixpoint filewrite_loop (fuel : nat) (f : nat) (addr : list Z) : K bool :=
  match addr with
  | [] => mret true
  | _ =>
      match fuel with
      | O => mstop OutOfFuel
      | S n =>
          let n1 := Z.min (Z.of_nat (length addr)) max_write in
          begin_op ;;
          x ← getf f;
          ilock (f_ip x) ;;
          ip ← munwrap "f->ip" (f_ip x);
          x ← getf f;
          r ← writei ip (take (Z.to_nat n1) addr) (f_off x);
          (if r >? 0 then modf f (λ x, x <| f_off ::= λ o, u32 (o + r) |>) else mret tt) ;;
          iunlock (f_ip x) ;;
          end_op ;;
          if r <? 0 then mret false
          else if negb (r =? n1) then panic "short filewrite"
          else filewrite_loop n f (drop (Z.to_nat n1) addr)
      end
  end.

Definition filewrite (f : nat) (addr : list Z) : K Z :=
  x ← getf f;
  if writable x =? 0 then mret (-1) else
  match f_type x with
  | FD_PIPE => pipewrite (f_pipe x) addr
  | FD_INODE =>
      ok ← filewrite_loop (S (Z.to_nat (Z.of_nat (length addr) / max_write))) f addr;
      mret (if (ok : bool) then Z.of_nat (length addr) else -1)
  | FD_NONE => panic "filewrite"
  end.

(** ** pipe.c: pipealloc *)

(** [p->data] starts after the 104 bytes of the pipe's spin lock; the page's
    old bytes stay in it. *)
Definition sizeof_spinlock : Z := 104.

(** The label [bad]. *)
Definition pipealloc_bad (p : Z) (f0 f1 : option nat) : K unit :=
  (if negb (p =? 0) then kfree p else mret tt) ;;
  (match f0 with Some f => fileclose f | None => mret tt end) ;;
  (match f1 with Some f => fileclose f | None => mret tt end).

Definition pipealloc : K (option (nat * nat)) :=
  f0 ← filealloc;
  match f0 with
  | None => pipealloc_bad 0 None None ;; mret None
  | Some f0 =>
      f1 ← filealloc;
      match f1 with
      | None => pipealloc_bad 0 (Some f0) None ;; mret None
      | Some f1 =>
          p ← kalloc;
          if p =? 0 then pipealloc_bad 0 (Some f0) (Some f1) ;; mret None else
          modw (λ w, w <| w_pipes ::=
            <[p := mk_pipe (rd_bytes (w_mem w) (p + sizeof_spinlock) (Z.to_nat PIPESIZE)) 0 0 1 1]> |>) ;;
          initlock (L_pipe p) "pipe" ;;
          modf f0 (λ x, x <| f_type := FD_PIPE |> <| readable := 1 |> <| writable := 0 |>
                          <| f_pipe := p |>) ;;
          modf f1 (λ x, x <| f_type := FD_PIPE |> <| readable := 0 |> <| writable := 1 |>
                          <| f_pipe := p |>) ;;
          mret (Some (f0, f1))
      end
  end.
End file.
