(* ===== verification/Proc.v ===== *)
(** * proc.c, second part: the life of a process

    Creation ([allocproc], [userinit], [fork]), growth, exit and [wait].  The
    trap frame and the saved context of a process, which lie on its kernel
    stack, are the fields [tf] and [p_context] of its slot. *)

From S2P Require Import Prelude Kernel Bytes Spinlock CString Kalloc Sched Sleeplock Disk Bio Log Pipe Inode Console Fs Vm File.

Definition FL_IF : Z := 0x200.

Definition pinit : K unit := initlock L_ptable "ptable".

Section proc.
  Context {image : KernelImage} {D : DiskDriver}.

(** The context [allocproc] builds: all registers zero, resuming in [forkret]. *)
Definition fork_context : context := mk_context 0 0 0 0 0 0 K_forkret.

(** The new trap frame is uninitialised memory of the new stack; it is written
    by [userinit] and [fork] before anything reads it. *)
Definition allocproc : K (option nat) :=
  acquire L_ptable ;;
  l ← getw w_procs;
  match list_find (λ p, state p = UNUSED) l with
  | None => release L_ptable ;; mret None
  | Some (i, _) =>
      modp i (λ p, p <| state := EMBRYO |>) ;;
      n ← getw w_nextpid;
      modw (λ w, w <| w_nextpid := s32 (n + 1) |>) ;;
      modp i (λ p, p <| pid := n |>) ;;
      release L_ptable ;;
      ks ← kalloc;
      modp i (λ p, p <| kstack := ks |>) ;;
      if ks =? 0 then modp i (λ p, p <| state := UNUSED |>) ;; mret None else
      modp i (λ p, p <| p_context := fork_context |>) ;;
      mret (Some i)
  end.

(** The process whose slot is [i], a null pointer being a fault. *)
Definition userinit (initcode : list Z) : K unit :=
  p ← allocproc;
  modw (λ w, w <| w_initproc := p |>) ;;
  i ← munwrap "userinit" p;
  d ← setupkvm;
  modp i (λ p, p <| pgdir := d |>) ;;
  if d =? 0 then panic "userinit: out of memory?" else
  inituvm d initcode ;;
  modp i (λ p, p <| sz := PGSIZE * 2 |>) ;;
  modp i (λ p, p <| tf := zero_tf |>) ;;
  modp i (λ p, p <| tf ::= λ t, t <| tf_r11 := FL_IF |> |>) ;;
  modp i (λ p, p <| tf ::= λ t, t <| tf_rsp := sz p |> |>) ;;
  modp i (λ p, p <| tf ::= λ t, t <| tf_rcx := PGSIZE |> |>) ;;
  p ← getp i;
  nm ← munwrap "p->name" (safestrcpy (p_name p) (cstr "initcode") 16);
  modp i (λ p, p <| p_name := nm |>) ;;
  c ← namei (cstr "/");
  modp i (λ p, p <| cwd := c |>) ;;
  modp i (λ p, p <| state := RUNNABLE |>).

Definition growproc (n : Z) : K Z :=
  i ← myproc;
  p ← getp i;
  r ← (if n >? 0 then
         s ← allocuvm (pgdir p) (sz p) (u64 (sz p + n));
         mret (if s =? 0 then None else Some s)
       else if n <? 0 then
         s ← deallocuvm (pgdir p) (sz p) (u64 (sz p + n));
         mret (if s =? 0 then None else Some s)
       else mret (Some (sz p)));
  match r with
  | None => mret (-1)
  | Some s =>
      modp i (λ p, p <| sz := s |>) ;;
      switchuvm i ;;
      mret 0
  end.

(** [if(proc->ofile[fd]) np->ofile[fd] = filedup(proc->ofile[fd]);] *)
Definition fork_file (i np fd : nat) : K unit :=
  p ← getp i;
  match ofile p !! fd with
  | Some (Some f) =>
      f' ← filedup f;
      modp np (λ p, p <| ofile ::= <[fd := Some f']> |>)
  | _ => mret tt
  end.

Definition fork : K Z :=
  np ← allocproc;
  match np with
  | None => mret (-1)
  | Some np =>
      i ← myproc;
      p ← getp i;
      d ← copyuvm (pgdir p) (sz p);
      modp np (λ p, p <| pgdir := d |>) ;;
      if d =? 0 then
        q ← getp np;
        kfree (kstack q) ;;
        modp np (λ p, p <| kstack := 0 |>) ;;
        modp np (λ p, p <| state := UNUSED |>) ;;
        mret (-1)
      else
        p ← getp i;
        modp np (λ q, q <| sz := sz p |>) ;;
        modp np (λ q, q <| parent := Some i |>) ;;
        modp np (λ q, q <| tf := tf p |>) ;;
        modp np (λ q, q <| tf ::= λ t, t <| tf_rax := 0 |> |>) ;;
        iterM (fork_file i np) (seq 0 NOFILE) ;;
        p ← getp i;
        d ← munwrap "proc->cwd" (cwd p);
        c ← idup d;
        modp np (λ q, q <| cwd := Some c |>) ;;
        q ← getp np;
        p ← getp i;
        nm ← munwrap "np->name" (safestrcpy (p_name q) (p_name p) 16);
        modp np (λ q, q <| p_name := nm |>) ;;
        q ← getp np;
        let pid := pid q in
        modp np (λ q, q <| state := RUNNABLE |>) ;;
        mret pid
  end.

(** [if(proc->ofile[fd]) { fileclose(proc->ofile[fd]); proc->ofile[fd] = 0; }] *)
Definition exit_file (i fd : nat) : K unit :=
  p ← getp i;
  match ofile p !! fd with
  | Some (Some f) =>
      fileclose f ;;
      modp i (λ p, p <| ofile ::= <[fd := None]> |>)
  | _ => mret tt
  end.

(** Pass child [j] of process [i] to init. *)
Definition reparent (i j : nat) : K unit :=
  p ← getp j;
  if decide (parent p = Some i) then
    ini ← getw w_initproc;
    modp j (λ p, p <| parent := ini |>) ;;
    p ← getp j;
    if decide (state p = ZOMBIE) then
      k ← munwrap "initproc" ini;
      wakeup1 (C_proc k)
    else mret tt
  else mret tt.

(** [sched()] of a process that is ZOMBIE: the scheduler never switches back to
    its context, which [allocproc] replaces when the slot is used again. *)
Definition sched_zombie {A} : K A :=
  h ← holding L_ptable;
  if negb h then panic "sched ptable.lock" else
  n ← getw (λ w, ncli (w_cpu w));
  if negb (n =? 1) then panic "sched locks" else
  fl ← getw (λ w, IF (w_cpu w));
  if (fl : bool) then panic "sched interruptible" else
  mstop Exited.

Definition exit {A} : K A :=
  i ← myproc;
  ini ← getw w_initproc;
  if decide (Some i = ini) then panic "init exiting" else
  iterM (exit_file i) (seq 0 NOFILE) ;;
  begin_op ;;
  p ← getp i;
  c ← munwrap "proc->cwd" (cwd p);
  iput c ;;
  end_op ;;
  modp i (λ p, p <| cwd := None |>) ;;
  acquire L_ptable ;;
  p ← getp i;
  (match parent p with Some j => wakeup1 (C_proc j) | None => mret tt end) ;;
  iterM (reparent i) (seq 0 NPROC) ;;
  modp i (λ p, p <| state := ZOMBIE |>) ;;
  sched_zombie.

(** One turn of the loop of [wait]: a child that exited is freed and its pid
    returned; with no children, or killed, the result is -1; else the process
    sleeps. *)
Definition wait_turn : K (option Z) :=
  i ← myproc;
  l ← getw w_procs;
  match list_find (λ p, parent p = Some i ∧ state p = ZOMBIE) l with
  | Some (j, p) =>
      kfree (kstack p) ;;
      modp j (λ p, p <| kstack := 0 |>) ;;
      freevm (pgdir p) ;;
      modp j (λ p, p <| pid := 0 |> <| parent := None |> <| p_name ::= <[0%nat := 0]> |>
                     <| killed := 0 |> <| state := UNUSED |>) ;;
      release L_ptable ;;
      mret (Some (pid p))
  | None =>
      let havekids := existsb (λ p, bool_decide (parent p = Some i)) l in
      p ← getp i;
      if negb havekids || negb (killed p =? 0) then
        release L_ptable ;; mret (Some (-1))
      else
        sleep (C_proc i) (Some L_ptable) ;;
        mret None
  end.

Definition wait : K Z :=
  acquire L_ptable ;;
  foreverK wait_turn.

Definition forkret : K unit :=
  release L_ptable ;;
  f ← getw w_first;
  if negb (f =? 0) then
    modw (λ w, w <| w_first := 0 |>) ;;
    iinit ROOTDEV ;;
    initlog ROOTDEV
  else mret tt.
End proc.
