(* ===== verification/Syscall.v ===== *)
(** * syscall.c: fetching the arguments of a system call

    Arguments come in registers saved in the trap frame; pointers are checked
    against the process's size and dereferenced through its page table.  A
    string argument is read, with its terminator, when it is checked: no other
    thread writes a process's memory. *)

From S2P Require Import Prelude Kernel Bytes Spinlock CString Kalloc Sched Sleeplock Disk Bio Log Inode Console Fs Vm.

Definition curproc : K proc := i ← myproc; getp i.

Section syscall.
  Context {image : KernelImage}.

Definition fetchint (addr : Z) : K (option Z) :=
  p ← curproc;
  if (addr <? PGSIZE) || (addr >=? sz p) || (u64 (addr + 4) >? sz p) then mret None else
  l ← uload addr 4;
  mret (Some (s32 (le_val l))).

Definition fetchaddr (addr : Z) : K (option Z) :=
  p ← curproc;
  if (addr <? PGSIZE) || (addr >=? sz p) || (u64 (addr + 8) >? sz p) then mret None else
  l ← uload addr 8;
  mret (Some (le_val l)).

(** The bytes from [s] up to the terminator, within the next [n]. *)
Fixpoint fetchstr_from (n : nat) (s : Z) : K (option (list Z)) :=
  match n with
  | O => mret None
  | S n =>
      l ← uload s 1;
      let c := le_val l in
      if c =? 0 then mret (Some [0]) else
      r ← fetchstr_from n (s + 1);
      mret (cons c <$> r)
  end.

Definition fetchstr (addr : Z) : K (option (list Z)) :=
  p ← curproc;
  if (addr <? PGSIZE) || (addr >=? sz p) then mret None else
  fetchstr_from (Z.to_nat (sz p - addr)) addr.

Definition fetcharg (n : Z) : K Z :=
  p ← curproc;
  let t := tf p in
  match n with
  | 0 => mret (tf_rdi t)
  | 1 => mret (tf_rsi t)
  | 2 => mret (tf_rdx t)
  | 3 => mret (tf_r10 t)
  | 4 => mret (tf_r8 t)
  | 5 => mret (tf_r9 t)
  | _ => panic "failed fetch"
  end.

(** [argint] and [argaddr] always return 0. *)
Definition argint (n : Z) : K Z := x ← fetcharg n; mret (s32 x).
Definition argaddr (n : Z) : K Z := fetcharg n.

Definition argptr (n size : Z) : K (option Z) :=
  i ← argaddr n;
  p ← curproc;
  if (size <? 0) || (u32 i >=? sz p) || (u32 (u32 i + size) >? sz p) then mret None
  else mret (Some i).

Definition argstr (n : Z) : K (option (list Z)) :=
  addr ← argint n;
  fetchstr (u64 addr).
End syscall.
