(* ===== verification/Exec.v ===== *)
(** * exec.c, elf.h: running a program

    [exec] reads an ELF file, builds a new address space with the program's
    segments, a guard page and a stack holding the arguments, and commits to
    it only at the end. *)

From S2P Require Import Prelude Kernel Bytes Spinlock CString Kalloc Sched Sleeplock Disk Bio Log Inode Console Fs Vm Syscall.

(** ** elf.h *)

Definition ELF_MAGIC : Z := 0x464C457F.
Definition ELF_PROG_LOAD : Z := 1.
Definition sizeof_elf : Z := 64.
Definition elf_magic (d : list Z) : Z := get 4 0 d.
Definition elf_entry (d : list Z) : Z := get 8 24 d.
Definition elf_phoff (d : list Z) : Z := get 8 32 d.
Definition elf_phnum (d : list Z) : Z := get 2 56 d.

Definition sizeof_ph : Z := 56.
Definition ph_type (d : list Z) : Z := get 4 0 d.
Definition ph_off (d : list Z) : Z := get 8 8 d.
Definition ph_vaddr (d : list Z) : Z := get 8 16 d.
Definition ph_filesz (d : list Z) : Z := get 8 32 d.
Definition ph_memsz (d : list Z) : Z := get 8 40 d.

Section exec.
  Context {image : KernelImage} {D : DiskDriver}.

(** ** The parts of exec *)

(** One program header: the new size, or [None] for the jump to [bad]. *)
Definition load_segment (pgdir : Z) (ip : nat) (off sz : Z) : K (option Z) :=
  '(r, ph) ← readi ip (u32 off) sizeof_ph;
  if negb (r =? sizeof_ph) then mret None
  else if negb (ph_type ph =? ELF_PROG_LOAD) then mret (Some sz)
  else if ph_memsz ph <? ph_filesz ph then mret None
  else if u64 (ph_vaddr ph + ph_memsz ph) <? ph_vaddr ph then mret None
  else
    sz ← allocuvm pgdir sz (u64 (ph_vaddr ph + ph_memsz ph));
    if sz =? 0 then mret None
    else if negb (ph_vaddr ph mod PGSIZE =? 0) then mret None
    else
      r ← loaduvm pgdir (ph_vaddr ph) ip (ph_off ph) (ph_filesz ph);
      if r <? 0 then mret None else mret (Some sz).

Fixpoint load_segments (phnum : nat) (pgdir : Z) (ip : nat) (off sz : Z) : K (option Z) :=
  match phnum with
  | O => mret (Some sz)
  | S n =>
      r ← load_segment pgdir ip off sz;
      match r with
      | None => mret None
      | Some sz => load_segments n pgdir ip (s32 (off + sizeof_ph)) sz
      end
  end.

(** The bytes of a string before its terminator. *)
Fixpoint cbytes (s : list Z) : list Z :=
  match s with
  | [] => []
  | c :: s => if c =? 0 then [] else c :: cbytes s
  end.

(** [sp = (sp - (strlen(s) + 1)) & ~(sizeof(addr_t)-1)]. *)
Definition push_sp (sp : Z) (s : list Z) : Z :=
  Z.ldiff (u64 (sp - (Z.of_nat (length (cbytes s)) + 1))) 7.

(** The loop that pushes the argument strings: the stack pointer and the
    addresses of the strings, or [None] for the jump to [bad]. *)
Fixpoint push_args (pgdir sp argc : Z) (argv : list (list Z)) (ustack : list Z)
  : K (option (Z * list Z)) :=
  match argv with
  | [] => mret (Some (sp, ustack))
  | s :: argv =>
      if argc >=? MAXARG then mret None else
      let sp := push_sp sp s in
      r ← copyout pgdir sp (cbytes s ++ [0]);
      if r <? 0 then mret None else
      push_args pgdir sp (argc + 1) argv (ustack ++ [sp])
  end.

(** [for(last=s=path; *s; s++) if( *s == '/') last = s+1;] *)
Fixpoint last_elem (s last : list Z) : list Z :=
  match s with
  | [] => last
  | c :: s' =>
      if c =? 0 then last else last_elem s' (if c =? 47 then s' else last)
  end.

(** The label [bad]. *)
Definition exec_bad (pgdir : Z) (ip : option nat) : K Z :=
  (if negb (pgdir =? 0) then freevm pgdir else mret tt) ;;
  (match ip with Some ip => iunlockput ip ;; end_op | None => mret tt end) ;;
  mret (-1).

(** Commit to the new image. *)
Definition exec_commit (i : nat) (pgdir0 sz0 entry sp oldpgdir : Z) : K Z :=
  modp i (λ p, p <| pgdir := pgdir0 |>) ;;
  modp i (λ p, p <| sz := sz0 |>) ;;
  modp i (λ p, p <| tf ::= λ t, t <| tf_rip := entry |> |>) ;;
  modp i (λ p, p <| tf ::= λ t, t <| tf_rcx := entry |> |>) ;;
  modp i (λ p, p <| tf ::= λ t, t <| tf_rsp := sp |> |>) ;;
  switchuvm i ;;
  freevm oldpgdir ;;
  mret 0.

(** From the two stack pages on: the segments are loaded, the inode is put. *)
Definition exec_stack (i : nat) (path : list Z) (argv : list (list Z)) (pgdir0 sz entry oldpgdir : Z)
  : K Z :=
  let sz := PGROUNDUP sz in
  sz ← allocuvm pgdir0 sz (u64 (sz + 2 * PGSIZE));
  if sz =? 0 then exec_bad pgdir0 None else
  clearpteu pgdir0 (u64 (sz - 2 * PGSIZE)) ;;
  r ← push_args pgdir0 sz 0 argv [];
  match r with
  | None => exec_bad pgdir0 None
  | Some (sp, args) =>
      let argc := Z.of_nat (length args) in
      let ustack := 0xffffffffffffffff :: args ++ [0] in
      modp i (λ p, p <| tf ::= λ t, t <| tf_rdi := argc |> |>) ;;
      modp i (λ p, p <| tf ::= λ t, t <| tf_rsi := u64 (sp - (argc + 1) * 8) |> |>) ;;
      let sp := u64 (sp - (1 + argc + 1) * 8) in
      r ← copyout pgdir0 sp (concat (le_bytes 8 <$> ustack));
      if r <? 0 then exec_bad pgdir0 None else
      p ← getp i;
      nm ← munwrap "proc->name" (safestrcpy (p_name p) (last_elem path path) 16);
      modp i (λ p, p <| p_name := nm |>) ;;
      exec_commit i pgdir0 sz entry sp oldpgdir
  end.

Definition exec (path : list Z) (argv : list (list Z)) : K Z :=
  i ← myproc;
  p ← getp i;
  let oldpgdir := pgdir p in
  begin_op ;;
  ip ← namei path;
  match ip with
  | None => end_op ;; mret (-1)
  | Some ip =>
      ilock (Some ip) ;;
      '(r, elf) ← readi ip 0 sizeof_elf;
      if negb (r =? sizeof_elf) then exec_bad 0 (Some ip)
      else if negb (elf_magic elf =? ELF_MAGIC) then exec_bad 0 (Some ip)
      else
        pgdir ← setupkvm;
        if pgdir =? 0 then exec_bad 0 (Some ip) else
        sz ← load_segments (Z.to_nat (elf_phnum elf)) pgdir ip (s32 (elf_phoff elf)) PGSIZE;
        match sz with
        | None => exec_bad pgdir (Some ip)
        | Some sz =>
            iunlockput ip ;;
            end_op ;;
            exec_stack i path argv pgdir sz (elf_entry elf) oldpgdir
        end
  end.
End exec.
