(* ===== verification/ProcSpec.v ===== *)
(** * The life of a process

    [fork] makes a process that differs from its parent only in what it must, and
    [wait] takes a child that exited apart again: every page it had goes
    back to the free list.  Both are stated on the whole kernel state. *)

From S2P Require Import Prelude Kernel Bytes Spinlock CString Kalloc Sched Sleeplock Disk Bio Log Pipe Inode Console Fs Vm VmSpec Uspace Freevm UspaceSpec File Proc Syscall Exec.

Section spec.
  Context {image : KernelImage} {Hkend : HighImage} {D : DiskDriver}.

(** ** Processes and the allocator *)

(** A slot's changes commute with those of memory. *)
Lemma modp_vmw i g w m f e :
  modp i g (KS (vmw w m f) e) = Ok tt (KS (vmw (w <| w_procs ::= alter g i |>) m f) e).
Proof. unfold modp, vmw. rewrite modw_eq. weq. Qed.

Lemma getp_vmw i p w m f e : w_procs w !! i = Some p → getp i (KS (vmw w m f) e) = Ok p (KS (vmw w m f) e).
Proof. intros Hp. apply getp_eq. unfold vmw. by rsimpl. Qed.

Lemma vm_calm_acquired w lk :
  at_ease w → lock_free w L_kmem → lk ≠ L_kmem → vm_calm (acquired lk w).
Proof.
  intros [[Hc Hb] Hn] Hk Hne. split; [apply calm_acquired; [done|lia]|].
  by apply lock_free_acquired.
Qed.

(** ** [wait] *)

(** The slot of a process that has been waited for. *)
Definition reaped (c : proc) : proc :=
  c <| kstack := 0 |> <| pid := 0 |> <| parent := None |> <| p_name ::= <[0%nat := 0]> |>
    <| killed := 0 |> <| state := UNUSED |>.

Lemma wait_turn_reaps w m f fl i j c T U e :
  vm_calm w → w_proc w = Some i →
  list_find (λ p, parent p = Some i ∧ state p = ZOMBIE) (w_procs w) = Some (j, c) →
  as_ok m f fl (pgdir c) T U → page_ok (kstack c) → kstack c ∉ fl → ¬ uses T U (kstack c) →
  ∃ m' f' l,
    wait_turn (KS (vmw w m f) e) =
      (release L_ptable ;; mret (Some (pid c))) (KS (vmw (w <| w_procs := <[j := reaped c]> (w_procs w) |>) m' f') e) ∧
    freel m' f' (l ++ fl) ∧ (∀ p, p ∈ l ↔ p = kstack c ∨ uses T U p) ∧
    (∀ p, p mod PGSIZE = 0 → p ∉ l → same_page m m' p).
Proof.
  intros Hc Hi Hfind HA Hks Hnf Hnu.
  pose proof (vm_free _ _ _ _ _ (as_vm _ _ _ _ _ _ HA)) as Hf.
  destruct (kfree_frees (kstack c) m w f fl e Hc Hf) as (m1 & f1 & Hk & Hf1 & Hs1);
    [apply NoDup_singleton|by intros p ->%list_elem_of_singleton|].
  change (reverse [kstack c] ++ fl) with (kstack c :: fl) in Hf1.
  assert (HA1 : as_ok m1 f1 (kstack c :: fl) (pgdir c) T U).
  { apply (as_frame m f fl); [done|done| |].
    - intros p [->|Hp]%elem_of_cons; [right|by left]. split; [intros k Hk'|intros v g Hv]; apply Hnu; [left|right]; eauto.
    - intros k t Ht. apply Hs1; [by eapply (proj1 (as_pages_aligned _ _ _ _ _ _ HA))|]. intros ->%list_elem_of_singleton. apply Hnu. left. eauto. }
  destruct (freevm_ok (w <| w_procs ::= alter (λ p, p <| kstack := 0 |>) j |>) m1 f1 (kstack c :: fl) (pgdir c) T U e)
    as (m2 & f2 & l & Hv & Hf2 & Hl & Hs2); [by unfold vm_calm, calm, lock_free in *; rsimpl|done|].
  exists m2, f2, (l ++ [kstack c]). split_and!.
  - unfold wait_turn, myproc. kstep. unfold vmw at 1. rsimpl. rewrite Hi. kstep. unfold vmw at 1. rsimpl. rewrite Hfind.
    rewrite (bind_ok _ _ _ _ _ Hk), (bind_ok _ _ _ _ _ (modp_vmw _ _ _ _ _ _)), (bind_ok _ _ _ _ _ Hv),
      (bind_ok _ _ _ _ _ (modp_vmw _ _ _ _ _ _)).
    do 2 f_equal. unfold vmw. f_equal. weq.
    apply list_find_Some in Hfind as (Hj & _). 
    rewrite alter_alter. erewrite alter_is_insert by done. done.
  - by rewrite <- (assoc_L (++)).
  - intros p. rewrite elem_of_app, Hl, list_elem_of_singleton. tauto.
  - intros p Ha Hp. rewrite elem_of_app, Hl in Hp. eapply same_page_trans; [apply Hs1|apply Hs2]; tauto.
Qed.

(** C10: [wait] takes an exited child apart.  With a child that is a ZOMBIE it
    returns the child's pid at once; the child's slot is free and the rest of the kernel's
    state is as it was, except that the free list has gained exactly the child's
    kernel stack, its page tables and its user pages, and no other page of memory
    has been written. *)
Theorem wait_reaps w f fl i j c T U e :
  at_ease w → lock_free w L_ptable → lock_free w L_kmem → w_proc w = Some i →
  list_find (λ p, parent p = Some i ∧ state p = ZOMBIE) (w_procs w) = Some (j, c) →
  as_ok (w_mem w) f fl (pgdir c) T U → freelist (w_kmem w) = f →
  page_ok (kstack c) → kstack c ∉ fl → ¬ uses T U (kstack c) →
  ∃ m' f' l,
    wait (KS w e) = Ok (pid c) (KS (vmw (w <| w_procs := <[j := reaped c]> (w_procs w) |>) m' f') e) ∧
    freel m' f' (l ++ fl) ∧ (∀ p, p ∈ l ↔ p = kstack c ∨ uses T U p) ∧
    (∀ p, p mod PGSIZE = 0 → p ∉ l → same_page (w_mem w) m' p).
Proof.
  intros He Hpt Hkm Hi Hfind HA Hfr Hks Hnf Hnu. unfold wait.
  rewrite (bind_ok _ _ _ _ _ (acquire_free L_ptable w e (proj1 Hpt))).
  destruct (wait_turn_reaps (acquired L_ptable w) (w_mem w) f fl i j c T U e) as (m' & f' & l & Hr & Hf' & Hl & Hs);
    try done; try by (unfold acquired; rsimpl).
  { by apply vm_calm_acquired. }
  exists m', f', l. split_and!; try done. unfold foreverK. cbn [loopM].
  assert (Hw : vmw (acquired L_ptable w) (w_mem w) f = acquired L_ptable w).
  { rewrite <- Hfr. apply (vmw_self (acquired L_ptable w)). }
  rewrite Hw in Hr. set (w1 := vmw _ m' f') in Hr.
  assert (Hrel : release L_ptable (KS w1 e) = Ok tt (KS (w1 <| w_cpu := w_cpu w |> <| w_locks := w_locks w |>) e)).
  { apply release_calm; [apply He|done|by unfold w1, vmw; rsimpl|by unfold w1, vmw; rsimpl]. }
  rewrite (bind_ok _ _ _ _ _ Hrel) in Hr. rewrite (bind_ok _ _ _ _ _ Hr). unfold w1, vmw, acquired, mret, M_ret. weq.
Qed.

(** ** [fork] *)

(** The name is copied. *)
Lemma safestrcpy_at_ok n : ∀ s i t,
  (i + n < length s)%nat → (n ≤ length t)%nat →
  ∃ nm, safestrcpy_at s i t n = Some nm ∧ length nm = length s ∧ take i nm = take i s ∧
    cbytes (drop i nm) = cbytes (take n t).
Proof.
  induction n as [|n IH]; intros s i t Hi Ht; cbn [safestrcpy_at].
  - destruct (lookup_lt_is_Some_2 s i) as [x Hx]; [lia|]. rewrite Hx. cbn [mbind option_bind].
    exists (<[i := 0]> s). split_and!; [done|apply length_insert|by apply take_insert_ge|].
    rewrite (drop_S _ 0) by (apply list_lookup_insert_eq; lia). done.
  - destruct t as [|c t]; [cbn in Ht; lia|]. cbn [list.head tail mbind option_bind take cbytes].
    destruct (lookup_lt_is_Some_2 s i) as [x Hx]; [lia|]. rewrite Hx. cbn [mbind option_bind].
    destruct (Z.eqb_spec c 0) as [->|Hc].
    + destruct (lookup_lt_is_Some_2 s (S i)) as [y Hy]; [lia|]. rewrite Hy. cbn [mbind option_bind].
      eexists. split_and!; [done|by rewrite !length_insert|by rewrite !take_insert_ge by lia|].
      rewrite (drop_S _ 0); [done|]. rewrite list_lookup_insert_ne by lia. apply list_lookup_insert_eq. lia.
    + destruct (IH (<[i := c]> s) (S i) t) as (nm & H1 & H2 & H3 & H4); [rewrite length_insert; lia|cbn in Ht; lia|].
      exists nm. rewrite length_insert in H2. split; [exact H1|]. split; [exact H2|]. split.
      * apply (f_equal (take i)) in H3. rewrite !take_take in H3. replace (i `min` S i)%nat with i in H3 by lia.
        rewrite H3. by apply take_insert_ge.
      * rewrite (drop_S _ c); [cbn [cbytes]; rewrite (proj2 (Z.eqb_neq c 0)) by done; by rewrite H4|].
        assert (E : take (S i) nm !! i = Some c) by (rewrite H3, lookup_take_lt by lia; apply list_lookup_insert_eq; lia).
        by rewrite lookup_take_lt in E by lia.
Qed.

Lemma cbytes_take t n : 0 ∈ t → (length t ≤ S n)%nat → cbytes (take n t) = cbytes t.
Proof.
  revert n; induction t as [|c t IH]; intros n Hin Hl; [by destruct n|].
  destruct n as [|n]; cbn [take cbytes length] in *.
  - destruct t; [|cbn in Hl; lia]. apply elem_of_cons in Hin as [<-|?%not_elem_of_nil]; done.
  - destruct (Z.eqb_spec c 0) as [|Hc]; [done|]. f_equal. apply IH; [set_solver|lia].
Qed.

Lemma safestrcpy_name s t :
  length s = 16%nat → length t = 16%nat → 0 ∈ t →
  ∃ nm, safestrcpy s t 16 = Some nm ∧ length nm = 16%nat ∧ cbytes nm = cbytes t.
Proof.
  intros Hs Ht Hin. destruct (safestrcpy_at_ok 15 s 0 t) as (nm & H1 & H2 & _ & H4); [lia|lia|].
  exists nm. split_and!; [done|lia|]. rewrite drop_0 in H4. rewrite H4. apply cbytes_take; [done|lia].
Qed.

(** One more reference to each open file. *)
Fixpoint dup_all (fs : list (option nat)) (l : list file) : list file :=
  match fs with
  | [] => l
  | None :: fs => dup_all fs l
  | Some f :: fs => dup_all fs (alter (λ x, x <| f_ref ::= λ n, n + 1 |>) f l)
  end.

(** The open files can be referred to [n] more times. *)
Definition room_for (n : nat) (fs : list (option nat)) (l : list file) : Prop :=
  ∀ f, Some f ∈ fs → ∃ x, l !! f = Some x ∧ 1 ≤ f_ref x ∧ f_ref x + Z.of_nat n < 2 ^ 31.

Lemma filedup_ok f x w e :
  calm w → lock_free w L_ftable → w_files w !! f = Some x → 1 ≤ f_ref x < 2 ^ 31 - 1 →
  filedup f (KS w e) = Ok f (KS (w <| w_files ::= alter (λ x, x <| f_ref ::= λ n, n + 1 |>) f |>) e).
Proof.
  intros Hc Hl Hx Hr. unfold filedup. kcall (acquire_free L_ftable w e (proj1 Hl)).
  rewrite (bind_ok _ _ _ _ _ (getf_eq f x (acquired L_ftable w) e ltac:(by unfold acquired; rsimpl))).
  replace (f_ref x <? 1) with false by lia. unfold modf. rewrite bind_modw.
  erewrite bind_ok; [|apply (release_calm L_ftable w); done || by rsimpl]. unfold mret, M_ret, acquired. weq.
  rewrite !(alter_is_insert _ _ _ _ Hx). f_equal. destruct x; cbn in *; usetf; cbn. f_equal. apply s32_small. lia.
Qed.

Lemma room_dup n f fs l :
  room_for (S n) fs l → room_for n fs (alter (λ x, x <| f_ref ::= λ n, n + 1 |>) f l).
Proof.
  intros H g Hg. destruct (H g Hg) as (x & Hx & Hr). destruct (decide (f = g)) as [->|Hne].
  - exists (x <| f_ref ::= λ n, n + 1 |>). rewrite list_lookup_alter_eq, Hx. rsimpl. split; [done|lia].
  - exists x. rewrite list_lookup_alter_ne by done. split; [done|lia].
Qed.

(** One descriptor of the parent. *)
Lemma fork_file_ok i np fd o w p c e :
  calm w → lock_free w L_ftable → w_procs w !! i = Some p → w_procs w !! np = Some c → ofile p !! fd = Some o →
  ofile c !! fd = Some None → room_for 1 [o] (w_files w) →
  fork_file i np fd (KS w e) =
    Ok tt (KS (w <| w_files := dup_all [o] (w_files w) |> <| w_procs := <[np := c <| ofile := <[fd := o]> (ofile c) |>]> (w_procs w) |>) e).
Proof.
  intros Hc Hl Hp Hnp Ho Hco Hroom. unfold fork_file. rewrite (bind_ok _ _ _ _ _ (getp_eq i p w e Hp)), Ho.
  destruct o as [f|]; cbn [dup_all].
  - destruct (Hroom f ltac:(by left)) as (x & Hx & Hr).
    rewrite (bind_ok _ _ _ _ _ (filedup_ok f x w e Hc Hl Hx ltac:(lia))). unfold modp. rewrite modw_eq. weq.
    rewrite (alter_is_insert _ _ _ _ Hnp). by f_equal.
  - unfold mret, M_ret. weq. symmetry. rewrite (list_insert_id _ _ _ Hco).
    replace (c <| ofile := ofile c |>) with c by (by destruct c; usetf). by apply list_insert_id.
Qed.

Lemma room_cons n o fs l : room_for (S n) (o :: fs) l → room_for 1 [o] l ∧ room_for n fs (dup_all [o] l).
Proof.
  intros H. split.
  - intros f E%list_elem_of_singleton. subst o. destruct (H f ltac:(by left)) as (x & Hx & Hr). exists x. split; [done|lia].
  - assert (H' : room_for (S n) fs l) by (intros f Hf; apply H; by right).
    destruct o as [f|]; cbn [dup_all]; [by apply room_dup|]. intros f Hf. destruct (H' f Hf) as (x & Hx & Hr).
    exists x. split; [done|lia].
Qed.

(** The loop over the descriptors: [pre] has been copied, [rest] not yet. *)
Lemma fork_files i np : ∀ rest pre w p c e,
  calm w → lock_free w L_ftable → i ≠ np → w_procs w !! i = Some p → w_procs w !! np = Some c →
  ofile p = pre ++ rest → ofile c = pre ++ replicate (length rest) None → room_for (length rest) rest (w_files w) →
  iterM (fork_file i np) (seq (length pre) (length rest)) (KS w e) =
    Ok tt (KS (w <| w_files := dup_all rest (w_files w) |> <| w_procs := <[np := c <| ofile := ofile p |>]> (w_procs w) |>) e).
Proof.
  induction rest as [|o rest IH]; intros pre w p c e Hc Hl Hne Hp Hnp Ep Ec Hroom; cbn [length seq iterM].
  - cbn [length replicate dup_all] in *. rewrite app_nil_r in *. unfold mret, M_ret. weq. symmetry. rewrite Ep, <- Ec.
    replace (c <| ofile := ofile c |>) with c by (by destruct c; usetf). by apply list_insert_id.
  - cbn [length replicate] in *. destruct (room_cons _ _ _ _ Hroom) as [Hr1 Hr2].
    rewrite (bind_ok _ _ _ _ _ (fork_file_ok i np (length pre) o w p c e Hc Hl Hp Hnp
      ltac:(rewrite Ep; by apply list_lookup_middle) ltac:(rewrite Ec; by apply list_lookup_middle) Hr1)).
    assert (Hlen : S (length pre) = length (pre ++ [o])) by (rewrite length_app; cbn; lia).
    assert (Eins : <[length pre := o]> (ofile c) = (pre ++ [o]) ++ replicate (length rest) None).
    { rewrite Ec, <- (assoc_L (++)). replace (length pre) with (length pre + 0)%nat by lia. by rewrite insert_app_r. }
    rewrite Hlen, (IH _ _ p (c <| ofile := <[length pre := o]> (ofile c) |>)); rsimpl.
    + weq; [|by destruct o]. rewrite list_insert_insert_eq. by f_equal.
    + done.
    + done.
    + done.
    + by rewrite list_lookup_insert_ne.
    + apply list_lookup_insert_eq. by eapply lookup_lt_Some.
    + by rewrite <- (assoc_L (++)).
    + done.
    + done.
Qed.

(** The slot [allocproc] hands out. *)
Definition embryo (w : world) (q : proc) (ks : Z) : proc :=
  q <| state := EMBRYO |> <| pid := w_nextpid w |> <| kstack := ks |> <| p_context := fork_context |>.

Lemma allocproc_ok w m f fl ks np q e :
  at_ease w → lock_free w L_ptable → lock_free w L_kmem →
  list_find (λ p, state p = UNUSED) (w_procs w) = Some (np, q) → freel m f (ks :: fl) →
  allocproc (KS (vmw w m f) e) =
    Ok (Some np) (KS (vmw (w <| w_procs := <[np := embryo w q ks]> (w_procs w) |>
                             <| w_nextpid := s32 (w_nextpid w + 1) |>) m (load64 m ks)) e).
Proof.
  intros He Hpt Hkm Hfind Hf. destruct (proj1 (list_find_Some _ _ _ _) Hfind) as (Hq & _).
  assert (Hpt' : lock_free (vmw w m f) L_ptable) by (unfold lock_free, vmw in *; by rsimpl).
  assert (Hc' : calm (vmw w m f)) by (unfold calm, vmw; rsimpl; apply He).
  unfold allocproc. rewrite (bind_ok _ _ _ _ _ (acquire_free L_ptable (vmw w m f) e (proj1 Hpt'))).
  assert (E1 : w_procs (acquired L_ptable (vmw w m f)) = w_procs w) by (unfold acquired, vmw; by rsimpl).
  assert (E2 : w_nextpid (acquired L_ptable (vmw w m f)) = w_nextpid w) by (unfold acquired, vmw; by rsimpl).
  kstep. rewrite E1, Hfind. unfold modp. kstep. rewrite E2.
  erewrite bind_ok; [|apply (release_calm L_ptable (vmw w m f)); done || by rsimpl].
  match goal with |- context [(kalloc ≫= _) (KS ?u e)] =>
    replace u with (vmw (w <| w_procs ::= alter (λ p, p <| state := EMBRYO |> <| pid := w_nextpid w |>) np |>
                           <| w_nextpid := s32 (w_nextpid w + 1) |>) m f) end.
  2: { unfold acquired, vmw. weq. rewrite alter_alter. reflexivity. }
  destruct (kalloc_vm (w <| w_procs ::= alter (λ p, p <| state := EMBRYO |> <| pid := w_nextpid w |>) np |>
                           <| w_nextpid := s32 (w_nextpid w + 1) |>) m f ks fl e) as (Hk & _ & Hp & _); [|done|].
  { unfold vm_calm, calm, lock_free in *. rsimpl. split; [apply He|done]. }
  rewrite (bind_ok _ _ _ _ _ Hk). kstep. rewrite (proj2 (Z.eqb_neq ks 0)) by (destruct Hp; lia). kstep.
  unfold mret, M_ret, vmw. weq. rewrite !alter_alter. by rewrite (alter_is_insert _ _ _ _ Hq).
Qed.

Lemma idup_eq c x w e :
  calm w → lock_free w L_icache → w_inodes w !! c = Some x → 0 ≤ i_ref x < 2 ^ 31 - 1 →
  idup c (KS w e) = Ok c (KS (w <| w_inodes ::= alter (λ x, x <| i_ref ::= λ n, n + 1 |>) c |>) e).
Proof.
  intros Hc Hl Hx Hr. unfold idup, modi. rewrite (bind_ok _ _ _ _ _ (acquire_free L_icache w e (proj1 Hl))). rewrite bind_modw.
  erewrite bind_ok; [|apply (release_calm L_icache w); done || by rsimpl]. unfold mret, M_ret, acquired. weq.
  rewrite !(alter_is_insert _ _ _ _ Hx). f_equal. destruct x; cbn in *; usetf; cbn. f_equal. apply s32_small. lia.
Qed.

(** A process [p] in slot [i] that can fork: there is a free slot [np], memory, and room in
    the reference counts.  A free slot has no open files, and the names are
    strings. *)
Record can_fork (w : world) (i : nat) (p : proc) (np : nat) (q : proc) (ks f : Z) (fl : list Z)
    (T : tables) (U : upages) (c : nat) (x : inode) : Prop := {
  cf_ease : at_ease w;
  cf_locks lk : lk ∈ [L_ptable; L_kmem; L_ftable; L_icache] → lock_free w lk;
  cf_proc : w_proc w = Some i;
  cf_parent : w_procs w !! i = Some p;
  cf_running : state p = RUNNING;
  cf_slot : list_find (λ p, state p = UNUSED) (w_procs w) = Some (np, q);
  cf_free : freelist (w_kmem w) = f;
  cf_space : as_ok (w_mem w) f (ks :: fl) (pgdir p) T U;
  cf_size : 0 ≤ sz p < 2 ^ 32;
  cf_mapped v : 1 ≤ v < npages (sz p) → is_Some (U !! v);
  cf_memory : (4 * Z.to_nat (npages (sz p) - 1) < length fl)%nat;
  cf_files : length (ofile p) = NOFILE;
  cf_nofiles : ofile q = replicate NOFILE None;
  cf_room : room_for NOFILE (ofile p) (w_files w);
  cf_cwd : cwd p = Some c;
  cf_inode : w_inodes w !! c = Some x;
  cf_iref : 0 ≤ i_ref x < 2 ^ 31 - 1;
  cf_name : length (p_name p) = 16%nat;
  cf_str : 0 ∈ p_name p;
  cf_name' : length (p_name q) = 16%nat
}.

(** The child. *)
Definition child (w : world) (i : nat) (p q : proc) (ks d : Z) (nm : list Z) : proc :=
  q <| state := RUNNABLE |> <| pid := w_nextpid w |> <| parent := Some i |> <| sz := sz p |> <| pgdir := d |>
    <| kstack := ks |> <| p_context := fork_context |> <| tf := (tf p) <| tf_rax := 0 |> |>
    <| ofile := ofile p |> <| cwd := cwd p |> <| p_name := nm |>.

(** The kernel's tables after the fork. *)
Definition with_child (w : world) (np : nat) (ch p : proc) (c : nat) : world :=
  w <| w_procs := <[np := ch]> (w_procs w) |> <| w_nextpid := s32 (w_nextpid w + 1) |>
    <| w_files := dup_all (ofile p) (w_files w) |>
    <| w_inodes := alter (λ x, x <| i_ref ::= λ n, n + 1 |>) c (w_inodes w) |>.

Section fork.
Context w i p np q ks f fl T U c x (HF : can_fork w i p np q ks f fl T U c x).

Lemma cf_ne : i ≠ np.
Proof using HF.
  intros ->. destruct (proj1 (list_find_Some _ _ _ _) (cf_slot _ _ _ _ _ _ _ _ _ _ _ _ HF)) as (Hq & Hs & _).
  pose proof (cf_parent _ _ _ _ _ _ _ _ _ _ _ _ HF) as Hp. pose proof (cf_running _ _ _ _ _ _ _ _ _ _ _ _ HF).
  rewrite Hp in Hq. injection Hq as ->. congruence.
Qed.

End fork.

(** ** One slot at a time *)

Definition slot (w : world) (n : nat) (c : proc) : world := w <| w_procs := <[n := c]> (w_procs w) |>.

Section slot.
Context w n c0 (Hn : w_procs w !! n = Some c0).

Lemma modp_slot g c e : modp n g (KS (slot w n c) e) = Ok tt (KS (slot w n (g c)) e).
Proof using Hn.
  unfold modp, slot. rewrite modw_eq. weq.
  rewrite (alter_is_insert _ _ _ c) by (apply list_lookup_insert_eq; by eapply lookup_lt_Some).
  by rewrite list_insert_insert_eq.
Qed.

Lemma getp_slot c e : getp n (KS (slot w n c) e) = Ok c (KS (slot w n c) e).
Proof using Hn. apply getp_eq. unfold slot. rsimpl. apply list_lookup_insert_eq. by eapply lookup_lt_Some. Qed.

Lemma getp_slot_ne i p c e : i ≠ n → w_procs w !! i = Some p → getp i (KS (slot w n c) e) = Ok p (KS (slot w n c) e).
Proof using. intros Hi Hp. apply getp_eq. unfold slot. rsimpl. by rewrite list_lookup_insert_ne. Qed.
End slot.

(** The end of [fork]: the child takes over files, directory and name. *)
Definition inherit (i np : nat) : K Z :=
  iterM (fork_file i np) (seq 0 NOFILE) ;;
  p ← getp i;
  d ← munwrap "proc->cwd" (cwd p);
  c ← idup d;
  modp np (λ q, q <| cwd := Some c |>) ;;
  q ← getp np;
  p ← getp i;
  nm ← munwrap "np->name" (safestrcpy (p_name q) (p_name p) 16);
  modp np (λ q, q <| p_name := nm |>) ;;
  q ← getp np;
  modp np (λ q, q <| state := RUNNABLE |>) ;;
  mret (pid q).

Lemma inherit_ok i np w p q c d x nm e :
  calm w → lock_free w L_ftable → lock_free w L_icache → i ≠ np →
  w_procs w !! i = Some p → w_procs w !! np = Some q →
  length (ofile p) = NOFILE → ofile c = replicate NOFILE None → room_for NOFILE (ofile p) (w_files w) →
  cwd p = Some d → w_inodes w !! d = Some x → 0 ≤ i_ref x < 2 ^ 31 - 1 →
  safestrcpy (p_name c) (p_name p) 16 = Some nm →
  inherit i np (KS (slot w np c) e) =
    Ok (pid c) (KS (slot (w <| w_files := dup_all (ofile p) (w_files w) |>
                            <| w_inodes ::= alter (λ x, x <| i_ref ::= λ n, n + 1 |>) d |>) np
                      (c <| ofile := ofile p |> <| cwd := Some d |> <| p_name := nm |> <| state := RUNNABLE |>)) e).
Proof.
  intros Hc Hl3 Hl4 Hne Hp Hq Hlen Hnone Hroom Hcwd Hx Hr Hnm. unfold inherit.
  set (w1 := w <| w_files := dup_all (ofile p) (w_files w) |>).
  set (w2 := w1 <| w_inodes ::= alter (λ x, x <| i_ref ::= λ n, n + 1 |>) d |>).
  assert (Hf : iterM (fork_file i np) (seq 0 NOFILE) (KS (slot w np c) e) = Ok tt (KS (slot w1 np (c <| ofile := ofile p |>)) e)).
  { pose proof (fork_files i np (ofile p) [] (slot w np c) p c e) as H. cbn [length app] in H. rewrite Hlen in H.
    rewrite H; try done; unfold slot, w1; rsimpl; try done.
    - weq. by rewrite list_insert_insert_eq.
    - by rewrite list_lookup_insert_ne.
    - apply list_lookup_insert_eq. by eapply lookup_lt_Some. }
  assert (Hid : ∀ c, idup d (KS (slot w1 np c) e) = Ok d (KS (slot w2 np c) e)).
  { intros c'. rewrite (idup_eq d x); unfold slot, w2, w1, calm, lock_free in *; rsimpl; done. }
  assert (H1 : w_procs w1 !! i = Some p) by (unfold w1; by rsimpl).
  assert (H2 : w_procs w2 !! i = Some p) by (unfold w2, w1; by rsimpl).
  assert (H3 : w_procs w2 !! np = Some q) by (unfold w2, w1; by rsimpl).
  rewrite (bind_ok _ _ _ _ _ Hf), (bind_ok _ _ _ _ _ (getp_slot_ne w1 np i p _ e Hne H1)), Hcwd, bind_munwrap.
  rewrite (bind_ok _ _ _ _ _ (Hid _)), (bind_ok _ _ _ _ _ (modp_slot w2 np q H3 _ _ e)).
  rewrite (bind_ok _ _ _ _ _ (getp_slot w2 np q H3 _ e)), (bind_ok _ _ _ _ _ (getp_slot_ne w2 np i p _ e Hne H2)).
  rsimpl. rewrite Hnm, bind_munwrap, (bind_ok _ _ _ _ _ (modp_slot w2 np q H3 _ _ e)).
  rewrite (bind_ok _ _ _ _ _ (getp_slot w2 np q H3 _ e)), (bind_ok _ _ _ _ _ (modp_slot w2 np q H3 _ _ e)). by rsimpl.
Qed.

(** C8: [fork] makes a child that differs from its parent only in what it must.  It
    returns the child's new pid; the child is RUNNABLE, will return 0 from the
    same system call with the same registers, and has the parent's size, name, open files and
    current directory, whose reference counts have grown by the new references; its user
    memory holds the parent's bytes in pages of its own.  The parent and every other process
    are as they were. *)
Theorem fork_child w i p np q ks f fl T U c x e :
  can_fork w i p np q ks f fl T U c x →
  ∃ d nm m' f' fl' Td Ud,
    fork (KS w e) = Ok (w_nextpid w) (KS (vmw (with_child w np (child w i p q ks d nm) p c) m' f') e) ∧
    cbytes nm = cbytes (p_name p) ∧
    as_ok m' f' fl' (pgdir p) T U ∧ as_ok m' f' fl' d Td Ud ∧ disjoint T U Td Ud ∧
    (∀ va, ub m' U va = ub (w_mem w) U va) ∧
    (∀ va, ub m' Ud va = if decide (1 ≤ va / PGSIZE < npages (sz p)) then ub (w_mem w) U va else None).
Proof.
  intros HF. pose proof (cf_ne _ _ _ _ _ _ _ _ _ _ _ _ HF) as Hne. destruct HF.
  destruct (proj1 (list_find_Some _ _ _ _) cf_slot0) as (Hq & _).
  assert (Hlk : lock_free w L_ptable ∧ lock_free w L_kmem ∧ lock_free w L_ftable ∧ lock_free w L_icache)
    by (split_and!; apply cf_locks0; set_solver). destruct Hlk as (Hl1 & Hl2 & Hl3 & Hl4).
  destruct (safestrcpy_name (p_name q) (p_name p)) as (nm & Hnm & _ & Hstr); [done..|].
  destruct (as_take (w_mem w) f ks fl (pgdir p) T U (w_mem w) cf_space0) as (HA & _); [done|].
  set (w0 := w <| w_nextpid := s32 (w_nextpid w + 1) |>).
  destruct (copyuvm_ok (slot w0 np (embryo w q ks)) (w_mem w) (load64 (w_mem w) ks) fl (pgdir p) T U (sz p) e)
    as (d & m' & f' & fl' & Td & Ud & Hcp & HA' & HAd & Hd & [C1 C2 C3]); [|done|done|done|done|].
  { unfold vm_calm, calm, lock_free, slot, w0 in *. rsimpl. split; [apply cf_ease0|done]. }
  exists d, nm, m', f', fl', Td, Ud. split_and!; try done.
  2: { intros va. rewrite C2. repeat case_decide; try done; lia. }
  assert (Hd0 : d ≠ 0).
  { pose proof (vm_pt _ _ _ _ _ (as_vm _ _ _ _ _ _ HAd)) as HP. pose proof (pt_page _ _ _ HP _ _ (pt_root _ _ _ HP)) as (_ & _ & _ & ?). lia. }
  unfold fork. replace (KS w e) with (KS (vmw w (w_mem w) f) e) by (by rewrite <- cf_free0, vmw_self).
  rewrite (bind_ok _ _ _ _ _ (allocproc_ok w (w_mem w) f fl ks np q e cf_ease0 Hl1 Hl2 cf_slot0
    (vm_free _ _ _ _ _ (as_vm _ _ _ _ _ _ cf_space0)))).
  match goal with |- context [KS (vmw ?u _ _) e] => replace u with (slot w0 np (embryo w q ks)) by (unfold slot, w0; weq) end.
  unfold myproc. rewrite bind_bind, bind_getw. replace (w_proc _) with (Some i) by (unfold vmw, slot, w0; by rsimpl).
  rewrite bind_munwrap.
  erewrite bind_ok; [|apply (getp_vmw _ p); unfold slot, w0; rsimpl; by rewrite list_lookup_insert_ne].
  rewrite (bind_ok _ _ _ _ _ Hcp).
  set (W := vmw w0 m' f'). replace (vmw (slot w0 np (embryo w q ks)) m' f') with (slot W np (embryo w q ks))
    by (unfold slot, W, vmw; weq).
  assert (HWi : w_procs W !! i = Some p) by (unfold W, vmw, w0; by rsimpl).
  assert (HWn : w_procs W !! np = Some q) by (unfold W, vmw, w0; by rsimpl).
  rewrite (bind_ok _ _ _ _ _ (modp_slot W np q HWn _ _ e)), (proj2 (Z.eqb_neq d 0)) by done.
  rewrite (bind_ok _ _ _ _ _ (getp_slot_ne W np i p _ e Hne HWi)).
  do 4 rewrite (bind_ok _ _ _ _ _ (modp_slot W np q HWn _ _ e)).
  etransitivity; [apply (inherit_ok i np W p q _ c x nm e)|]; rsimpl; try done;
    try (unfold W, vmw, w0, calm, lock_free in *; rsimpl; done || apply cf_ease0).
  replace (pid (embryo w q ks)) with (w_nextpid w) by (unfold embryo; by rsimpl).
  unfold slot, W, vmw, with_child, w0, child, embryo. weq. f_equal.
  apply proc_eq; rsimpl; done.
Qed.
End spec.

(** ** A machine with one process *)

#[local] Existing Instance vm_image.
#[local] Existing Instance vm_high.

Definition demo_parent : proc :=
  zero_proc <| state := RUNNING |> <| pid := 1 |> <| pgdir := demo_page 0 |> <| sz := 2 * PGSIZE |> <| cwd := Some 0%nat |>.

Definition demo_machine (c : proc) (m : mem) (f : Z) : world :=
  (bss 0 []) <| w_mem := m |> <| w_kmem := mk_kmem false f |> <| w_proc := Some 0%nat |> <| w_nextpid := 2 |>
    <| w_procs := demo_parent :: c :: replicate 62 zero_proc |>.

Lemma demo_ease c m f : at_ease (demo_machine c m f).
Proof. unfold at_ease, calm, demo_machine. rsimpl. vm_compute. repeat split; discriminate. Qed.

Lemma demo_locks c m f lk : lock_free (demo_machine c m f) lk.
Proof. unfold lock_free, demo_machine. rsimpl. split; reflexivity. Qed.

Lemma fork_child_witness :
  ∃ m ks d nm m' f' fl' Td Ud,
    fork (KS (demo_machine zero_proc m ks) []) =
      Ok 2 (KS (vmw (with_child (demo_machine zero_proc m ks) 1
                       (child (demo_machine zero_proc m ks) 0 demo_parent zero_proc ks d nm) demo_parent 0) m' f') []) ∧
    as_ok m' f' fl' d Td Ud.
Proof.
  destruct demo_space as (m & f & fl & T & U & _ & HA & Hlen & Hu & _).
  destruct fl as [|ks fl]; [cbn in Hlen; lia|].
  assert (Hf : f = ks) by (by destruct (fr_chain _ _ _ (vm_free _ _ _ _ _ (as_vm _ _ _ _ _ _ HA)))). rewrite Hf in HA.
  destruct (fork_child (demo_machine zero_proc m ks) 0 demo_parent 1 zero_proc ks ks fl T U 0 zero_inode [])
    as (d & nm & m' & f' & fl' & Td & Ud & Hr & _ & _ & HAd & _).
  { split; try (unfold demo_machine; rsimpl; reflexivity).
    - apply demo_ease.
    - intros lk _. apply demo_locks.
    - replace (w_mem _) with m by (unfold demo_machine; rsimpl; reflexivity). exact HA.
    - split; [discriminate|reflexivity].
    - intros v Hv. change (npages (sz demo_parent)) with 2 in Hv.
      destruct (Hu (v * PGSIZE)) as (p & g & Hp & _); [unfold PGSIZE; lia|].
      rewrite Z.div_mul in Hp by discriminate. by exists (p, g).
    - change (4 * Z.to_nat (npages (sz demo_parent) - 1))%nat with 4%nat. cbn in Hlen. lia.
    - intros g Hg. exfalso. change (ofile demo_parent) with (replicate NOFILE (@None nat)) in Hg.
      apply elem_of_replicate in Hg as [Hg _]. discriminate.
    - split; [discriminate|reflexivity].
    - change (p_name demo_parent) with (replicate 16 0). apply elem_of_replicate. split; [reflexivity|discriminate]. }
  exists m, ks, d, nm, m', f', fl', Td, Ud. split; [exact Hr|exact HAd].
Defined.

(** A child that exited, with an address space of no pages. *)
Definition demo_zombie : proc :=
  zero_proc <| state := ZOMBIE |> <| pid := 7 |> <| parent := Some 0%nat |> <| pgdir := demo_page 0 |> <| kstack := demo_page 16 |>.

Lemma wait_reaps_witness :
  ∃ m f m' f' l,
    wait (KS (demo_machine demo_zombie m f) []) =
      Ok 7 (KS (vmw ((demo_machine demo_zombie m f) <| w_procs := demo_parent :: reaped demo_zombie :: replicate 62 zero_proc |>)
                  m' f') []) ∧
    freel m' f' (l ++ drop 1 demo_fl) ∧ demo_page 16 ∈ l ∧ demo_page 0 ∈ l.
Proof.
  destruct demo_empty as (m & f & _ & HA).
  destruct (wait_reaps (demo_machine demo_zombie m f) f (drop 1 demo_fl) 0 1 demo_zombie {[ (3%nat, 0) := demo_page 0 ]} ∅ [])
    as (m' & f' & l & Hr & Hf & Hl & _).
  - apply demo_ease.
  - apply demo_locks.
  - apply demo_locks.
  - unfold demo_machine; rsimpl; reflexivity.
  - unfold demo_machine; rsimpl; reflexivity.
  - replace (w_mem _) with m by (unfold demo_machine; rsimpl; reflexivity). exact HA.
  - unfold demo_machine; rsimpl; reflexivity.
  - vm_compute. repeat split; discriminate.
  - apply (bool_decide_unpack _). vm_compute. exact I.
  - intros [[k Hk]|(v & g & Hv)].
    + apply lookup_singleton_Some in Hk as [_ Hk]. discriminate.
    + rewrite lookup_empty in Hv. discriminate.
  - exists m, f, m', f', l. split_and!; [|exact Hf|apply Hl; left; reflexivity|apply Hl; right; left; exists (3%nat, 0); reflexivity].
    etransitivity; [exact Hr|]. unfold demo_machine. rsimpl. reflexivity.
Defined.
