(* ===== verification/ExitSpec.v ===== *)
(** * The end of a process

    [exit] of a process whose files and directory others hold too: the references
    are given back, its children are handed to init, the parent is woken and the
    process is left as a ZOMBIE, with the process table locked for the scheduler. *)

From S2P Require Import Prelude Kernel Bytes Spinlock CString Kalloc Sched Sleeplock Disk Bio Log Pipe Inode Console Fs Vm VmSpec Uspace Freevm UspaceSpec File Proc Syscall Exec ProcSpec LogTx.

Section spec.
  Context {image : KernelImage} {D : DiskDriver}.

(** ** Closing the files *)

(** One reference to each open file given back. *)
Fixpoint close_all (fs : list (option nat)) (l : list file) : list file :=
  match fs with
  | [] => l
  | None :: fs => close_all fs l
  | Some f :: fs => close_all fs (alter (λ x, x <| f_ref ::= λ n, n - 1 |>) f l)
  end.

(** Each file has a reference besides those given back. *)
Fixpoint shared (fs : list (option nat)) (l : list file) : Prop :=
  match fs with
  | [] => True
  | None :: fs => shared fs l
  | Some f :: fs =>
      (∃ x, l !! f = Some x ∧ 1 < f_ref x) ∧ shared fs (alter (λ x, x <| f_ref ::= λ n, n - 1 |>) f l)
  end.

Lemma fileclose_shared f x w e :
  calm w → lock_free w L_ftable → w_files w !! f = Some x → 1 < f_ref x →
  fileclose f (KS w e) = Ok tt (KS (w <| w_files ::= alter (λ x, x <| f_ref ::= λ n, n - 1 |>) f |>) e).
Proof.
  intros Hc Hl Hx Hr. unfold fileclose. rewrite (bind_ok _ _ _ _ _ (acquire_free L_ftable w e (proj1 Hl))).
  rewrite (bind_ok _ _ _ _ _ (getf_eq f x (acquired L_ftable w) e ltac:(by unfold acquired; rsimpl))).
  replace (f_ref x <? 1) with false by lia. unfold modf. rewrite bind_modw.
  set (x' := x <| f_ref ::= λ n, n - 1 |>).
  assert (Hx' : w_files ((acquired L_ftable w) <| w_files ::= alter (λ x, x <| f_ref ::= λ n, n - 1 |>) f |>) !! f = Some x')
    by (unfold acquired; rsimpl; by rewrite list_lookup_alter_eq, Hx).
  rewrite (bind_ok _ _ _ _ _ (getf_eq f x' _ e Hx')). replace (f_ref x' >? 0) with true by (unfold x'; rsimpl; lia).
  rewrite (release_calm L_ftable w); [|done|done|by rsimpl|by rsimpl]. unfold acquired. weq.
Qed.

Lemma exit_file_ok i fd o w p e :
  calm w → lock_free w L_ftable → w_procs w !! i = Some p → ofile p !! fd = Some o → shared [o] (w_files w) →
  exit_file i fd (KS w e) =
    Ok tt (KS (slot (w <| w_files := close_all [o] (w_files w) |>) i (p <| ofile := <[fd := None]> (ofile p) |>)) e).
Proof.
  intros Hc Hl Hp Ho Hsh. unfold exit_file. rewrite (bind_ok _ _ _ _ _ (getp_eq i p w e Hp)), Ho.
  destruct o as [f|]; cbn [close_all shared] in *.
  - destruct Hsh as [(x & Hx & Hr) _]. rewrite (bind_ok _ _ _ _ _ (fileclose_shared f x w e Hc Hl Hx Hr)).
    unfold modp, slot. rewrite modw_eq. weq. by rewrite (alter_is_insert _ _ _ _ Hp).
  - unfold mret, M_ret, slot. weq. symmetry. rewrite (list_insert_id _ _ _ Ho).
    replace (p <| ofile := ofile p |>) with p by (by destruct p; usetf). by apply list_insert_id.
Qed.

Lemma close_files i : ∀ rest n w p e,
  calm w → lock_free w L_ftable → w_procs w !! i = Some p →
  ofile p = replicate n None ++ rest → shared rest (w_files w) →
  iterM (exit_file i) (seq n (length rest)) (KS w e) =
    Ok tt (KS (slot (w <| w_files := close_all rest (w_files w) |>) i (p <| ofile := replicate (n + length rest) None |>)) e).
Proof.
  induction rest as [|o rest IH]; intros n w p e Hc Hl Hp Ep Hsh; cbn [length seq iterM].
  - rewrite app_nil_r in Ep. rewrite Nat.add_0_r, <- Ep. cbn [close_all]. unfold mret, M_ret, slot. weq.
    replace (p <| ofile := ofile p |>) with p by (by destruct p; usetf). symmetry. by apply list_insert_id.
  - assert (Ho : ofile p !! n = Some o).
    { rewrite Ep. apply list_lookup_middle. by rewrite length_replicate. }
    rewrite (bind_ok _ _ _ _ _ (exit_file_ok i n o w p e Hc Hl Hp Ho ltac:(destruct o; [split; [apply Hsh|done]|done]))).
    assert (En : <[n := None]> (ofile p) = replicate (S n) None ++ rest).
    { rewrite Ep. replace n with (length (replicate n (@None nat)) + 0)%nat at 1 by (rewrite length_replicate; lia).
      rewrite insert_app_r. cbn [insert list_insert]. rewrite replicate_S_end, <- (assoc_L (++)). done. }
    rewrite En, (IH _ _ (p <| ofile := replicate (S n) None ++ rest |>)); unfold slot, calm, lock_free in *; rsimpl; try done.
    + weq; [|by destruct o]. rewrite list_insert_insert_eq. f_equal.
      replace (S n + length rest)%nat with (n + S (length rest))%nat by lia. by destruct p; usetf.
    + apply list_lookup_insert_eq. by eapply lookup_lt_Some.
    + destruct o; [apply Hsh|done].
Qed.

(** Forking and exiting leave the counts as they were. *)
Lemma alter_ref_comm (f g : nat) (l : list file) :
  alter (λ x, x <| f_ref ::= λ n, n - 1 |>) f (alter (λ x, x <| f_ref ::= λ n, n + 1 |>) g l) =
  alter (λ x, x <| f_ref ::= λ n, n + 1 |>) g (alter (λ x, x <| f_ref ::= λ n, n - 1 |>) f l).
Proof.
  apply list_eq. intros k. destruct (decide (f = k)) as [->|Hf], (decide (g = k)) as [->|Hg];
    rewrite ?list_lookup_alter_eq, ?list_lookup_alter_ne, ?list_lookup_alter_eq, ?list_lookup_alter_ne by done; try done.
  destruct (l !! k) as [x|]; [|done]. cbn. f_equal. destruct x; usetf; cbn. f_equal. lia.
Qed.

Lemma dup_all_alter fs f l :
  dup_all fs (alter (λ x, x <| f_ref ::= λ n, n - 1 |>) f l) = alter (λ x, x <| f_ref ::= λ n, n - 1 |>) f (dup_all fs l).
Proof.
  revert l; induction fs as [|[g|] fs IH]; intros l; cbn [dup_all]; [done| |apply IH].
  by rewrite <- alter_ref_comm, IH.
Qed.

Lemma close_dup fs l : close_all fs (dup_all fs l) = l.
Proof.
  revert l; induction fs as [|[f|] fs IH]; intros l; cbn [dup_all close_all]; [done| |apply IH].
  rewrite <- dup_all_alter, IH. apply list_eq. intros k.
  destruct (decide (f = k)) as [->|Hf]; [|by rewrite !list_lookup_alter_ne].
  rewrite !list_lookup_alter_eq. destruct (l !! k) as [x|]; [|done]. cbn. f_equal. destruct x; usetf; cbn. f_equal. lia.
Qed.

(** ** The current directory *)

(** No transaction is under way and the log is empty. *)
Definition log_idle (w : world) : Prop :=
  outstanding (w_log w) = 0 ∧ committing (w_log w) = 0 ∧ lh_n (w_log w) = 0.

Lemma iput_shared c x w e :
  calm w → lock_free w L_icache → w_inodes w !! c = Some x → 1 < i_ref x < 2 ^ 31 →
  iput c (KS w e) = Ok tt (KS (w <| w_inodes ::= alter (λ x, x <| i_ref ::= λ n, n - 1 |>) c |>) e).
Proof.
  intros Hc Hl Hx Hr. unfold iput, modi. rewrite (bind_ok _ _ _ _ _ (acquire_free L_icache w e (proj1 Hl))).
  rewrite (bind_ok _ _ _ _ _ (geti_eq c x (acquired L_icache w) e ltac:(by unfold acquired; rsimpl))).
  rewrite (proj2 (Z.eqb_neq (i_ref x) 1)) by lia. cbn [andb]. rewrite bind_ret, bind_modw.
  rewrite (release_calm L_icache w); [|done|done|by rsimpl|by rsimpl]. unfold acquired. weq.
  rewrite !(alter_is_insert _ _ _ _ Hx). f_equal. destruct x; cbn in *; usetf; cbn. f_equal. apply s32_small. lia.
Qed.

Lemma end_op_idle w e :
  at_ease w → (∀ lk, lock_free w lk) →
  outstanding (w_log w) = 1 → committing (w_log w) = 0 → lh_n (w_log w) = 0 →
  end_op (KS w e) = Ok tt (KS (wake_all C_log (w <| w_log ::= λ l, l <| outstanding := 0 |> |>)) e).
Proof.
  intros He Hl Ho Hcm Hn. unfold end_op. rewrite (bind_ok _ _ _ _ _ (acquire_free L_log w e (proj1 (Hl L_log)))). kstep.
  replace (w_log (acquired L_log w)) with (w_log w) by (unfold acquired; by rsimpl).
  rewrite Hcm, Ho. cbn [Z.eqb negb]. change (s32 (1 - 1) =? 0) with true. kstep.
  erewrite bind_ok; [|apply (release_calm L_log w); [apply He|apply Hl|by rsimpl|by rsimpl]].
  set (w1 := w <| w_log ::= λ l, l <| outstanding := 0 |> <| committing := 1 |> |>).
  replace (_ <| w_locks := w_locks w |>) with w1
    by (unfold w1, acquired; weq; destruct (w_log w); cbn in *; subst; by usetf).
  unfold commit. rewrite bind_bind, bind_getw. replace (lh_n (w_log w1)) with 0 by (unfold w1; by rsimpl).
  change (0 >? 0) with false. cbv iota. rewrite bind_ret.
  etransitivity; [apply (end_commit_eq w1 e)|].
  - unfold w1, at_ease, calm in *. by rsimpl.
  - intros lk. unfold w1, lock_free in *. rsimpl. apply Hl.
  - unfold w1, wake_all. weq. destruct (w_log w); cbn in *; subst. by usetf.
Qed.

(** [begin_op(); iput(proc->cwd); end_op(); proc->cwd = 0;], and what comes after. *)
Lemma leave_dir {A} i p c x w e (k : K A) :
  at_ease w → (∀ lk, lock_free w lk) → log_idle w → w_procs w !! i = Some p → cwd p = Some c →
  w_inodes w !! c = Some x → 1 < i_ref x < 2 ^ 31 →
  (begin_op ;; p ← getp i; c ← munwrap "proc->cwd" (cwd p); iput c ;; end_op ;; modp i (λ p, p <| cwd := None |>) ;; k) (KS w e) =
    k (KS (w <| w_inodes ::= alter (λ x, x <| i_ref ::= λ n, n - 1 |>) c |>
             <| w_procs := alter (λ p, p <| cwd := None |>) i (wake_one C_log <$> w_procs w) |>) e).
Proof.
  intros He Hl (Ho & Hcm & Hn) Hp Hcwd Hx Hr.
  rewrite (bind_ok _ _ _ _ _ (begin_op_free w e (proj1 He) (Hl L_log) Hcm ltac:(rewrite Hn, Ho; done)
    ltac:(rewrite Hn; done) ltac:(rewrite Ho; done))).
  set (w1 := w <| w_log ::= _ |>).
  rewrite (bind_ok _ _ _ _ _ (getp_eq i p w1 e ltac:(by unfold w1; rsimpl))), Hcwd, bind_munwrap.
  rewrite (bind_ok _ _ _ _ _ (iput_shared c x w1 e ltac:(unfold w1, calm; rsimpl; apply He)
    ltac:(unfold w1, lock_free; rsimpl; apply Hl) ltac:(by unfold w1; rsimpl) Hr)).
  erewrite bind_ok; [|apply end_op_idle].
  - unfold modp. rewrite bind_modw. f_equal. f_equal. unfold wake_all, w1. weq. destruct (w_log w); cbn in *; subst. by usetf.
  - unfold w1, at_ease, calm in *. by rsimpl.
  - intros lk. unfold w1, lock_free in *. rsimpl. apply Hl.
  - unfold w1. rsimpl. lia.
  - unfold w1. by rsimpl.
  - unfold w1. by rsimpl.
Qed.

(** ** The children *)

Definition orphan (i ini : nat) (p : proc) : proc :=
  if decide (parent p = Some i) then p <| parent := Some ini |> else p.

Definition zombie_child (i : nat) (p : proc) : bool :=
  bool_decide (parent p = Some i) && bool_decide (state p = ZOMBIE).

Definition wake_if (b : bool) (c : chan) (l : list proc) : list proc := if b then wake_one c <$> l else l.

(** The children of [i] handed to [ini], which is woken if one of them has exited. *)
Definition handover (i ini : nat) (l : list proc) : list proc :=
  wake_if (existsb (zombie_child i) l) (C_proc ini) (orphan i ini <$> l).

Lemma wake_fields c p : parent (wake_one c p) = parent p ∧ (state (wake_one c p) = ZOMBIE ↔ state p = ZOMBIE).
Proof.
  unfold wake_one. destruct (bool_decide (state p = SLEEPING)) eqn:E; cbn [andb]; [|done].
  apply bool_decide_eq_true in E. destruct (bool_decide _); rsimpl; [|done]. rewrite E. done.
Qed.

Lemma wake_wake c p : wake_one c (wake_one c p) = wake_one c p.
Proof.
  unfold wake_one. destruct (bool_decide (state p = SLEEPING) && bool_decide (p_chan p = Some c)) eqn:E; [|by rewrite E].
  rsimpl. by rewrite bool_decide_false.
Qed.

Lemma orphan_wake i ini c p : orphan i ini (wake_one c p) = wake_one c (orphan i ini p).
Proof.
  unfold orphan. rewrite (proj1 (wake_fields c p)). destruct (decide _); [|done].
  unfold wake_one. rsimpl. destruct (_ && _); [|done]. destruct p; by usetf.
Qed.

Lemma reparent_step i ini k b pre p rest w e :
  w_initproc w = Some ini → k = length pre →
  w_procs w = wake_if b (C_proc ini) (pre ++ p :: rest) →
  reparent i k (KS w e) =
    Ok tt (KS (w <| w_procs := wake_if (b || zombie_child i p) (C_proc ini) (pre ++ orphan i ini p :: rest) |>) e).
Proof.
  intros Hini -> Hl. set (c := C_proc ini) in *. set (p' := if b then wake_one c p else p).
  assert (Hp : w_procs w !! length pre = Some p').
  { rewrite Hl. unfold wake_if, p'. destruct b; [rewrite fmap_app, fmap_cons|]; apply list_lookup_middle; by rewrite ?length_fmap. }
  assert (Hpar : parent p' = parent p) by (unfold p'; destruct b; [apply wake_fields|done]).
  assert (Hz : state p' = ZOMBIE ↔ state p = ZOMBIE) by (unfold p'; destruct b; [apply wake_fields|done]).
  unfold reparent. rewrite (bind_ok _ _ _ _ _ (getp_eq _ _ _ _ Hp)), Hpar. unfold orphan, zombie_child.
  destruct (decide (parent p = Some i)) as [Hpi|Hpi].
  2: { rewrite bool_decide_false by done. cbn [andb]. rewrite orb_false_r, <- Hl. unfold mret, M_ret. weq. }
  rewrite bool_decide_true by done. cbn [andb]. rewrite bind_getw, Hini. unfold modp. rewrite bind_modw.
  assert (Ha : alter (λ p, p <| parent := Some ini |>) (length pre) (w_procs w) =
               wake_if b c (pre ++ p <| parent := Some ini |> :: rest)).
  { rewrite (alter_is_insert _ _ _ _ Hp), Hl. unfold wake_if, p'. destruct b; rewrite ?fmap_app, ?fmap_cons.
    - replace (length pre) with (length (wake_one c <$> pre) + 0)%nat by (rewrite length_fmap; lia).
      rewrite insert_app_r. cbn [insert list_insert]. do 2 f_equal. unfold wake_one. rsimpl.
      destruct (_ && _); [destruct p; by usetf|done].
    - replace (length pre) with (length pre + 0)%nat by lia. by rewrite insert_app_r. }
  erewrite bind_ok; [|apply getp_eq; rsimpl; rewrite (alter_is_insert _ _ _ _ Hp); apply list_lookup_insert_eq; by eapply lookup_lt_Some].
  rsimpl. destruct (decide (state p' = ZOMBIE)) as [Hzz|Hzz].
  - rewrite (bool_decide_true (state p = ZOMBIE)) by tauto. rewrite orb_true_r, bind_munwrap. unfold wakeup1. rewrite modw_eq.
    weq. rewrite Ha. unfold wake_if. destruct b; [|done]. rewrite <- list_fmap_compose. apply list_fmap_ext.
    intros ? y _. apply wake_wake.
  - rewrite (bool_decide_false (state p = ZOMBIE)) by tauto. rewrite orb_false_r. unfold mret, M_ret. weq. by rewrite Ha.
Qed.

Lemma reparent_loop i ini : ∀ rest pre b w e,
  w_initproc w = Some ini → w_procs w = wake_if b (C_proc ini) (pre ++ rest) →
  iterM (reparent i) (seq (length pre) (length rest)) (KS w e) =
    Ok tt (KS (w <| w_procs := wake_if (b || existsb (zombie_child i) rest) (C_proc ini) (pre ++ (orphan i ini <$> rest)) |>) e).
Proof.
  induction rest as [|p rest IH]; intros pre b w e Hini Hl; cbn [length seq iterM existsb].
  - rewrite orb_false_r. unfold mret, M_ret. weq. done.
  - rewrite (bind_ok _ _ _ _ _ (reparent_step i ini _ b pre p rest w e Hini eq_refl Hl)).
    replace (S (length pre)) with (length (pre ++ [orphan i ini p])) by (rewrite length_app; cbn; lia).
    rewrite (IH _ (b || zombie_child i p)).
    + weq. rewrite <- (assoc_L (++)), orb_assoc. done.
    + by rsimpl.
    + rsimpl. by rewrite <- (assoc_L (++)).
Qed.

Lemma reparent_all i ini w e :
  w_initproc w = Some ini → length (w_procs w) = NPROC →
  iterM (reparent i) (seq 0 NPROC) (KS w e) = Ok tt (KS (w <| w_procs ::= handover i ini |>) e).
Proof.
  intros Hini Hlen. pose proof (reparent_loop i ini (w_procs w) [] false w e Hini eq_refl) as H.
  cbn [length app orb] in H. rewrite Hlen in H. rewrite H. unfold handover. weq.
Qed.

(** ** [exit] *)

(** A process that can exit: it is not init, it has a parent, and its files and directory
    are held by others too. *)
Record can_exit (w : world) (i : nat) (p : proc) (j ini c : nat) (x : inode) : Prop := {
  ce_ease : at_ease w;
  ce_locks lk : lock_free w lk;
  ce_proc : w_proc w = Some i;
  ce_slot : w_procs w !! i = Some p;
  ce_running : state p = RUNNING;
  ce_table : length (w_procs w) = NPROC;
  ce_parent : parent p = Some j;
  ce_self : j ≠ i;
  ce_init : w_initproc w = Some ini;
  ce_not_init : ini ≠ i;
  ce_files : length (ofile p) = NOFILE;
  ce_shared : shared (ofile p) (w_files w);
  ce_log : log_idle w;
  ce_cwd : cwd p = Some c;
  ce_inode : w_inodes w !! c = Some x;
  ce_iref : 1 < i_ref x < 2 ^ 31
}.

(** The process table after the exit of [p]: those waiting for the log, its parent and, if
    it inherits an exited child, init are woken, and the children are init's. *)
Definition exit_procs (l : list proc) (i : nat) (p : proc) (j ini : nat) : list proc :=
  let l := <[i := p <| ofile := replicate NOFILE None |>]> l in
  let l := alter (λ p, p <| cwd := None |>) i (wake_one C_log <$> l) in
  alter (λ p, p <| state := ZOMBIE |>) i (handover i ini (wake_one (C_proc j) <$> l)).

Definition exited (w : world) (i : nat) (p : proc) (j ini c : nat) : world :=
  w <| w_files := close_all (ofile p) (w_files w) |>
    <| w_inodes ::= alter (λ x, x <| i_ref ::= λ n, n - 1 |>) c |>
    <| w_procs := exit_procs (w_procs w) i p j ini |>.

Lemma sched_zombie_ok {A} w e :
  at_ease w → @sched_zombie A (KS (acquired L_ptable w) e) = Stop Exited (KS (acquired L_ptable w) e).
Proof.
  intros [[Hc _] Hn]. unfold sched_zombie, holding. rewrite bind_getw.
  replace (holding_by _ _) with true.
  2: { unfold holding_by, acquired. rsimpl. rewrite fn_lookup_insert, pushcli_on_id. unfold taken. cbn. by rewrite bool_decide_true. }
  cbn [negb]. rewrite bind_getw. replace (ncli _) with 1.
  2: { unfold acquired. rsimpl. rewrite pushcli_on_ncli by done. lia. }
  cbn [negb Z.eqb Pos.eqb]. rewrite bind_getw. replace (IF _) with false; [done|]. unfold acquired. rsimpl. by rewrite pushcli_on_IF.
Qed.

Lemma exit_runs {A} w i p j ini c x e :
  can_exit w i p j ini c x → @exit _ _ A (KS w e) = Stop Exited (KS (acquired L_ptable (exited w i p j ini c)) e).
Proof.
  intros []. unfold exit, myproc. rewrite bind_bind, bind_getw, ce_proc0, bind_munwrap, bind_getw, ce_init0.
  rewrite decide_False by congruence.
  pose proof (close_files i (ofile p) 0 w p e (proj1 ce_ease0) (ce_locks0 _) ce_slot0 eq_refl ce_shared0) as Hcf.
  rewrite ce_files0 in Hcf. rewrite (bind_ok _ _ _ _ _ Hcf).
  set (p1 := p <| ofile := replicate (0 + NOFILE) None |>).
  set (w1 := slot (w <| w_files := close_all (ofile p) (w_files w) |>) i p1).
  assert (He1 : at_ease w1) by (unfold w1, slot, at_ease, calm in *; by rsimpl).
  assert (Hl1 : ∀ lk, lock_free w1 lk) by (intros lk; unfold w1, slot, lock_free in *; rsimpl; apply ce_locks0).
  assert (Hi : (i < length (w_procs w))%nat) by (by eapply lookup_lt_Some).
  rewrite (leave_dir i p1 c x); [|done|done|by unfold w1, slot, log_idle in *; rsimpl| | | |done].
  2: { unfold w1, slot. rsimpl. by apply list_lookup_insert_eq. }
  2: { unfold p1. by rsimpl. }
  2: { unfold w1, slot. by rsimpl. }
  match goal with |- _ (KS ?u e) = _ => set (w2 := u) end.
  assert (He2 : at_ease w2) by (unfold w2, at_ease, calm in *; by rsimpl).
  assert (Hl2 : lock_free w2 L_ptable) by (unfold w2, lock_free in *; rsimpl; apply Hl1).
  rewrite (bind_ok _ _ _ _ _ (acquire_free L_ptable w2 e (proj1 Hl2))).
  set (p2 := (wake_one C_log p1) <| cwd := None |>).
  assert (Hp2 : w_procs (acquired L_ptable w2) !! i = Some p2).
  { unfold acquired, w2, w1, slot. rsimpl. by rewrite list_lookup_alter_eq, list_lookup_fmap, list_lookup_insert_eq. }
  rewrite (bind_ok _ _ _ _ _ (getp_eq _ _ _ _ Hp2)).
  replace (parent p2) with (Some j) by (unfold p2; rsimpl; rewrite (proj1 (wake_fields _ _)); unfold p1; by rsimpl).
  unfold wakeup1. rewrite bind_modw.
  erewrite bind_ok; [|apply (reparent_all i ini)].
  2: { unfold acquired, w2, w1, slot. by rsimpl. }
  2: { unfold acquired, w2, w1, slot. rsimpl. by rewrite length_fmap, length_alter, length_fmap, length_insert. }
  unfold modp. rewrite bind_modw.
  match goal with |- sched_zombie (KS ?u e) = _ => replace u with (acquired L_ptable (exited w i p j ini c)) end.
  - apply sched_zombie_ok. unfold exited, at_ease, calm in *. by rsimpl.
  - unfold acquired, w2, w1, slot, exited. weq. done.
Qed.

(** ** What became of the processes *)

(** A process that is or will be awake stays so. *)
Lemma wake_runnable c q : state q = RUNNABLE → state (wake_one c q) = RUNNABLE.
Proof. intros H. unfold wake_one. rewrite H. done. Qed.

Lemma wake_sleeper c q : state q = SLEEPING → p_chan q = Some c → state (wake_one c q) = RUNNABLE.
Proof. intros H1 H2. unfold wake_one. rewrite !bool_decide_true by done. by rsimpl. Qed.

Lemma wake_other c c' q : state q = SLEEPING → p_chan q = Some c → c ≠ c' → wake_one c' q = q.
Proof. intros H1 H2 H3. unfold wake_one. rewrite (bool_decide_false (p_chan q = _)) by congruence. by rewrite andb_false_r. Qed.

Lemma orphan_state i ini q : state (orphan i ini q) = state q ∧ p_chan (orphan i ini q) = p_chan q.
Proof. unfold orphan. by destruct (decide _); rsimpl. Qed.

Lemma handover_lookup i ini l k q :
  l !! k = Some q →
  ∃ q', handover i ini l !! k = Some q' ∧ (q' = orphan i ini q ∨ q' = wake_one (C_proc ini) (orphan i ini q)) ∧
    (existsb (zombie_child i) l = true → q' = wake_one (C_proc ini) (orphan i ini q)).
Proof.
  intros H. unfold handover, wake_if. destruct (existsb _ _).
  - eexists. rewrite !list_lookup_fmap, H. split; [done|]. split; [by right|done].
  - eexists. rewrite list_lookup_fmap, H. split; [done|]. split; [by left|done].
Qed.

(** The slot [k] of another process before and after. *)
Lemma exit_procs_other l i p j ini k q :
  k ≠ i → l !! k = Some q → exists q' q'',
  q' = wake_one (C_proc j) (wake_one C_log q) ∧ exit_procs l i p j ini !! k = Some q'' ∧
  (q'' = orphan i ini q' ∨ q'' = wake_one (C_proc ini) (orphan i ini q')) ∧
  (existsb (zombie_child i) (wake_one (C_proc j) <$> alter (λ p, p <| cwd := None |>) i
     (wake_one C_log <$> <[i := p <| ofile := replicate NOFILE None |>]> l)) = true →
   q'' = wake_one (C_proc ini) (orphan i ini q')).
Proof.
  intros Hk Hq. exists (wake_one (C_proc j) (wake_one C_log q)). unfold exit_procs.
  edestruct (handover_lookup i ini (wake_one (C_proc j) <$> alter (λ p, p <| cwd := None |>) i
     (wake_one C_log <$> <[i := p <| ofile := replicate NOFILE None |>]> l)) k) as (q'' & H1 & H2 & H3).
  { rewrite list_lookup_fmap, list_lookup_alter_ne, list_lookup_fmap, list_lookup_insert_ne, Hq by done. reflexivity. }
  exists q''. rewrite list_lookup_alter_ne by done. by split_and!.
Qed.

(** The slot of the process itself. *)
Lemma exit_procs_self l i p j ini :
  l !! i = Some p → state p = RUNNING → parent p = Some j → j ≠ i →
  exit_procs l i p j ini !! i = Some (p <| ofile := replicate NOFILE None |> <| cwd := None |> <| state := ZOMBIE |>).
Proof.
  intros Hi Hr Hp Hj. unfold exit_procs.
  assert (Hw : ∀ c q, state q = RUNNING → wake_one c q = q) by (intros c q Hq; unfold wake_one; by rewrite Hq).
  edestruct (handover_lookup i ini (wake_one (C_proc j) <$> alter (λ p, p <| cwd := None |>) i
     (wake_one C_log <$> <[i := p <| ofile := replicate NOFILE None |>]> l)) i) as (q'' & H1 & H2 & _).
  { rewrite list_lookup_fmap, list_lookup_alter_eq, list_lookup_fmap, list_lookup_insert_eq by (by eapply lookup_lt_Some). reflexivity. }
  rewrite list_lookup_alter_eq, H1. cbn. f_equal.
  assert (Ho : ∀ q, parent q = Some j → orphan i ini q = q) by (intros q Hq; unfold orphan; rewrite decide_False by congruence; done).
  rewrite !Hw in H2 by (rewrite ?Hw; by rsimpl). rewrite Ho in H2 by (rsimpl; done).
  rewrite Hw in H2 by (by rsimpl). destruct H2; by subst.
Qed.

Lemma length_exit_procs l i p j ini : length (exit_procs l i p j ini) = length l.
Proof.
  unfold exit_procs, handover, wake_if. rewrite length_alter. destruct (existsb _ _);
    by rewrite !length_fmap, length_alter, length_fmap, length_insert.
Qed.

(** No process is left with the parent [i]. *)
Lemma exit_procs_orphans l i p j ini k q :
  l !! i = Some p → state p = RUNNING → parent p = Some j → j ≠ i → ini ≠ i →
  exit_procs l i p j ini !! k = Some q → parent q ≠ Some i.
Proof.
  intros Hi Hr Hp Hj Hini Hq. destruct (decide (k = i)) as [->|Hk].
  - rewrite exit_procs_self in Hq by done. injection Hq as <-. rsimpl. congruence.
  - pose proof (lookup_lt_Some _ _ _ Hq) as Hlt. rewrite length_exit_procs in Hlt.
    destruct (lookup_lt_is_Some_2 _ _ Hlt) as [q0 Hq0].
    destruct (exit_procs_other l i p j ini k q0 Hk Hq0) as (q' & q'' & _ & H1 & H2 & _).
    rewrite Hq in H1. injection H1 as <-.
    assert (Ho : parent (orphan i ini q') ≠ Some i) by (unfold orphan; destruct (decide _); rsimpl; congruence).
    destruct H2 as [->| ->]; [done|]. by rewrite (proj1 (wake_fields _ _)).
Qed.

(** The parent asleep in [wait] is woken. *)
Lemma exit_wakes_parent l i p j ini q :
  j ≠ i → l !! j = Some q → state q = SLEEPING → p_chan q = Some (C_proc j) →
  state <$> exit_procs l i p j ini !! j = Some RUNNABLE.
Proof.
  intros Hj Hq Hs Hc. destruct (exit_procs_other l i p j ini j q Hj Hq) as (q' & q'' & E & H1 & H2 & _).
  rewrite (wake_other (C_proc j) C_log q) in E by done.
  assert (Hr : state (orphan i ini q') = RUNNABLE) by (rewrite (proj1 (orphan_state i ini q')), E; by apply wake_sleeper).
  rewrite H1. cbn. f_equal. destruct H2 as [->| ->]; [done|by apply wake_runnable].
Qed.

(** Init asleep in [wait] is woken if it gains an exited child. *)
Lemma exit_wakes_init l i p j ini k z q :
  ini ≠ i → k ≠ i → l !! k = Some z → parent z = Some i → state z = ZOMBIE →
  l !! ini = Some q → state q = SLEEPING → p_chan q = Some (C_proc ini) →
  state <$> exit_procs l i p j ini !! ini = Some RUNNABLE.
Proof.
  intros Hini Hk Hz Hzp Hzs Hq Hs Hc.
  destruct (exit_procs_other l i p j ini ini q Hini Hq) as (q' & q'' & E & H1 & _ & H2).
  rewrite (wake_other (C_proc ini) C_log q) in E by done. rewrite H1. cbn. f_equal. rewrite H2.
  - destruct (orphan_state i ini q') as [E1 E2]. destruct (decide (j = ini)) as [->|Hji].
    + apply wake_runnable. rewrite E1, E. by apply wake_sleeper.
    + rewrite (wake_other (C_proc ini) (C_proc j) q) in E by congruence. subst q'. apply wake_sleeper; congruence.
  - apply existsb_exists. exists (wake_one (C_proc j) (wake_one C_log z)). split.
    + apply list_elem_of_In, (list_elem_of_lookup_2 _ k).
      by rewrite list_lookup_fmap, list_lookup_alter_ne, list_lookup_fmap, list_lookup_insert_ne, Hz by done.
    + unfold zombie_child. rewrite !(proj1 (wake_fields _ _)), bool_decide_true by done. cbn [andb].
      apply bool_decide_eq_true. by rewrite !(proj2 (wake_fields _ _)).
Qed.

(** C9: [exit] leaves a ZOMBIE and no orphans.  A process whose files and directory
    others hold too never returns from [exit]; it ends with the process table locked for the
    scheduler, and then its slot is a ZOMBIE without files or directory, to be
    freed by its parent; the references it held have been given back; no process has it as
    a parent any more; its parent, if it sleeps in [wait], is RUNNABLE, and so is
    init if it sleeps in [wait] and has been handed a child that had exited. *)
Theorem exit_hands_over {A} w i p j ini c x e :
  can_exit w i p j ini c x →
  let w' := exited w i p j ini c in
  @exit _ _ A (KS w e) = Stop Exited (KS (acquired L_ptable w') e) ∧
  w_procs w' !! i = Some (p <| ofile := replicate NOFILE None |> <| cwd := None |> <| state := ZOMBIE |>) ∧
  (∀ k q, w_procs w' !! k = Some q → parent q ≠ Some i) ∧
  (∀ q, w_procs w !! j = Some q → state q = SLEEPING → p_chan q = Some (C_proc j) →
     state <$> w_procs w' !! j = Some RUNNABLE) ∧
  (∀ k z q, k ≠ i → w_procs w !! k = Some z → parent z = Some i → state z = ZOMBIE →
     w_procs w !! ini = Some q → state q = SLEEPING → p_chan q = Some (C_proc ini) →
     state <$> w_procs w' !! ini = Some RUNNABLE).
Proof.
  intros HE w'. assert (Hpr : w_procs w' = exit_procs (w_procs w) i p j ini) by (unfold w', exited; by rsimpl).
  pose proof (exit_runs (A := A) w i p j ini c x e HE) as Hrun. destruct HE. rewrite Hpr. split_and!.
  - apply Hrun.
  - by apply exit_procs_self.
  - intros k q. by apply exit_procs_orphans.
  - intros q. by apply exit_wakes_parent.
  - intros k z q Hk Hz Hzp Hzs. by apply (exit_wakes_init _ _ _ _ _ k z).
Qed.
End spec.

(** ** A machine: init waits, process 1 exits, its child 2 has exited *)

Definition exit_init : proc := zero_proc <| state := SLEEPING |> <| pid := 1 |> <| p_chan := Some (C_proc 0) |>.
Definition exit_self : proc :=
  zero_proc <| state := RUNNING |> <| pid := 2 |> <| parent := Some 0%nat |> <| cwd := Some 0%nat |>
    <| ofile := Some 0%nat :: replicate 15 None |>.
Definition exit_child : proc := zero_proc <| state := ZOMBIE |> <| pid := 3 |> <| parent := Some 1%nat |>.

Definition exit_machine : world :=
  (bss 0 []) <| w_proc := Some 1%nat |> <| w_initproc := Some 0%nat |>
    <| w_procs := exit_init :: exit_self :: exit_child :: replicate 61 zero_proc |>
    <| w_files := (zero_file <| f_ref := 2 |>) :: replicate 99 zero_file |>
    <| w_inodes := (zero_inode <| i_ref := 2 |>) :: replicate 49 zero_inode |>.

Lemma exit_hands_over_witness :
  @exit demo_end (λ _, mret tt) unit (KS exit_machine []) =
    Stop Exited (KS (acquired L_ptable (exited exit_machine 1 exit_self 0 0 0)) []) ∧
  state <$> w_procs (exited exit_machine 1 exit_self 0 0 0) !! 0%nat = Some RUNNABLE.
Proof.
  destruct (@exit_hands_over demo_end (λ _, mret tt) unit exit_machine 1 exit_self 0 0 0 (zero_inode <| i_ref := 2 |>) [])
    as (H1 & _ & _ & H2 & _).
  { split; try (unfold exit_machine; rsimpl; reflexivity).
    - unfold at_ease, calm, exit_machine. rsimpl. vm_compute. repeat split; discriminate.
    - intros lk. unfold lock_free, exit_machine. rsimpl. split; reflexivity.
    - discriminate.
    - discriminate.
    - unfold exit_machine. rsimpl. split; [|vm_compute; exact I]. eexists. split; [reflexivity|]. rsimpl. reflexivity.
    - unfold log_idle, exit_machine. rsimpl. split_and!; reflexivity.
    - rsimpl. split; reflexivity. }
  split; [exact H1|]. apply (H2 exit_init); [|reflexivity|reflexivity]. unfold exit_machine. rsimpl. reflexivity.
Defined.
