(* ===== verification/Sysfile.v ===== *)
(** * sysfile.c and sysproc.c: the system calls

    Every handler with its argument checks, error paths and transactions.  A
    handler whose source returns an [int] gives that integer; [sys_read] stores
    what [fileread] returns in user memory, and [sys_write] fetches the user's
    bytes when the call starts. *)

From S2P Require Import Prelude Kernel Bytes Spinlock CString Kalloc Sched Sleeplock Disk Bio Log Pipe Inode Console Fs Vm File Proc Syscall Exec.

(** ** fcntl.h *)

Definition O_RDONLY : Z := 0x000.
Definition O_WRONLY : Z := 0x001.
Definition O_RDWR : Z := 0x002.
Definition O_CREATE : Z := 0x200.

Section sysfile.
  Context {image : KernelImage} {D : DiskDriver}.

(** The descriptor and the file, or [None] for -1. *)
Definition argfd (n : Z) : K (option (Z * nat)) :=
  fd ← argint n;
  p ← curproc;
  if (fd <? 0) || (fd >=? Z.of_nat NOFILE) then mret None else
  match ofile p !! Z.to_nat fd with
  | Some (Some f) => mret (Some (fd, f))
  | _ => mret None
  end.

Definition fdalloc (f : nat) : K Z :=
  i ← myproc;
  p ← getp i;
  match list_find (λ o, o = None) (take NOFILE (ofile p)) with
  | Some (fd, _) =>
      modp i (λ p, p <| ofile ::= <[fd := Some f]> |>) ;;
      mret (Z.of_nat fd)
  | None => mret (-1)
  end.

Definition sys_dup : K Z :=
  r ← argfd 0;
  match r with
  | None => mret (-1)
  | Some (_, f) =>
      fd ← fdalloc f;
      if fd <? 0 then mret (-1) else
      filedup f ;;
      mret fd
  end.

(** The checks [sys_read] and [sys_write] share: the file, [n] and [p]. *)
Definition rw_args : K (option (nat * Z * Z)) :=
  r ← argfd 0;
  match r with
  | None => mret None
  | Some (_, f) =>
      n ← argint 2;
      p ← argptr 1 n;
      mret ((λ p, (f, n, p)) <$> p)
  end.

Definition sys_read : K Z :=
  a ← rw_args;
  match a with
  | None => mret (-1)
  | Some (f, n, p) =>
      '(r, got) ← fileread f n;
      ustore p got ;;
      mret r
  end.

Definition sys_write : K Z :=
  a ← rw_args;
  match a with
  | None => mret (-1)
  | Some (f, n, p) =>
      l ← uload p n;
      filewrite f l
  end.

Definition sys_close : K Z :=
  r ← argfd 0;
  match r with
  | None => mret (-1)
  | Some (fd, f) =>
      i ← myproc;
      modp i (λ p, p <| ofile ::= <[Z.to_nat fd := None]> |>) ;;
      fileclose f ;;
      mret 0
  end.

(** [stati]'s stores through the user's pointer; the padding is left alone. *)
Definition ustore_stat (p : Z) (st : stat) : K unit :=
  ustore (u64 (p + 4)) (le_bytes 4 (st_dev st)) ;;
  ustore (u64 (p + 8)) (le_bytes 4 (st_ino st)) ;;
  ustore p (le_bytes 2 (st_type st)) ;;
  ustore (u64 (p + 12)) (le_bytes 2 (st_nlink st)) ;;
  ustore (u64 (p + 16)) (le_bytes 4 (st_size st)).

Definition sys_fstat : K Z :=
  r ← argfd 0;
  match r with
  | None => mret (-1)
  | Some (_, f) =>
      p ← argptr 1 20;
      match p with
      | None => mret (-1)
      | Some p =>
          '(r, st) ← filestat f;
          (match st with Some st => ustore_stat p st | None => mret tt end) ;;
          mret r
      end
  end.

(** The loop of [isdirempty] from [off] on. *)
Fixpoint isdirempty_from (fuel : nat) (dp : nat) (off : Z) : K bool :=
  x ← geti dp;
  if off <? i_size x then
    match fuel with
    | O => mstop OutOfFuel
    | S f =>
        de ← read_de dp off "isdirempty: readi";
        if negb (de_inum de =? 0) then mret false else isdirempty_from f dp (off + sizeof_de)
    end
  else mret true.

Definition isdirempty (dp : nat) : K bool :=
  x ← geti dp;
  isdirempty_from (de_fuel (i_size x)) dp (2 * sizeof_de).

(** The label [bad] of [sys_link]. *)
Definition link_bad (ip : nat) : K Z :=
  ilock (Some ip) ;;
  modi ip (λ x, x <| i_nlink ::= λ n, s16 (n - 1) |>) ;;
  iupdate ip ;;
  iunlockput ip ;;
  end_op ;;
  mret (-1).

Definition sys_link : K Z :=
  old ← argstr 0;
  match old with
  | None => mret (-1)
  | Some old =>
      new ← argstr 1;
      match new with
      | None => mret (-1)
      | Some new =>
          begin_op ;;
          ip ← namei old;
          match ip with
          | None => end_op ;; mret (-1)
          | Some ip =>
              ilock (Some ip) ;;
              x ← geti ip;
              if i_type x =? T_DIR then iunlockput ip ;; end_op ;; mret (-1) else
              modi ip (λ x, x <| i_nlink ::= λ n, s16 (n + 1) |>) ;;
              iupdate ip ;;
              iunlock (Some ip) ;;
              '(dp, name) ← nameiparent new;
              match dp with
              | None => link_bad ip
              | Some dp =>
                  ilock (Some dp) ;;
                  d ← geti dp;
                  x ← geti ip;
                  r ← (if negb (i_dev d =? i_dev x) then mret (-1)
                       else dirlink dp name (i_inum x));
                  if r <? 0 then iunlockput dp ;; link_bad ip else
                  iunlockput dp ;;
                  iput ip ;;
                  end_op ;;
                  mret 0
              end
          end
      end
  end.

(** The label [bad] of [sys_unlink]. *)
Definition unlink_bad (dp : nat) : K Z :=
  iunlockput dp ;;
  end_op ;;
  mret (-1).

(** The part of [sys_unlink] that runs once the entry has been found. *)
Definition unlink_entry (dp ip : nat) (off : Z) : K Z :=
  ilock (Some ip) ;;
  x ← geti ip;
  if i_nlink x <? 1 then panic "unlink: nlink < 1" else
  empty ← (if i_type x =? T_DIR then isdirempty ip else mret true);
  if negb empty then iunlockput ip ;; unlink_bad dp else
  r ← writei dp (replicate (Z.to_nat sizeof_de) 0) off;
  if negb (r =? sizeof_de) then panic "unlink: writei" else
  x ← geti ip;
  (if i_type x =? T_DIR then
     modi dp (λ d, d <| i_nlink ::= λ n, s16 (n - 1) |>) ;;
     iupdate dp
   else mret tt) ;;
  iunlockput dp ;;
  modi ip (λ x, x <| i_nlink ::= λ n, s16 (n - 1) |>) ;;
  iupdate ip ;;
  iunlockput ip ;;
  end_op ;;
  mret 0.

Definition sys_unlink : K Z :=
  path ← argstr 0;
  match path with
  | None => mret (-1)
  | Some path =>
      begin_op ;;
      '(dp, name) ← nameiparent path;
      match dp with
      | None => end_op ;; mret (-1)
      | Some dp =>
          ilock (Some dp) ;;
          c1 ← namecmp name (cstr ".");
          c2 ← (if c1 =? 0 then mret 0 else namecmp name (cstr ".."));
          if c2 =? 0 then unlink_bad dp else
          r ← dirlookup dp name;
          match r with
          | None => unlink_bad dp
          | Some (ip, off) => unlink_entry dp ip off
          end
      end
  end.

(** [create] once the parent [dp] is locked and has no entry [name]. *)
Definition create_new (dp : nat) (name : list Z) (type major minor : Z) : K nat :=
  d ← geti dp;
  ip ← ialloc (i_dev d) type;
  ilock (Some ip) ;;
  modi ip (λ x, x <| i_major := major |>) ;;
  modi ip (λ x, x <| i_minor := minor |>) ;;
  modi ip (λ x, x <| i_nlink := 1 |>) ;;
  iupdate ip ;;
  (if type =? T_DIR then
     modi dp (λ x, x <| i_nlink ::= λ n, s16 (n + 1) |>) ;;
     iupdate dp ;;
     x ← geti ip;
     r ← dirlink ip (cstr ".") (i_inum x);
     if r <? 0 then panic "create dots" else
     d ← geti dp;
     r ← dirlink ip (cstr "..") (i_inum d);
     if r <? 0 then panic "create dots" else mret tt
   else mret tt) ;;
  x ← geti ip;
  r ← dirlink dp name (i_inum x);
  if r <? 0 then panic "create: dirlink" else
  iunlockput dp ;;
  mret ip.

Definition create (path : list Z) (type major minor : Z) : K (option nat) :=
  '(dp, name) ← nameiparent path;
  match dp with
  | None => mret None
  | Some dp =>
      ilock (Some dp) ;;
      r ← dirlookup dp name;
      match r with
      | Some (ip, _) =>
          iunlockput dp ;;
          ilock (Some ip) ;;
          x ← geti ip;
          if (type =? T_FILE) && (i_type x =? T_FILE) then mret (Some ip) else
          iunlockput ip ;;
          mret None
      | None => ip ← create_new dp name type major minor; mret (Some ip)
      end
  end.

(** The inode [sys_open] opens, locked. *)
Definition open_inode (path : list Z) (omode : Z) : K (option nat) :=
  if negb (Z.land omode O_CREATE =? 0) then create path T_FILE 0 0 else
  ip ← namei path;
  match ip with
  | None => mret None
  | Some ip =>
      ilock (Some ip) ;;
      x ← geti ip;
      if (i_type x =? T_DIR) && negb (omode =? O_RDONLY) then iunlockput ip ;; mret None
      else mret (Some ip)
  end.

Definition sys_open : K Z :=
  path ← argstr 0;
  match path with
  | None => mret (-1)
  | Some path =>
      omode ← argint 1;
      begin_op ;;
      ip ← open_inode path omode;
      match ip with
      | None => end_op ;; mret (-1)
      | Some ip =>
          f ← filealloc;
          match f with
          | None => iunlockput ip ;; end_op ;; mret (-1)
          | Some f =>
              fd ← fdalloc f;
              if fd <? 0 then
                fileclose f ;;
                iunlockput ip ;;
                end_op ;;
                mret (-1)
              else
                iunlock (Some ip) ;;
                end_op ;;
                modf f (λ x, x <| f_type := FD_INODE |>) ;;
                modf f (λ x, x <| f_ip := Some ip |>) ;;
                modf f (λ x, x <| f_off := 0 |>) ;;
                modf f (λ x, x <| readable := if Z.land omode O_WRONLY =? 0 then 1 else 0 |>) ;;
                modf f (λ x, x <| writable :=
                  if (Z.land omode O_WRONLY =? 0) && (Z.land omode O_RDWR =? 0) then 0 else 1 |>) ;;
                mret fd
          end
      end
  end.

Definition sys_mkdir : K Z :=
  begin_op ;;
  path ← argstr 0;
  ip ← (match path with None => mret None | Some path => create path T_DIR 0 0 end);
  match ip with
  | None => end_op ;; mret (-1)
  | Some ip => iunlockput ip ;; end_op ;; mret 0
  end.

(** [create]'s parameters [major] and [minor] are [short]s. *)
Definition sys_mknod : K Z :=
  begin_op ;;
  path ← argstr 0;
  ip ← (match path with
        | None => mret None
        | Some path =>
            major ← argint 1;
            minor ← argint 2;
            create path T_DEV (s16 major) (s16 minor)
        end);
  match ip with
  | None => end_op ;; mret (-1)
  | Some ip => iunlockput ip ;; end_op ;; mret 0
  end.

Definition sys_chdir : K Z :=
  begin_op ;;
  path ← argstr 0;
  ip ← (match path with None => mret None | Some path => namei path end);
  match ip with
  | None => end_op ;; mret (-1)
  | Some ip =>
      ilock (Some ip) ;;
      x ← geti ip;
      if negb (i_type x =? T_DIR) then iunlockput ip ;; end_op ;; mret (-1) else
      iunlock (Some ip) ;;
      p ← curproc;
      c ← munwrap "proc->cwd" (cwd p);
      iput c ;;
      end_op ;;
      i ← myproc;
      modp i (λ p, p <| cwd := Some ip |>) ;;
      mret 0
  end.

(** The loop of [sys_exec]: the argument strings from index [i] on, [n] more at
    most. *)
Fixpoint exec_args (n : nat) (uargv i : Z) : K (option (list (list Z))) :=
  match n with
  | O => mret None
  | S n =>
      uarg ← fetchaddr (u64 (uargv + 8 * i));
      match uarg with
      | None => mret None
      | Some uarg =>
          if uarg =? 0 then mret (Some []) else
          s ← fetchstr uarg;
          match s with
          | None => mret None
          | Some s =>
              r ← exec_args n uargv (i + 1);
              mret (cons s <$> r)
          end
      end
  end.

Definition sys_exec : K Z :=
  path ← argstr 0;
  match path with
  | None => mret (-1)
  | Some path =>
      uargv ← argaddr 1;
      argv ← exec_args (Z.to_nat MAXARG) uargv 0;
      match argv with
      | None => mret (-1)
      | Some argv => exec path argv
      end
  end.

(** [sys_pipe] without room for both descriptors. *)
Definition pipe_undo (fd0 : Z) (rf wf : nat) : K Z :=
  i ← myproc;
  (if fd0 >=? 0 then modp i (λ p, p <| ofile ::= <[Z.to_nat fd0 := None]> |>) else mret tt) ;;
  fileclose rf ;;
  fileclose wf ;;
  mret (-1).

Definition sys_pipe : K Z :=
  fd ← argptr 0 8;
  match fd with
  | None => mret (-1)
  | Some fd =>
      r ← pipealloc;
      match r with
      | None => mret (-1)
      | Some (rf, wf) =>
          fd0 ← fdalloc rf;
          if fd0 <? 0 then pipe_undo fd0 rf wf else
          fd1 ← fdalloc wf;
          if fd1 <? 0 then pipe_undo fd0 rf wf else
          ustore fd (le_bytes 4 fd0) ;;
          ustore (u64 (fd + 4)) (le_bytes 4 fd1) ;;
          mret 0
      end
  end.

(** ** sysproc.c *)

Definition sys_fork : K Z := fork.
Definition sys_exit : K Z := exit.
Definition sys_wait : K Z := wait.
Definition sys_kill : K Z := pid ← argint 0; kill pid.
Definition sys_getpid : K Z := p ← curproc; mret (pid p).

(** [growproc] takes the argument as a signed 64-bit integer. *)
Definition sys_sbrk : K Z :=
  n ← argaddr 0;
  p ← curproc;
  let addr := sz p in
  r ← growproc (s64 n);
  if r <? 0 then mret (u64 (-1)) else mret addr.

(** [while(ticks - ticks0 < n)]: the comparison is between [uint]s. *)
Definition sys_sleep : K Z :=
  n ← argint 0;
  acquire L_tickslock ;;
  ticks0 ← getw w_ticks;
  foreverK (
    ticks ← getw w_ticks;
    if u32 (ticks - ticks0) <? u32 n then
      p ← curproc;
      if negb (killed p =? 0) then release L_tickslock ;; mret (Some (-1))
      else sleep C_ticks (Some L_tickslock) ;; mret None
    else release L_tickslock ;; mret (Some 0)).

Definition sys_uptime : K Z :=
  acquire L_tickslock ;;
  xticks ← getw w_ticks;
  release L_tickslock ;;
  mret (s32 xticks).
End sysfile.
