(* ===== verification/Trap.v ===== *)
(** * syscall.c's dispatcher and trap.c: the entries into the kernel

    [syscall] calls the handler of the number in RAX and stores its result
    there; [trap] handles the interrupts and exceptions.  A handler's [int]
    result is sign-extended into the 64-bit register. *)

From S2P Require Import Prelude Kernel Bytes Spinlock CString Kalloc Sched Sleeplock Disk Bio Log Pipe Inode Io Ioapic Console Apic Fs Vm File Proc Syscall Exec Sysfile.

(** ** mmu.h *)

Definition DPL_USER : Z := 3.
Definition KERNEL_CS : Z := Z.shiftl 1 3.

Section trap.
  Context {image : KernelImage} {D : DiskDriver} {Dv : Devices}.

(** ** syscall.c *)

Definition syscalls (num : Z) : option (K Z) :=
  match num with
  | 1 => Some sys_fork
  | 2 => Some sys_exit
  | 3 => Some sys_wait
  | 4 => Some sys_pipe
  | 5 => Some sys_read
  | 6 => Some sys_kill
  | 7 => Some sys_exec
  | 8 => Some sys_fstat
  | 9 => Some sys_chdir
  | 10 => Some sys_dup
  | 11 => Some sys_getpid
  | 12 => Some sys_sbrk
  | 13 => Some sys_sleep
  | 14 => Some sys_uptime
  | 15 => Some sys_open
  | 16 => Some sys_write
  | 17 => Some sys_mknod
  | 18 => Some sys_unlink
  | 19 => Some sys_link
  | 20 => Some sys_mkdir
  | 21 => Some sys_close
  | _ => None
  end.

Definition set_rax (i : nat) (v : Z) : K unit :=
  modp i (λ p, p <| tf ::= λ t, t <| tf_rax := u64 v |> |>).

Definition syscall (frame : trapframe) : K unit :=
  i ← myproc;
  modp i (λ p, p <| tf := frame |>) ;;
  p ← getp i;
  let num := tf_rax (tf p) in
  (match syscalls num with
   | Some f => r ← f; set_rax i r
   | None =>
       p ← getp i;
       cprintf (chars "%d %s: unknown sys call %d" ++ [10])
         [AInt (pid p); AStr (Some (p_name p)); AInt (s32 num)] ;;
       set_rax i (-1)
   end) ;;
  p ← getp i;
  if negb (killed p =? 0) then exit else mret tt.

(** ** trap.c *)

(** The four words [mkgate] writes for gate [n] of the table. *)
Definition mkgate (m : mem) (idt n kva pl : Z) : mem :=
  let m := wr_bytes m (idt + 16 * n)
             (le_bytes 4 (Z.lor (Z.land kva 0xFFFF) (Z.shiftl KERNEL_CS 16))) in
  let m := wr_bytes m (idt + 16 * n + 4)
             (le_bytes 4 (Z.lor (Z.lor (Z.land kva 0xFFFF0000) 0x8E00)
                                (Z.shiftl (Z.land pl 3) 13))) in
  let m := wr_bytes m (idt + 16 * n + 8) (le_bytes 4 (Z.shiftr kva 32)) in
  wr_bytes m (idt + 16 * n + 12) (le_bytes 4 0).

Definition idtinit : K unit := modw (λ w, w <| w_idtr := w_idt w |>).

(** [vectors] is the table of entry points that vectors.pl generates. *)
Definition tvinit (vectors : nat → Z) : K unit :=
  idt ← kalloc;
  modw (λ w, w <| w_idt := idt |>) ;;
  modm (λ m, memset m idt 0 PGSIZE) ;;
  iterM (λ n, modm (λ m, mkgate m idt (Z.of_nat n) (vectors n) 0)) (seq 0 256).

(** [ideintr] is the driver's handler, [cr2] the faulting address. *)
Context (ideintr : K unit) (cr2 : Z).

(** The [default] case: a fault. *)
Definition trap_fault (frame : trapframe) : K unit :=
  pr ← getw w_proc;
  c ← cpunum;
  match pr with
  | Some i =>
      p ← getp i;
      if Z.land (tf_cs frame) 3 =? 0 then
        cprintf (chars "unexpected trap %d from cpu %d rip %p (cr2=0x%p)" ++ [10])
          [AInt (s32 (tf_trapno frame)); AInt c; AAddr (tf_rip frame); AAddr cr2] ;;
        cprintf (chars "proc id: %d" ++ [10]) [AInt (pid p)] ;;
        panic "trap"
      else
        cprintf (chars "pid %d %s: trap %d err %d on cpu %d rip 0x%p addr 0x%p--kill proc" ++ [10])
          [AInt (pid p); AStr (Some (p_name p)); AInt (s32 (tf_trapno frame));
           AInt (s32 (tf_err frame)); AInt c; AAddr (tf_rip frame); AAddr cr2] ;;
        modp i (λ p, p <| killed := 1 |>)
  | None =>
      cprintf (chars "unexpected trap %d from cpu %d rip %p (cr2=0x%p)" ++ [10])
        [AInt (s32 (tf_trapno frame)); AInt c; AAddr (tf_rip frame); AAddr cr2] ;;
      panic "trap"
  end.

Definition trap_dispatch (frame : trapframe) : K unit :=
  let no := tf_trapno frame in
  if no =? T_IRQ0 + IRQ_TIMER then
    c ← cpunum;
    (if c =? 0 then
       acquire L_tickslock ;;
       modw (λ w, w <| w_ticks ::= λ t, u32 (t + 1) |>) ;;
       wakeup C_ticks ;;
       release L_tickslock
     else mret tt) ;;
    lapiceoi
  else if no =? T_IRQ0 + IRQ_IDE then ideintr ;; lapiceoi
  else if no =? T_IRQ0 + IRQ_IDE + 1 then mret tt
  else if no =? T_IRQ0 + IRQ_KBD then kbdintr ;; lapiceoi
  else if no =? T_IRQ0 + IRQ_COM1 then uartintr ;; lapiceoi
  else if (no =? T_IRQ0 + 7) || (no =? T_IRQ0 + IRQ_SPURIOUS) then
    c ← cpunum;
    cprintf (chars "cpu%d: spurious interrupt at %p:%p" ++ [10])
      [AInt c; AAddr (tf_cs frame); AAddr (tf_rip frame)] ;;
    lapiceoi
  else trap_fault frame.

(** [if(proc && proc->killed && (tf->cs&3) == DPL_USER) exit();] *)
Definition exit_if_killed (frame : trapframe) : K unit :=
  pr ← getw w_proc;
  match pr with
  | None => mret tt
  | Some i =>
      p ← getp i;
      if negb (killed p =? 0) && (Z.land (tf_cs frame) 3 =? DPL_USER) then exit else mret tt
  end.

Definition trap (frame : trapframe) : K unit :=
  trap_dispatch frame ;;
  exit_if_killed frame ;;
  pr ← getw w_proc;
  (match pr with
   | None => mret tt
   | Some i =>
       p ← getp i;
       if bool_decide (state p = RUNNING) && (tf_trapno frame =? T_IRQ0 + IRQ_TIMER)
       then yield else mret tt
   end) ;;
  exit_if_killed frame.
End trap.
