(* ===== verification/Seg.v ===== *)
(** * vm.c, mmu.h: segments and the system call instruction

    [seginit] gives a processor its page of local storage, with the segment
    descriptor table at its start and the task state segment at offset 1024;
    [syscallinit] programs the registers behind SYSCALL and SYSRET.  The descriptor
    of the task state segment is shown to carry its address. *)

From S2P Require Import Prelude Kernel Bytes Spinlock CString Kalloc Io Apic Vm Proc Trap.

(** ** mmu.h *)

Definition FL_TF : Z := 0x100.
Definition FL_DF : Z := 0x400.
Definition FL_IOPL_3 : Z := 0x3000.
Definition FL_NT : Z := 0x4000.
Definition FL_AC : Z := 0x40000.
Definition MSR_STAR : Z := 0xC0000081.
Definition MSR_LSTAR : Z := 0xC0000082.
Definition MSR_CSTAR : Z := 0xC0000083.
Definition MSR_SFMASK : Z := 0xC0000084.
Definition SEG_KCODE : Z := 1.
Definition SEG_KDATA : Z := 2.
Definition SEG_UCODE32 : Z := 3.
Definition SEG_UDATA : Z := 4.
Definition SEG_UCODE : Z := 5.
Definition SEG_KCPU : Z := 6.
Definition SEG_TSS : Z := 7.
Definition NSEGS : Z := 8.
Definition USER32_CS : Z := Z.lor (Z.shiftl SEG_UCODE32 3) DPL_USER.
Definition APP_SEG : Z := 1.
Definition STA_X : Z := 0x8.
Definition STA_W : Z := 0x2.
Definition STA_R : Z := 0x2.
Definition STS_T64A : Z := 0x9.

Record segdesc := mk_segdesc {
  lim_15_0 : Z; base_15_0 : Z; base_23_16 : Z; sd_type : Z; sd_s : Z; dpl : Z; sd_p : Z;
  lim_19_16 : Z; avl : Z; rsv1 : Z; db : Z; sd_g : Z; base_31_24 : Z
}.

(** Fields of the given widths from the low bits on; a field keeps the low bits of what
    is assigned to it. *)
Fixpoint bitfields (l : list (Z * Z)) : Z :=
  match l with
  | [] => 0
  | (width, v) :: l => v mod 2 ^ width + 2 ^ width * bitfields l
  end.

(** The eight bytes of a descriptor. *)
Definition segdesc_val (d : segdesc) : Z :=
  bitfields [(16, lim_15_0 d); (16, base_15_0 d); (8, base_23_16 d); (4, sd_type d); (1, sd_s d);
             (2, dpl d); (1, sd_p d); (4, lim_19_16 d); (1, avl d); (1, rsv1 d); (1, db d);
             (1, sd_g d); (8, base_31_24 d)].

Definition SEG (type lim base sys dpl rsv : Z) : segdesc :=
  mk_segdesc (Z.land lim 0xffff) (Z.land (u32 base) 0xffff) (Z.land (Z.shiftr base 16) 0xff)
    type sys dpl 1 (Z.shiftr lim 60) 0 rsv 0 1 (Z.shiftr base 24).

Definition null_seg : segdesc := mk_segdesc 0 0 0 0 0 0 0 0 0 0 0 0 0.

(** ** vm.c *)

Section seg.
  (** [entry] and [ignore] are the addresses of [syscall_entry] and
      [ignore_sysret], which are assembly. *)
  Context {image : KernelImage} {Dv : Devices} (entry ignore : Z).

Definition syscallinit : K unit :=
  wrmsr MSR_STAR (Z.lor (Z.shiftl USER32_CS 48) (Z.shiftl KERNEL_CS 32)) ;;
  wrmsr MSR_LSTAR entry ;;
  wrmsr MSR_CSTAR ignore ;;
  wrmsr MSR_SFMASK (Z.lor (Z.lor (Z.lor (Z.lor (Z.lor FL_TF FL_DF) FL_IF) FL_IOPL_3) FL_AC) FL_NT).

(** [gdt[i] = d], a write of eight bytes. *)
Definition set_seg (gdt i : Z) (d : segdesc) : K unit :=
  modm (λ m, store64 m (gdt + 8 * i) (segdesc_val d)).

(** The descriptors that [seginit] assigns, in order, with [addr] the address of the
    task state segment. *)
Definition gdt_entries (addr : Z) : list (Z * segdesc) :=
  [(0, null_seg);
   (SEG_KCODE, SEG (Z.lor STA_X STA_R) 0 0 APP_SEG 0 1);
   (SEG_KDATA, SEG STA_W 0 0 APP_SEG 0 0);
   (SEG_UCODE32, null_seg);
   (SEG_UDATA, SEG STA_W 0 0 APP_SEG DPL_USER 0);
   (SEG_UCODE, SEG (Z.lor STA_X STA_R) 0 0 APP_SEG DPL_USER 1);
   (SEG_KCPU, null_seg);
   (SEG_TSS, SEG STS_T64A 0xb addr 0 DPL_USER 0);
   (SEG_TSS + 1, SEG 0 (Z.shiftr addr 32) (Z.shiftr addr 48) 0 0 0)].

(** [cpu = c] names the processor that runs, whose other fields are [w_cpu]'s.  A
    number past the array would be a wild pointer. *)
Definition seginit : K unit :=
  local ← kalloc;
  modm (λ m, memset m local 0 PGSIZE) ;;
  let gdt := local in
  let tss := u64 (local + 1024) in
  modm (λ m, wr_bytes m (tss + 4 * 16) (le_bytes 4 0x00680000)) ;;
  wrmsr 0xC0000100 (local + 2048) ;;
  n ← cpunum;
  l ← gethw cpus;
  c ← munwrap "cpus" (l !! Z.to_nat n);
  modhw (λ h, h <| cpus ::= <[Z.to_nat n := c <| cpu_local := local |>]> |>) ;;
  modw (λ w, w <| w_cpu ::= λ c, c <| cpu_id := Z.to_nat n |> |>) ;;
  modw (λ w, w <| w_proc := None |>) ;;
  iterM (λ e, set_seg gdt (fst e) (snd e)) (gdt_entries tss) ;;
  lgdt gdt ((NSEGS + 1) * 8) ;;
  ltr (Z.shiftl SEG_TSS 3).
End seg.

(** ** What the processor makes of the task segment's descriptor *)

(** The base address of a system descriptor of 16 bytes, as the processor reads it. *)
Definition system_base (lo hi : Z) : Z :=
  lo / 2 ^ 16 mod 2 ^ 24 + 2 ^ 24 * (lo / 2 ^ 56) + 2 ^ 32 * (hi mod 2 ^ 32).

Lemma bitfields_cons width v l : bitfields ((width, v) :: l) = v mod 2 ^ width + 2 ^ width * bitfields l.
Proof. done. Qed.

Lemma land_ff n x : 0 < n → Z.land x (Z.ones n) mod 2 ^ n = x mod 2 ^ n.
Proof. intros. rewrite Z.land_ones by lia. apply Z.mod_mod. lia. Qed.

(** The 64 bits of an address as the fields of the two descriptors. *)
Lemma address_fields addr :
  0 ≤ addr < 2 ^ 64 →
  addr = addr mod 2 ^ 16 + 2 ^ 16 * (addr / 2 ^ 16 mod 2 ^ 8) + 2 ^ 24 * (addr / 2 ^ 24 mod 2 ^ 8)
         + 2 ^ 32 * (addr / 2 ^ 32 mod 2 ^ 16) + 2 ^ 48 * (addr / 2 ^ 48 mod 2 ^ 16).
Proof.
  intros Ha.
  pose proof (Z.div_mod addr (2 ^ 16)). pose proof (Z.div_mod (addr / 2 ^ 16) (2 ^ 8)).
  pose proof (Z.div_mod (addr / 2 ^ 24) (2 ^ 8)). pose proof (Z.div_mod (addr / 2 ^ 32) (2 ^ 16)).
  replace (addr / 2 ^ 24) with (addr / 2 ^ 16 / 2 ^ 8) in * by (by rewrite Z.div_div).
  replace (addr / 2 ^ 32) with (addr / 2 ^ 16 / 2 ^ 8 / 2 ^ 8) in * by (by rewrite !Z.div_div).
  replace (addr / 2 ^ 48) with (addr / 2 ^ 16 / 2 ^ 8 / 2 ^ 8 / 2 ^ 16) in * by (by rewrite !Z.div_div).
  rewrite (Z.mod_small (addr / 2 ^ 16 / 2 ^ 8 / 2 ^ 8 / 2 ^ 16)); [lia|].
  rewrite !Z.div_div by done. split; [apply Z.div_pos; lia|apply Z.div_lt_upper_bound; lia].
Qed.

(** The task register finds the segment at the address [seginit] put it. *)
Lemma tss_descriptor addr :
  0 ≤ addr < 2 ^ 64 →
  system_base (segdesc_val (SEG STS_T64A 0xb addr 0 DPL_USER 0))
    (segdesc_val (SEG 0 (Z.shiftr addr 32) (Z.shiftr addr 48) 0 0 0)) = addr.
Proof.
  intros Ha. etransitivity; [|symmetry; by apply address_fields].
  unfold segdesc_val, SEG. cbn [lim_15_0 base_15_0 base_23_16 sd_type sd_s dpl sd_p lim_19_16 avl rsv1 db sd_g base_31_24].
  rewrite !bitfields_cons. change 0xffff with (Z.ones 16). change 0xff with (Z.ones 8). rewrite !land_ff by lia.
  rewrite !Z.shiftr_div_pow2 by lia.
  assert (E32 : ∀ x, u32 x mod 2 ^ 16 = x mod 2 ^ 16).
  { intros x. unfold u32. rewrite (Z.mod_eq x (2 ^ 32)) by done.
    replace (x - 2 ^ 32 * (x / 2 ^ 32)) with (x + (- (2 ^ 16 * (x / 2 ^ 32))) * 2 ^ 16) by lia. by apply Z.mod_add. }
  rewrite !E32.
  pose proof (Z.mod_pos_bound addr (2 ^ 16)). pose proof (Z.mod_pos_bound (addr / 2 ^ 16) (2 ^ 8)).
  pose proof (Z.mod_pos_bound (addr / 2 ^ 24) (2 ^ 8)). pose proof (Z.mod_pos_bound (addr / 2 ^ 32) (2 ^ 16)).
  pose proof (Z.mod_pos_bound (addr / 2 ^ 48) (2 ^ 16)).
  set (a0 := addr mod 2 ^ 16) in *. set (a1 := addr / 2 ^ 16 mod 2 ^ 8) in *. set (a2 := addr / 2 ^ 24 mod 2 ^ 8) in *.
  set (a3 := addr / 2 ^ 32 mod 2 ^ 16) in *. set (a4 := addr / 2 ^ 48 mod 2 ^ 16) in *.
  assert (Hlo : ∀ lo hi r, lo = 11 + 2 ^ 16 * a0 + 2 ^ 32 * a1 + 2 ^ 40 * 0x80e9 + 2 ^ 56 * a2 →
    hi = a3 + 2 ^ 16 * a4 + 2 ^ 32 * r → system_base lo hi = a0 + 2 ^ 16 * a1 + 2 ^ 24 * a2 + 2 ^ 32 * a3 + 2 ^ 48 * a4).
  { intros lo hi r -> ->. unfold system_base.
    rewrite <- (Z.div_unique _ (2 ^ 16) (a0 + 2 ^ 16 * a1 + 2 ^ 24 * 0x80e9 + 2 ^ 40 * a2) 11) by lia.
    rewrite <- (Z.mod_unique _ (2 ^ 24) (0x80e9 + 2 ^ 16 * a2) (a0 + 2 ^ 16 * a1)) by lia.
    rewrite <- (Z.div_unique _ (2 ^ 56) a2 (11 + 2 ^ 16 * a0 + 2 ^ 32 * a1 + 2 ^ 40 * 0x80e9)) by lia.
    rewrite <- (Z.mod_unique _ (2 ^ 32) r (a3 + 2 ^ 16 * a4)) by lia. lia. }
  eapply Hlo.
  { clearbody a0 a1 a2 a3 a4. unfold STS_T64A, DPL_USER. cbn [bitfields].
    repeat match goal with |- context [?x mod ?y] => let v := eval vm_compute in (x mod y) in change (x mod y) with v end. lia. }
  rewrite Z.mul_add_distr_l, Z.mul_assoc, Z.add_assoc. reflexivity.
Qed.
