(* ===== verification/Main.v ===== *)
(** * main.c: starting the machine

    [main] on the boot processor and [mpenter] on the others, with the kernel's
    initialisation functions in the order of the source. *)

From S2P Require Import Prelude Kernel Bytes Spinlock CString Kalloc Sched Sleeplock Disk Memide Bio Log Pipe Inode Io Ioapic Ide Console Apic Mp Fs Vm File Proc Syscall Exec Sysfile Trap Seg.

Section main.
  (** The assembly code the kernel is linked with: the image of entryother.S, the
      addresses [entry32mp], [syscall_entry] and [ignore_sysret], the trap vectors and
      the image of initcode.S.  [ideinit] is that of ide.c or of memide.c, as the
      Makefile chooses. *)
  Context {image : KernelImage} {D : DiskDriver} {Dv : Devices} (patience : nat).
  Context (entryother : list Z) (entry32mp syscall_entry ignore_sysret : Z) (vectors : nat → Z).
  Context (initcode : list Z) (ideinit : K unit).

(** The first [rounds] rounds of [scheduler]'s endless loop. *)
Fixpoint scheduler (rounds : nat) (skipped : Z) : K unit :=
  match rounds with
  | O => mret tt
  | S n =>
      '(skipped', _) ← scheduler_iter skipped;
      scheduler n skipped'
  end.

(** [xchg(&cpu->started, 1)]. *)
Definition set_started : K unit :=
  c ← getw (λ w, cpu_id (w_cpu w));
  modhw (λ h, h <| cpus ::= alter (λ x, x <| started := 1 |>) c |>).

Definition mpmain (rounds : nat) : K unit :=
  n ← cpunum;
  cprintf (chars "cpu%d: starting" ++ [10]) [AInt n] ;;
  idtinit ;;
  syscallinit syscall_entry ignore_sysret ;;
  set_started ;;
  scheduler rounds 0.

Definition mpenter (rounds : nat) : K unit :=
  switchkvm ;;
  seginit ;;
  lapicinit patience ;;
  mpmain rounds.

(** [while(c->started == 0) ;] lets the other processors take a step each time. *)
Fixpoint wait_started (k : nat) (e : env) (w : world) : res kstate unit :=
  match cpus (w_hw w) !! k with
  | None => Stop (Faulted "cpus") (KS w e)
  | Some c =>
      if negb (started c =? 0) then Ok tt (KS w e)
      else match e with
           | [] => Stop Waiting (KS w [])
           | f :: e' => wait_started k e' (f w)
           end
  end.

(** The body of the loop for [c = cpus + k]. *)
Definition start_one (code : Z) (k : nat) : K unit :=
  n ← cpunum;
  if Z.of_nat k =? n then mret tt else
  stack ← kalloc;
  modm (λ m, wr_bytes m (code - 4) (le_bytes 4 0x8000)) ;;
  modm (λ m, wr_bytes m (code - 8) (le_bytes 4 (V2P entry32mp))) ;;
  modm (λ m, store64 m (code - 16) (u64 (stack + KSTACKSIZE))) ;;
  l ← gethw cpus;
  c ← munwrap "cpus" (l !! k);
  lapicstartap (apicid c) (u32 (V2P code)) ;;
  ((λ s, wait_started k (ks_env s) (ks_w s)) : K unit).

Definition startothers : K unit :=
  let code := P2V 0x7000 in
  modm (λ m, wr_bytes m code entryother) ;;
  n ← gethw ncpu;
  iterM (start_one code) (seq 0 (Z.to_nat n)).

(** [main], and the first [rounds] rounds of the scheduler it ends in. *)
Definition main (rounds : nat) : K unit :=
  uartearlyinit ;;
  kinit1 kend (P2V PHYSTOP) ;;
  kvmalloc ;;
  mpinit ;;
  lapicinit patience ;;
  tvinit vectors ;;
  seginit ;;
  n ← cpunum;
  cprintf ([10] ++ chars "cpu%d: starting Fall 2025 xv6" ++ [10; 10]) [AInt n] ;;
  ioapicinit ;;
  consoleinit ;;
  uartinit ;;
  pinit ;;
  binit ;;
  fileinit ;;
  ideinit ;;
  startothers ;;
  kinit2 ;;
  userinit initcode ;;
  mpmain rounds.
End main.
