(* ===== verification/Boot.v ===== *)
(** * bootmain.c: the boot loader

    [bootmain] reads the kernel's multiboot header and then its image from the
    disk, by sectors, into physical memory, and jumps to the entry point.  It runs in 32-bit
    mode without paging: [w_mem] is addressed physically, and pointers are 32
    bits wide.  What the ATA disk promises is stated on its registers, as for the
    kernel's driver. *)

From S2P Require Import Prelude Kernel CString Disk Io Ide IdeSpec.

Definition SECTSIZE : Z := 512.

(** [struct mbheader], the eight words at address [p]. *)
Definition mb_word (m : mem) (p i : Z) : Z := le_val (rd_bytes m (p + 4 * i) 4).
Definition mb_flags (m : mem) (hdr : Z) : Z := mb_word m hdr 1.
Definition mb_header_addr (m : mem) (hdr : Z) : Z := mb_word m hdr 3.
Definition mb_load_addr (m : mem) (hdr : Z) : Z := mb_word m hdr 4.
Definition mb_load_end_addr (m : mem) (hdr : Z) : Z := mb_word m hdr 5.
Definition mb_bss_end_addr (m : mem) (hdr : Z) : Z := mb_word m hdr 6.
Definition mb_entry_addr (m : mem) (hdr : Z) : Z := mb_word m hdr 7.

Section boot.
  (** The disk is ready after at most [patience] reads of its status. *)
  Context {Dv : Devices} (patience : nat).

Definition waitdisk : K unit :=
  poll patience (r ← inb 0x1F7; mret (if Z.land r 0xC0 =? 0x40 then Some tt else None)).

Definition readsect (dst offset : Z) : K unit :=
  waitdisk ;;
  outb 0x1F2 1 ;;
  outb 0x1F3 offset ;;
  outb 0x1F4 (Z.shiftr offset 8) ;;
  outb 0x1F5 (Z.shiftr offset 16) ;;
  outb 0x1F6 (Z.lor (Z.shiftr offset 24) 0xE0) ;;
  outb 0x1F7 0x20 ;;
  waitdisk ;;
  d ← insl 0x1F0 (SECTSIZE / 4);
  modw (λ w, w <| w_mem ::= λ m, wr_bytes m dst d |>).

(** [for(; pa < epa; pa += SECTSIZE, offset++) readsect(pa, offset);] *)
Fixpoint readseg_loop (fuel : nat) (pa epa offset : Z) : K unit :=
  if pa <? epa then
    match fuel with
    | O => mstop OutOfFuel
    | S f =>
        readsect pa offset ;;
        readseg_loop f (u32 (pa + SECTSIZE)) epa (u32 (offset + 1))
    end
  else mret tt.

(** Without a wrap-around of the pointer the loop makes at most
    [count / SECTSIZE + 2] rounds; with one it need not end. *)
Definition readseg (pa count offset : Z) : K unit :=
  let epa := u32 (pa + count) in
  let pa := u32 (pa - offset mod SECTSIZE) in
  let offset := u32 (offset / SECTSIZE + 1) in
  readseg_loop (Z.to_nat (count / SECTSIZE + 2)) pa epa offset.

(** The search for the header in the [n] words from word [i] of the array [x] on. *)
Fixpoint find_header (m : mem) (x : Z) (n : nat) (i : Z) : option Z :=
  match n with
  | O => None
  | S n =>
      if (mb_word m x i =? 0x1BADB002)
         && (u32 (mb_word m x i + mb_word m x (i + 1) + mb_word m x (i + 2)) =? 0)
      then Some i else find_header m x n (i + 1)
  end.

(** The address jumped to, or [None] where the function returns. *)
Definition bootmain : K (option Z) :=
  let x := 0x10000 in
  readseg x 8192 0 ;;
  m ← getw w_mem;
  match find_header m x (Z.to_nat (8192 / 4)) 0 with
  | None => mret None
  | Some n =>
      let hdr := x + 4 * n in
      if Z.land (mb_flags m hdr) 0x10000 =? 0 then mret None
      else if mb_load_addr m hdr >? mb_header_addr m hdr then mret None
      else if mb_load_end_addr m hdr <? mb_load_addr m hdr then mret None
      else
        readseg (mb_load_addr m hdr) (mb_load_end_addr m hdr - mb_load_addr m hdr)
          (u32 (n * 4 - (mb_header_addr m hdr - mb_load_addr m hdr))) ;;
        m ← getw w_mem;
        (if mb_bss_end_addr m hdr >? mb_load_end_addr m hdr then
           modw (λ w, w <| w_mem ::= λ m,
             stosb m (mb_load_end_addr m hdr) 0
               (Z.to_nat (mb_bss_end_addr m hdr - mb_load_end_addr m hdr)) |>)
         else mret tt) ;;
        m ← getw w_mem;
        mret (Some (mb_entry_addr m hdr))
  end.

(** ** What the loader leaves in memory *)

(** The disk, as the standard describes it: it becomes ready within [patience] reads of
    its status, and then the data port gives the sector that the last read command
    asked the first drive for. *)
Context (sector : Z → list Z).
Context (Hready : ∀ t, ready_within patience t).
Context (Hdata : ∀ t l s, Forall is_input l →
  last (commands (t ++ [IoOut 0x1F7 0x20])) = Some (0x20, 0, s) →
  dev_ins ((t ++ [IoOut 0x1F7 0x20]) ++ l) 0x1F0 512 = sector s).
Context (Hlen : ∀ s, length (sector s) = 512%nat).

(** Byte [i] of the kernel, which starts at sector 1. *)
Definition kbyte (i : Z) : Z := nth (Z.to_nat (i mod 512)) (sector (i / 512 + 1)) 0.

Lemma waitdisk_ok w e :
  ∃ l, waitdisk (KS w e) = Ok tt (KS (w <| w_io := w_io w ++ l |>) e) ∧ Forall is_input l.
Proof using Hready.
  unfold waitdisk. generalize (Hready (w_io w)). generalize patience as n. intros n.
  revert w; induction n as [|n IH]; intros w Hr; [done|]. cbn [poll ready_within] in *.
  unfold inb, io. kstep. set (r := u8 (dev_in (w_io w) 0x1f7)) in *.
  destruct (Z.eqb_spec (Z.land r 0xC0) 0x40) as [Hs|Hs].
  - exists [IoIn 0x1f7 r]. split; [|by repeat constructor]. unfold mret, M_ret. weq.
  - destruct Hr as [?|Hr]; [done|].
    destruct (IH (w <| w_io ::= λ t, t ++ [IoIn 0x1f7 r] |>)) as (l & Hp & Hl); [by rsimpl|].
    exists (IoIn 0x1f7 r :: l). split; [|by constructor]. unfold inb, io in Hp. rewrite Hp. weq.
    by rewrite <- (assoc_L (++)).
Qed.

Lemma lba_bytes s :
  0 ≤ s < 2 ^ 28 →
  u8 s + 2 ^ 8 * u8 (Z.shiftr s 8) + 2 ^ 16 * u8 (Z.shiftr s 16)
    + 2 ^ 24 * Z.land (u8 (Z.lor (Z.shiftr s 24) 0xE0)) 0xf = s
  ∧ Z.land (Z.shiftr (u8 (Z.lor (Z.shiftr s 24) 0xE0)) 4) 1 = 0.
Proof.
  intros Hs. rewrite !Z.shiftr_div_pow2 by lia. unfold u8.
  assert (Hq : 0 ≤ s / 2 ^ 24 < 16) by (split; [apply Z.div_pos; lia|apply Z.div_lt_upper_bound; lia]).
  assert (E : ∀ q, 0 ≤ q < 16 →
    Z.land (Z.lor q 0xE0 mod 2 ^ 8) 0xf = q ∧ Z.land (Z.lor q 0xE0 mod 2 ^ 8 / 2 ^ 4) 1 = 0).
  { intros q Hq'. assert (In q (map Z.of_nat (seq 0 16))) as Hin.
    { rewrite in_map_iff. exists (Z.to_nat q). rewrite in_seq. lia. }
    cbn in Hin. intuition (subst; split; reflexivity). }
  destruct (E _ Hq) as [-> E2]. split; [|exact E2].
  pose proof (Z.div_mod s (2 ^ 8)). pose proof (Z.div_mod (s / 2 ^ 8) (2 ^ 8)).
  pose proof (Z.div_mod (s / 2 ^ 16) (2 ^ 8)).
  replace (s / 2 ^ 16) with (s / 2 ^ 8 / 2 ^ 8) in * by (rewrite Z.div_div by lia; reflexivity).
  replace (s / 2 ^ 24) with (s / 2 ^ 8 / 2 ^ 8 / 2 ^ 8) in * by (rewrite !Z.div_div by lia; reflexivity).
  change (2 ^ 8) with 256 in *. lia.
Qed.

(** What [readsect] writes to the ports before the command. *)
Definition sect_out (s : Z) : list ioev :=
  [IoOut 0x1F2 1; IoOut 0x1F3 (u8 s); IoOut 0x1F4 (u8 (Z.shiftr s 8)); IoOut 0x1F5 (u8 (Z.shiftr s 16));
   IoOut 0x1F6 (u8 (Z.lor (Z.shiftr s 24) 0xE0))].

Lemma commands_sect t s :
  0 ≤ s < 2 ^ 28 → last (commands ((t ++ sect_out s) ++ [IoOut 0x1F7 0x20])) = Some (0x20, 0, s).
Proof.
  intros Hs. destruct (lba_bytes s Hs) as [E1 E2]. unfold commands. rewrite !ata_of_app.
  unfold sect_out. cbn [fold_left ata_step Z.eqb Pos.eqb r3 r4 r5 r6 cmds]. rewrite last_snoc. by rewrite E1, E2.
Qed.

Lemma readsect_ok dst s w e :
  0 ≤ s < 2 ^ 28 →
  ∃ t, readsect dst s (KS w e) =
    Ok tt (KS (w <| w_io := t |> <| w_mem := wr_bytes (w_mem w) dst (sector s) |>) e).
Proof using Hready Hdata.
  intros Hs. unfold readsect. destruct (waitdisk_ok w e) as (l & Hw & _). rewrite (bind_ok _ _ _ _ _ Hw).
  unfold outb, io. kstep.
  set (t := ((w_io w ++ l) ++ sect_out s) ++ [IoOut 0x1F7 0x20]).
  match goal with |- context [{| ks_w := ?v; ks_env := e |}] => replace v with (w <| w_io := t |>)
    by (weq; unfold t, sect_out; by rewrite <- !(assoc_L (++))) end.
  destruct (waitdisk_ok (w <| w_io := t |>) e) as (l' & Hw' & Hl'). rewrite (bind_ok _ _ _ _ _ Hw').
  unfold insl, io. kstep. change (Z.to_nat (4 * (SECTSIZE / 4))) with 512%nat.
  assert (Ed : dev_ins (t ++ l') 0x1F0 512 = sector s) by (apply Hdata; [done|by apply commands_sect]).
  rewrite Ed. exists ((t ++ l') ++ [IoIns 0x1F0 (sector s)]). clearbody t. rewrite modw_eq. weq.
Qed.

(** The memory after sectors from [s] on were read to [pa] on. *)
Definition loaded_to (m m' : mem) (pa : Z) (k : nat) (s : Z) : Prop :=
  ∀ a, rd m' a = if decide (pa ≤ a < pa + 512 * Z.of_nat k) then kbyte ((s - 1) * 512 + (a - pa)) else rd m a.

Lemma sector_kbyte s i : 0 ≤ i < 512 → sector s !!! Z.to_nat i = kbyte ((s - 1) * 512 + i).
Proof using Hlen.
  intros Hi. unfold kbyte. replace ((s - 1) * 512 + i) with (i + (s - 1) * 512) by lia.
  rewrite Z.mod_add, Z.div_add, Z.mod_small, Z.div_small by lia.
  replace (0 + (s - 1) + 1) with s by lia. pose proof (Hlen s) as El.
  destruct (lookup_lt_is_Some_2 (sector s) (Z.to_nat i)) as [x Hx]; [lia|].
  rewrite (list_lookup_total_correct _ _ _ Hx). symmetry. by apply nth_lookup_Some.
Qed.

Lemma readseg_loop_ok k : ∀ f pa epa s w e,
  (k ≤ f)%nat → 0 ≤ pa → pa + 512 * Z.of_nat k < 2 ^ 32 → 0 ≤ s → s + Z.of_nat k < 2 ^ 28 →
  pa + 512 * (Z.of_nat k - 1) < epa ≤ pa + 512 * Z.of_nat k →
  ∃ t m', readseg_loop f pa epa s (KS w e) = Ok tt (KS (w <| w_io := t |> <| w_mem := m' |>) e) ∧
    loaded_to (w_mem w) m' pa k s.
Proof using Hready Hdata Hlen.
  induction k as [|k IH]; intros f pa epa s w e Hf Hpa Hw Hs Hsk Hepa.
  - exists (w_io w), (w_mem w). split.
    + destruct f; cbn [readseg_loop]; rewrite (proj2 (Z.ltb_ge pa epa)) by lia; unfold mret, M_ret; weq.
    + intros a. by rewrite decide_False by lia.
  - destruct f as [|f]; [lia|]. cbn [readseg_loop]. rewrite (proj2 (Z.ltb_lt pa epa)) by lia.
    destruct (readsect_ok pa s w e) as (t & Ht); [lia|]. rewrite (bind_ok _ _ _ _ _ Ht).
    unfold SECTSIZE. rewrite !u32_small by lia.
    destruct (IH f (pa + 512) epa (s + 1) (w <| w_io := t |> <| w_mem := wr_bytes (w_mem w) pa (sector s) |>) e)
      as (t' & m' & Hr & Hm); try lia.
    exists t', m'. split; [rewrite Hr; weq|]. rsimpl_in_all. intros a. rewrite (Hm a), rd_wr_bytes, Hlen.
    change (Z.of_nat 512) with 512. repeat case_decide; try lia; try done.
    + f_equal. lia.
    + apply sector_kbyte. lia.
Qed.

(** [readseg] loads the bytes asked for, and otherwise changes at most the rest of the
    first and of the last sector's place. *)
Lemma readseg_ok pa count off w e :
  0 ≤ off < 2 ^ 32 → off mod 512 ≤ pa → 0 ≤ count → pa + count + 512 < 2 ^ 32 → off + count < 2 ^ 36 →
  ∃ t m', readseg pa count off (KS w e) = Ok tt (KS (w <| w_io := t |> <| w_mem := m' |>) e) ∧
    (∀ a, pa ≤ a < pa + count → rd m' a = kbyte (off + (a - pa))) ∧
    (∀ a, a < pa - off mod 512 ∨ pa + count + 511 ≤ a → rd m' a = rd (w_mem w) a).
Proof using Hready Hdata Hlen.
  intros Hoff Hpa Hc Hw Hbig. unfold readseg, SECTSIZE.
  pose proof (Z.div_mod off 512 ltac:(lia)) as Ed. pose proof (Z.mod_pos_bound off 512 ltac:(lia)).
  set (r := off mod 512) in *. set (q := off / 512) in *.
  assert (0 ≤ q) by (unfold q; apply Z.div_pos; lia).
  rewrite !u32_small by lia.
  pose proof (Z.div_mod (count + r + 511) 512 ltac:(lia)) as Ek.
  pose proof (Z.mod_pos_bound (count + r + 511) 512 ltac:(lia)).
  pose proof (Z.div_mod count 512 ltac:(lia)) as Ec. pose proof (Z.mod_pos_bound count 512 ltac:(lia)).
  set (k := (count + r + 511) / 512) in *. assert (0 ≤ k) by (unfold k; apply Z.div_pos; lia).
  destruct (readseg_loop_ok (Z.to_nat k) (Z.to_nat (count / 512 + 2)) (pa - r) (pa + count) (q + 1) w e)
    as (t & m' & Hr & Hm); try lia.
  exists t, m'. split; [done|]. split; intros a Ha; rewrite (Hm a).
  - rewrite decide_True by lia. f_equal. lia.
  - rewrite decide_False by lia. done.
Qed.

(** Word [i] of the kernel, and whether a multiboot header starts there. *)
Definition kword (i : Z) : Z := le_val ((λ j, kbyte (4 * i + Z.of_nat j)) <$> seq 0 4).
Definition header_at (i : Z) : Prop :=
  kword i = 0x1BADB002 ∧ u32 (kword i + kword (i + 1) + kword (i + 2)) = 0.

(** The scratch space holds the first 8192 bytes of the kernel. *)
Definition scratch (m : mem) : Prop := ∀ a, 0x10000 ≤ a < 0x12000 → rd m a = kbyte (a - 0x10000).

Lemma mb_word_scratch m n i : scratch m → 0 ≤ n → 0 ≤ i → n + i < 2048 → mb_word m (0x10000 + 4 * n) i = kword (n + i).
Proof.
  intros Hm Hn Hi Hlt. unfold mb_word, kword. f_equal. apply rd_bytes_fn.
  intros j Hj. rewrite Hm by lia. f_equal. lia.
Qed.

Lemma mb_word_scratch0 m i : scratch m → 0 ≤ i < 2048 → mb_word m 0x10000 i = kword i.
Proof. intros Hm Hi. apply (mb_word_scratch m 0 i); done || lia. Qed.

Lemma find_header_first m n : ∀ k i,
  scratch m → 0 ≤ i ≤ n → n < i + Z.of_nat k → n + 2 < 2048 →
  (∀ j, i ≤ j < n → ¬ header_at j) → header_at n →
  find_header m 0x10000 k i = Some n.
Proof.
  induction k as [|k IH]; intros i Hm Hi Hk Hn Hfst Hat; [lia|]. cbn [find_header].
  rewrite !mb_word_scratch0 by (done || lia).
  destruct (decide (i = n)) as [->|Hne].
  { destruct Hat as [H1 H2]. by rewrite (proj2 (Z.eqb_eq _ _) H1), (proj2 (Z.eqb_eq _ _) H2). }
  destruct (Z.eqb_spec (kword i) 0x1BADB002) as [H1|]; cbn [andb]; [|apply IH; try done; try lia; intros; apply Hfst; lia].
  destruct (Z.eqb_spec (u32 (kword i + kword (i + 1) + kword (i + 2))) 0) as [H2|].
  - by destruct (Hfst i ltac:(lia)).
  - apply IH; try done; try lia. intros; apply Hfst; lia.
Qed.

Lemma find_header_none m : ∀ k i,
  scratch m → 0 ≤ i → i + Z.of_nat k ≤ 2048 → (∀ j, i ≤ j < 2048 → kword j ≠ 0x1BADB002) →
  find_header m 0x10000 k i = None.
Proof.
  induction k as [|k IH]; intros i Hm Hi Hk Hno; [done|]. cbn [find_header].
  rewrite (mb_word_scratch0 m i) by (done || lia). rewrite (proj2 (Z.eqb_neq _ _) (Hno i ltac:(lia))). cbn [andb].
  apply IH; try done; try lia. intros; apply Hno; lia.
Qed.

(** The first [readseg] fills the scratch space. *)
Lemma read_scratch w e :
  ∃ t m', readseg 0x10000 8192 0 (KS w e) = Ok tt (KS (w <| w_io := t |> <| w_mem := m' |>) e) ∧ scratch m'.
Proof using Hready Hdata Hlen.
  destruct (readseg_ok 0x10000 8192 0 w e) as (t & m' & Hr & Hm & _); try lia; [by vm_compute|].
  exists t, m'. split; [done|]. intros a Ha. rewrite Hm by lia. f_equal.
Qed.

Lemma bootmain_no_header w e :
  (∀ j, 0 ≤ j < 2048 → kword j ≠ 0x1BADB002) → ∃ w', bootmain (KS w e) = Ok None (KS w' e).
Proof using Hready Hdata Hlen.
  intros Hno. destruct (read_scratch w e) as (t & m' & Hr & Hs). unfold bootmain. rewrite (bind_ok _ _ _ _ _ Hr).
  kstep. rewrite find_header_none; try done. by eexists.
Qed.

End boot.

(** *** A machine to boot: a disk that is always ready, with a header at the start of a
    kernel of one sector that is loaded at 1 MB *)

Definition demo_header : list Z :=
  concat (le_bytes 4 <$> [0x1BADB002; 0x10000; u32 (- (0x1BADB002 + 0x10000));
                          0x100000; 0x100000; 0x100200; 0x100400; 0x100020]).
Definition demo_sector (s : Z) : list Z :=
  if s =? 1 then demo_header ++ replicate (512 - 32) 0x90 else replicate 512 0.

Definition demo_devices : Devices := {|
  dev_in := λ _ _, 0x40;
  dev_ins := λ t _ _, demo_sector (default 0 (snd <$> last (commands t)));
  dev_rd := λ _ _, 0
|}.

Lemma demo_data t l s :
  Forall is_input l → last (commands (t ++ [IoOut 0x1F7 0x20])) = Some (0x20, 0, s) →
  @dev_ins demo_devices ((t ++ [IoOut 0x1F7 0x20]) ++ l) 0x1F0 512 = demo_sector s.
Proof. intros Hl H. cbn [dev_ins demo_devices]. by rewrite commands_inputs, H. Qed.

Lemma demo_sector_length s : length (demo_sector s) = 512%nat.
Proof. unfold demo_sector. by destruct (s =? 1). Qed.

Ltac by_eval := vm_compute; first [reflexivity|discriminate].

