(* ===== verification/X86.v ===== *)
(** * The instructions of the assembly files

    The state of a processor in 64-bit mode as the kernel's assembly code sees
    it: the general registers, the flags, the selectors of the code and stack
    segments, the model-specific registers, and memory at virtual addresses.
    [run] executes instructions until one of them transfers control, and gives
    the address where it goes.  How [addq] sets the arithmetic flags is a
    parameter. *)

From S2P Require Import Prelude Kernel Io CString Proc Trap Seg.

Inductive reg :=
  | RAX | RBX | RCX | RDX | RBP | RSI | RDI | R8 | R9 | R10 | R11 | R12 | R13 | R14 | R15 | RSP.
#[export] Instance reg_eq_dec : EqDecision reg.
Proof. solve_decision. Defined.

(** A register, memory at a displacement from a register, and memory at a
    displacement from the base of the segment register FS. *)
Inductive place := Reg (r : reg) | Mem (disp : Z) (base : reg) | Fs (disp : Z).
Inductive operand := Imm (n : Z) | At (p : place).
Coercion At : place >-> operand.

(** Labels of the assembly files and functions of the C files: the entry of
    vector [i], the stub of system call [n] and the [ret] that ends it, the
    first instructions of initcode.S and its label [exit], its strings. *)
Inductive symbol :=
  | S_vector (i : Z) | S_alltraps | S_trap | S_trapret
  | S_syscall_entry | S_syscall | S_syscall_trapret | S_forkret
  | S_stub (n : Z) | S_stub_ret (n : Z)
  | S_start | S_exit | S_exit_jmp | S_init | S_argv.

(** [Call] and [Syscall] name the instruction that follows them. *)
Inductive instr :=
  | Push (o : operand) | Pop (r : reg) | Mov (src : operand) (dst : place) | Lea (l : symbol) (r : reg)
  | Add (n : Z) (r : reg) | Cli
  | Jmp (l : symbol) | Call (f next : symbol) | Ret | Iret | Syscall (next : symbol) | Sysret.

Record mach := mk_mach {
  m_reg : reg → Z;
  m_flags : Z;
  m_cs : Z;
  m_ss : Z;
  m_msr : Z → Z;
  m_mem : mem
}.
#[export] Instance eta_mach : Settable mach := λ r,
  mk_mach (m_reg r) (m_flags r) (m_cs r) (m_ss r) (m_msr r) (m_mem r).

Definition MSR_FS : Z := 0xC0000100.

Definition address (m : mach) (p : place) : Z :=
  match p with
  | Reg _ => 0
  | Mem d b => u64 (m_reg m b + d)
  | Fs d => u64 (m_msr m MSR_FS + d)
  end.

Definition value (m : mach) (o : operand) : Z :=
  match o with
  | Imm n => u64 n
  | At (Reg r) => m_reg m r
  | At p => load64 (m_mem m) (address m p)
  end.

Definition assign (p : place) (v : Z) (m : mach) : mach :=
  match p with
  | Reg r => m <| m_reg ::= <[r := v]> |>
  | _ => m <| m_mem ::= λ x, store64 x (address m p) v |>
  end.

Definition push (v : Z) (m : mach) : mach :=
  let sp := u64 (m_reg m RSP - 8) in
  m <| m_reg ::= <[RSP := sp]> |> <| m_mem ::= λ x, store64 x sp v |>.

Definition pop (m : mach) : Z * mach :=
  (load64 (m_mem m) (m_reg m RSP), m <| m_reg ::= <[RSP := u64 (m_reg m RSP + 8)]> |>).

(** [iretq] in 64-bit mode pops five words. *)
Definition iretq (m : mach) : Z * mach :=
  let '(rip, m) := pop m in
  let '(cs, m) := pop m in
  let '(fl, m) := pop m in
  let '(sp, m) := pop m in
  let '(ss, m) := pop m in
  (rip, m <| m_reg ::= <[RSP := sp]> |> <| m_flags := fl |> <| m_cs := cs |> <| m_ss := ss |>).

(** [syscall], [next] being the address of the next instruction. *)
Definition syscallq (next : Z) (m : mach) : Z * mach :=
  let star := m_msr m MSR_STAR in
  (m_msr m MSR_LSTAR,
   m <| m_reg ::= λ f, <[R11 := m_flags m]> (<[RCX := next]> f) |>
     <| m_flags := Z.ldiff (m_flags m) (m_msr m MSR_SFMASK) |>
     <| m_cs := Z.land (Z.shiftr star 32) 0xFFFC |> <| m_ss := Z.land (Z.shiftr star 32) 0xFFFF + 8 |>).

(** [sysretq] to 64-bit code; it faults if the address is not canonical. *)
Definition sysretq (m : mach) : option (Z * mach) :=
  let sel := Z.land (Z.shiftr (m_msr m MSR_STAR) 48) 0xFFFF in
  if m_reg m RCX <? 2 ^ 47 then
    Some (m_reg m RCX,
      m <| m_flags := Z.lor (Z.land (m_reg m R11) 0x3C7FD7) 2 |>
        <| m_cs := Z.lor (sel + 16) 3 |> <| m_ss := Z.lor (sel + 8) 3 |>)
  else None.

Section run.
  Context (addr : symbol → Z) (add_flags : Z → Z → Z → Z).

Fixpoint run (c : list instr) (m : mach) : option (Z * mach) :=
  match c with
  | [] => None
  | Push o :: c => run c (push (value m o) m)
  | Pop r :: c => let '(v, m) := pop m in run c (m <| m_reg ::= <[r := v]> |>)
  | Mov o p :: c => run c (assign p (value m o) m)
  | Lea l r :: c => run c (m <| m_reg ::= <[r := addr l]> |>)
  | Add n r :: c =>
      let v := m_reg m r in
      run c (m <| m_reg ::= <[r := u64 (v + n)]> |> <| m_flags ::= add_flags v n |>)
  | Cli :: c => run c (m <| m_flags ::= λ f, Z.ldiff f FL_IF |>)
  | Jmp l :: _ => Some (addr l, m)
  | Call f next :: _ => Some (addr f, push (addr next) m)
  | Ret :: _ => Some (pop m)
  | Iret :: _ => Some (iretq m)
  | Syscall next :: _ => Some (syscallq (addr next) m)
  | Sysret :: _ => sysretq m
  end.
End run.

(** ** What the processor does on an interrupt

    It switches to the stack of the task state segment if it was in user mode,
    aligns the stack, and pushes the interrupted state, and an error code for
    some exceptions; the gate clears the interrupt flag. *)
Definition int_stack (sp0 : Z) (m : mach) : Z :=
  if Z.land (m_cs m) 3 =? 3 then sp0 else m_reg m RSP - m_reg m RSP mod 16.

Definition interrupt (sp0 rip : Z) (err : option Z) (m : mach) : mach :=
  let m1 := m <| m_reg ::= <[RSP := int_stack sp0 m]> |> in
  let m2 := push rip (push (m_cs m) (push (m_flags m) (push (m_reg m RSP) (push (m_ss m) m1)))) in
  let m3 := match err with Some e => push e m2 | None => m2 end in
  m3 <| m_flags ::= λ f, Z.ldiff f (Z.lor FL_IF FL_TF) |> <| m_cs := KERNEL_CS |>
     <| m_ss ::= λ s, if Z.land (m_cs m) 3 =? 3 then 0 else s |>.

(** ** Runs of pushes and pops *)

Fixpoint words (m : mem) (a : Z) (n : nat) : list Z :=
  match n with O => [] | S n => load64 m a :: words m (a + 8) n end.

Fixpoint store_words (m : mem) (a : Z) (l : list Z) : mem :=
  match l with [] => m | v :: l => store64 (store_words m (a + 8) l) a v end.

Definition word (v : Z) : Prop := 0 ≤ v < 2 ^ 64.

Lemma words_ext m m' a n :
  (∀ b, a ≤ b < a + 8 * Z.of_nat n → rd m b = rd m' b) → words m a n = words m' a n.
Proof.
  revert a. induction n as [|n IH]; intros a H; [done|]. cbn [words]. f_equal.
  - apply load64_ext. intros b Hb. apply H. lia.
  - apply IH. intros b Hb. apply H. lia.
Qed.

Lemma rd_store_words m a l b :
  ¬ (a ≤ b < a + 8 * Z.of_nat (length l)) → rd (store_words m a l) b = rd m b.
Proof.
  revert a. induction l as [|v l IH]; intros a H; [done|]. cbn [store_words length] in *.
  rewrite rd_store64_ne by lia. apply IH. lia.
Qed.

Lemma words_store m a l : Forall word l → words (store_words m a l) a (length l) = l.
Proof.
  intros Hl. revert a. induction Hl as [|v l Hv _ IH]; intros a; [done|]. cbn [words store_words length]. f_equal.
  - by apply load64_store64.
  - etrans; [|apply (IH (a + 8))]. apply words_ext. intros b Hb. apply rd_store64_ne. lia.
Qed.

Lemma words_lookup m a n i v : words m a n !! i = Some v → load64 m (a + 8 * Z.of_nat i) = v.
Proof.
  revert a i. induction n as [|n IH]; intros a i; [done|]. destruct i as [|i]; cbn [words].
  - intros [= <-]. f_equal. lia.
  - intros H. rewrite <- (IH (a + 8) i H). f_equal. lia.
Qed.

Lemma words_take m a n k : (n ≤ k)%nat → words m a n = take n (words m a k).
Proof.
  revert a k. induction n as [|n IH]; intros a k H; [done|]. destruct k as [|k]; [lia|]. cbn [words take]. f_equal. apply IH. lia.
Qed.

(** [vs] pushed one after the other. *)
Definition pushed (vs : list Z) (m : mach) : mach :=
  m <| m_reg ::= <[RSP := m_reg m RSP - 8 * Z.of_nat (length vs)]> |>
    <| m_mem ::= λ x, store_words x (m_reg m RSP - 8 * Z.of_nat (length vs)) (rev vs) |>.

Lemma mach_eq m m' :
  m_reg m = m_reg m' → m_flags m = m_flags m' → m_cs m = m_cs m' → m_ss m = m_ss m' → m_msr m = m_msr m' →
  m_mem m = m_mem m' → m = m'.
Proof. destruct m, m'; cbn; congruence. Qed.

Lemma pushed_nil m : pushed [] m = m.
Proof. apply mach_eq; rsimpl; try done. apply fn_insert_id. cbn. lia. Qed.

Lemma push_pushed v vs m :
  8 * Z.of_nat (S (length vs)) ≤ m_reg m RSP < 2 ^ 64 → push v (pushed vs m) = pushed (vs ++ [v]) m.
Proof.
  intros H. unfold push, pushed. rewrite length_app, rev_app_distr. cbn [length rev app].
  apply mach_eq; rsimpl; try done; rewrite fn_lookup_insert_case, decide_True, u64_small by (done || lia).
  - rewrite fn_insert_insert. f_equal. lia.
  - cbn [store_words]. replace (m_reg m RSP - 8 * Z.of_nat (length vs + 1)) with (m_reg m RSP - 8 * Z.of_nat (length vs) - 8) by lia.
    by rewrite Z.sub_add.
Qed.

Section runs.
  Context (addr : symbol → Z) (add_flags : Z → Z → Z → Z).

Lemma run_pushes rs c vs m :
  RSP ∉ rs → 8 * Z.of_nat (length vs + length rs) ≤ m_reg m RSP < 2 ^ 64 →
  run addr add_flags (((λ r, Push (Reg r)) <$> rs) ++ c) (pushed vs m) =
    run addr add_flags c (pushed (vs ++ (m_reg m <$> rs)) m).
Proof.
  revert vs. induction rs as [|r rs IH]; intros vs Hr Hsp; cbn [fmap list_fmap app].
  - by rewrite app_nil_r.
  - cbn [run value]. cbn [length] in Hsp. apply not_elem_of_cons in Hr as [Hr Hrs].
    assert (E : m_reg (pushed vs m) r = m_reg m r).
    { unfold pushed. rsimpl. by rewrite fn_lookup_insert_case, decide_False. }
    rewrite E, push_pushed by lia. rewrite IH by (try done; rewrite length_app; cbn [length]; lia). by rewrite <- app_assoc.
Qed.

(** The registers [rs] loaded with the words [ws]. *)
Definition load_regs (rs : list reg) (ws : list Z) (f : reg → Z) : reg → Z :=
  foldl (λ f x, <[x.1 := x.2]> f) f (zip rs ws).

Lemma load_regs_rsp rs ws v f : RSP ∉ rs → load_regs rs ws (<[RSP := v]> f) = <[RSP := v]> (load_regs rs ws f).
Proof.
  unfold load_regs. revert ws f. induction rs as [|r rs IH]; intros ws f Hr; [by destruct ws|].
  destruct ws as [|w ws]; [done|]. cbn [zip zip_with foldl fst snd]. apply not_elem_of_cons in Hr as [Hr Hrs].
  rewrite fn_insert_commute by done. by apply IH.
Qed.

Lemma run_pop_regs rs c m :
  RSP ∉ rs → 0 ≤ m_reg m RSP → m_reg m RSP + 8 * Z.of_nat (length rs) < 2 ^ 64 →
  run addr add_flags ((Pop <$> rs) ++ c) m =
    run addr add_flags c (m <| m_reg := <[RSP := m_reg m RSP + 8 * Z.of_nat (length rs)]>
      (load_regs rs (words (m_mem m) (m_reg m RSP) (length rs)) (m_reg m)) |>).
Proof.
  revert m. induction rs as [|r rs IH]; intros m Hr H0 Hsp; cbn [fmap list_fmap app].
  - f_equal. apply mach_eq; rsimpl; try done. symmetry. apply fn_insert_id. cbn. lia.
  - cbn [run pop]. cbn [length] in Hsp. apply not_elem_of_cons in Hr as [Hr Hrs].
    assert (E : <[r := load64 (m_mem m) (m_reg m RSP)]> (<[RSP := u64 (m_reg m RSP + 8)]> (m_reg m)) RSP = m_reg m RSP + 8).
    { rewrite fn_lookup_insert_case, decide_False by done. rewrite fn_lookup_insert_case, decide_True by done. apply u64_small. lia. }
    rewrite IH; rsimpl; rewrite ?E; try done; try lia. f_equal. apply mach_eq; rsimpl; try done.
    unfold load_regs. cbn [length words zip zip_with foldl fst snd].
    rewrite fn_insert_commute by done.
    pose proof (load_regs_rsp rs (words (m_mem m) (m_reg m RSP + 8) (length rs))) as Hl. unfold load_regs in Hl.
    rewrite Hl, fn_insert_insert by done. f_equal. lia.
Qed.
End runs.
