(* ===== verification/Asm.v ===== *)
(** * swtch.S, trapasm.S, vectors.pl, usys.S, initcode.S

    The assembly code the running kernel and its processes use, on the machine of
    the file X86: entering the kernel for a trap or a system call and leaving it,
    the switch between threads, the stubs of the C library and the first program.
    The C functions it calls are its environment: the theorems say in which state
    they are called, and what happens when they return, by the calling convention
    with the stack pointer they were called with, from memory they changed as they
    like. *)

From S2P Require Import Prelude Kernel Io CString Proc Trap Seg X86.

(** ** swtch.S *)

Definition swtch : list instr :=
  [Push (Reg RBP); Push (Reg RBX); Push (Reg R12); Push (Reg R13); Push (Reg R14); Push (Reg R15);
   Mov (Reg RSP) (Mem 0 RDI);
   Mov (Reg RSI) (Reg RSP);
   Pop R15; Pop R14; Pop R13; Pop R12; Pop RBX; Pop RBP;
   Ret].

(** ** vectors.pl: the entry of vector [i] *)

Definition vector (i : Z) : list instr :=
  (if negb ((i =? 8) || ((i >=? 10) && (i <=? 14)) || (i =? 17)) then [Push (Imm 0)] else []) ++
  [Push (Imm i); Jmp S_alltraps].

(** ** trapasm.S *)

Definition push_all : list instr :=
  [Push (Reg R15); Push (Reg R14); Push (Reg R13); Push (Reg R12); Push (Reg R11); Push (Reg R10); Push (Reg R9);
   Push (Reg R8); Push (Reg RDI); Push (Reg RSI); Push (Reg RBP); Push (Reg RDX); Push (Reg RCX); Push (Reg RBX);
   Push (Reg RAX)].

Definition pop_all : list instr :=
  [Pop RAX; Pop RBX; Pop RCX; Pop RDX; Pop RBP; Pop RSI; Pop RDI; Pop R8; Pop R9; Pop R10; Pop R11; Pop R12; Pop R13;
   Pop R14; Pop R15].

Definition alltraps : list instr :=
  push_all ++ [Mov (Reg RSP) (Reg RDI); Call S_trap S_trapret].

Definition trapret : list instr :=
  pop_all ++ [Add 16 RSP; Iret].

Definition syscall_entry : list instr :=
  [Mov (Reg RAX) (Fs 0);
   Mov (Fs (-8)) (Reg RAX);
   Mov (Mem 0x10 RAX) (Reg RAX);
   Add (4096 - 16) RAX;
   Mov (Reg RSP) (Mem 0 RAX);
   Mov (Reg RAX) (Reg RSP);
   Mov (Fs 0) (Reg RAX);
   Push (Reg R11);
   Push (Imm 0);
   Push (Reg RCX);
   Push (Imm 0);
   Push (Imm 0)] ++
  push_all ++
  [Mov (Reg RSP) (Reg RDI); Call S_syscall S_syscall_trapret].

Definition syscall_trapret : list instr :=
  pop_all ++ [Add 40 RSP; Cli; Mov (Mem 0 RSP) (Reg RSP); Sysret].

(** ** usys.S: the stub of system call [n] *)

Definition stub (n : Z) : list instr :=
  [Mov (Imm n) (Reg RAX); Mov (Reg RCX) (Reg R10); Syscall (S_stub_ret n)].

Definition stub_ret : list instr := [Ret].

(** ** Frames *)

(** [struct trapframe] and [struct context] in memory. *)
Definition tf_words (t : trapframe) : list Z :=
  [tf_rax t; tf_rbx t; tf_rcx t; tf_rdx t; tf_rbp t; tf_rsi t; tf_rdi t; tf_r8 t; tf_r9 t; tf_r10 t; tf_r11 t;
   tf_r12 t; tf_r13 t; tf_r14 t; tf_r15 t; tf_trapno t; tf_err t; tf_rip t; tf_cs t; tf_rflags t; tf_rsp t; tf_ss t].

Definition tf_reg (t : trapframe) (r : reg) : Z :=
  match r with
  | RAX => tf_rax t | RBX => tf_rbx t | RCX => tf_rcx t | RDX => tf_rdx t | RBP => tf_rbp t | RSI => tf_rsi t
  | RDI => tf_rdi t | R8 => tf_r8 t | R9 => tf_r9 t | R10 => tf_r10 t | R11 => tf_r11 t | R12 => tf_r12 t
  | R13 => tf_r13 t | R14 => tf_r14 t | R15 => tf_r15 t | RSP => tf_rsp t
  end.

(** The frame of a processor in state [m], and the rest of it. *)
Definition frame (f : reg → Z) (trapno err rip cs fl ss : Z) : trapframe :=
  mk_trapframe (f RAX) (f RBX) (f RCX) (f RDX) (f RBP) (f RSI) (f RDI) (f R8) (f R9) (f R10) (f R11) (f R12) (f R13) (f R14) (f R15)
    trapno err rip cs fl (f RSP) ss.

Definition push_regs : list reg := [R15; R14; R13; R12; R11; R10; R9; R8; RDI; RSI; RBP; RDX; RCX; RBX; RAX].
Definition pop_regs : list reg := [RAX; RBX; RCX; RDX; RBP; RSI; RDI; R8; R9; R10; R11; R12; R13; R14; R15].

Section asm.
  Context (addr : symbol → Z) (add_flags : Z → Z → Z → Z).
  Abbreviation go := (run addr add_flags).

Lemma run_push_all c vs m :
  8 * Z.of_nat (length vs + 15) ≤ m_reg m RSP < 2 ^ 64 →
  go (push_all ++ c) (pushed vs m) = go c (pushed (vs ++ (m_reg m <$> push_regs)) m).
Proof. intros H. apply (run_pushes addr add_flags push_regs); [|done]. clear. unfold push_regs. set_solver. Qed.

Lemma run_pop_all c m t :
  0 ≤ m_reg m RSP → m_reg m RSP + 120 < 2 ^ 64 → words (m_mem m) (m_reg m RSP) 15 = take 15 (tf_words t) →
  go (pop_all ++ c) m = go c (m <| m_reg := <[RSP := m_reg m RSP + 120]> (tf_reg t) |>).
Proof.
  intros H0 H Hw. change pop_all with (Pop <$> pop_regs).
  rewrite run_pop_regs; [|clear; unfold pop_regs; set_solver|done|done]. f_equal. apply mach_eq; rsimpl; try done.
  change (length pop_regs) with 15%nat. rewrite Hw. apply fn_ext. intros r. by destruct r.
Qed.


(** ** Traps *)

(** The state in which the processor enters a handler, but for what it pushes. *)
Definition gated (sp0 : Z) (m : mach) : mach :=
  m <| m_reg ::= <[RSP := int_stack sp0 m]> |> <| m_flags ::= λ f, Z.ldiff f (Z.lor FL_IF FL_TF) |> <| m_cs := KERNEL_CS |>
    <| m_ss ::= λ s, if Z.land (m_cs m) 3 =? 3 then 0 else s |>.

Lemma interrupt_pushed sp0 rip err m :
  48 ≤ int_stack sp0 m < 2 ^ 64 →
  interrupt sp0 rip err m = pushed ([m_ss m; m_reg m RSP; m_flags m; m_cs m; rip] ++ option_list err) (gated sp0 m).
Proof using.
  intros H. unfold interrupt. set (m1 := m <| m_reg ::= _ |>).
  assert (E1 : m_reg m1 RSP = int_stack sp0 m) by (unfold m1; rsimpl; by rewrite fn_lookup_insert_case, decide_True).
  assert (E : push rip (push (m_cs m) (push (m_flags m) (push (m_reg m RSP) (push (m_ss m) m1)))) =
    pushed [m_ss m; m_reg m RSP; m_flags m; m_cs m; rip] m1).
  { rewrite <- (pushed_nil m1) at 1. rewrite !push_pushed; [done|cbn [length app]; lia..]. }
  rewrite E. destruct err as [e|]; cbn [option_list].
  - rewrite push_pushed by (cbn [length]; lia). apply mach_eq; done.
  - apply mach_eq; done.
Qed.

(** The processor pushes an error code for the exceptions whose vectors do not. *)
Definition err_ok (i : Z) (err : option Z) : Prop :=
  bool_decide (is_Some err) = (i =? 8) || ((i >=? 10) && (i <=? 14)) || (i =? 17).

Record words_ok (m : mach) : Prop := {
  wk_reg r : word (m_reg m r);
  wk_flags : word (m_flags m);
  wk_cs : word (m_cs m);
  wk_ss : word (m_ss m)
}.

Lemma run_vector i err vs m :
  err_ok i err → 0 ≤ i < 256 → 8 * Z.of_nat (length vs + 3) ≤ m_reg m RSP < 2 ^ 64 →
  go (vector i) (pushed (vs ++ option_list err) m) = Some (addr S_alltraps, pushed (vs ++ [default 0 err; i]) m).
Proof using.
  intros He Hi Hsp. unfold vector, err_ok in *. rewrite <- He. destruct err as [e|]; cbn [default from_option id].
  - change (option_list (Some e)) with [e]. rewrite bool_decide_true by by eexists. cbn [negb app run value]. rewrite u64_small by lia. rewrite push_pushed by (rewrite ?length_app; cbn [length]; lia).
    by rewrite <- app_assoc.
  - change (option_list (@None Z)) with (@nil Z). rewrite bool_decide_false by (by intros [? ?]). cbn [negb app run value]. rewrite app_nil_r, !u64_small by lia.
    rewrite push_pushed by lia. rewrite push_pushed by (rewrite ?length_app; cbn [length]; lia). by rewrite <- app_assoc.
Qed.

(** The call of a C function with the address of the frame. *)
Lemma run_call vs m f next :
  8 * Z.of_nat (length vs + 1) ≤ m_reg m RSP < 2 ^ 64 →
  let a := m_reg m RSP - 8 * Z.of_nat (length vs) in
  go [Mov (Reg RSP) (Reg RDI); Call f next] (pushed vs m) =
    Some (addr f, (pushed (vs ++ [addr next]) m) <| m_reg ::= <[RDI := a]> |>).
Proof using.
  intros Hsp a. cbn [run value assign]. do 2 f_equal. rewrite <- push_pushed by lia.
  assert (E : m_reg (pushed vs m) RSP = a) by (unfold pushed; rsimpl; by rewrite fn_lookup_insert_case, decide_True).
  rewrite E. unfold push. rewrite E. rsimpl. rewrite (fn_lookup_insert_case _ RDI RSP), decide_False, E by done.
  apply mach_eq; rsimpl; try done. by rewrite fn_insert_commute.
Qed.

Lemma pushed_mem vs m b :
  ¬ (m_reg m RSP - 8 * Z.of_nat (length vs) ≤ b < m_reg m RSP) → rd (m_mem (pushed vs m)) b = rd (m_mem m) b.
Proof using. intros H. unfold pushed. rsimpl. apply rd_store_words. rewrite length_rev. lia. Qed.

Lemma pushed_words vs x m :
  Forall word vs → word x →
  let a := m_reg m RSP - 8 * Z.of_nat (length vs) in
  words (m_mem (pushed (vs ++ [x]) m)) a (length vs) = rev vs ∧ load64 (m_mem (pushed (vs ++ [x]) m)) (a - 8) = x.
Proof using.
  intros Hv Hx a. unfold pushed. rsimpl. rewrite length_app, rev_app_distr. cbn [length rev app store_words].
  replace (m_reg m RSP - 8 * Z.of_nat (length vs + 1)) with (a - 8) by (unfold a; lia). rewrite Z.sub_add. split.
  - etrans; [|apply (words_store (m_mem m) a); by apply Forall_rev]. rewrite length_rev. apply words_ext.
    intros b Hb. apply rd_store64_ne. lia.
  - by apply load64_store64.
Qed.

Lemma trapret_ok m t :
  0 ≤ m_reg m RSP → m_reg m RSP + 176 < 2 ^ 64 → words (m_mem m) (m_reg m RSP) 22 = tf_words t →
  go trapret m = Some (tf_rip t, mk_mach (tf_reg t) (tf_rflags t) (tf_cs t) (tf_ss t) (m_msr m) (m_mem m)).
Proof using.
  intros H0 H Hw. unfold trapret. rewrite (run_pop_all _ m t); [|done|lia|by rewrite (words_take _ _ 15 22), Hw by lia].
  assert (L : ∀ i v, tf_words t !! i = Some v → load64 (m_mem m) (m_reg m RSP + 8 * Z.of_nat i) = v).
  { intros i v Hi. rewrite <- Hw in Hi. by apply words_lookup in Hi. }
  pose proof (L 17%nat _ eq_refl) as L1. pose proof (L 18%nat _ eq_refl) as L2. pose proof (L 19%nat _ eq_refl) as L3.
  pose proof (L 20%nat _ eq_refl) as L4. pose proof (L 21%nat _ eq_refl) as L5.
  set (sp := m_reg m RSP) in *.
  replace (sp + 8 * Z.of_nat 17) with (sp + 120 + 16) in L1 by lia.
  replace (sp + 8 * Z.of_nat 18) with (sp + 120 + 16 + 8) in L2 by lia.
  replace (sp + 8 * Z.of_nat 19) with (sp + 120 + 16 + 8 + 8) in L3 by lia.
  replace (sp + 8 * Z.of_nat 20) with (sp + 120 + 16 + 8 + 8 + 8) in L4 by lia.
  replace (sp + 8 * Z.of_nat 21) with (sp + 120 + 16 + 8 + 8 + 8 + 8) in L5 by lia.
  cbn [run]. unfold iretq, pop. rsimpl. rewrite !fn_lookup_insert_case, !decide_True by done.
  rewrite (u64_small (sp + 120 + 16)), (u64_small (sp + 120 + 16 + 8)), (u64_small (sp + 120 + 16 + 8 + 8)),
    (u64_small (sp + 120 + 16 + 8 + 8 + 8)), (u64_small (sp + 120 + 16 + 8 + 8 + 8 + 8)) by lia.
  rewrite L1, L2, L3, L4, L5. do 2 f_equal. apply mach_eq; rsimpl; try done.
  rewrite !fn_insert_insert. by apply fn_insert_id.
Qed.

(** The interrupted state on the stack, and the call of [trap]. *)
Lemma trap_enter sp0 rip err i m :
  let b := int_stack sp0 m in
  184 ≤ b < 2 ^ 64 → 0 ≤ i < 256 → err_ok i err → words_ok m → word rip → word (default 0 err) → word (addr S_trapret) →
  ∃ m1 m2, go (vector i) (interrupt sp0 rip err m) = Some (addr S_alltraps, m1) ∧ go alltraps m1 = Some (addr S_trap, m2) ∧
    m_reg m2 RDI = b - 176 ∧ m_reg m2 RSP = b - 184 ∧ load64 (m_mem m2) (b - 184) = addr S_trapret ∧
    words (m_mem m2) (b - 176) 22 = tf_words (frame (m_reg m) i (default 0 err) rip (m_cs m) (m_flags m) (m_ss m)) ∧
    (∀ x, ¬ (b - 184 ≤ x < b) → rd (m_mem m2) x = rd (m_mem m) x).
Proof using.
  intros b Hb Hi He Hk Hrip Herr Hret. set (g := gated sp0 m).
  assert (Eg : m_reg g RSP = b) by (unfold g, gated; rsimpl; by rewrite fn_lookup_insert_case, decide_True).
  set (vs := [m_ss m; m_reg m RSP; m_flags m; m_cs m; rip]). set (ws := (vs ++ [default 0 err; i]) ++ (m_reg g <$> push_regs)).
  exists (pushed (vs ++ [default 0 err; i]) g), ((pushed (ws ++ [addr S_trapret]) g) <| m_reg ::= <[RDI := b - 176]> |>).
  assert (Hws : rev ws = tf_words (frame (m_reg m) i (default 0 err) rip (m_cs m) (m_flags m) (m_ss m))) by done.
  assert (Hwk : Forall word ws).
  { destruct Hk. unfold ws, vs, push_regs. cbn [app fmap list_fmap].
    assert (∀ r, r ≠ RSP → word (m_reg g r)).
    { intros r Hr. unfold g, gated. rsimpl. by rewrite fn_lookup_insert_case, decide_False. }
    repeat (apply Forall_cons; split); try done; try (by apply H); unfold word; lia. }
  split_and!; rsimpl.
  - rewrite interrupt_pushed by (fold b; lia). apply (run_vector i err vs g); [done|done|]. rewrite Eg. change (length vs) with 5%nat. lia.
  - unfold alltraps. rewrite run_push_all by (rewrite Eg; change (length (vs ++ [default 0 err; i])) with 7%nat; lia). fold ws.
    rewrite run_call by (rewrite Eg; change (length ws) with 22%nat; lia). by rewrite Eg.
  - by rewrite fn_lookup_insert_case, decide_True.
  - rewrite fn_lookup_insert_case, decide_False by done. unfold pushed. rsimpl. by rewrite fn_lookup_insert_case, decide_True, Eg.
  - destruct (pushed_words ws (addr S_trapret) g Hwk Hret) as [_ E]. rewrite Eg in E.
    change (length ws) with 22%nat in E. by replace (b - 8 * Z.of_nat 22 - 8) with (b - 184) in E by lia.
  - destruct (pushed_words ws (addr S_trapret) g Hwk Hret) as [E _]. rewrite Eg in E. by rewrite <- Hws, <- E.
  - intros x Hx. rewrite pushed_mem; [done|]. rewrite Eg. change (Z.of_nat (length (ws ++ [addr S_trapret]))) with 23. lia.
Qed.

(** ** System calls *)

(** What [syscall_entry] relies on: the address of [proc] lies below the base of
    FS, [proc->kstack] is [ks], and the word at the base of FS, its scratch
    space, lies apart from both. *)
Record kernel_entry (m : mach) (ks : Z) : Prop := {
  en_fs : 8 ≤ m_msr m MSR_FS < 2 ^ 64 - 8;
  en_proc : 0 ≤ load64 (m_mem m) (m_msr m MSR_FS - 8) < 2 ^ 64 - 24;
  en_kstack : load64 (m_mem m) (load64 (m_mem m) (m_msr m MSR_FS - 8) + 0x10) = ks;
  en_apart : load64 (m_mem m) (m_msr m MSR_FS - 8) + 24 ≤ m_msr m MSR_FS ∨
    m_msr m MSR_FS + 8 ≤ load64 (m_mem m) (m_msr m MSR_FS - 8) + 16;
  en_room : 0 ≤ ks < 2 ^ 64 - 4096;
  en_stack : m_msr m MSR_FS + 8 ≤ ks ∨ ks + 4096 ≤ m_msr m MSR_FS
}.

(** On the kernel's stack. *)
Definition on_kstack (m : mach) (ks : Z) (fl : Z) : mach :=
  m <| m_reg ::= <[RSP := ks + 4080]> |> <| m_flags := fl |>
    <| m_mem ::= λ x, store64 (store64 x (m_msr m MSR_FS) (m_reg m RAX)) (ks + 4080) (m_reg m RSP) |>.

Lemma load64_store64_ne m a v b : b + 8 ≤ a ∨ a + 8 ≤ b → load64 (store64 m a v) b = load64 m b.
Proof using. intros H. apply load64_ext. intros x Hx. apply rd_store64_ne. lia. Qed.

Lemma entry_stack c m ks :
  kernel_entry m ks → word (m_reg m RAX) →
  ∃ fl, go (take 7 syscall_entry ++ c) m = go c (on_kstack m ks fl).
Proof using.
  intros [Hfs Hp Hks Ha Hr Hst] Hax. set (fs := m_msr m MSR_FS) in *. set (p := load64 (m_mem m) (fs - 8)) in *.
  exists (add_flags ks 4080 (m_flags m)). unfold syscall_entry. cbn [take app run assign value address]. rsimpl. fold fs.
  rewrite !fn_lookup_insert_case, !decide_True, !decide_False by done.
  rewrite Z.add_0_r, (u64_small fs) by lia. change (fs + -8) with (fs - 8). rewrite (u64_small (fs - 8)) by lia.
  rewrite (load64_store64_ne (m_mem m) fs _ (fs - 8)) by lia. fold p. rewrite (u64_small (p + 16)) by lia.
  rewrite (load64_store64_ne (m_mem m) fs _ (p + 16)), Hks by lia. change (4096 - 16) with 4080.
  rewrite Z.add_0_r, !(u64_small (ks + 4080)) by lia.
  rewrite (load64_store64_ne _ (ks + 4080) _ fs), load64_store64 by (done || lia). f_equal. unfold on_kstack.
  apply mach_eq.
  { rsimpl. apply fn_ext; intros r. by destruct r. }
  { rsimpl. reflexivity. }
  { rsimpl. reflexivity. }
  { rsimpl. reflexivity. }
  { rsimpl. reflexivity. }
  { rsimpl. reflexivity. }

Qed.

Lemma words_app m a n k : words m a (n + k) = words m a n ++ words m (a + 8 * Z.of_nat n) k.
Proof using.
  revert a. induction n as [|n IH]; intros a; [cbn; by rewrite Z.add_0_r|]. cbn [Nat.add words app]. rewrite IH. do 3 f_equal. lia.
Qed.

Lemma pushed_reg vs m r : r ≠ RSP → m_reg (pushed vs m) r = m_reg m r.
Proof using. intros H. unfold pushed. rsimpl. by rewrite fn_lookup_insert_case, decide_False. Qed.

Lemma run_saved c m :
  40 ≤ m_reg m RSP < 2 ^ 64 →
  go ([Push (Reg R11); Push (Imm 0); Push (Reg RCX); Push (Imm 0); Push (Imm 0)] ++ c) m =
    go c (pushed [m_reg m R11; 0; m_reg m RCX; 0; 0] m).
Proof using.
  intros H. assert (P : ∀ o c vs, 8 * Z.of_nat (S (length vs)) ≤ m_reg m RSP →
    go (Push o :: c) (pushed vs m) = go c (pushed (vs ++ [value (pushed vs m) o]) m)).
  { intros o c' vs Hv. rewrite <- push_pushed by lia. reflexivity. }
  assert (Z0 : ∀ m, value m (Imm 0) = 0) by reflexivity.
  assert (R : ∀ vs r, r ≠ RSP → value (pushed vs m) (Reg r) = m_reg m r) by (intros; by apply pushed_reg).
  rewrite <- (pushed_nil m) at 1. cbn [app]. rewrite P, R by (done || cbn [length app]; lia). cbn [app].
  rewrite P, Z0 by (cbn [length app]; lia). rewrite P, R by (done || cbn [length app]; lia).
  rewrite P, Z0 by (cbn [length app]; lia). rewrite P, Z0 by (cbn [length app]; lia). cbn [app]. reflexivity.
Qed.

(** The frame of a system call, and the call of [syscall]. *)
Lemma syscall_enter m ks :
  kernel_entry m ks → (∀ r, word (m_reg m r)) → word (addr S_syscall_trapret) →
  ∃ m2, go syscall_entry m = Some (addr S_syscall, m2) ∧
    m_reg m2 RDI = ks + 3920 ∧ m_reg m2 RSP = ks + 3912 ∧ load64 (m_mem m2) (ks + 3912) = addr S_syscall_trapret ∧
    words (m_mem m2) (ks + 3920) 22 =
      tf_words (frame (m_reg m) 0 0 (m_reg m RCX) 0 (m_reg m R11) (load64 (m_mem m) (ks + 4088))) ∧
    (∀ x, ¬ (ks ≤ x < ks + 4096) → ¬ (m_msr m MSR_FS ≤ x < m_msr m MSR_FS + 8) → rd (m_mem m2) x = rd (m_mem m) x).
Proof using.
  intros Hen Hk Hret. destruct (entry_stack (drop 7 syscall_entry) m ks Hen (Hk RAX)) as [fl E]. rewrite take_drop in E.
  destruct Hen as [Hfs Hp Hks Ha Hr Hst]. set (fs := m_msr m MSR_FS) in *. set (g := on_kstack m ks fl) in *.
  assert (Eg : m_reg g RSP = ks + 4080) by (unfold g, on_kstack; rsimpl; by rewrite fn_lookup_insert_case, decide_True).
  assert (Eo : ∀ r, r ≠ RSP → m_reg g r = m_reg m r).
  { intros r Hne. unfold g, on_kstack. rsimpl. by rewrite fn_lookup_insert_case, decide_False. }
  set (vs := [m_reg m R11; 0; m_reg m RCX; 0; 0]). set (ws := vs ++ (m_reg g <$> push_regs)).
  assert (Hwk : Forall word ws).
  { unfold ws, vs, push_regs. cbn [app fmap list_fmap]. rewrite !Eo by done.
    repeat (apply Forall_cons; split); first [apply Forall_nil; exact I|apply Hk|unfold word; lia]. }
  assert (Hrun : go syscall_entry m = Some (addr S_syscall, (pushed (ws ++ [addr S_syscall_trapret]) g) <| m_reg ::= <[RDI := ks + 3920]> |>)).
  { rewrite E. change (drop 7 syscall_entry) with ([Push (Reg R11); Push (Imm 0); Push (Reg RCX); Push (Imm 0); Push (Imm 0)] ++ push_all ++
      [Mov (Reg RSP) (Reg RDI); Call S_syscall S_syscall_trapret]).
    rewrite run_saved by lia. rewrite !Eo by done. fold vs. rewrite run_push_all by (rewrite Eg; change (length vs) with 5%nat; lia). fold ws.
    rewrite run_call by (rewrite Eg; change (length ws) with 20%nat; lia). rewrite Eg. change (length ws) with 20%nat.
    by replace (ks + 4080 - 8 * Z.of_nat 20) with (ks + 3920) by lia. }
  destruct (pushed_words ws (addr S_syscall_trapret) g Hwk Hret) as [Hw Hra]. rewrite Eg in Hw, Hra. change (length ws) with 20%nat in Hw, Hra.
  replace (ks + 4080 - 8 * Z.of_nat 20 - 8) with (ks + 3912) in Hra by lia. replace (ks + 4080 - 8 * Z.of_nat 20) with (ks + 3920) in Hw by lia.
  assert (Hmem : ∀ b, ¬ (ks + 3912 ≤ b < ks + 4080) → rd (m_mem (pushed (ws ++ [addr S_syscall_trapret]) g)) b = rd (m_mem g) b).
  { intros b Hb. apply pushed_mem. rewrite Eg. change (length (ws ++ [addr S_syscall_trapret])) with 21%nat. lia. }
  assert (Hgm : m_mem g = store64 (store64 (m_mem m) fs (m_reg m RAX)) (ks + 4080) (m_reg m RSP)) by reflexivity.
  eexists. split; [exact Hrun|]. split_and!; rsimpl.
  - by rewrite fn_lookup_insert_case, decide_True.
  - rewrite fn_lookup_insert_case, decide_False by done. unfold pushed. rsimpl. rewrite fn_lookup_insert_case, decide_True, Eg by done.
    change (length (ws ++ [addr S_syscall_trapret])) with 21%nat. lia.
  - done.
  - change 22%nat with (20 + 2)%nat. rewrite words_app, Hw. cbn [words]. replace (ks + 3920 + 8 * Z.of_nat 20) with (ks + 4080) by lia.
    replace (ks + 4080 + 8) with (ks + 4088) by lia.
    rewrite (load64_ext _ (m_mem g) (ks + 4080)), (load64_ext _ (m_mem g) (ks + 4088)) by (intros; apply Hmem; lia).
    rewrite Hgm, load64_store64 by apply Hk. rewrite !load64_store64_ne by lia.
    unfold ws, vs, push_regs. cbn [fmap list_fmap app rev]. rewrite !Eo by done. reflexivity.
  - intros x H1 H2. rewrite Hmem by lia. rewrite Hgm. by rewrite !rd_store64_ne by lia.
Qed.

(** [sysretq] takes the address from RCX and the flags from R11. *)
Definition user_mach (t : trapframe) (msr : Z → Z) (x : mem) : mach :=
  let sel := Z.land (Z.shiftr (msr MSR_STAR) 48) 0xFFFF in
  mk_mach (tf_reg t) (Z.lor (Z.land (tf_r11 t) 0x3C7FD7) 2) (Z.lor (sel + 16) 3) (Z.lor (sel + 8) 3) msr x.

Lemma syscall_trapret_ok m t :
  0 ≤ m_reg m RSP → m_reg m RSP + 176 < 2 ^ 64 → words (m_mem m) (m_reg m RSP) 22 = tf_words t → tf_rcx t < 2 ^ 47 →
  go syscall_trapret m = Some (tf_rcx t, user_mach t (m_msr m) (m_mem m)).
Proof using.
  intros H0 H Hw Hcx. unfold syscall_trapret. rewrite (run_pop_all _ m t); [|done|lia|by rewrite (words_take _ _ 15 22), Hw by lia].
  assert (L : load64 (m_mem m) (m_reg m RSP + 160) = tf_rsp t).
  { apply (words_lookup _ _ 22 20). by rewrite Hw. }
  set (sp := m_reg m RSP) in *. set (m1 := m <| m_reg := _ |>).
  assert (E1 : m_reg m1 RSP = sp + 120) by (unfold m1; rsimpl; by rewrite fn_lookup_insert_case, decide_True).
  set (m2 := mk_mach (<[RSP := sp + 160]> (m_reg m1)) (Z.ldiff (add_flags (sp + 120) 40 (m_flags m)) FL_IF) (m_cs m) (m_ss m) (m_msr m) (m_mem m)).
  assert (S1 : go [Add 40 RSP; Cli; Mov (Mem 0 RSP) (Reg RSP); Sysret] m1 = go [Mov (Mem 0 RSP) (Reg RSP); Sysret] m2).
  { cbn [run]. rewrite E1, u64_small by lia. replace (sp + 120 + 40) with (sp + 160) by lia. reflexivity. }
  assert (S2 : value m2 (Mem 0 RSP) = tf_rsp t).
  { cbn [value address]. unfold m2 at 2. cbn [m_reg m_mem]. rewrite fn_lookup_insert_case, decide_True, Z.add_0_r, u64_small by (done || lia). done. }
  rewrite S1. cbn [run]. rewrite S2. unfold sysretq, assign.
  set (m3 := m2 <| m_reg ::= _ |>). assert (E3 : m_reg m3 = tf_reg t).
  { unfold m3, m2, m1. rsimpl. cbn [m_reg]. rewrite !fn_insert_insert. by apply fn_insert_id. }
  rewrite E3. cbn [tf_reg]. rewrite (proj2 (Z.ltb_lt _ _)) by done. do 2 f_equal. apply mach_eq; rsimpl; done.
Qed.

(** C12: traps keep the interrupted state.  Whatever the processor was doing when
    exception or interrupt [i] came, the entry code of vector [i] and [alltraps]
    call [trap] with the address of a [struct trapframe] that holds just that
    state, the vector's number and the error code (0 where the processor gives
    none), on the kernel's stack and changing nothing outside the frame; and when
    [trap] returns, [trapret] goes on with whatever state the frame then holds,
    which is the interrupted one if [trap] left it alone. *)
Theorem trap_round_trip sp0 rip err i m :
  let b := int_stack sp0 m in
  let t := frame (m_reg m) i (default 0 err) rip (m_cs m) (m_flags m) (m_ss m) in
  184 ≤ b < 2 ^ 64 → 0 ≤ i < 256 → err_ok i err → words_ok m → word rip → word (default 0 err) → word (addr S_trapret) →
  (∃ m1 m2, go (vector i) (interrupt sp0 rip err m) = Some (addr S_alltraps, m1) ∧ go alltraps m1 = Some (addr S_trap, m2) ∧
    m_reg m2 RDI = b - 176 ∧ m_reg m2 RSP = b - 184 ∧ load64 (m_mem m2) (b - 184) = addr S_trapret ∧
    words (m_mem m2) (b - 176) 22 = tf_words t ∧
    (∀ x, ¬ (b - 184 ≤ x < b) → rd (m_mem m2) x = rd (m_mem m) x)) ∧
  (∀ m3 t', m_reg m3 RSP = b - 176 → words (m_mem m3) (b - 176) 22 = tf_words t' →
    go trapret m3 = Some (tf_rip t', mk_mach (tf_reg t') (tf_rflags t') (tf_cs t') (tf_ss t') (m_msr m3) (m_mem m3))) ∧
  (∀ m3, m_reg m3 RSP = b - 176 → words (m_mem m3) (b - 176) 22 = tf_words t →
    go trapret m3 = Some (rip, m <| m_msr := m_msr m3 |> <| m_mem := m_mem m3 |>)).
Proof using.
  intros b t Hb Hi He Hk Hrip Herr Hret. split; [by apply trap_enter|].
  assert (Hx : ∀ m3 t', m_reg m3 RSP = b - 176 → words (m_mem m3) (b - 176) 22 = tf_words t' →
    go trapret m3 = Some (tf_rip t', mk_mach (tf_reg t') (tf_rflags t') (tf_cs t') (tf_ss t') (m_msr m3) (m_mem m3))).
  { intros m3 t' Hsp Hw. apply trapret_ok; rewrite Hsp; [lia|lia|done]. }
  split; [exact Hx|]. intros m3 Hsp Hw. rewrite (Hx m3 t Hsp Hw). unfold t, frame. cbn [tf_rip]. do 2 f_equal.
  apply mach_eq; rsimpl; try reflexivity. apply fn_ext. intros r. by destruct r.
Qed.

(** ** The stubs of the C library *)

Definition USER_CS : Z := Z.lor (Z.shiftl SEG_UCODE 3) DPL_USER.
Definition USER_DS : Z := Z.lor (Z.shiftl SEG_UDATA 3) DPL_USER.

(** The model-specific register [k] after the writes of [t]. *)
Definition msr_of (t : list ioev) (k : Z) : Z :=
  foldl (λ v e, match e with IoMsr k' v' => if k' =? k then v' else v | _ => v end) 0 t.

Lemma msr_of_snoc t k k' v : msr_of (t ++ [IoMsr k' v]) k = if k' =? k then v else msr_of t k.
Proof using. unfold msr_of. by rewrite foldl_snoc. Qed.

Lemma syscallinit_msrs entry ign w e w' :
  word entry → syscallinit entry ign (KS w e) = Ok tt (KS w' e) →
  msr_of (w_io w') MSR_STAR = Z.lor (Z.shiftl USER32_CS 48) (Z.shiftl KERNEL_CS 32) ∧
  msr_of (w_io w') MSR_LSTAR = entry ∧ msr_of (w_io w') MSR_SFMASK = 0x47700.
Proof using.
  intros He E. unfold syscallinit, wrmsr, io in E. rewrite !bind_modw in E. unfold modw in E. cbn [ks_w] in E. injection E as <-. rsimpl.
  rewrite !msr_of_snoc, (u64_small entry) by done. split_and!; reflexivity.
Qed.

Definition stub_tf (n : Z) (m : mach) (ss : Z) : trapframe :=
  let ret := addr (S_stub_ret n) in
  frame (<[RAX := n]> (<[RCX := ret]> (<[R10 := m_reg m RCX]> (<[R11 := m_flags m]> (m_reg m))))) 0 0 ret 0 (m_flags m) ss.

Lemma stub_enter n m :
  0 ≤ n < 2 ^ 31 →
  ∃ m1, go (stub n) m = Some (m_msr m MSR_LSTAR, m1) ∧
    m_reg m1 = <[R11 := m_flags m]> (<[RCX := addr (S_stub_ret n)]> (<[R10 := m_reg m RCX]> (<[RAX := n]> (m_reg m)))) ∧
    m_flags m1 = Z.ldiff (m_flags m) (m_msr m MSR_SFMASK) ∧ m_cs m1 = Z.land (Z.shiftr (m_msr m MSR_STAR) 32) 0xFFFC ∧
    m_mem m1 = m_mem m ∧ m_msr m1 = m_msr m.
Proof using.
  intros Hn. unfold stub. cbn [run assign value]. rewrite u64_small by lia. unfold syscallq.
  eexists. split; [reflexivity|]. rsimpl. split_and!; reflexivity.
Qed.

(** C11: a system call from the stub of the C library to the kernel and back.  With
    the registers [syscallinit] sets, the stub of system call [n] enters the
    kernel with interrupts off; [syscall_entry] calls [syscall] with the address
    of a trap frame on the process's kernel stack with [n] in RAX, the arguments
    of the C caller where [fetcharg] looks for them (the fourth one moved from
    RCX to R10) and the caller's other registers, flags and stack pointer.  When
    [syscall] returns with a result in the frame's RAX, the caller goes on after
    its call of the stub with that result in RAX, its stack pointer, flags and
    segments as before the call, and every register but the four it may lose. *)
Theorem syscall_round_trip n m ks fs ign w e w' :
  let a := ks + 3920 in
  let t := stub_tf n m (load64 (m_mem m) (ks + 4088)) in
  syscallinit (addr S_syscall_entry) ign (KS w e) = Ok tt (KS w' e) → m_msr m = <[MSR_FS := fs]> (msr_of (w_io w')) →
  kernel_entry m ks → words_ok m → m_cs m = USER_CS → m_ss m = USER_DS →
  Z.lor (Z.land (m_flags m) 0x3C7FD7) 2 = m_flags m → 0 ≤ n < 2 ^ 31 → m_reg m RSP < 2 ^ 64 - 8 →
  word (addr S_syscall_entry) → word (addr S_syscall_trapret) → 0 ≤ addr (S_stub_ret n) < 2 ^ 47 →
  (∃ m1 m2, go (stub n) m = Some (addr S_syscall_entry, m1) ∧ m_cs m1 = KERNEL_CS ∧ Z.testbit (m_flags m1) 9 = false ∧
    go syscall_entry m1 = Some (addr S_syscall, m2) ∧ m_reg m2 RDI = a ∧ m_reg m2 RSP = a - 8 ∧
    load64 (m_mem m2) (a - 8) = addr S_syscall_trapret ∧ words (m_mem m2) a 22 = tf_words t ∧
    (∀ x, ¬ (ks ≤ x < ks + 4096) → ¬ (fs ≤ x < fs + 8) → rd (m_mem m2) x = rd (m_mem m) x)) ∧
  (∀ m3 v, m_reg m3 RSP = a → m_msr m3 = m_msr m → words (m_mem m3) a 22 = tf_words (t <| tf_rax := v |>) →
    load64 (m_mem m3) (m_reg m RSP) = load64 (m_mem m) (m_reg m RSP) →
    ∃ m4 m5, go syscall_trapret m3 = Some (addr (S_stub_ret n), m4) ∧
      go stub_ret m4 = Some (load64 (m_mem m) (m_reg m RSP), m5) ∧ m_reg m5 RAX = v ∧ m_reg m5 RSP = m_reg m RSP + 8 ∧
      (∀ r, r ∉ [RAX; RCX; R10; R11; RSP] → m_reg m5 r = m_reg m r) ∧
      m_flags m5 = m_flags m ∧ m_cs m5 = m_cs m ∧ m_ss m5 = m_ss m ∧ m_mem m5 = m_mem m3).
Proof using.
  intros a t Hinit Hmsr Hen Hk Hcs Hss Hfl Hn Hsp He Hret Hnext.
  destruct (syscallinit_msrs _ _ _ _ _ He Hinit) as (M1 & M2 & M3). destruct (Hk) as [Hkr Hkf _ _].
  assert (Hm : ∀ k, k ≠ MSR_FS → m_msr m k = msr_of (w_io w') k).
  { intros k Hne. rewrite Hmsr, fn_lookup_insert_case, decide_False; done. }
  split.
  - destruct (stub_enter n m Hn) as (m1 & E1 & R1 & F1 & C1 & X1 & Y1). rewrite Hm, M2 in E1 by done.
    destruct (syscall_enter m1 ks) as (m2 & E2 & H1 & H2 & H3 & H4 & H5).
    + destruct Hen. split; rewrite ?X1, ?Y1; done.
    + intros r. rewrite R1, !fn_lookup_insert_case.
      repeat case_decide; first [exact Hkf|apply Hkr|unfold word; lia].
    + done.
    + exists m1, m2. rewrite Y1 in H5. rewrite X1, Hmsr in H5. rewrite fn_lookup_insert_case, decide_True in H5 by done. rewrite X1 in H4.
      replace (a - 8) with (ks + 3912) by (unfold a; lia).
      split_and!; [exact E1| | |exact E2|exact H1|exact H2|exact H3| |exact H5].
      * rewrite C1, Hm, M1 by done. reflexivity.
      * rewrite F1, Hm, M3 by done. rewrite Z.ldiff_spec. apply andb_false_r.
      * unfold a. rewrite H4. unfold t, stub_tf, frame. rewrite R1. reflexivity.
  - intros m3 v Hsp3 Hmsr3 Hw Hra. pose proof (en_room _ _ Hen). set (t' := t <| tf_rax := v |>) in *.
    assert (E4 : go syscall_trapret m3 = Some (addr (S_stub_ret n), user_mach t' (m_msr m3) (m_mem m3))).
    { assert (Ec : tf_rcx t' = addr (S_stub_ret n)) by reflexivity.
      pose proof (syscall_trapret_ok m3 t') as E. rewrite Ec, Hsp3 in E. apply E; [unfold a; lia..|exact Hw|apply Hnext]. }
    set (m4 := user_mach _ _ _) in E4. assert (R4 : m_reg m4 = tf_reg t') by reflexivity.
    exists m4, (m4 <| m_reg ::= <[RSP := m_reg m RSP + 8]> |>). split; [exact E4|].
    assert (Hstar : m_msr m3 MSR_STAR = Z.lor (Z.shiftl USER32_CS 48) (Z.shiftl KERNEL_CS 32)) by by rewrite Hmsr3, Hm, M1 by done.
    split; [|split; [|split; [|split; [|split; [|split; [|split]]]]]]; rsimpl.
    + unfold stub_ret, pop. cbn [run]. unfold pop. rewrite R4. change (tf_reg t' RSP) with (m_reg m RSP).
      rewrite u64_small by (pose proof (Hkr RSP) as Hr; unfold word in Hr; lia). change (m_mem m4) with (m_mem m3). by rewrite Hra.
    + rewrite fn_lookup_insert_case, decide_False, R4 by done. reflexivity.
    + by rewrite fn_lookup_insert_case, decide_True.
    + intros r Hr. rewrite fn_lookup_insert_case, decide_False by (intros <-; apply Hr; clear; set_solver).
      rewrite R4. destruct r; try reflexivity; exfalso; apply Hr; clear; set_solver.
    + exact Hfl.
    + unfold m4, user_mach. cbn [m_cs]. rewrite Hstar, Hcs. reflexivity.
    + unfold m4, user_mach. cbn [m_ss]. rewrite Hstar, Hss. reflexivity.
    + reflexivity.
Qed.

(** ** Switching threads *)

(** [struct context]: R15, R14, R13, R12, RBX, RBP and the return address. *)
Definition callee_saved : list reg := [R15; R14; R13; R12; RBX; RBP].

(** [m] is about to execute [swtch(old, new)]: the stack has room, and the cell
    [old], the stack below and the context [new] lie apart. *)
Record switch_ok (m : mach) : Prop := {
  so_sp : 48 ≤ m_reg m RSP < 2 ^ 64 - 8;
  so_old : 0 ≤ m_reg m RDI < 2 ^ 64;
  so_new : 0 ≤ m_reg m RSI < 2 ^ 64 - 56;
  so_old_sp : m_reg m RDI + 8 ≤ m_reg m RSP - 48 ∨ m_reg m RSP + 8 ≤ m_reg m RDI;
  so_new_sp : m_reg m RSI + 56 ≤ m_reg m RSP - 48 ∨ m_reg m RSP ≤ m_reg m RSI;
  so_new_old : m_reg m RSI + 56 ≤ m_reg m RDI ∨ m_reg m RDI + 8 ≤ m_reg m RSI;
  so_words r : word (m_reg m r)
}.

Lemma swtch_ok m cs rip :
  switch_ok m → words (m_mem m) (m_reg m RSI) 7 = cs ++ [rip] → length cs = 6%nat →
  ∃ m', go swtch m = Some (rip, m') ∧
    m_reg m' = <[RSP := m_reg m RSI + 56]> (load_regs callee_saved cs (m_reg m)) ∧
    load64 (m_mem m') (m_reg m RDI) = m_reg m RSP - 48 ∧
    words (m_mem m') (m_reg m RSP - 48) 7 = (m_reg m <$> callee_saved) ++ [load64 (m_mem m) (m_reg m RSP)] ∧
    (∀ x, ¬ (m_reg m RSP - 48 ≤ x < m_reg m RSP) → ¬ (m_reg m RDI ≤ x < m_reg m RDI + 8) → rd (m_mem m') x = rd (m_mem m) x).
Proof using.
  intros [Hsp Ho Hn Hos Hns Hno Hk] Hw Hl. set (sp := m_reg m RSP) in *. set (old := m_reg m RDI) in *. set (new := m_reg m RSI) in *.
  set (vs := m_reg m <$> [RBP; RBX; R12; R13; R14; R15]).
  set (m1 := pushed vs m). set (m2 := mk_mach (<[RSP := new]> (m_reg m1)) (m_flags m) (m_cs m) (m_ss m) (m_msr m) (store64 (m_mem m1) old (sp - 48))).
  assert (E : go swtch m = go ((Pop <$> callee_saved) ++ [Ret]) m2).
  { change swtch with (((λ r, Push (Reg r)) <$> [RBP; RBX; R12; R13; R14; R15]) ++
      [Mov (Reg RSP) (Mem 0 RDI); Mov (Reg RSI) (Reg RSP)] ++ (Pop <$> callee_saved) ++ [Ret]).
    rewrite <- (pushed_nil m) at 1. rewrite run_pushes; [|clear; set_solver|cbn [length]; lia]. rewrite app_nil_l. fold vs. fold m1.
    assert (R1 : m_reg m1 RSP = sp - 48) by (unfold m1, pushed; rsimpl; by rewrite fn_lookup_insert_case, decide_True).
    assert (R2 : ∀ r, r ≠ RSP → m_reg m1 r = m_reg m r) by (intros; by apply pushed_reg).
    generalize ((Pop <$> callee_saved) ++ [Ret]). intros c. cbn [app run assign value address]. rewrite R1, !R2 by done. fold old new.
    rewrite Z.add_0_r, u64_small by lia. reflexivity. }
  rewrite E. assert (R2 : m_reg m2 RSP = new) by (unfold m2; cbn [m_reg]; by rewrite fn_lookup_insert_case, decide_True).
  assert (Hrd : ∀ x, ¬ (sp - 48 ≤ x < sp) → ¬ (old ≤ x < old + 8) → rd (m_mem m2) x = rd (m_mem m) x).
  { intros x H1 H2. unfold m2. cbn [m_mem]. rewrite rd_store64_ne by lia. unfold m1. apply pushed_mem. fold sp. change (length vs) with 6%nat. lia. }
  assert (Hw2 : words (m_mem m2) new 7 = cs ++ [rip]).
  { rewrite <- Hw. apply words_ext. intros x Hx. apply Hrd; lia. }
  assert (Hcs : words (m_mem m2) new 6 = cs) by (rewrite (words_take _ _ 6 7), Hw2 by lia; rewrite <- Hl; by rewrite take_app_length).
  assert (Hrip : load64 (m_mem m2) (new + 48) = rip).
  { apply (words_lookup _ _ 7 6). rewrite Hw2, lookup_app_r by lia. by rewrite Hl. }
  rewrite run_pop_regs; rewrite ?R2; [|clear; unfold callee_saved; set_solver|lia|change (length callee_saved) with 6%nat; lia].
  change (length callee_saved) with 6%nat. rewrite Hcs. change (8 * Z.of_nat 6) with 48. cbn [run]. unfold pop. rsimpl.
  rewrite !fn_lookup_insert_case, !decide_True, Hrip by done. eexists. split; [reflexivity|]. rsimpl. split_and!.
  - rewrite fn_insert_insert, u64_small by lia. replace (new + 48 + 8) with (new + 56) by lia. unfold m2. cbn [m_reg].
    rewrite load_regs_rsp, fn_insert_insert by (clear; unfold callee_saved; set_solver). unfold m1, pushed. rsimpl.
    by rewrite load_regs_rsp, fn_insert_insert by (clear; unfold callee_saved; set_solver).
  - unfold m2. cbn [m_mem]. apply load64_store64. lia.
  - change 7%nat with (6 + 1)%nat. rewrite words_app. change (words (m_mem m2) ?a 1) with [load64 (m_mem m2) a].
    replace (sp - 48 + 8 * Z.of_nat 6) with sp by lia. f_equal.
    + rewrite (words_ext _ (store_words (m_mem m) (sp - 48) (rev vs))).
      * apply (words_store _ _ (rev vs)). apply Forall_rev. unfold vs. cbn [fmap list_fmap].
        repeat (apply Forall_cons; split); first [apply Forall_nil; exact I|apply Hk].
      * intros x Hx. unfold m2. cbn [m_mem]. rewrite rd_store64_ne by lia. reflexivity.
    + f_equal. apply load64_ext. intros x Hx. apply Hrd; lia.
  - exact Hrd.
Qed.

Lemma load_callee cs f r i :
  length cs = 6%nat → callee_saved !! i = Some r → Some (load_regs callee_saved cs f r) = cs !! i.
Proof using.
  intros Hl Hi. do 7 (destruct cs as [|? cs]; try discriminate Hl).
  do 6 (destruct i as [|i]; [injection Hi as <-; reflexivity|]). discriminate Hi.
Qed.

Lemma load_others rs cs f r : r ∉ rs → load_regs rs cs f r = f r.
Proof using.
  unfold load_regs. revert cs f. induction rs as [|x rs IH]; intros cs f Hr; [by destruct cs|].
  destruct cs as [|c cs]; [done|]. cbn [zip zip_with foldl fst snd]. apply not_elem_of_cons in Hr as [Hr Hrs].
  rewrite IH by done. by rewrite fn_lookup_insert_case, decide_False.
Qed.

(** What [allocproc] leaves at the top of the kernel stack [ks] of a new process,
    whose trap frame the caller then fills with [t]: a context that starts in
    [forkret], with [syscall_trapret] as the address it returns to. *)
Definition new_stack (x : mem) (ks : Z) (t : trapframe) : Prop :=
  words x (ks + 3856) 7 = replicate 6 0 ++ [addr S_forkret] ∧ load64 x (ks + 3912) = addr S_syscall_trapret ∧
  words x (ks + 3920) 22 = tf_words t.

(** C13: [swtch] switches threads.  It saves the caller's context on the caller's
    stack, stores its address where the caller asks and continues the other
    thread where that one was saved; when some thread later switches to the
    address stored, and the context was left alone, the first caller returns from
    its call of [swtch], with its stack pointer and the registers a C function
    may rely on as they were.  A switch to the stack [allocproc] makes starts
    [forkret], and when that returns, the process starts in user mode with the
    registers of its trap frame, at the address in the frame's RCX. *)
Theorem thread_switch m cs rip :
  switch_ok m → words (m_mem m) (m_reg m RSI) 7 = cs ++ [rip] → length cs = 6%nat →
  ∃ m', go swtch m = Some (rip, m') ∧ m_reg m' RSP = m_reg m RSI + 56 ∧ m_reg m' <$> callee_saved = cs ∧
    (∀ r, r ∉ RSP :: callee_saved → m_reg m' r = m_reg m r) ∧
    (∀ x, ¬ (m_reg m RSP - 48 ≤ x < m_reg m RSP) → ¬ (m_reg m RDI ≤ x < m_reg m RDI + 8) → rd (m_mem m') x = rd (m_mem m) x) ∧
    (∀ m2, switch_ok m2 → m_reg m2 RSI = load64 (m_mem m') (m_reg m RDI) →
      words (m_mem m2) (m_reg m2 RSI) 7 = words (m_mem m') (m_reg m2 RSI) 7 →
      ∃ m3, go swtch m2 = Some (load64 (m_mem m) (m_reg m RSP), m3) ∧ m_reg m3 RSP = m_reg m RSP + 8 ∧
        ∀ r, r ∈ callee_saved → m_reg m3 r = m_reg m r) ∧
    (∀ ks t, new_stack (m_mem m) ks t → m_reg m RSI = ks + 3856 → 0 ≤ ks < 2 ^ 64 - 4096 → tf_rcx t < 2 ^ 47 →
      (m_reg m RSP ≤ ks ∨ ks + 4096 ≤ m_reg m RSP - 48) → (m_reg m RDI + 8 ≤ ks ∨ ks + 4096 ≤ m_reg m RDI) →
      rip = addr S_forkret ∧ m_reg m' RSP = ks + 3912 ∧ load64 (m_mem m') (ks + 3912) = addr S_syscall_trapret ∧
      words (m_mem m') (ks + 3920) 22 = tf_words t ∧
      ∀ m3, m_reg m3 RSP = ks + 3920 → words (m_mem m3) (ks + 3920) 22 = tf_words t →
        go syscall_trapret m3 = Some (tf_rcx t, user_mach t (m_msr m3) (m_mem m3))).
Proof using.
  intros Hs Hw Hl. destruct (swtch_ok m cs rip Hs Hw Hl) as (m' & E & R & H1 & H2 & H3). exists m'.
  assert (Hregs : ∀ i r, callee_saved !! i = Some r → Some (m_reg m' r) = cs !! i).
  { intros i r Hi. rewrite R, fn_lookup_insert_case, decide_False by (intros <-; clear -Hi; apply list_elem_of_lookup_2 in Hi; set_solver).
    by apply load_callee. }
  assert (Rsp : m_reg m' RSP = m_reg m RSI + 56) by by rewrite R, fn_lookup_insert_case, decide_True.
  split; [exact E|]. split; [exact Rsp|]. split; [|split; [|split; [exact H3|split]]].
  - apply list_eq. intros i. rewrite list_lookup_fmap. destruct (callee_saved !! i) as [r|] eqn:Ei; cbn.
    + by apply Hregs.
    + symmetry. apply lookup_ge_None. rewrite Hl. by apply lookup_ge_None in Ei.
  - intros r [Hr Hrs]%not_elem_of_cons. rewrite R, fn_lookup_insert_case, decide_False by done. by apply load_others.
  - intros m2 Hs2 Hnew Hsame. rewrite H1 in Hnew. rewrite Hnew, H2 in Hsame. rewrite <- Hnew in Hsame.
    destruct (swtch_ok m2 _ _ Hs2 Hsame eq_refl) as (m3 & E3 & R3 & _). exists m3. split; [exact E3|]. split.
    + rewrite R3, fn_lookup_insert_case, decide_True, Hnew by done. lia.
    + intros r Hr. rewrite R3, fn_lookup_insert_case, decide_False by (intros <-; clear -Hr; set_solver).
      apply list_elem_of_lookup in Hr as [i Hi]. pose proof (load_callee (m_reg m <$> callee_saved) (m_reg m2) r i eq_refl Hi) as L.
      rewrite list_lookup_fmap, Hi in L. by injection L.
  - intros ks t (N1 & N2 & N3) Hnew Hks Hcx Ha1 Ha2. rewrite Hnew in Hw, Rsp. rewrite N1 in Hw. apply app_inj_tail in Hw as [_ Hrip].
    split; [done|]. split; [lia|]. split; [|split].
    + rewrite <- N2. apply load64_ext. intros x Hx. apply H3; lia.
    + rewrite <- N3. apply words_ext. intros x Hx. apply H3; lia.
    + intros m3 Hsp3 Hw3. apply syscall_trapret_ok; rewrite ?Hsp3; [lia|lia|exact Hw3|exact Hcx].
Qed.

(** ** initcode.S *)

Definition SYS_exit : Z := 2.
Definition SYS_exec : Z := 7.

Definition start : list instr :=
  [Lea S_init RDI; Lea S_argv RSI; Mov (Imm SYS_exec) (Reg RAX); Syscall S_exit].
Definition exit_ : list instr := [Mov (Imm SYS_exit) (Reg RAX); Syscall S_exit_jmp].
Definition exit_jmp : list instr := [Jmp S_exit].

(** The first process asks for [exec(init, argv)], and exits if that returns. *)
Lemma initcode_runs m :
  (∃ m1, go start m = Some (m_msr m MSR_LSTAR, m1) ∧ m_reg m1 RAX = SYS_exec ∧ m_reg m1 RDI = addr S_init ∧
    m_reg m1 RSI = addr S_argv ∧ m_reg m1 RCX = addr S_exit) ∧
  (∃ m2, go exit_ m = Some (m_msr m MSR_LSTAR, m2) ∧ m_reg m2 RAX = SYS_exit ∧ m_reg m2 RCX = addr S_exit_jmp) ∧
  go exit_jmp m = Some (addr S_exit, m).
Proof using. split_and!; [eexists; split_and!; reflexivity..|reflexivity]. Qed.
End asm.

(** ** Runs *)

(** A user process, the base of FS at 0x8800, [proc] at 0x5000 and its kernel
    stack at 0x20000. *)
Definition demo_addr (s : symbol) : Z :=
  match s with
  | S_stub_ret n => 0x1000 + 16 * n
  | S_trapret => 0xFFFF800000100100 | S_syscall_entry => 0xFFFF800000100200 | S_syscall_trapret => 0xFFFF800000100300
  | S_forkret => 0xFFFF800000100400 | _ => 0xFFFF800000100000
  end.

Definition demo_w : world :=
  match syscallinit (demo_addr S_syscall_entry) 0 (KS (bss 0 []) []) with Ok _ s | Stop _ s => ks_w s end.

Definition demo_mach (f : reg → Z) : mach :=
  mk_mach f 0x202 USER_CS USER_DS (<[MSR_FS := 0x8800]> (msr_of (w_io demo_w)))
    (store64 (store64 ∅ 0x87F8 0x5000) 0x5010 0x20000).

Lemma trap_round_trip_witness :
  let t := frame (λ _, 7) 13 5 0x1234 USER_CS 0x202 USER_DS in
  ∃ m1 m2, run demo_addr (λ _ _ f, f) (vector 13) (interrupt 0x21000 0x1234 (Some 5) (demo_mach (λ _, 7))) = Some (demo_addr S_alltraps, m1) ∧
    run demo_addr (λ _ _ f, f) alltraps m1 = Some (demo_addr S_trap, m2) ∧ words (m_mem m2) (0x21000 - 176) 22 = tf_words t.
Proof.
  destruct (trap_round_trip demo_addr (λ _ _ f, f) 0x21000 0x1234 (Some 5) 13 (demo_mach (λ _, 7))) as [(m1 & m2 & H1 & H2 & _ & _ & _ & H3 & _) _].
  - split; [discriminate|reflexivity].
  - lia.
  - reflexivity.
  - split; [intros r|..]; split; reflexivity || discriminate.
  - split; reflexivity || discriminate.
  - split; reflexivity || discriminate.
  - split; reflexivity || discriminate.
  - exists m1, m2. exact (conj H1 (conj H2 H3)).
Defined.

Lemma syscall_round_trip_witness :
  ∃ m1 m2, run demo_addr (λ _ _ f, f) (stub 5) (demo_mach (λ _, 0x3000)) = Some (demo_addr S_syscall_entry, m1) ∧
    run demo_addr (λ _ _ f, f) syscall_entry m1 = Some (demo_addr S_syscall, m2) ∧ load64 (m_mem m2) (0x20000 + 3920) = 5.
Proof.
  assert (Hm : load64 (m_mem (demo_mach (λ _, 0x3000))) 0x87F8 = 0x5000).
  { cbn [demo_mach m_mem]. rewrite load64_store64_ne by lia. apply load64_store64. lia. }
  destruct (syscall_round_trip demo_addr (λ _ _ f, f) 5 (demo_mach (λ _, 0x3000)) 0x20000 0x8800 0 (bss 0 []) [] demo_w)
    as [(m1 & m2 & H1 & _ & _ & H2 & _ & _ & _ & H3 & _) _].
  - reflexivity.
  - reflexivity.
  - change (m_msr (demo_mach (λ _, 0x3000)) MSR_FS) with 0x8800. split; change (m_msr (demo_mach (λ _, 0x3000)) MSR_FS) with 0x8800;
      change (0x8800 - 8) with 0x87F8; rewrite ?Hm; try lia. cbn [demo_mach m_mem]. apply load64_store64. lia.
  - split; [intros r|..]; split; reflexivity || discriminate.
  - reflexivity.
  - reflexivity.
  - reflexivity.
  - lia.
  - reflexivity.
  - split; reflexivity || discriminate.
  - split; reflexivity || discriminate.
  - split; reflexivity || discriminate.
  - exists m1, m2. split; [exact H1|]. split; [exact H2|]. apply (words_lookup (m_mem m2) (0x20000 + 3920) 22 0 5). by rewrite H3.
Defined.

(** A thread whose stack ends at 0x9000 switches to a new process that is to
    start at 0x1000. *)
Definition demo_tf : trapframe := frame (<[RCX := 0x1000]> (λ _, 1)) 0 0 0 0 0 0.
Definition demo_switch : mach :=
  mk_mach (<[RSP := 0x9000]> (<[RDI := 0x5038]> (<[RSI := 0x20000 + 3856]> (λ _, 3)))) 2 KERNEL_CS 0 (λ _, 0)
    (store_words ∅ (0x20000 + 3856) (replicate 6 0 ++ [demo_addr S_forkret; demo_addr S_syscall_trapret] ++ tf_words demo_tf)).

Lemma thread_switch_witness :
  ∃ m', run demo_addr (λ _ _ f, f) swtch demo_switch = Some (demo_addr S_forkret, m') ∧ m_reg m' RSP = 0x20000 + 3912 ∧
    load64 (m_mem m') (0x20000 + 3912) = demo_addr S_syscall_trapret.
Proof.
  set (l := replicate 6 0 ++ [demo_addr S_forkret; demo_addr S_syscall_trapret] ++ tf_words demo_tf).
  assert (Hl : words (m_mem demo_switch) (0x20000 + 3856) 30 = l).
  { apply (words_store ∅ (0x20000 + 3856) l). repeat (apply Forall_cons; split); first [apply Forall_nil; exact I|split; reflexivity || discriminate]. }
  assert (Hw : words (m_mem demo_switch) (0x20000 + 3856) 7 = replicate 6 0 ++ [demo_addr S_forkret]).
  { rewrite (words_take _ _ 7 30), Hl by lia. reflexivity. }
  destruct (thread_switch demo_addr (λ _ _ f, f) demo_switch (replicate 6 0) (demo_addr S_forkret))
    as (m' & H1 & H2 & _ & _ & _ & _ & H3).
  - assert (E : m_reg demo_switch RSP = 0x9000 ∧ m_reg demo_switch RDI = 0x5038 ∧ m_reg demo_switch RSI = 0x20000 + 3856) by (split_and!; reflexivity).
    destruct E as (E1 & E2 & E3). split; rewrite ?E1, ?E2, ?E3; try lia.
    intros r. cbn [demo_switch m_reg]. rewrite !fn_lookup_insert_case. unfold word. repeat case_decide; lia.
  - exact Hw.
  - reflexivity.
  - destruct (H3 0x20000 demo_tf) as (_ & _ & H4 & _).
    + split; [exact Hw|]. split.
      * apply (words_lookup (m_mem demo_switch) (0x20000 + 3856) 30 7). by rewrite Hl.
      * change (0x20000 + 3920) with (0x20000 + 3856 + 8 * Z.of_nat 8).
        assert (E : words (m_mem demo_switch) (0x20000 + 3856) (8 + 22) = l) by exact Hl. rewrite words_app in E.
        apply (f_equal (drop 8)) in E. exact E.
    + reflexivity.
    + split; reflexivity || discriminate.
    + reflexivity.
    + left. discriminate.
    + left. discriminate.
    + exists m'. split; [exact H1|]. split; [exact H2|exact H4].
Defined.
