(* ===== verification/Ulib.v ===== *)
(** * ulib.c and printf.c: the user library

    User programs run in a monad [M S] over the state [S] of the rest of the
    system; [Unix S] is the system-call interface they are written against, so
    that a theorem about a program holds for every kernel that keeps the laws
    it assumes.  A C string is the list of its bytes before the terminator. *)

From S2P Require Import Prelude.

(** ** user.h: the system calls *)

(** [fork child] starts [child] in a new process; the result is the parent's. *)
Class Unix (S : Type) := {
  u_fork : M S unit → M S Z;
  u_wait : M S Z;
  u_pipe : M S (Z * Z * Z);
  u_read : Z → Z → M S (Z * list Z);
  u_write : Z → list Z → M S Z;
  u_kill : Z → M S Z;
  u_exec : list Z → list (list Z) → M S Z;
  u_fstat : Z → M S (Z * (Z * Z * Z * Z));
  u_chdir : list Z → M S Z;
  u_dup : Z → M S Z;
  u_sleep : Z → M S Z;
  u_open : list Z → Z → M S Z;
  u_mknod : list Z → Z → Z → M S Z;
  u_unlink : list Z → M S Z;
  u_link : list Z → list Z → M S Z;
  u_mkdir : list Z → M S Z;
  u_close : Z → M S Z
}.

Definition u_exit {S A} : M S A := mstop Exited.

Module Ulib.

(** ** Strings *)

(** [strcpy(s, t)] on the array [s]; [None] when [t] does not fit. *)
Definition strcpy (s t : list Z) : option (list Z) :=
  if decide (length t < length s)%nat then Some (t ++ 0 :: drop (S (length t)) s) else None.

(** [while( *p && *p == *q) p++, q++; return ( uchar)*p - ( uchar)*q;] *)
Fixpoint strcmp (p q : list Z) : Z :=
  match p, q with
  | [], [] => 0
  | [], b :: _ => - u8 b
  | a :: _, [] => u8 a
  | a :: p, b :: q => if a =? b then strcmp p q else u8 a - u8 b
  end.

Definition strlen (s : list Z) : Z := Z.of_nat (length s).

(** The index of the first [c]. *)
Fixpoint strchr (s : list Z) (c : Z) : option nat :=
  match s with
  | [] => None
  | b :: s => if b =? c then Some 0%nat else S <$> strchr s c
  end.

(** [while('0' <= *s && *s <= '9') n = n*10 + *s++ - '0';] *)
Fixpoint atoi_from (n : Z) (s : list Z) : Z :=
  match s with
  | [] => n
  | c :: s => if (48 <=? c) && (c <=? 57) then atoi_from (s32 (n * 10 + c - 48)) s else n
  end.
Definition atoi (s : list Z) : Z := atoi_from 0 s.

(** [while(n-- > 0) *dst++ = *src++;] within the array [a]. *)
Fixpoint memmove (a : list Z) (dst src n : nat) : list Z :=
  match n with
  | O => a
  | S n => memmove (<[dst := default 0 (a !! src)]> a) (S dst) (S src) n
  end.

(** The bytes of a string before its terminator. *)
Fixpoint cbytes (s : list Z) : list Z :=
  match s with
  | [] => []
  | c :: s => if c =? 0 then [] else c :: cbytes s
  end.

Section lib.
  Context {S : Type} `{U : Unix S}.

(** The loop of [gets] with [n] bytes of room; the result is the string. *)
Fixpoint gets_loop (n : nat) (buf : list Z) : M S (list Z) :=
  match n with
  | O => mret buf
  | Datatypes.S n =>
      '(cc, l) ← u_read 0 1;
      if cc <? 1 then mret buf else
      c ← munwrap "read" (l !! 0%nat);
      if (c =? 10) || (c =? 13) then mret (buf ++ [c]) else gets_loop n (buf ++ [c])
  end.
Definition gets (max : Z) : M S (list Z) := gets_loop (Z.to_nat (max - 1)) [].

Definition stat (n : list Z) : M S (Z * (Z * Z * Z * Z)) :=
  fd ← u_open n 0;
  if fd <? 0 then mret (-1, (0, 0, 0, 0)) else
  r ← u_fstat fd;
  u_close fd ;;
  mret r.
End lib.
End Ulib.

(** ** printf.c *)

Module Printf.

Inductive arg := AInt (v : Z) | AAddr (v : Z) | AStr (s : option (list Z)).

(** [digits[d]]. *)
Definition digit (d : Z) : Z := if d <? 10 then 48 + d else 87 + d.

(** The characters of [print_x64] ([w] = 64, [n] = 16) and of [print_x32]. *)
Fixpoint hex (w : Z) (n : nat) (x : Z) : list Z :=
  match n with
  | O => []
  | S n => digit (Z.shiftr x (w - 4)) :: hex w n (Z.shiftl x 4 mod 2 ^ w)
  end.

(** The digits [print_d] stores in [buf], least significant first. *)
Fixpoint ddigits (fuel : nat) (x : Z) : list Z :=
  match fuel with
  | O => []
  | S f => digit (x mod 10) :: if x / 10 =? 0 then [] else ddigits f (x / 10)
  end.
Definition dec (v : Z) : list Z :=
  let x := if v <? 0 then - v else v in
  rev (ddigits 16 x ++ (if v <? 0 then [45] else [])).

(** The characters [printf] writes; [None] when the arguments do not fit the
    format. *)
Fixpoint format (fmt : list Z) (ap : list arg) : option (list Z) :=
  match fmt with
  | [] => Some []
  | c :: fmt =>
      if negb (c =? 37) then cons c <$> format fmt ap
      else
        match fmt with
        | [] => Some []
        | c :: fmt =>
            if c =? 99 then
              match ap with AInt v :: ap => cons (u8 v) <$> format fmt ap | _ => None end
            else if c =? 100 then
              match ap with AInt v :: ap => app (dec v) <$> format fmt ap | _ => None end
            else if c =? 120 then
              match ap with AInt v :: ap => app (hex 32 8 (u32 v)) <$> format fmt ap | _ => None end
            else if c =? 112 then
              match ap with AAddr v :: ap => app (hex 64 16 v) <$> format fmt ap | _ => None end
            else if c =? 115 then
              match ap with
              | AStr s :: ap => app (default (chars "(null)") s) <$> format fmt ap
              | _ => None
              end
            else if c =? 37 then cons 37 <$> format fmt ap
            else app [37; c] <$> format fmt ap
        end
  end.

Section printf.
  Context {S : Type} `{U : Unix S}.

Definition putc (fd c : Z) : M S unit := u_write fd [c] ;; mret tt.
Definition printf (fd : Z) (fmt : list Z) (ap : list arg) : M S unit :=
  l ← munwrap "va_arg" (format fmt ap);
  iterM (putc fd) l.
End printf.
End Printf.

(** ** Facts *)

Lemma strchr_none l c : Ulib.strchr l c = None → c ∉ l.
Proof.
  induction l as [|b l IH]; cbn; [set_solver|]. destruct (Z.eqb_spec b c) as [->|Hb]; [done|].
  destruct (Ulib.strchr l c); [done|]. intros _. apply not_elem_of_cons. naive_solver.
Qed.

Lemma strchr_some l c k :
  Ulib.strchr l c = Some k → ∃ l1 l2, l = l1 ++ c :: l2 ∧ length l1 = k ∧ c ∉ l1.
Proof.
  revert k; induction l as [|b l IH]; intros k; cbn; [done|].
  destruct (Z.eqb_spec b c) as [->|Hb].
  - intros [= <-]. exists [], l. split_and!; [done..|set_solver].
  - destruct (Ulib.strchr l c) as [j|]; [|done]. intros [= <-].
    destruct (IH j eq_refl) as (l1 & l2 & -> & <- & Hn). exists (b :: l1), l2.
    split_and!; [done..|]. apply not_elem_of_cons. naive_solver.
Qed.

Lemma strchr_is_some l c : is_Some (Ulib.strchr l c) ↔ c ∈ l.
Proof.
  split.
  - intros [k Hk]. apply strchr_some in Hk as (l1 & l2 & -> & _). set_solver.
  - intros Hc. destruct (Ulib.strchr l c) eqn:E; [done|]. by apply strchr_none in E.
Qed.

(** ** Numbers *)

Lemma atoi_digit n d rest :
  0 ≤ n → 0 ≤ d < 10 → n * 10 + d < 2 ^ 31 →
  Ulib.atoi_from n (Printf.digit d :: rest) = Ulib.atoi_from (n * 10 + d) rest.
Proof.
  intros Hn Hd Ho. cbn [Ulib.atoi_from]. unfold Printf.digit.
  rewrite (proj2 (Z.ltb_lt d 10)) by lia.
  rewrite (proj2 (Z.leb_le 48 _)), (proj2 (Z.leb_le _ 57)) by lia. cbn [andb].
  f_equal. rewrite s32_small by lia. lia.
Qed.

Lemma atoi_ddigits f x rest :
  0 ≤ x < 2 ^ 31 → x < 10 ^ Z.of_nat f → (0 < f)%nat →
  Ulib.atoi_from 0 (rev (Printf.ddigits f x) ++ rest) = Ulib.atoi_from x rest.
Proof.
  revert x rest; induction f as [|f IH]; intros x rest Hx Hf H0; [lia|].
  rewrite Nat2Z.inj_succ, Z.pow_succ_r in Hf by lia.
  pose proof (Z.div_mod x 10 ltac:(lia)). pose proof (Z.mod_pos_bound x 10 ltac:(lia)).
  cbn [Printf.ddigits rev]. rewrite <- app_assoc. cbn [app].
  destruct (Z.eqb_spec (x / 10) 0) as [E|E].
  - cbn [rev app]. rewrite atoi_digit by lia. f_equal. lia.
  - assert (f ≠ 0%nat) by (intros ->; cbn in Hf; lia).
    rewrite IH by (try lia; apply Z.div_lt_upper_bound; lia).
    rewrite atoi_digit by lia. f_equal. lia.
Qed.

(** Printed numbers read back.  What [printf] writes for the conversion %d
    of a non-negative [int], [atoi] reads as the same number, also when other
    characters follow it, as long as the next one is not a digit; the digits of
    every [int] fit in the 16 bytes of [print_d]'s buffer. *)
Lemma atoi_printf v rest :
  0 ≤ v < 2 ^ 31 → (∀ c, hd_error rest = Some c → ¬ (48 ≤ c ≤ 57)) →
  Printf.format (chars "%d") [Printf.AInt v] = Some (Printf.dec v) ∧
  Ulib.atoi (Printf.dec v ++ rest) = v ∧ (length (Printf.dec v) < 16)%nat.
Proof.
  intros Hv Hrest. split; [cbn; by rewrite app_nil_r|]. unfold Ulib.atoi, Printf.dec.
  rewrite (proj2 (Z.ltb_ge v 0)), app_nil_r by lia. split.
  - rewrite atoi_ddigits by (cbn; lia). destruct rest as [|c rest]; [done|]. cbn [Ulib.atoi_from].
    specialize (Hrest c eq_refl). destruct (_ && _) eqn:E; [|done].
    apply andb_prop in E as [?%Z.leb_le ?%Z.leb_le]. lia.
  - rewrite length_rev.
    assert (Hd : ∀ g f x, (0 < f)%nat → 0 ≤ x < 10 ^ Z.of_nat f → (length (Printf.ddigits (f + g) x) ≤ f)%nat).
    { intros g f; induction f as [|f IH]; intros x H0 Hx; [lia|].
      rewrite Nat2Z.inj_succ, Z.pow_succ_r in Hx by lia. cbn [Nat.add Printf.ddigits length].
      destruct (Z.eqb_spec (x / 10) 0) as [E|E]; cbn [length]; [lia|].
      assert (f ≠ 0%nat).
      { intros ->. rewrite Z.div_small in E; [done|]. cbn in Hx. lia. }
      pose proof (Z.div_pos x 10). apply le_n_S, IH; [lia|]. split; [lia|].
      apply Z.div_lt_upper_bound; lia. }
    specialize (Hd 6%nat 10%nat v). cbn [Nat.add] in Hd. etrans; [apply le_n_S, Hd; cbn; lia|lia].
Qed.

Lemma atoi_printf_witness : Ulib.atoi (Printf.dec 2147483647 ++ chars " x") = 2147483647.
Proof.
  apply (atoi_printf 2147483647 (chars " x")); [lia|]. cbn. intros c [= <-]. lia.
Defined.
