(* ===== verification/Stream.v ===== *)
(** * A system that serves a stream

    What cat, wc and grep rely on when they read standard input and write
    standard output: [reads] is the sequence of results the reads to come will
    have, [out] the bytes written so far.  [stream_unix] is a system with these
    laws. *)

From S2P Require Import Prelude Ulib.

(** A read of [n] bytes returns the next chunk, which is not empty and has at
    most [n] bytes, or 0 at the end. *)
Record stream_laws {S} `{U : Unix S} (reads : S → list (list Z)) (out : S → list Z) : Prop := {
  read_chunk s c cs n :
    reads s = c :: cs → Z.of_nat (length c) ≤ n →
    ∃ s', u_read 0 n s = Ok (Z.of_nat (length c), c) s' ∧ reads s' = cs ∧ out s' = out s;
  read_end s n :
    reads s = [] → ∃ s', u_read 0 n s = Ok (0, []) s' ∧ reads s' = [] ∧ out s' = out s;
  write_out s l :
    ∃ s', u_write 1 l s = Ok (Z.of_nat (length l)) s' ∧ reads s' = reads s ∧ out s' = out s ++ l
}.

(** ** A system with these laws *)

Record stream := mk_stream { st_reads : list (list Z); st_out : list Z }.

Definition st_read (fd n : Z) : M stream (Z * list Z) := λ s,
  match st_reads s with
  | c :: cs =>
      if Z.of_nat (length c) <=? n
      then Ok (Z.of_nat (length c), c) (mk_stream cs (st_out s)) else Ok (-1, []) s
  | [] => Ok (0, []) s
  end.

Definition st_write (fd : Z) (l : list Z) : M stream Z := λ s,
  Ok (Z.of_nat (length l)) (mk_stream (st_reads s) (st_out s ++ l)).

Definition st_fails : M stream Z := mret (-1).

#[export] Instance stream_unix : Unix stream := {
  u_fork _ := st_fails; u_wait := st_fails; u_pipe := mret (-1, 0, 0);
  u_read := st_read; u_write := st_write; u_kill _ := st_fails; u_exec _ _ := st_fails;
  u_fstat _ := mret (-1, (0, 0, 0, 0)); u_chdir _ := st_fails; u_dup _ := st_fails;
  u_sleep _ := st_fails; u_open _ _ := st_fails; u_mknod _ _ _ := st_fails;
  u_unlink _ := st_fails; u_link _ _ := st_fails; u_mkdir _ := st_fails; u_close _ := st_fails
}.

Lemma stream_unix_laws : stream_laws st_reads st_out.
Proof.
  split.
  - intros s c cs n Hr Hc. exists (mk_stream cs (st_out s)). cbn. unfold st_read.
    rewrite Hr, (proj2 (Z.leb_le _ _) Hc). done.
  - intros s n Hr. exists s. cbn. unfold st_read. by rewrite Hr.
  - intros s l. eexists. cbn. done.
Qed.

(** ** Output of printf *)

Section laws.
  Context {S} `{U : Unix S} (reads : S → list (list Z)) (out : S → list Z).
  Context (L : stream_laws reads out).

Lemma putc_out s l :
  ∃ s', iterM (Printf.putc 1) l s = Ok tt s' ∧ reads s' = reads s ∧ out s' = out s ++ l.
Proof using L.
  revert s; induction l as [|c l IH]; intros s; cbn [iterM].
  - exists s. by rewrite app_nil_r.
  - destruct (write_out _ _ L s [c]) as (s1 & H1 & Hr & Ho).
    assert (Hp : Printf.putc 1 c s = Ok tt s1).
    { unfold Printf.putc. by rewrite (bind_ok _ _ _ _ _ H1). }
    rewrite (bind_ok _ _ _ _ _ Hp).
    destruct (IH s1) as (s2 & -> & Hr2 & Ho2). exists s2.
    rewrite Hr2, Ho2, Hr, Ho, <- app_assoc. done.
Qed.

Lemma printf_out s fmt ap l :
  Printf.format fmt ap = Some l →
  ∃ s', Printf.printf 1 fmt ap s = Ok tt s' ∧ reads s' = reads s ∧ out s' = out s ++ l.
Proof using L.
  intros H. unfold Printf.printf. rewrite H. cbn [munwrap].
  unfold mret, M_ret, mbind, M_bind. apply putc_out.
Qed.
End laws.
