(* ===== verification/Uprogs.v ===== *)
(** * The small user programs: cat, wc, echo, ls, ln, rm, mkdir, kill, zombie, init

    Each [main] on the argument strings, against the system-call interface of
    the file Ulib.  Loops that read until the end of their input take the
    number of reads they may make. *)

From S2P Require Import Prelude Bytes Ulib Stream.

Import Printf.

Definition line (s : string) : list Z := chars s ++ [10].
Definition str (s : list Z) : arg := AStr (Some s).

Section programs.
  Context {S : Type} `{U : Unix S}.

(** ** cat.c *)

Fixpoint cat (fuel : nat) (fd : Z) : M S unit :=
  '(n, buf) ← u_read fd 512;
  if n >? 0 then
    match fuel with
    | O => mstop OutOfFuel
    | Datatypes.S fuel =>
        r ← u_write 1 buf;
        if negb (r =? n) then printf 1 (line "cat: write error") [] ;; u_exit
        else cat fuel fd
    end
  else if n <? 0 then printf 1 (line "cat: read error") [] ;; u_exit
  else mret tt.

Fixpoint cat_files (fuel : nat) (files : list (list Z)) : M S unit :=
  match files with
  | [] => u_exit
  | f :: files =>
      fd ← u_open f 0;
      if fd <? 0 then printf 1 (line "cat: cannot open %s") [str f] ;; u_exit
      else cat fuel fd ;; u_close fd ;; cat_files fuel files
  end.

Definition cat_main (fuel : nat) (argv : list (list Z)) : M S unit :=
  match tail argv with
  | [] => cat fuel 0 ;; u_exit
  | files => cat_files fuel files
  end.

(** ** wc.c *)

(** Lines, words, characters and whether a word has begun. *)
Record counts := mk_counts { c_l : Z; c_w : Z; c_c : Z; c_inword : bool }.

(** The body of the inner loop on the byte [b]. *)
Definition wc_byte (k : counts) (b : Z) : counts :=
  let l := if b =? 10 then c_l k + 1 else c_l k in
  match Ulib.strchr (chars " " ++ [13; 9; 10; 11]) b with
  | Some _ => mk_counts l (c_w k) (c_c k + 1) false
  | None =>
      if negb (c_inword k) then mk_counts l (c_w k + 1) (c_c k + 1) true
      else mk_counts l (c_w k) (c_c k + 1) true
  end.

Fixpoint wc_loop (fuel : nat) (fd : Z) (k : counts) : M S (option counts) :=
  '(n, buf) ← u_read fd 512;
  if n >? 0 then
    match fuel with
    | O => mstop OutOfFuel
    | Datatypes.S fuel => wc_loop fuel fd (foldl wc_byte k buf)
    end
  else mret (if n <? 0 then None else Some k).

Definition wc (fuel : nat) (fd : Z) (name : list Z) : M S unit :=
  r ← wc_loop fuel fd (mk_counts 0 0 0 false);
  match r with
  | None => printf 1 (line "wc: read error") [] ;; u_exit
  | Some k => printf 1 (line "%d %d %d %s") [AInt (c_l k); AInt (c_w k); AInt (c_c k); str name]
  end.

Fixpoint wc_files (fuel : nat) (files : list (list Z)) : M S unit :=
  match files with
  | [] => u_exit
  | f :: files =>
      fd ← u_open f 0;
      if fd <? 0 then printf 1 (line "wc: cannot open %s") [str f] ;; u_exit
      else wc fuel fd f ;; u_close fd ;; wc_files fuel files
  end.

Definition wc_main (fuel : nat) (argv : list (list Z)) : M S unit :=
  match tail argv with
  | [] => wc fuel 0 [] ;; u_exit
  | files => wc_files fuel files
  end.

(** ** echo.c *)

Fixpoint echo_args (args : list (list Z)) : M S unit :=
  match args with
  | [] => u_exit
  | a :: args =>
      printf 1 (chars "%s%s") [str a; str (match args with [] => [10] | _ => [32] end)] ;;
      echo_args args
  end.
Definition echo_main (argv : list (list Z)) : M S unit := echo_args (tail argv).

(** ** ls.c *)

(** The characters after the last slash. *)
Fixpoint after_slash (path acc : list Z) : list Z :=
  match path with
  | [] => acc
  | c :: path => after_slash path (if c =? 47 then path else acc)
  end.

Definition fmtname (path : list Z) : list Z :=
  let p := after_slash path path in
  if decide (14 <= length p)%nat then p else p ++ replicate (14 - length p) 32.

Definition ls_line (name : list Z) (st : Z * Z * Z * Z) : M S unit :=
  let '(type, ino, _, size) := st in
  printf 1 (line "%s %d %d %d") [str (fmtname name); AInt type; AInt (s32 ino); AInt (s32 size)].

(** [while(read(fd, &de, sizeof(de)) == sizeof(de))]; [prefix] is the path with
    its slash. *)
Fixpoint ls_entries (fuel : nat) (fd : Z) (prefix : list Z) : M S unit :=
  '(n, de) ← u_read fd 16;
  if negb (n =? 16) then mret tt else
  match fuel with
  | O => mstop OutOfFuel
  | Datatypes.S fuel =>
      if get 2 0 de =? 0 then ls_entries fuel fd prefix else
      let name := prefix ++ Ulib.cbytes (slice 2 14 de) in
      '(r, st) ← Ulib.stat name;
      (if r <? 0 then printf 1 (line "ls: cannot stat %s") [str name] else ls_line name st) ;;
      ls_entries fuel fd prefix
  end.

Definition ls (fuel : nat) (path : list Z) : M S unit :=
  fd ← u_open path 0;
  if fd <? 0 then printf 2 (line "ls: cannot open %s") [str path] else
  '(r, st) ← u_fstat fd;
  if r <? 0 then printf 2 (line "ls: cannot stat %s") [str path] ;; u_close fd ;; mret tt else
  let '(type, _, _, _) := st in
  (if type =? 2 then ls_line path st
   else if type =? 1 then
     if Ulib.strlen path + 1 + 14 + 1 >? 512 then printf 1 (line "ls: path too long") []
     else ls_entries fuel fd (path ++ [47])
   else mret tt) ;;
  u_close fd ;;
  mret tt.

Definition ls_main (fuel : nat) (argv : list (list Z)) : M S unit :=
  match tail argv with
  | [] => ls fuel (chars ".") ;; u_exit
  | paths => iterM (ls fuel) paths ;; u_exit
  end.

(** ** ln.c, rm.c, mkdir.c, kill.c, zombie.c *)

Definition ln_main (argv : list (list Z)) : M S unit :=
  match argv with
  | [_; old; new] =>
      r ← u_link old new;
      (if r <? 0 then printf 2 (line "link %s %s: failed") [str old; str new] else mret tt) ;;
      u_exit
  | _ => printf 2 (line "Usage: ln old new") [] ;; u_exit
  end.

(** The loops of rm and of mkdir: stop at the first failure. *)
Fixpoint each_file (call : list Z → M S Z) (msg : list Z) (files : list (list Z)) : M S unit :=
  match files with
  | [] => mret tt
  | f :: files =>
      r ← call f;
      if r <? 0 then printf 2 msg [str f] else each_file call msg files
  end.

Definition rm_main (argv : list (list Z)) : M S unit :=
  match tail argv with
  | [] => printf 2 (line "Usage: rm files...") [] ;; u_exit
  | files => each_file u_unlink (line "rm: %s failed to delete") files ;; u_exit
  end.

Definition mkdir_main (argv : list (list Z)) : M S unit :=
  match tail argv with
  | [] => printf 2 (line "Usage: mkdir files...") [] ;; u_exit
  | files => each_file u_mkdir (line "mkdir: %s failed to create") files ;; u_exit
  end.

Definition kill_main (argv : list (list Z)) : M S unit :=
  match tail argv with
  | [] => printf 2 (line "usage: kill pid...") [] ;; u_exit
  | pids => iterM (λ a, u_kill (Ulib.atoi a) ;; mret tt) pids ;; u_exit
  end.

Definition zombie_main : M S unit :=
  r ← u_fork u_exit;
  (if r >? 0 then u_sleep 5 ;; mret tt else mret tt) ;;
  u_exit.

(** ** init.c *)

(** [while((wpid=wait()) >= 0 && wpid != pid)], [fuel] children at most. *)
Fixpoint init_reap (fuel : nat) (pid : Z) : M S unit :=
  wpid ← u_wait;
  if (wpid >=? 0) && negb (wpid =? pid) then
    match fuel with
    | O => mstop OutOfFuel
    | Datatypes.S fuel => printf 1 (line "zombie!") [] ;; init_reap fuel pid
    end
  else mret tt.

(** What the child of init does. *)
Definition init_child : M S unit :=
  u_exec (chars "sh") [chars "sh"] ;;
  printf 1 (line "init: exec sh failed") [] ;;
  u_exit.

(** [for(;;)], [shells] times. *)
Fixpoint init_loop (fuel shells : nat) : M S unit :=
  match shells with
  | O => mstop OutOfFuel
  | Datatypes.S shells =>
      printf 1 (line "init: starting sh") [] ;;
      pid ← u_fork init_child;
      if pid <? 0 then printf 1 (line "init: fork failed") [] ;; u_exit else
      init_reap fuel pid ;;
      init_loop fuel shells
  end.

Definition init_main (fuel shells : nat) : M S unit :=
  r ← u_open (chars "console") 2;
  (if r <? 0 then
     u_mknod (chars "console") 1 1 ;;
     u_open (chars "console") 2 ;;
     mret tt
   else mret tt) ;;
  u_dup 0 ;;
  u_dup 0 ;;
  init_loop fuel shells.
End programs.

(** ** cat copies its input, wc counts it *)

Definition is_space (b : Z) : bool := bool_decide (b ∈ [32; 13; 9; 10; 11]).

(** The maximal runs of characters that are not white space. *)
Fixpoint words (cur l : list Z) : list (list Z) :=
  match l with
  | [] => if decide (cur = []) then [] else [cur]
  | b :: l =>
      if is_space b then (if decide (cur = []) then [] else [cur]) ++ words [] l
      else words (cur ++ [b]) l
  end.

Definition newlines (l : list Z) : nat := length (filter (λ b, b = 10) l).

Lemma wc_byte_eq k b :
  wc_byte k b =
    mk_counts (if b =? 10 then c_l k + 1 else c_l k)
      (if is_space b || c_inword k then c_w k else c_w k + 1) (c_c k + 1) (negb (is_space b)).
Proof.
  pose proof (strchr_is_some (chars " " ++ [13; 9; 10; 11]) b) as Hs.
  unfold wc_byte, is_space. change (chars " " ++ [13; 9; 10; 11]) with [32; 13; 9; 10; 11] in *.
  destruct (Ulib.strchr _ b).
  - rewrite bool_decide_true by (by apply Hs). done.
  - rewrite bool_decide_false by (intros H; by apply Hs in H as []). by destruct (c_inword k).
Qed.

(** Counting from a state in which a word [cur] has begun, or not. *)
Lemma wc_foldl l cur L w n :
  foldl wc_byte (mk_counts L w n (negb (bool_decide (cur = [])))) l =
    mk_counts (L + Z.of_nat (newlines l))
      (w - (if decide (cur = []) then 0 else 1) + Z.of_nat (length (words cur l)))
      (n + Z.of_nat (length l))
      (match last l with
       | Some b => negb (is_space b)
       | None => negb (bool_decide (cur = []))
       end).
Proof.
  revert cur L w n; induction l as [|b l IH]; intros cur L w n.
  { cbn. unfold newlines. cbn. destruct (decide (cur = [])); cbn; f_equal; lia. }
  cbn [foldl]. rewrite wc_byte_eq. cbn [c_l c_w c_c c_inword].
  assert (Hlast : ∀ P Q : bool, match last (b :: l) with Some b => negb (is_space b) | None => P end =
    match last l with Some b => negb (is_space b) | None => negb (is_space b) end).
  { intros. destruct l as [|b' l]; [done|]. cbn [last]. by destruct (last_is_Some (b' :: l)) as [_ [? ->]]. }
  rewrite (Hlast _ true). cbn [words].
  assert (Hnl : Z.of_nat (newlines (b :: l)) = (if b =? 10 then 1 else 0) + Z.of_nat (newlines l)).
  { unfold newlines. rewrite filter_cons. destruct (Z.eqb_spec b 10); [rewrite decide_True by done|
      rewrite decide_False by done]; cbn [length]; lia. }
  destruct (is_space b) eqn:Esp; cbn [negb orb].
  - rewrite (IH []), Hnl, (decide_True (P := @nil Z = [])) by done. cbn [length]. rewrite length_app. f_equal.
    + destruct (b =? 10); lia.
    + destruct (decide (cur = [])); cbn; lia.
    + lia.
  - assert (Hc : cur ++ [b] ≠ []) by (by destruct cur).
    pose proof (IH (cur ++ [b])) as IH'. rewrite bool_decide_false in IH' by done.
    cbn [negb] in IH'. rewrite IH', Hnl. rewrite (decide_False (P := cur ++ [b] = [])) by done.
    cbn [length]. f_equal.
    + destruct (b =? 10); lia.
    + destruct (decide (cur = [])) as [->|Hn]; cbn.
      * lia.
      * rewrite bool_decide_false by done. cbn. lia.
    + lia.
Qed.

Section counting.
  Context {S} `{U : Unix S} (reads : S → list (list Z)) (out : S → list Z).
  Context (L : stream_laws reads out).

(** The chunks a read of 512 bytes can return. *)
Definition chunk512 (c : list Z) : Prop := c ≠ [] ∧ (length c ≤ 512)%nat.

Lemma wc_loop_eq chunks k s :
  reads s = chunks → Forall chunk512 chunks →
  ∃ s', wc_loop (length chunks) 0 k s = Ok (Some (foldl wc_byte k (concat chunks))) s' ∧
        reads s' = [] ∧ out s' = out s.
Proof using L.
  revert k s; induction chunks as [|c chunks IH]; intros k s Hr Hok; cbn [length wc_loop].
  - destruct (read_end _ _ L s 512 Hr) as (s' & H1 & H2 & H3). exists s'.
    by rewrite (bind_ok _ _ _ _ _ H1).
  - apply Forall_cons in Hok as [[Hc Hl] Hok].
    destruct (read_chunk _ _ L s c chunks 512 Hr ltac:(lia)) as (s1 & H1 & H2 & H3).
    rewrite (bind_ok _ _ _ _ _ H1). cbn beta iota.
    destruct (Z.of_nat (length c) >? 0) eqn:E; [|destruct c; [done|by rewrite Z.gtb_ltb in E]].
    destruct (IH (foldl wc_byte k c) s1 H2 Hok) as (s2 & -> & H4 & H5).
    exists s2. cbn [concat]. rewrite foldl_app, H5. done.
Qed.

Lemma cat_eq chunks s :
  reads s = chunks → Forall chunk512 chunks →
  ∃ s', cat (length chunks) 0 s = Ok tt s' ∧ out s' = out s ++ concat chunks.
Proof using L.
  revert s; induction chunks as [|c chunks IH]; intros s Hr Hok; cbn [length cat].
  - destruct (read_end _ _ L s 512 Hr) as (s' & H1 & H2 & H3). exists s'.
    rewrite (bind_ok _ _ _ _ _ H1). cbn. by rewrite H3, app_nil_r.
  - apply Forall_cons in Hok as [[Hc Hl] Hok].
    destruct (read_chunk _ _ L s c chunks 512 Hr ltac:(lia)) as (s1 & H1 & H2 & H3).
    rewrite (bind_ok _ _ _ _ _ H1). cbn beta iota.
    destruct (Z.of_nat (length c) >? 0) eqn:E; [|destruct c; [done|by rewrite Z.gtb_ltb in E]].
    destruct (write_out _ _ L s1 c) as (s2 & H4 & H5 & H6).
    rewrite (bind_ok _ _ _ _ _ H4). cbn beta iota. rewrite Z.eqb_refl. cbn [negb].
    destruct (IH s2 ltac:(by rewrite H5) Hok) as (s3 & -> & H7).
    exists s3. cbn [concat]. by rewrite H7, H6, H3, app_assoc.
Qed.
End counting.

(** Cat and wc see their whole input, however the reads divide it.  On a
    system that serves a stream, cat writes the concatenation of what it reads,
    and wc prints the number of newlines, of maximal runs of characters other
    than white space, and of bytes of that concatenation, then the name. *)
Lemma cat_wc_correct {S} `{U : Unix S} reads out (L : stream_laws reads out) chunks name (s : S) :
  reads s = chunks → Forall chunk512 chunks →
  (∃ s', cat (length chunks) 0 s = Ok tt s' ∧ out s' = out s ++ concat chunks) ∧
  (∃ s' l, wc (length chunks) 0 name s = Ok tt s' ∧ out s' = out s ++ l ∧
    format (line "%d %d %d %s")
      [AInt (Z.of_nat (newlines (concat chunks)));
       AInt (Z.of_nat (length (words [] (concat chunks))));
       AInt (Z.of_nat (length (concat chunks))); str name] = Some l).
Proof.
  intros Hr Hok. split; [by apply (cat_eq reads out L)|].
  destruct (wc_loop_eq reads out L chunks (mk_counts 0 0 0 false) s Hr Hok) as (s1 & H1 & H2 & H3).
  pose proof (wc_foldl (concat chunks) [] 0 0 0) as Hk. cbn [negb bool_decide decide_rel] in Hk.
  unfold wc. rewrite (bind_ok _ _ _ _ _ H1).
  replace (mk_counts 0 0 0 false) with (mk_counts 0 0 0 (negb (bool_decide (@nil Z = [])))) by done.
  rewrite wc_foldl, (decide_True (P := @nil Z = [])) by done. cbn [c_l c_w c_c]. rewrite !Z.add_0_l.
  destruct (format (line "%d %d %d %s") _) as [l|] eqn:E; [|done].
  destruct (printf_out reads out L s1 _ _ l E) as (s' & H4 & H5 & H6).
  exists s', l. split_and!; [exact H4|by rewrite H6, H3|done].
Qed.

(** Two reads, of which the first ends in the middle of a word. *)
Lemma cat_wc_correct_witness :
  ∃ s' l, wc 2 0 (chars "f") (mk_stream [chars "a b"; chars "c d" ++ [10]] []) = Ok tt s' ∧
          st_out s' = [] ++ l ∧ Some l = Some (chars "1 3 7 f" ++ [10]).
Proof.
  destruct (cat_wc_correct st_reads st_out stream_unix_laws [chars "a b"; chars "c d" ++ [10]]
    (chars "f") (mk_stream [chars "a b"; chars "c d" ++ [10]] []) eq_refl) as [_ (s' & l & H1 & H2 & H3)].
  { repeat constructor; try done; cbn; lia. }
  exists s', l. split_and!; [exact H1|exact H2|]. rewrite <- H3. reflexivity.
Defined.
