(* ===== verification/Grep.v ===== *)
(** * grep.c: matching lines against a pattern

    The matcher, and the loop that finds the lines of its input in a buffer of
    1024 bytes. *)

From S2P Require Import Prelude Ulib Stream.

(** ** The matcher *)

(** [matchhere], with [matchstar] as its inner loop over the text; a string
    ends where its list ends. *)
Fixpoint matchhere (re text : list Z) {struct re} : bool :=
  match re with
  | [] => true
  | c :: re1 =>
      let plain :=
        if (c =? 36) && bool_decide (re1 = []) then bool_decide (text = [])
        else match text with
             | [] => false
             | t :: text => ((c =? 46) || (c =? t)) && matchhere re1 text
             end in
      match re1 with
      | d :: re2 =>
          if d =? 42 then
            (fix matchstar (text : list Z) : bool :=
               matchhere re2 text ||
               match text with
               | [] => false
               | t :: text => ((t =? c) || (c =? 46)) && matchstar text
               end) text
          else plain
      | [] => plain
      end
  end.

(** [do { if(matchhere(re, text)) return 1; } while( *text++ != 0);] *)
Fixpoint match_from (re text : list Z) : bool :=
  matchhere re text ||
  match text with
  | [] => false
  | _ :: text => match_from re text
  end.

Definition match_ (re text : list Z) : bool :=
  match re with
  | c :: re' => if c =? 94 then matchhere re' text else match_from re text
  | [] => match_from re text
  end.

(** ** The loop over the input *)

Section grep.
  Context {S : Type} `{U : Unix S}.

(** [while((q = strchr(p, '\n')) != 0)]: print the matching lines from index
    [p] of the buffer on, [n] lines at most; the result is the buffer and the
    index after the last line. *)
Fixpoint grep_lines (n : nat) (pattern buf : list Z) (p : nat) : M S (list Z * nat) :=
  match Ulib.strchr (Ulib.cbytes (drop p buf)) 10 with
  | None => mret (buf, p)
  | Some k =>
      match n with
      | O => mstop OutOfFuel
      | Datatypes.S n =>
          let q := (p + k)%nat in
          let buf := <[q := 0]> buf in
          if match_ pattern (Ulib.cbytes (drop p buf)) then
            let buf := <[q := 10]> buf in
            u_write 1 (take (q + 1 - p) (drop p buf)) ;;
            grep_lines n pattern buf (Datatypes.S q)
          else grep_lines n pattern buf (Datatypes.S q)
      end
  end.

(** [while((n = read(fd, buf+m, sizeof(buf)-m-1)) > 0)], [fuel] reads at most. *)
Fixpoint grep_loop (fuel : nat) (pattern : list Z) (fd : Z) (buf : list Z) (m : nat) : M S unit :=
  '(n, l) ← u_read fd (1024 - Z.of_nat m - 1);
  if n <=? 0 then mret tt else
  match fuel with
  | O => mstop OutOfFuel
  | Datatypes.S fuel =>
      let buf := take m buf ++ l ++ drop (m + length l) buf in
      let m := (m + length l)%nat in
      let buf := <[m := 0]> buf in
      '(buf, p) ← grep_lines 1024 pattern buf 0;
      let m := if decide (p = 0%nat) then 0%nat else m in
      if decide (0 < m)%nat then
        let m := (m - p)%nat in
        grep_loop fuel pattern fd (Ulib.memmove buf 0 p m) m
      else grep_loop fuel pattern fd buf m
  end.

Definition grep (fuel : nat) (pattern : list Z) (fd : Z) : M S unit :=
  grep_loop fuel pattern fd (replicate 1024 0) 0.

(** [for(i = 2; i < argc; i++)] over the files named. *)
Fixpoint grep_files (fuel : nat) (pattern : list Z) (files : list (list Z)) : M S unit :=
  match files with
  | [] => u_exit
  | f :: files =>
      fd ← u_open f 0;
      if fd <? 0 then
        Printf.printf 1 (chars "grep: cannot open %s" ++ [10]) [Printf.AStr (Some f)] ;;
        u_exit
      else
        grep fuel pattern fd ;;
        u_close fd ;;
        grep_files fuel pattern files
  end.

Definition grep_main (fuel : nat) (argv : list (list Z)) : M S unit :=
  match argv with
  | _ :: pattern :: [] => grep fuel pattern 0 ;; u_exit
  | _ :: pattern :: files => grep_files fuel pattern files
  | _ => Printf.printf 2 (chars "usage: grep pattern [file ...]" ++ [10]) [] ;; u_exit
  end.
End grep.

(** ** What a pattern means

    A pattern denotes a language and two anchors: the text matches when a
    substring of it is in the language, at the beginning of the text if the
    pattern starts with a caret, and up to its end if it ends with a dollar. *)

Inductive item := One (c : Z) | Many (c : Z).

(** The items of a pattern without its caret, and whether it ends in a dollar. *)
Fixpoint items (re : list Z) : list item * bool :=
  match re with
  | [] => ([], false)
  | c :: re1 =>
      let plain :=
        if (c =? 36) && bool_decide (re1 = []) then ([], true)
        else (One c :: fst (items re1), snd (items re1)) in
      match re1 with
      | d :: re2 => if d =? 42 then (Many c :: fst (items re2), snd (items re2)) else plain
      | [] => plain
      end
  end.

(** The characters [c] stands for. *)
Definition stands (c t : Z) : Prop := c = 46 ∨ c = t.

Inductive lang : list item → list Z → Prop :=
  | lang_nil : lang [] []
  | lang_one c t l s : stands c t → lang l s → lang (One c :: l) (t :: s)
  | lang_many c l s1 s2 : Forall (stands c) s1 → lang l s2 → lang (Many c :: l) (s1 ++ s2).

Definition grep_spec (re text : list Z) : Prop :=
  let bol := bool_decide (hd_error re = Some 94) in
  let body := if bol then tail re else re in
  ∃ pre s post, text = pre ++ s ++ post ∧ lang (fst (items body)) s ∧
    (bol = true → pre = []) ∧ (snd (items body) = true → post = []).

(** A match at the beginning of the text. *)
Definition here (p : list item * bool) (text : list Z) : Prop :=
  ∃ s post, text = s ++ post ∧ lang (fst p) s ∧ (snd p = true → post = []).

Lemma here_nil (b : bool) text : here ([], b) text ↔ (b = true → text = []).
Proof.
  unfold here; cbn. split.
  - intros (s & post & -> & Hl & Hp) ->. inversion Hl; subst. by apply Hp.
  - intros H. exists [], text. split_and!; [done|constructor|done].
Qed.

Lemma here_one c l (b : bool) text :
  here (One c :: l, b) text ↔ ∃ t text', text = t :: text' ∧ stands c t ∧ here (l, b) text'.
Proof.
  unfold here; cbn. split.
  - intros (s & post & -> & Hl & Hp). inversion Hl; subst.
    eexists _, _. split; [done|]. split; [done|]. eexists _, _. by split_and!.
  - intros (t & text' & -> & Ht & s & post & -> & Hl & Hp).
    exists (t :: s), post. split_and!; [done|by constructor|done].
Qed.

Lemma here_many c l (b : bool) text :
  here (Many c :: l, b) text ↔
    here (l, b) text ∨ ∃ t text', text = t :: text' ∧ stands c t ∧ here (Many c :: l, b) text'.
Proof.
  unfold here; cbn. split.
  - intros (s & post & -> & Hl & Hp). inversion Hl as [| |? ? s1 s2 H1 H2]; subst.
    destruct H1 as [|t s1 Ht H1]; [left; by eexists _, _|right].
    eexists _, _. split; [done|]. split; [done|].
    exists (s1 ++ s2), post. split_and!; [done|by constructor|done].
  - intros [(s & post & -> & Hl & Hp)|(t & text' & -> & Ht & s & post & -> & Hl & Hp)].
    + exists ([] ++ s), post. split_and!; [done|by constructor|done].
    + inversion Hl as [| |? ? s1 s2 H1 H2]; subst.
      exists ((t :: s1) ++ s2), post. split_and!; [done|constructor; [by constructor|done]|done].
Qed.

Lemma stands_spec c t : (t =? c) || (c =? 46) = true ↔ stands c t.
Proof. unfold stands. rewrite orb_true_iff, !Z.eqb_eq. naive_solver. Qed.

(** [matchstar] is [matchhere] of a pattern whose first item is starred. *)
Lemma matchhere_star c re2 text :
  matchhere (c :: 42 :: re2) text =
    matchhere re2 text ||
    match text with
    | [] => false
    | t :: text => ((t =? c) || (c =? 46)) && matchhere (c :: 42 :: re2) text
    end.
Proof. by destruct text. Qed.

Lemma matchhere_other c re1 text :
  hd_error re1 ≠ Some 42 →
  matchhere (c :: re1) text =
    if (c =? 36) && bool_decide (re1 = []) then bool_decide (text = [])
    else match text with
         | [] => false
         | t :: text => ((c =? 46) || (c =? t)) && matchhere re1 text
         end.
Proof.
  intros H. destruct re1 as [|d re1]; [done|].
  cbn [matchhere]. rewrite (proj2 (Z.eqb_neq d 42)) by (cbn in H; congruence). done.
Qed.

Lemma items_other c re1 :
  hd_error re1 ≠ Some 42 →
  items (c :: re1) =
    if (c =? 36) && bool_decide (re1 = []) then ([], true)
    else (One c :: fst (items re1), snd (items re1)).
Proof.
  intros H. destruct re1 as [|d re1]; [done|].
  cbn [items]. rewrite (proj2 (Z.eqb_neq d 42)) by (cbn in H; congruence). done.
Qed.

(** Patterns are taken apart as [matchhere] does. *)
Lemma re_ind (Q : list Z → Prop) :
  Q [] →
  (∀ c re, Q re → Q (c :: 42 :: re)) →
  (∀ c re, hd_error re ≠ Some 42 → Q re → Q (c :: re)) →
  ∀ re, Q re.
Proof.
  intros H0 Hs Ho re. remember (length re) as n eqn:Hn. assert (Hle : (length re ≤ n)%nat) by lia.
  clear Hn. revert re Hle; induction n as [|n IH]; intros [|c re] Hle; cbn in *; try done; [lia|].
  destruct re as [|d re]; [apply Ho; [done|by apply H0]|].
  destruct (decide (d = 42)) as [->|Hd].
  - apply Hs, IH. cbn in *. lia.
  - apply Ho; [cbn; congruence|]. apply IH. lia.
Qed.

Lemma matchhere_spec re text : matchhere re text = true ↔ here (items re) text.
Proof.
  revert text; induction re as [|c re IH|c re Hre IH] using re_ind; intros text.
  - cbn. rewrite here_nil. naive_solver.
  - change (items (c :: 42 :: re)) with (Many c :: fst (items re), snd (items re)).
    induction text as [|t text IHt]; rewrite matchhere_star, here_many, orb_true_iff, IH,
      <- surjective_pairing; [naive_solver|].
    rewrite andb_true_iff, stands_spec, IHt. naive_solver.
  - rewrite matchhere_other, items_other by done.
    destruct ((c =? 36) && bool_decide (re = [])) eqn:E.
    + rewrite here_nil, bool_decide_eq_true. naive_solver.
    + rewrite here_one, <- surjective_pairing. destruct text as [|t text]; [naive_solver|].
      rewrite andb_true_iff, IH, orb_comm, (Z.eqb_sym c t), stands_spec. naive_solver.
Qed.

Lemma match_from_spec re text :
  match_from re text = true ↔ ∃ pre rest, text = pre ++ rest ∧ here (items re) rest.
Proof.
  induction text as [|t text IH]; cbn [match_from]; rewrite orb_true_iff, matchhere_spec.
  - split; [intros [H|]; [by exists [], []|done]|].
    intros (pre & rest & [-> ->]%eq_sym%app_eq_nil & H). by left.
  - rewrite IH. split.
    + intros [H|(pre & rest & -> & H)]; [by exists [], (t :: text)|by exists (t :: pre), rest].
    + intros ([|p pre] & rest & Hp & H); [left; cbn in Hp; by subst|right].
      injection Hp as -> ->. eauto.
Qed.

(** C31: the matcher decides its patterns.  [match] accepts a text exactly when
    some substring of it is in the language of the pattern's items (a character,
    a dot for any character, a starred character or dot for any number of
    them), at the text's beginning when the pattern starts with a caret and at
    its end when the pattern ends with a dollar. *)
Theorem match_correct re text : match_ re text = true ↔ grep_spec re text.
Proof.
  assert (Hany : match_from re text = true ↔ ∃ pre s post, text = pre ++ s ++ post ∧
    lang (fst (items re)) s ∧ (false = true → pre = []) ∧ (snd (items re) = true → post = [])).
  { rewrite match_from_spec. unfold here. naive_solver. }
  unfold grep_spec, match_. destruct re as [|c re']; [exact Hany|]. cbn [hd_error].
  destruct (Z.eqb_spec c 94) as [->|Hc].
  - rewrite bool_decide_true by done. cbn [tail]. rewrite matchhere_spec. unfold here. split.
    + intros (s & post & -> & H1 & H2). by exists [], s, post.
    + intros (pre & s & post & -> & H1 & Hp & H2). rewrite (Hp eq_refl). by exists s, post.
  - rewrite bool_decide_false by congruence. exact Hany.
Qed.

(** ** What the loop prints *)

(** The complete lines of a text, without their newlines, and what follows the
    last newline. *)
Fixpoint split_lines (cur text : list Z) : list (list Z) * list Z :=
  match text with
  | [] => ([], cur)
  | c :: text =>
      if c =? 10 then (cur :: fst (split_lines [] text), snd (split_lines [] text))
      else split_lines (cur ++ [c]) text
  end.

Definition printed (pattern : list Z) (ls : list (list Z)) : list Z :=
  concat ((λ l, if match_ pattern l then l ++ [10] else []) <$> ls).

(** The output for the chunks still to read, when [carry] is what is left in
    the buffer: text is carried over to the next read only when the chunk
    completed a line. *)
Fixpoint grep_out (pattern carry : list Z) (chunks : list (list Z)) : list Z :=
  match chunks with
  | [] => []
  | c :: chunks =>
      let '(ls, rest) := split_lines [] (carry ++ c) in
      printed pattern ls ++ grep_out pattern (if decide (ls = []) then [] else rest) chunks
  end.

(** Every read fits in the buffer behind what is carried over. *)
Fixpoint chunks_ok (carry : list Z) (chunks : list (list Z)) : Prop :=
  match chunks with
  | [] => True
  | c :: chunks =>
      c ≠ [] ∧ Forall (λ b, b ≠ 0) c ∧ (length carry + length c ≤ 1023)%nat ∧
      let '(ls, rest) := split_lines [] (carry ++ c) in
      chunks_ok (if decide (ls = []) then [] else rest) chunks
  end.

Lemma cbytes_app l r : Forall (λ b, b ≠ 0) l → Ulib.cbytes (l ++ 0 :: r) = l.
Proof.
  induction 1 as [|b l Hb Hl IH]; cbn; [done|]. by rewrite (proj2 (Z.eqb_neq b 0) Hb), IH.
Qed.

Lemma split_lines_app cur l text :
  10 ∉ l → split_lines cur (l ++ text) = split_lines (cur ++ l) text.
Proof.
  revert cur; induction l as [|b l IH]; intros cur Hn; cbn; [by rewrite app_nil_r|].
  apply not_elem_of_cons in Hn as [Hb Hn]. rewrite (proj2 (Z.eqb_neq b 10)) by done.
  rewrite IH by done. by rewrite <- app_assoc.
Qed.

Lemma split_lines_none l : 10 ∉ l → split_lines [] l = ([], l).
Proof. intros H. rewrite <- (app_nil_r l) at 1. by rewrite split_lines_app. Qed.

Lemma split_lines_line l text :
  10 ∉ l →
  split_lines [] (l ++ 10 :: text) = (l :: fst (split_lines [] text), snd (split_lines [] text)).
Proof. intros H. by rewrite split_lines_app. Qed.

(** What follows the last newline is a suffix of the text. *)
Lemma split_lines_rest text cur :
  ∃ pre, cur ++ text = pre ++ snd (split_lines cur text) ∧
         (fst (split_lines cur text) = [] → pre = []).
Proof.
  revert cur; induction text as [|c text IH]; intros cur; cbn [split_lines].
  - exists []. by rewrite app_nil_r.
  - destruct (Z.eqb_spec c 10) as [->|Hc].
    + destruct (IH []) as (pre & Hp & _). exists (cur ++ [10] ++ pre). cbn in *.
      split; [|done]. rewrite Hp at 1. by rewrite <- app_assoc.
    + destruct (IH (cur ++ [c])) as (pre & Hp & He). exists pre. split; [|done].
      rewrite <- Hp, <- app_assoc. done.
Qed.

Lemma split_lines_whole t cur l r :
  split_lines cur t = (l, r) → length r = (length cur + length t)%nat → l = [].
Proof.
  revert cur l r; induction t as [|b t IHt]; intros cur l r; cbn; [by intros [= <- <-]|].
  destruct (b =? 10).
  - intros [= <- <-] Hlr. destruct (split_lines_rest t []) as (pre & Hp & _). cbn in Hp.
    apply (f_equal length) in Hp. rewrite length_app in Hp. lia.
  - intros E Hlr. apply (IHt _ _ _ E). rewrite length_app. cbn. lia.
Qed.

(** The buffer once a chunk has been read behind [carry] and terminated. *)
Lemma fill_buffer buf carry c :
  length buf = 1024%nat → (length carry + length c ≤ 1023)%nat →
  ∃ junk, <[(length carry + length c)%nat := 0]> (carry ++ c ++ drop (length carry + length c) buf) =
            (carry ++ c) ++ 0 :: junk ∧
          length junk = (1023 - (length carry + length c))%nat.
Proof.
  intros Hlen Hfit. destruct (drop (length carry + length c) buf) as [|j junk] eqn:E.
  { apply (f_equal length) in E. rewrite length_drop in E. cbn in E. lia. }
  exists junk. split.
  - rewrite app_assoc, <- length_app, <- (Nat.add_0_r (length (carry ++ c))). by rewrite insert_app_r.
  - apply (f_equal length) in E. rewrite length_drop, Hlen in E. cbn in E. lia.
Qed.

Section loop.
  Context {S} `{U : Unix S} (reads : S → list (list Z)) (out : S → list Z).
  Context (L : stream_laws reads out).

(** The lines of [text], which starts at [p] in the buffer and is followed by a
    zero. *)
Lemma grep_lines_eq n pattern buf p text junk s :
  drop p buf = text ++ 0 :: junk → Forall (λ b, b ≠ 0) text → (length text ≤ n)%nat →
  ∃ buf' p' s',
    grep_lines n pattern buf p s = Ok (buf', p') s' ∧
    drop p' buf' = snd (split_lines [] text) ++ 0 :: junk ∧ length buf' = length buf ∧
    (p' + length (snd (split_lines [] text)) = p + length text)%nat ∧
    reads s' = reads s ∧ out s' = out s ++ printed pattern (fst (split_lines [] text)).
Proof using L.
  revert buf p text s; induction n as [|n IH]; intros buf p text s Hd Hz Hn.
  { destruct text; [|cbn in Hn; lia]. cbn. rewrite Hd. cbn. exists buf, p, s.
    unfold printed. cbn. rewrite app_nil_r. done. }
  cbn [grep_lines]. rewrite Hd, cbytes_app by done.
  destruct (Ulib.strchr text 10) as [k|] eqn:Ek; last first.
  { apply strchr_none in Ek. rewrite split_lines_none by done. exists buf, p, s.
    unfold printed. cbn. rewrite app_nil_r. done. }
  apply strchr_some in Ek as (l & rest & -> & <- & Hnl).
  apply Forall_app in Hz as [Hzl [_ Hzr]%Forall_cons].
  rewrite split_lines_line by done. cbn [fst snd].
  assert (Hlen : (p + length l < length buf)%nat).
  { apply (f_equal length) in Hd. rewrite length_drop, !length_app in Hd. cbn in Hd. lia. }
  assert (Hd0 : drop p (<[(p + length l)%nat := 0]> buf) = l ++ 0 :: rest ++ 0 :: junk).
  { rewrite drop_insert_ge by lia. rewrite Hd, <- app_assoc.
    replace (p + length l - p)%nat with (length l + 0)%nat by lia.
    by rewrite insert_app_r. }
  assert (Hd1 : drop (Datatypes.S (p + length l)) buf = rest ++ 0 :: junk).
  { replace (Datatypes.S (p + length l)) with (p + (length l + 1))%nat by lia.
    rewrite <- drop_drop, Hd, <- app_assoc, drop_app_ge by lia.
    by replace (length l + 1 - length l)%nat with 1%nat by lia. }
  rewrite Hd0, cbytes_app by done.
  rewrite length_app in Hn. cbn [length] in Hn.
  assert (Hpr : printed pattern (l :: fst (split_lines [] rest)) =
    (if match_ pattern l then l ++ [10] else []) ++ printed pattern (fst (split_lines [] rest))) by done.
  rewrite Hpr, length_app. cbn [length]. destruct (match_ pattern l) eqn:Em.
  - rewrite list_insert_insert_eq.
    assert (Hb : <[(p + length l)%nat := 10]> buf = buf).
    { apply list_insert_id. rewrite <- (lookup_drop buf p), Hd, <- app_assoc.
      by apply list_lookup_middle. }
    rewrite Hb, Hd, <- app_assoc. replace (p + length l + 1 - p)%nat with (length l + 1)%nat by lia.
    rewrite firstn_app_2. cbn [app firstn].
    destruct (write_out _ _ L s (l ++ [10])) as (s1 & H1 & Hr1 & Ho1).
    rewrite (bind_ok _ _ _ _ _ H1).
    destruct (IH buf (Datatypes.S (p + length l)) rest s1 Hd1 Hzr ltac:(lia))
      as (buf' & p' & s' & H2 & Hd2 & Hl2 & Hp2 & Hr2 & Ho2).
    exists buf', p', s'. rewrite H2, Hr2, Ho2, Hr1, Ho1, <- app_assoc. split_and!; try done. lia.
  - destruct (IH (<[(p + length l)%nat := 0]> buf) (Datatypes.S (p + length l)) rest s)
      as (buf' & p' & s' & H2 & Hd2 & Hl2 & Hp2 & Hr2 & Ho2); [|done|lia|].
    { rewrite drop_insert_lt by lia. done. }
    exists buf', p', s'. rewrite H2, Hl2, length_insert. split_and!; try done. lia.
Qed.

Lemma memmove_down a d p n :
  (d ≤ p)%nat → (p + n ≤ length a)%nat →
  Ulib.memmove a d p n = take d a ++ take n (drop p a) ++ drop (d + n) a.
Proof.
  revert a d p; induction n as [|n IH]; intros a d p Hd Hp; cbn [Ulib.memmove].
  { rewrite Nat.add_0_r, take_0. cbn [app]. by rewrite take_drop. }
  destruct (lookup_lt_is_Some_2 a p ltac:(lia)) as [x Hx]. rewrite Hx. cbn [default].
  rewrite IH by (rewrite ?length_insert; lia).
  rewrite !drop_insert_lt by lia. rewrite (drop_S a x p Hx). cbn [take app].
  rewrite (take_S_r _ _ x) by (apply list_lookup_insert_eq; lia).
  rewrite take_insert_ge, <- app_assoc by lia. cbn [app]. do 4 f_equal. lia.
Qed.

(** The state between two reads: [carry] is at the start of the buffer. *)
Lemma grep_loop_eq fuel pattern buf carry chunks s :
  reads s = chunks → (length chunks ≤ fuel)%nat → chunks_ok carry chunks →
  Forall (λ b, b ≠ 0) carry → length buf = 1024%nat → take (length carry) buf = carry →
  (length carry ≤ 1023)%nat →
  ∃ s', grep_loop fuel pattern 0 buf (length carry) s = Ok tt s' ∧ reads s' = [] ∧
        out s' = out s ++ grep_out pattern carry chunks.
Proof using L.
  revert fuel buf carry s; induction chunks as [|c chunks IH];
    intros fuel buf carry s Hr Hf Hok Hz Hlen Htake Hcar.
  { destruct (read_end _ _ L s (1024 - Z.of_nat (length carry) - 1) Hr) as (s' & H1 & Hr1 & Ho1).
    exists s'. destruct fuel; cbn [grep_loop]; rewrite (bind_ok _ _ _ _ _ H1); cbn.
    all: by rewrite Ho1, app_nil_r. }
  destruct Hok as (Hc & Hzc & Hfit & Hok).
  destruct fuel as [|fuel]; [cbn in Hf; lia|].
  destruct (read_chunk _ _ L s c chunks (1024 - Z.of_nat (length carry) - 1) Hr ltac:(lia))
    as (s1 & H1 & Hr1 & Ho1).
  cbn [grep_loop]. rewrite (bind_ok _ _ _ _ _ H1). cbn beta iota.
  destruct (Z.leb_spec (Z.of_nat (length c)) 0); [destruct c; [done|cbn in *; lia]|].
  rewrite Htake. set (text := carry ++ c).
  destruct (fill_buffer buf carry c Hlen Hfit) as (junk' & -> & Hjl). fold text.
  assert (Hztext : Forall (λ b, b ≠ 0) text) by (by apply Forall_app).
  assert (Htl : length text = (length carry + length c)%nat) by apply length_app.
  destruct (grep_lines_eq 1024 pattern (text ++ 0 :: junk') 0 text junk' s1)
    as (buf' & p' & s2 & H2 & Hd2 & Hl2 & Hp2 & Hr2 & Ho2); [done|done|lia|].
  rewrite (bind_ok _ _ _ _ _ H2). cbn beta iota.
  assert (Hlb' : length buf' = 1024%nat).
  { rewrite Hl2, length_app. cbn. lia. }
  cbn [grep_out]. fold text. fold text in Hok.
  destruct (split_lines_rest text []) as (pre & Hpre & Hnil). cbn in Hpre.
  destruct (split_lines [] text) as [ls rest] eqn:Esp. cbn [fst snd] in *.
  assert (Hrest : Forall (λ b, b ≠ 0) rest).
  { rewrite Hpre in Hztext. by apply Forall_app in Hztext as [_ ?]. }
  assert (Hp' : p' = length pre).
  { rewrite Hpre, length_app in Hp2. lia. }
  destruct (decide (ls = [])) as [Hls|Hls].
  - assert (Hp0 : p' = 0%nat) by (by rewrite Hp', (Hnil Hls)).
    rewrite !(decide_True (P := p' = 0%nat)) by done. rewrite decide_False by lia.
    destruct (IH fuel buf' [] s2) as (s3 & H3 & Hr3 & Ho3); try done; [by rewrite Hr2|cbn in Hf; lia|cbn; lia|].
    exists s3. cbn [length] in H3. rewrite H3, Ho3, Ho2, Ho1, <- app_assoc. done.
  - assert (Hp0 : p' ≠ 0%nat).
    { rewrite Hp'. intros H0. destruct pre; [|done]. cbn in Hpre. apply Hls.
      rewrite <- Hpre in Esp. by apply (split_lines_whole _ _ _ _ Esp). }
    rewrite !(decide_False (P := p' = 0%nat)) by done. rewrite decide_True by lia.
    replace (length carry + length c - p')%nat with (length rest) by lia.
    rewrite memmove_down by lia. rewrite Hd2, take_app_length, take_0. cbn [app].
    destruct (IH fuel (rest ++ drop (0 + length rest) buf') rest s2) as (s3 & H3 & Hr3 & Ho3); try done.
    { by rewrite Hr2. } { cbn in Hf; lia. }
    { rewrite length_app, length_drop. lia. } { by rewrite take_app_length. } { lia. }
    exists s3. rewrite H3, Ho3, Ho2, Ho1, <- app_assoc. done.
Qed.
End loop.

(** C32: what grep prints.  On a system that serves a stream of reads, each
    without zero bytes and fitting in the buffer, the program prints, line by
    line and in order, the lines of its input that match; text behind the last
    newline of a read is kept for the next read, unless the read and what was
    kept before it held no newline at all, in which case it is dropped. *)
Theorem grep_prints {S} `{U : Unix S} reads out (L : stream_laws reads out) pattern chunks (s : S) :
  reads s = chunks → chunks_ok [] chunks →
  ∃ s', grep (length chunks) pattern 0 s = Ok tt s' ∧
        out s' = out s ++ grep_out pattern [] chunks.
Proof.
  intros Hr Hok. unfold grep.
  destruct (grep_loop_eq reads out L (length chunks) pattern (replicate 1024 0) [] chunks s)
    as (s' & H & _ & Ho); try done. { cbn. lia. } by exists s'.
Qed.

(** A line split between two reads is not found whole: the pattern hello, and
    the input hello in two reads; a line read whole is. *)
Lemma grep_prints_witness :
  (∃ s', grep 2 (chars "hello") 0 (mk_stream [chars "hel"; chars "lo" ++ [10]] []) = Ok tt s' ∧
         st_out s' = []) ∧
  (∃ s', grep 1 (chars "h.*o") 0 (mk_stream [chars "hello" ++ [10] ++ chars "x" ++ [10]] []) = Ok tt s' ∧
         st_out s' = chars "hello" ++ [10]).
Proof.
  split.
  - apply (grep_prints st_reads st_out stream_unix_laws (chars "hello")
      [chars "hel"; chars "lo" ++ [10]] (mk_stream [chars "hel"; chars "lo" ++ [10]] [])); [done|].
    cbn. repeat split; try done; try lia; repeat constructor; lia.
  - apply (grep_prints st_reads st_out stream_unix_laws (chars "h.*o")
      [chars "hello" ++ [10] ++ chars "x" ++ [10]]
      (mk_stream [chars "hello" ++ [10] ++ chars "x" ++ [10]] [])); [done|].
    cbn. repeat split; try done; try lia; repeat constructor; lia.
Defined.
