(* ===== verification/Tests.v ===== *)
(** * The test programs: forktest.c, stressfs.c, usertests.c

    Each test against the system-call interface of the file Ulib, as the other
    user programs.  [u_fork] takes what the child does.  The tests of usertests.c
    share the array [buf], of which a child has its own copy: [T] is a program
    that has it beside the system's state.  Loops whose length the system decides
    take the number of turns they may make. *)

From S2P Require Import Prelude Bytes Ulib.

Import Printf.

Definition nl (s : string) : list Z := chars s ++ [10].

(** ** forktest.c *)

Module Forktest.
Section forktest.
  Context {S : Type} `{U : Unix S}.

Definition N : nat := 1000.

(** The program has a [printf] of its own. *)
Definition printf (fd : Z) (s : list Z) : M S unit := u_write fd s ;; mret tt.

(** The loop that forks, up to [k] times more; [n] processes were made. *)
Fixpoint forks (k n : nat) : M S nat :=
  match k with
  | O => mret n
  | Datatypes.S k =>
      pid ← u_fork u_exit;
      if pid <? 0 then mret n else forks k (Datatypes.S n)
  end.

Fixpoint waits (early : M S unit) (n : nat) : M S unit :=
  match n with
  | O => mret tt
  | Datatypes.S n =>
      r ← u_wait;
      if r <? 0 then early else waits early n
  end.

Definition forktest : M S unit :=
  printf 1 (nl "fork test") ;;
  n ← forks N 0;
  (if decide (n = N) then printf 1 (nl "fork claimed to work N times!") ;; u_exit else mret tt) ;;
  waits (printf 1 (nl "wait stopped early") ;; u_exit) n ;;
  r ← u_wait;
  (if negb (r =? -1) then printf 1 (nl "wait got too many") ;; u_exit else mret tt) ;;
  printf 1 (nl "fork test OK").

Definition main : M S unit :=
  forktest ;;
  u_exit.
End forktest.
End Forktest.

(** ** stressfs.c *)

Module Stressfs.
Section stressfs.
  Context {S : Type} `{U : Unix S}.

Fixpoint times (k : nat) (m : M S unit) : M S unit :=
  match k with O => mret tt | Datatypes.S k => m ;; times k m end.

(** What follows the loop that forks, which ended with [i]. *)
Definition rest (i : Z) : M S unit :=
  let path := chars "stressfs" ++ [48 + i] in
  let data := replicate 512 97 in
  printf 1 (nl "write %d") [AInt i] ;;
  fd ← u_open path (Z.lor 0x200 0x002);
  times 20 (u_write fd data ;; mret tt) ;;
  u_close fd ;;
  printf 1 (nl "read") [] ;;
  fd ← u_open path 0;
  times 20 (u_read fd 512 ;; mret tt) ;;
  u_close fd ;;
  u_wait ;;
  u_exit.

(** [for(i = 0; i < 4; i++) if(fork() > 0) break;], [k] turns before its end; the
    child goes on with the next turn. *)
Fixpoint forks (k : nat) (i : Z) : M S unit :=
  match k with
  | O => rest i
  | Datatypes.S k =>
      pid ← u_fork (forks k (i + 1));
      if pid >? 0 then rest i else forks k (i + 1)
  end.

Definition main : M S unit :=
  printf 1 (nl "stressfs starting") [] ;;
  forks 4 0.
End stressfs.
End Stressfs.

(** ** usertests.c *)

Module Usertests.

Definition O_RDONLY : Z := 0x000.
Definition O_WRONLY : Z := 0x001.
Definition O_RDWR : Z := 0x002.
Definition O_CREATE : Z := 0x200.
Definition MAXFILE : Z := 12 + 512 / 4.
Definition MAXARG : nat := 32.

Section usertests.
  Context {S : Type} `{U : Unix S}.

(** *** Programs with [buf] *)

Definition T (A : Type) : Type := M (S * list Z) A.

Definition sys {A} (m : M S A) : T A := λ s,
  match m s.1 with
  | Ok a s' => Ok a (s', s.2)
  | Stop r s' => Stop r (s', s.2)
  end.

Definition exit {A} : T A := sys u_exit.

Definition fork (child : T unit) : T Z := λ s,
  sys (u_fork (λ s0,
    match child (s0, s.2) with
    | Ok a s' => Ok a s'.1
    | Stop r s' => Stop r s'.1
    end)) s.

Definition buf : T (list Z) := mgets snd.
Definition set_buf (b : list Z) : T unit := mmod (λ s, (s.1, b)).
Definition say (s : list Z) (ap : list arg) : T unit := sys (printf 1 s ap).
Definition open (path : string) (mode : Z) : T Z := sys (u_open (chars path) mode).
Definition close (fd : Z) : T unit := sys (u_close fd) ;; mret tt.
Definition unlink (path : string) : T Z := sys (u_unlink (chars path)).
Definition mkdir (path : string) : T Z := sys (u_mkdir (chars path)).
Definition chdir (path : string) : T Z := sys (u_chdir (chars path)).
Definition link (old new : string) : T Z := sys (u_link (chars old) (chars new)).
Definition wait : T Z := sys u_wait.

(** [write(fd, s, strlen(s))], [write(fd, buf, n)] and [read(fd, buf, n)]. *)
Definition write (fd : Z) (s : list Z) : T Z := sys (u_write fd s).
Definition write_buf (fd n : Z) : T Z := b ← buf; write fd (take (Z.to_nat n) b).
Definition read_buf (fd n : Z) : T Z :=
  '(r, l) ← sys (u_read fd n);
  b ← buf;
  set_buf (splice 0 l b) ;;
  mret r.
Definition memset_buf (c : Z) (n : nat) : T unit := b ← buf; set_buf (splice 0 (replicate n c) b).

Definition when (c : bool) (m : T unit) : T unit := if c then m else mret tt.

(** [for(i = 0; i < n; i++) body] *)
Definition for_ (n : nat) (body : Z → T unit) : T unit := iterM body (Z.of_nat <$> seq 0 n).

Definition failexit (msg : string) : T unit :=
  say (nl "!! FAILED %s") [AStr (Some (chars msg))] ;;
  exit.

(** *** The tests *)

Definition iputtest : T unit :=
  say (nl "iput test") [] ;;
  r ← mkdir "iputdir";
  when (r <? 0) (failexit "mkdir") ;;
  r ← chdir "iputdir";
  when (r <? 0) (failexit "chdir iputdir") ;;
  r ← unlink "../iputdir";
  when (r <? 0) (failexit "unlink ../iputdir") ;;
  r ← chdir "/";
  when (r <? 0) (failexit "chdir /") ;;
  say (nl "iput test ok") [].

Definition exitiputtest : T unit :=
  say (nl "exitiput test") [] ;;
  pid ← fork (
    r ← mkdir "iputdir";
    when (r <? 0) (failexit "mkdir") ;;
    r ← chdir "iputdir";
    when (r <? 0) (failexit "child chdir") ;;
    r ← unlink "../iputdir";
    when (r <? 0) (failexit "unlink ../iputdir") ;;
    exit);
  when (pid <? 0) (failexit "fork") ;;
  wait ;;
  say (nl "exitiput test ok") [].

Definition openiputtest : T unit :=
  say (nl "openiput test") [] ;;
  r ← mkdir "oidir";
  when (r <? 0) (failexit "mkdir oidir") ;;
  pid ← fork (
    fd ← open "oidir" O_RDWR;
    when (fd >=? 0) (failexit "open directory for write succeeded") ;;
    exit);
  when (pid <? 0) (failexit "fork") ;;
  sys (u_sleep 1) ;;
  r ← unlink "oidir";
  when (negb (r =? 0)) (failexit "unlink") ;;
  wait ;;
  say (nl "openiput test ok") [].

Definition opentest : T unit :=
  say (nl "open test") [] ;;
  fd ← open "echo" 0;
  when (fd <? 0) (failexit "open echo") ;;
  close fd ;;
  fd ← open "doesnotexist" 0;
  when (fd >=? 0) (failexit "open doesnotexist succeeded!") ;;
  say (nl "open test ok") [].

Definition writetest : T unit :=
  say (nl "small file test") [] ;;
  fd ← open "small" (Z.lor O_CREATE O_RDWR);
  when (fd <? 0) (failexit "error: creat small") ;;
  for_ 100 (λ i,
    r ← write fd (chars "aaaaaaaaaa");
    when (negb (r =? 10)) (say (nl "error: write aa %d new file failed") [AInt i] ;; exit) ;;
    r ← write fd (chars "bbbbbbbbbb");
    when (negb (r =? 10)) (say (nl "error: write bb %d new file failed") [AInt i] ;; exit)) ;;
  close fd ;;
  fd ← open "small" O_RDONLY;
  when (fd <? 0) (failexit "error: open small") ;;
  i ← read_buf fd 2000;
  when (negb (i =? 2000)) (failexit "read") ;;
  close fd ;;
  r ← unlink "small";
  when (r <? 0) (failexit "unlink small" ;; exit) ;;
  say (nl "small file test ok") [].

(** [((int* )buf)[0]]. *)
Definition buf_int : T Z := b ← buf; mret (s32 (get 4 0 b)).
Definition set_buf_int (v : Z) : T unit := b ← buf; set_buf (put 4 0 v b).

(** The loop that reads the blocks back, [n] of them read so far. *)
Fixpoint read_blocks (fuel : nat) (fd n : Z) : T unit :=
  i ← read_buf fd 512;
  if i =? 0 then
    when (n =? MAXFILE - 1) (say (chars "read only %d blocks from big. failed") [AInt n] ;; exit)
  else
    when (negb (i =? 512)) (say (nl "read failed %d") [AInt i] ;; exit) ;;
    v ← buf_int;
    when (negb (v =? n)) (say (nl "read content of block %d is %d. failed") [AInt n; AInt v] ;; exit) ;;
    match fuel with
    | O => mstop OutOfFuel
    | Datatypes.S fuel => read_blocks fuel fd (n + 1)
    end.

Definition writetest1 (fuel : nat) : T unit :=
  say (nl "big files test") [] ;;
  fd ← open "big" (Z.lor O_CREATE O_RDWR);
  when (fd <? 0) (failexit "error: creat big") ;;
  for_ (Z.to_nat MAXFILE) (λ i,
    set_buf_int i ;;
    r ← write_buf fd 512;
    when (negb (r =? 512)) (failexit "error: write big file")) ;;
  close fd ;;
  fd ← open "big" O_RDONLY;
  when (fd <? 0) (failexit "error: open big") ;;
  read_blocks fuel fd 0 ;;
  close fd ;;
  r ← unlink "big";
  when (r <? 0) (failexit "unlink big" ;; exit) ;;
  say (nl "big files ok") [].

Definition openn (path : list Z) (mode : Z) : T Z := sys (u_open path mode).
Definition unlinkn (path : list Z) : T Z := sys (u_unlink path).
Definition linkn (old new : list Z) : T Z := sys (u_link old new).

Definition createtest : T unit :=
  say (nl "many creates, followed by unlink test") [] ;;
  for_ 52 (λ i, fd ← openn [97; 48 + i] (Z.lor O_CREATE O_RDWR); close fd) ;;
  for_ 52 (λ i, unlinkn [97; 48 + i] ;; mret tt) ;;
  for_ 52 (λ i,
    fd ← openn [97; 48 + i] O_RDWR;
    when (fd >=? 0) (failexit "open should fail.")) ;;
  say (nl "many creates, followed by unlink; ok") [].

Definition dirtest : T unit :=
  say (nl "mkdir test") [] ;;
  r ← mkdir "dir0";
  when (r <? 0) (failexit "mkdir") ;;
  r ← chdir "dir0";
  when (r <? 0) (failexit "chdir dir0") ;;
  r ← chdir "..";
  when (r <? 0) (failexit "chdir ..") ;;
  r ← unlink "dir0";
  when (r <? 0) (failexit "unlink dir0") ;;
  say (nl "mkdir test ok") [].

Definition echoargv : list (list Z) := [chars "echo"; chars "ALL"; chars "TESTS"; chars "PASSED"].

Definition exectest : T unit :=
  say (nl "exec test") [] ;;
  r ← sys (u_exec (chars "echo") echoargv);
  when (r <? 0) (failexit "exec echo") ;;
  say (nl "exec test ok") [].

(** The child of [pipe1]: [for(i = 0; i < 1033; i++) buf[i] = seq++;]. *)
Definition pipe1_write (fd1 n : Z) : T unit :=
  b ← buf;
  set_buf (splice 0 ((λ i, u8 (n * 1033 + Z.of_nat i)) <$> seq 0 1033) b) ;;
  r ← write_buf fd1 1033;
  when (negb (r =? 1033)) (failexit "pipe1 oops 1").

(** [buf[i] & 0xff != seq++ & 0xff] for some of the bytes [l]. *)
Fixpoint out_of_seq (l : list Z) (seq : Z) : bool :=
  match l with
  | [] => false
  | c :: l => negb (Z.land c 0xff =? Z.land seq 0xff) || out_of_seq l (seq + 1)
  end.

Fixpoint pipe1_read (fuel : nat) (fd0 cc total : Z) : T Z :=
  n ← read_buf fd0 cc;
  if n >? 0 then
    b ← buf;
    when (out_of_seq (take (Z.to_nat n) b) total) (failexit "pipe1 oops 2") ;;
    let cc := if cc * 2 >? 8192 then 8192 else cc * 2 in
    match fuel with
    | O => mstop OutOfFuel
    | Datatypes.S fuel => pipe1_read fuel fd0 cc (total + n)
    end
  else mret total.

Definition pipe1 (fuel : nat) : T unit :=
  '(r, fd0, fd1) ← sys u_pipe;
  when (negb (r =? 0)) (failexit "pipe()") ;;
  pid ← fork (
    close fd0 ;;
    for_ 5 (pipe1_write fd1) ;;
    exit);
  (if pid >? 0 then
     close fd1 ;;
     total ← pipe1_read fuel fd0 1 0;
     when (negb (total =? 5 * 1033)) (say (nl "pipe1 oops 3 total %d") [AInt total] ;; exit) ;;
     close fd0 ;;
     wait ;;
     mret tt
   else failexit "fork()") ;;
  say (nl "pipe1 ok") [].

(** An endless loop makes more turns than any number. *)
Definition spin : T unit := mstop OutOfFuel.

Definition preempt : T unit :=
  say (chars "preempt: ") [] ;;
  pid1 ← fork spin;
  pid2 ← fork spin;
  '(_, pfd0, pfd1) ← sys u_pipe;
  pid3 ← fork (
    close pfd0 ;;
    r ← write pfd1 (chars "x");
    when (negb (r =? 1)) (say (chars "preempt write error") []) ;;
    close pfd1 ;;
    spin);
  close pfd1 ;;
  r ← read_buf pfd0 8192;
  if negb (r =? 1) then say (chars "preempt read error") []
  else
    close pfd0 ;;
    say (chars "kill... ") [] ;;
    sys (u_kill pid1) ;;
    sys (u_kill pid2) ;;
    sys (u_kill pid3) ;;
    say (chars "wait... ") [] ;;
    wait ;;
    wait ;;
    wait ;;
    say (nl "preempt ok") [].

(** [k] turns of the loop of [exitwait] and what follows it. *)
Fixpoint exitwait_loop (k : nat) : T unit :=
  match k with
  | O => say (nl "exitwait ok") []
  | Datatypes.S k =>
      pid ← fork exit;
      if pid <? 0 then say (chars "fork") []
      else
        r ← wait;
        if negb (r =? pid) then say (nl "wait wrong pid") []
        else exitwait_loop k
  end.
Definition exitwait : T unit := exitwait_loop 100.

(** [c] ten times, [k] times, or until a write fails. *)
Fixpoint share_writes (k : nat) (fd c : Z) : T unit :=
  match k with
  | O => mret tt
  | Datatypes.S k =>
      r ← write fd (replicate 10 c);
      if negb (r =? 10) then say (nl "fstests: write sharedfd failed") []
      else share_writes k fd c
  end.

Definition count (c : Z) (b : list Z) : Z := Z.of_nat (length (filter (λ x, x = c) b)).

(** The loop that counts, in the ten bytes of the array [b]. *)
Fixpoint share_counts (fuel : nat) (fd : Z) (b : list Z) (nc np : Z) : T (Z * Z) :=
  '(n, l) ← sys (u_read fd 10);
  if n >? 0 then
    let b := splice 0 l b in
    match fuel with
    | O => mstop OutOfFuel
    | Datatypes.S fuel => share_counts fuel fd b (nc + count 99 b) (np + count 112 b)
    end
  else mret (nc, np).

Definition sharedfd (fuel : nat) : T unit :=
  say (nl "sharedfd test") [] ;;
  unlink "sharedfd" ;;
  fd ← open "sharedfd" (Z.lor O_CREATE O_RDWR);
  if fd <? 0 then say (chars "fstests: cannot open sharedfd for writing") []
  else
    fork (share_writes 1000 fd 99 ;; exit) ;;
    share_writes 1000 fd 112 ;;
    wait ;;
    close fd ;;
    fd ← open "sharedfd" 0;
    if fd <? 0 then say (nl "fstests: cannot open sharedfd for reading") []
    else
      '(nc, np) ← share_counts fuel fd (replicate 10 112) 0 0;
      close fd ;;
      unlink "sharedfd" ;;
      if (nc =? 10000) && (np =? 10000) then say (nl "sharedfd ok") []
      else say (nl "sharedfd oops %d %d") [AInt nc; AInt np] ;; exit.

Definition fname (pi : Z) : list Z := [102; 48 + pi].

(** [while((n = read(fd, buf, sizeof(buf))) > 0)] of [fourfiles]. *)
Fixpoint four_read (fuel : nat) (fd c total : Z) : T Z :=
  n ← read_buf fd 8192;
  if n >? 0 then
    b ← buf;
    when (negb (forallb (λ x, x =? c) (take (Z.to_nat n) b))) (failexit "wrong char") ;;
    match fuel with
    | O => mstop OutOfFuel
    | Datatypes.S fuel => four_read fuel fd c (total + n)
    end
  else mret total.

Definition fourfiles (fuel : nat) : T unit :=
  say (nl "fourfiles test") [] ;;
  for_ 4 (λ pi,
    unlinkn (fname pi) ;;
    pid ← fork (
      fd ← openn (fname pi) (Z.lor O_CREATE O_RDWR);
      when (fd <? 0) (failexit "create") ;;
      memset_buf (48 + pi) 512 ;;
      for_ 12 (λ _,
        n ← write_buf fd 500;
        when (negb (n =? 500)) (say (nl "write failed %d") [AInt n] ;; exit)) ;;
      exit);
    when (pid <? 0) (failexit "fork")) ;;
  for_ 4 (λ _, wait ;; mret tt) ;;
  for_ 2 (λ i,
    fd ← openn (fname i) 0;
    total ← four_read fuel fd (48 + i) 0;
    close fd ;;
    when (negb (total =? 12 * 500)) (say (nl "wrong length %d") [AInt total] ;; exit) ;;
    unlinkn (fname i) ;;
    mret tt) ;;
  say (nl "fourfiles ok") [].

Definition createdelete : T unit :=
  say (nl "createdelete test") [] ;;
  for_ 4 (λ pi,
    pid ← fork (
      for_ 20 (λ i,
        fd ← openn [112 + pi; 48 + i] (Z.lor O_CREATE O_RDWR);
        when (fd <? 0) (failexit "create") ;;
        close fd ;;
        when ((i >? 0) && (i mod 2 =? 0)) (
          r ← unlinkn [112 + pi; 48 + i / 2];
          when (r <? 0) (failexit "unlink"))) ;;
      exit);
    when (pid <? 0) (failexit "fork")) ;;
  for_ 4 (λ _, wait ;; mret tt) ;;
  for_ 20 (λ i, for_ 4 (λ pi,
    let name := [112 + pi; 48 + i] in
    fd ← openn name 0;
    (if ((i =? 0) || (i >=? 20 / 2)) && (fd <? 0) then
       say (nl "oops createdelete %s didn't exist") [AStr (Some name)] ;; exit
     else when ((i >=? 1) && (i <? 20 / 2) && (fd >=? 0))
       (say (nl "oops createdelete %s did exist") [AStr (Some name)] ;; exit)) ;;
    when (fd >=? 0) (close fd))) ;;
  for_ 20 (λ i, for_ 4 (λ _, unlinkn [112 + i; 48 + i] ;; mret tt)) ;;
  say (nl "createdelete ok") [].

Definition unlinkread : T unit :=
  say (nl "unlinkread test") [] ;;
  fd ← open "unlinkread" (Z.lor O_CREATE O_RDWR);
  when (fd <? 0) (failexit "create unlinkread") ;;
  write fd (chars "hello") ;;
  close fd ;;
  fd ← open "unlinkread" O_RDWR;
  when (fd <? 0) (failexit "open unlinkread") ;;
  r ← unlink "unlinkread";
  when (negb (r =? 0)) (failexit "unlink unlinkread") ;;
  fd1 ← open "unlinkread" (Z.lor O_CREATE O_RDWR);
  write fd1 (chars "yyy") ;;
  close fd1 ;;
  r ← read_buf fd 8192;
  when (negb (r =? 5)) (failexit "unlinkread read failed") ;;
  b ← buf;
  when (negb (default 0 (b !! 0%nat) =? 104)) (failexit "unlinkread wrong data") ;;
  r ← write_buf fd 10;
  when (negb (r =? 10)) (failexit "unlinkread write") ;;
  close fd ;;
  unlink "unlinkread" ;;
  say (nl "unlinkread ok") [].

Definition linktest : T unit :=
  say (nl "linktest") [] ;;
  unlink "lf1" ;;
  unlink "lf2" ;;
  fd ← open "lf1" (Z.lor O_CREATE O_RDWR);
  when (fd <? 0) (failexit "create lf1") ;;
  r ← write fd (chars "hello");
  when (negb (r =? 5)) (failexit "write lf1") ;;
  close fd ;;
  r ← link "lf1" "lf2";
  when (r <? 0) (failexit "link lf1 lf2") ;;
  unlink "lf1" ;;
  fd ← open "lf1" 0;
  when (fd >=? 0) (failexit "unlinked lf1 but it is still there!") ;;
  fd ← open "lf2" 0;
  when (fd <? 0) (failexit "open lf2") ;;
  r ← read_buf fd 8192;
  when (negb (r =? 5)) (failexit "read lf2") ;;
  close fd ;;
  r ← link "lf2" "lf2";
  when (r >=? 0) (failexit "link lf2 lf2 succeeded! oops") ;;
  unlink "lf2" ;;
  r ← link "lf2" "lf1";
  when (r >=? 0) (failexit "link non-existant succeeded! oops") ;;
  r ← link "." "lf1";
  when (r >=? 0) (failexit "link . lf1 succeeded! oops") ;;
  say (nl "linktest ok") [].

(** The turn of [concreate]'s first loop, where [pid] is what [fork] returned. *)
Definition concreate_make (i pid : Z) : T unit :=
  let file := [67; 48 + i] in
  if (negb (pid =? 0) && (i mod 3 =? 1)) || ((pid =? 0) && (i mod 5 =? 1)) then
    linkn (chars "C0") file ;; mret tt
  else
    fd ← openn file (Z.lor O_CREATE O_RDWR);
    when (fd <? 0) (say (nl "concreate create %s failed") [AStr (Some file)] ;; exit) ;;
    close fd.

(** The loop over the directory: [de] is the entry read, [fa] has the files
    seen, [n] counts them. *)
Fixpoint concreate_list (fuel : nat) (fd : Z) (de fa : list Z) (n : Z) : T Z :=
  '(r, l) ← sys (u_read fd 16);
  if r >? 0 then
    let de := splice 0 l de in
    let name := drop 2 de in
    match fuel with
    | O => mstop OutOfFuel
    | Datatypes.S fuel =>
        if get 2 0 de =? 0 then concreate_list fuel fd de fa n
        else if (default 0 (name !! 0%nat) =? 67) && (default 0 (name !! 2%nat) =? 0) then
          let i := s8 (default 0 (name !! 1%nat)) - 48 in
          when ((i <? 0) || (i >=? 40)) (say (nl "concreate weird file %s") [AStr (Some (Ulib.cbytes name))] ;; exit) ;;
          when (negb (default 0 (fa !! Z.to_nat i) =? 0)) (say (nl "concreate duplicate file %s") [AStr (Some (Ulib.cbytes name))] ;; exit) ;;
          concreate_list fuel fd de (<[Z.to_nat i := 1]> fa) (n + 1)
        else concreate_list fuel fd de fa n
    end
  else mret n.

(** The turn of the last loop. *)
Definition concreate_use (i pid : Z) : T unit :=
  let file := [67; 48 + i] in
  if ((i mod 3 =? 0) && (pid =? 0)) || ((i mod 3 =? 1) && negb (pid =? 0)) then
    for_ 4 (λ _, fd ← openn file 0; close fd)
  else
    for_ 4 (λ _, unlinkn file ;; mret tt).

Definition concreate (fuel : nat) : T unit :=
  say (nl "concreate test") [] ;;
  for_ 40 (λ i,
    unlinkn [67; 48 + i] ;;
    pid ← fork (concreate_make i 0 ;; exit);
    concreate_make i pid ;;
    wait ;;
    mret tt) ;;
  fd ← open "." 0;
  n ← concreate_list fuel fd (replicate 16 0) (replicate 40 0) 0;
  close fd ;;
  when (negb (n =? 40)) (failexit "concreate not enough files in directory listing") ;;
  for_ 40 (λ i,
    pid ← fork (concreate_use i 0 ;; exit);
    when (pid <? 0) (failexit "fork") ;;
    concreate_use i pid ;;
    wait ;;
    mret tt) ;;
  say (nl "concreate ok") [].

(** [k] turns of the loop of [linkunlink]. *)
Fixpoint linkunlink_loop (k : nat) (x : Z) : T unit :=
  match k with
  | O => mret tt
  | Datatypes.S k =>
      let x := u32 (x * 1103515245 + 12345) in
      (if x mod 3 =? 0 then fd ← open "x" (Z.lor O_RDWR O_CREATE); close fd
       else if x mod 3 =? 1 then link "cat" "x" ;; mret tt
       else unlink "x" ;; mret tt) ;;
      linkunlink_loop k x
  end.

Definition linkunlink : T unit :=
  say (nl "linkunlink test") [] ;;
  unlink "x" ;;
  pid ← fork (linkunlink_loop 100 97 ;; exit);
  when (pid <? 0) (failexit "fork") ;;
  linkunlink_loop 100 1 ;;
  wait ;;
  say (nl "linkunlink ok") [].

Definition bigdir_name (i : Z) : list Z := [120; 48 + i / 64; 48 + i mod 64].

Definition bigdir : T unit :=
  say (nl "bigdir test") [] ;;
  unlink "bd" ;;
  fd ← open "bd" O_CREATE;
  when (fd <? 0) (failexit "bigdir create") ;;
  close fd ;;
  for_ 500 (λ i,
    r ← linkn (chars "bd") (bigdir_name i);
    when (negb (r =? 0)) (failexit "bigdir link")) ;;
  unlink "bd" ;;
  for_ 500 (λ i,
    r ← unlinkn (bigdir_name i);
    when (negb (r =? 0)) (failexit "bigdir unlink failed")) ;;
  say (nl "bigdir ok") [].

Definition subdir : T unit :=
  say (nl "subdir test") [] ;;
  unlink "ff" ;;
  r ← mkdir "dd";
  when (negb (r =? 0)) (failexit "subdir mkdir dd") ;;
  fd ← open "dd/ff" (Z.lor O_CREATE O_RDWR);
  when (fd <? 0) (failexit "create dd/ff") ;;
  write fd (chars "ff") ;;
  close fd ;;
  r ← unlink "dd";
  when (r >=? 0) (failexit "unlink dd (non-empty dir) succeeded!") ;;
  r ← mkdir "/dd/dd";
  when (negb (r =? 0)) (failexit "subdir mkdir dd/dd") ;;
  fd ← open "dd/dd/ff" (Z.lor O_CREATE O_RDWR);
  when (fd <? 0) (failexit "create dd/dd/ff") ;;
  write fd (chars "FF") ;;
  close fd ;;
  fd ← open "dd/dd/../ff" 0;
  when (fd <? 0) (failexit "open dd/dd/../ff") ;;
  cc ← read_buf fd 8192;
  b ← buf;
  when (negb (cc =? 2) || negb (default 0 (b !! 0%nat) =? 102)) (failexit "dd/dd/../ff wrong content") ;;
  close fd ;;
  r ← link "dd/dd/ff" "dd/dd/ffff";
  when (negb (r =? 0)) (failexit "link dd/dd/ff dd/dd/ffff") ;;
  r ← unlink "dd/dd/ff";
  when (negb (r =? 0)) (failexit "unlink dd/dd/ff") ;;
  r ← open "dd/dd/ff" O_RDONLY;
  when (r >=? 0) (failexit "open (unlinked) dd/dd/ff succeeded") ;;
  r ← chdir "dd";
  when (negb (r =? 0)) (failexit "chdir dd") ;;
  r ← chdir "dd/../../dd";
  when (negb (r =? 0)) (failexit "chdir dd/../../dd") ;;
  r ← chdir "dd/../../../dd";
  when (negb (r =? 0)) (failexit "chdir dd/../../dd") ;;
  r ← chdir "./..";
  when (negb (r =? 0)) (failexit "chdir ./..") ;;
  fd ← open "dd/dd/ffff" 0;
  when (fd <? 0) (failexit "open dd/dd/ffff") ;;
  r ← read_buf fd 8192;
  when (negb (r =? 2)) (failexit "read dd/dd/ffff wrong len") ;;
  close fd ;;
  r ← open "dd/dd/ff" O_RDONLY;
  when (r >=? 0) (failexit "open (unlinked) dd/dd/ff succeeded") ;;
  r ← open "dd/ff/ff" (Z.lor O_CREATE O_RDWR);
  when (r >=? 0) (failexit "create dd/ff/ff succeeded") ;;
  r ← open "dd/xx/ff" (Z.lor O_CREATE O_RDWR);
  when (r >=? 0) (failexit "create dd/xx/ff succeeded") ;;
  r ← open "dd" O_CREATE;
  when (r >=? 0) (failexit "create dd succeeded") ;;
  r ← open "dd" O_RDWR;
  when (r >=? 0) (failexit "open dd rdwr succeeded") ;;
  r ← open "dd" O_WRONLY;
  when (r >=? 0) (failexit "open dd wronly succeeded") ;;
  r ← link "dd/ff/ff" "dd/dd/xx";
  when (r =? 0) (failexit "link dd/ff/ff dd/dd/xx succeeded") ;;
  r ← link "dd/xx/ff" "dd/dd/xx";
  when (r =? 0) (failexit "link dd/xx/ff dd/dd/xx succeededn") ;;
  r ← link "dd/ff" "dd/dd/ffff";
  when (r =? 0) (failexit "link dd/ff dd/dd/ffff succeeded") ;;
  r ← mkdir "dd/ff/ff";
  when (r =? 0) (failexit "mkdir dd/ff/ff succeeded") ;;
  r ← mkdir "dd/xx/ff";
  when (r =? 0) (failexit "mkdir dd/xx/ff succeeded") ;;
  r ← mkdir "dd/dd/ffff";
  when (r =? 0) (failexit "mkdir dd/dd/ffff succeeded") ;;
  r ← unlink "dd/xx/ff";
  when (r =? 0) (failexit "unlink dd/xx/ff succeeded") ;;
  r ← unlink "dd/ff/ff";
  when (r =? 0) (failexit "unlink dd/ff/ff succeeded") ;;
  r ← chdir "dd/ff";
  when (r =? 0) (failexit "chdir dd/ff succeeded") ;;
  r ← chdir "dd/xx";
  when (r =? 0) (failexit "chdir dd/xx succeeded") ;;
  r ← unlink "dd/dd/ffff";
  when (negb (r =? 0)) (failexit "unlink dd/dd/ff") ;;
  r ← unlink "dd/ff";
  when (negb (r =? 0)) (failexit "unlink dd/ff") ;;
  r ← unlink "dd";
  when (r =? 0) (failexit "unlink non-empty dd succeeded") ;;
  r ← unlink "dd/dd";
  when (r <? 0) (failexit "unlink dd/dd") ;;
  r ← unlink "dd";
  when (r <? 0) (failexit "unlink dd") ;;
  say (nl "subdir ok") [].

(** [for(sz = 499; sz < 12*512; sz += 471)] makes 12 turns. *)
Definition bigwrite : T unit :=
  say (nl "bigwrite test") [] ;;
  unlink "bigwrite" ;;
  for_ 12 (λ k,
    let sz := 499 + 471 * k in
    fd ← open "bigwrite" (Z.lor O_CREATE O_RDWR);
    when (fd <? 0) (failexit "cannot create bigwrite") ;;
    for_ 2 (λ _,
      cc ← write_buf fd sz;
      when (negb (cc =? sz)) (say (nl "write(%d) ret %d") [AInt sz; AInt cc] ;; exit)) ;;
    close fd ;;
    unlink "bigwrite" ;;
    mret tt) ;;
  say (nl "bigwrite ok") [].

Fixpoint bigfile_read (fuel : nat) (fd i total : Z) : T Z :=
  cc ← read_buf fd 300;
  when (cc <? 0) (failexit "read bigfile") ;;
  if cc =? 0 then mret total
  else
    when (negb (cc =? 300)) (failexit "short read bigfile") ;;
    b ← buf;
    when (negb (default 0 (b !! 0%nat) =? i / 2) || negb (default 0 (b !! 299%nat) =? i / 2)) (failexit "read bigfile wrong data") ;;
    match fuel with
    | O => mstop OutOfFuel
    | Datatypes.S fuel => bigfile_read fuel fd (i + 1) (total + cc)
    end.

Definition bigfile (fuel : nat) : T unit :=
  say (nl "bigfile test") [] ;;
  unlink "bigfile" ;;
  fd ← open "bigfile" (Z.lor O_CREATE O_RDWR);
  when (fd <? 0) (failexit "cannot create bigfile") ;;
  for_ 20 (λ i,
    memset_buf i 600 ;;
    r ← write_buf fd 600;
    when (negb (r =? 600)) (failexit "write bigfile")) ;;
  close fd ;;
  fd ← open "bigfile" 0;
  when (fd <? 0) (failexit "cannot open bigfile") ;;
  total ← bigfile_read fuel fd 0 0;
  close fd ;;
  when (negb (total =? 20 * 600)) (failexit "read bigfile wrong total") ;;
  unlink "bigfile" ;;
  say (nl "bigfile test ok") [].

Definition fourteen : T unit :=
  say (nl "fourteen test") [] ;;
  r ← mkdir "12345678901234";
  when (negb (r =? 0)) (failexit "mkdir 12345678901234") ;;
  r ← mkdir "12345678901234/123456789012345";
  when (negb (r =? 0)) (failexit "mkdir 12345678901234/123456789012345") ;;
  fd ← open "123456789012345/123456789012345/123456789012345" O_CREATE;
  when (fd <? 0) (failexit "create 123456789012345/123456789012345/123456789012345") ;;
  close fd ;;
  fd ← open "12345678901234/12345678901234/12345678901234" 0;
  when (fd <? 0) (failexit "open 12345678901234/12345678901234/12345678901234") ;;
  close fd ;;
  r ← mkdir "12345678901234/12345678901234";
  when (r =? 0) (failexit "mkdir 12345678901234/12345678901234 succeeded") ;;
  r ← mkdir "123456789012345/12345678901234";
  when (r =? 0) (failexit "mkdir 12345678901234/123456789012345 succeeded") ;;
  say (nl "fourteen ok") [].

Definition rmdot : T unit :=
  say (nl "rmdot test") [] ;;
  r ← mkdir "dots";
  when (negb (r =? 0)) (failexit "mkdir dots") ;;
  r ← chdir "dots";
  when (negb (r =? 0)) (failexit "chdir dots") ;;
  r ← unlink ".";
  when (r =? 0) (failexit "rm . worked") ;;
  r ← unlink "..";
  when (r =? 0) (failexit "rm .. worked") ;;
  r ← chdir "/";
  when (negb (r =? 0)) (failexit "chdir /") ;;
  r ← unlink "dots/.";
  when (r =? 0) (failexit "unlink dots/. worked") ;;
  r ← unlink "dots/..";
  when (r =? 0) (failexit "unlink dots/.. worked") ;;
  r ← unlink "dots";
  when (negb (r =? 0)) (failexit "unlink dots") ;;
  say (nl "rmdot ok") [].

Definition dirfile : T unit :=
  say (nl "dir vs file") [] ;;
  fd ← open "dirfile" O_CREATE;
  when (fd <? 0) (failexit "create dirfile") ;;
  close fd ;;
  r ← chdir "dirfile";
  when (r =? 0) (failexit "chdir dirfile succeeded") ;;
  fd ← open "dirfile/xx" 0;
  when (fd >=? 0) (failexit "create dirfile/xx succeeded") ;;
  fd ← open "dirfile/xx" O_CREATE;
  when (fd >=? 0) (failexit "create dirfile/xx succeeded") ;;
  r ← mkdir "dirfile/xx";
  when (r =? 0) (failexit "mkdir dirfile/xx succeeded") ;;
  r ← unlink "dirfile/xx";
  when (r =? 0) (failexit "unlink dirfile/xx succeeded") ;;
  r ← link "README" "dirfile/xx";
  when (r =? 0) (failexit "link to dirfile/xx succeeded") ;;
  r ← unlink "dirfile";
  when (negb (r =? 0)) (failexit "unlink dirfile") ;;
  fd ← open "." O_RDWR;
  when (fd >=? 0) (failexit "open . for writing succeeded") ;;
  fd ← open "." 0;
  r ← write fd (chars "x");
  when (r >? 0) (failexit "write . succeeded") ;;
  close fd ;;
  say (nl "dir vs file OK") [].

Definition iref : T unit :=
  say (nl "empty file name") [] ;;
  for_ 51 (λ _,
    r ← mkdir "irefd";
    when (negb (r =? 0)) (failexit "mkdir irefd") ;;
    r ← chdir "irefd";
    when (negb (r =? 0)) (failexit "chdir irefd") ;;
    mkdir EmptyString ;;
    link "README" EmptyString ;;
    fd ← open EmptyString O_CREATE;
    when (fd >=? 0) (close fd) ;;
    fd ← open "xx" O_CREATE;
    when (fd >=? 0) (close fd) ;;
    unlink "xx" ;;
    mret tt) ;;
  chdir "/" ;;
  say (nl "empty file name OK") [].

Fixpoint waits (n : nat) : T unit :=
  match n with
  | O => mret tt
  | Datatypes.S n =>
      r ← wait;
      when (r <? 0) (failexit "wait stopped early") ;;
      waits n
  end.

(** The loop that forks is the one of forktest.c. *)
Definition forktest : T unit :=
  say (nl "fork test") [] ;;
  n ← sys (Forktest.forks 1000 0);
  when (bool_decide (n = 1000%nat)) (failexit "fork claimed to work 1000 times") ;;
  waits n ;;
  r ← wait;
  when (negb (r =? -1)) (failexit "wait got too many") ;;
  say (nl "fork test OK") [].

(** The array [uninit] is a parameter. *)
Definition bsstest (uninit : list Z) : T unit :=
  say (nl "bss test") [] ;;
  when (negb (forallb (λ x, x =? 0) uninit)) (failexit "bss test") ;;
  say (nl "bss test ok") [].

Definition bigarg : list Z := nl "bigargs test: failed" ++ replicate 199 32.

Definition bigargtest : T unit :=
  unlink "bigarg-ok" ;;
  pid ← fork (
    say (nl "bigarg test") [] ;;
    sys (u_exec (chars "echo") (replicate (MAXARG - 1) bigarg)) ;;
    say (nl "bigarg test ok") [] ;;
    fd ← open "bigarg-ok" O_CREATE;
    close fd ;;
    exit);
  when (pid <? 0) (failexit "bigargtest: fork") ;;
  wait ;;
  fd ← open "bigarg-ok" 0;
  when (fd <? 0) (failexit "bigarg test") ;;
  close fd ;;
  unlink "bigarg-ok" ;;
  mret tt.

Definition fsfull_name (n : Z) : list Z :=
  [102; 48 + n / 1000; 48 + (n mod 1000) / 100; 48 + (n mod 100) / 10; 48 + n mod 10].

(** [while(1)] until a write is short. *)
Fixpoint fsfull_write (fuel : nat) (fd total : Z) : T Z :=
  cc ← write_buf fd 512;
  if cc <? 512 then mret total
  else match fuel with
       | O => mstop OutOfFuel
       | Datatypes.S fuel => fsfull_write fuel fd (total + cc)
       end.

(** The loop that makes files; the result is [nfiles]. *)
Fixpoint fsfull_make (fuel : nat) (nfiles : Z) : T Z :=
  let name := fsfull_name nfiles in
  say (nl "writing %s") [AStr (Some name)] ;;
  fd ← openn name (Z.lor O_CREATE O_RDWR);
  if fd <? 0 then say (nl "open %s failed") [AStr (Some name)] ;; mret nfiles
  else
    total ← fsfull_write fuel fd 0;
    say (nl "wrote %d bytes") [AInt total] ;;
    close fd ;;
    if total =? 0 then mret nfiles
    else match fuel with
         | O => mstop OutOfFuel
         | Datatypes.S fuel => fsfull_make fuel (nfiles + 1)
         end.

Definition fsfull (fuel : nat) : T unit :=
  say (nl "fsfull test") [] ;;
  nfiles ← fsfull_make fuel 0;
  iterM (λ n, unlinkn (fsfull_name n) ;; mret tt) (rev (Z.of_nat <$> seq 0 (Z.to_nat (nfiles + 1)))) ;;
  say (nl "fsfull test finished") [].
End usertests.

(** [rand], on the value of [randstate]: the new value and the result. *)
Definition rand (randstate : Z) : Z * Z :=
  let r := u64 (randstate * 1664525 + 1013904223) in
  (r, u32 r).
End Usertests.
