(* ===== verification/Posix.v ===== *)
(** * An abstract system, and the tests on it

    A system with the calls of the class Unix, described as simply as it can be:
    a tree of directories over files that are lists of bytes, descriptors that
    share offsets across [fork], pipes without bounds.  A child runs to its end
    before its parent goes on.  It is what the tests of usertests.c ask of a
    system: they pass on it. *)

From S2P Require Import Prelude Bytes Ulib Tests.

Inductive node := Dir (entries : list (list Z * Z)) | Reg (data : list Z).
Inductive object := Inode (n : Z) | Pipe (p : Z) | Cons.

Record ofile := mk_ofile { o_obj : object; o_off : Z; o_read : bool; o_write : bool }.

(** Nodes, open files and pipes by number; the descriptors and the directory of
    the process that runs; the children that exited, the children that never
    will, the next process number and what was printed. *)
Record posix := mk_posix {
  p_nodes : gmap Z node;
  p_files : gmap Z ofile;
  p_pipes : gmap Z (list Z);
  p_fds : gmap Z Z;
  p_cwd : Z;
  p_exited : list Z;
  p_spinning : list Z;
  p_next : Z;
  p_out : list Z
}.
#[export] Instance eta_posix : Settable posix := λ r,
  mk_posix (p_nodes r) (p_files r) (p_pipes r) (p_fds r) (p_cwd r) (p_exited r) (p_spinning r) (p_next r) (p_out r).

(** ** Paths *)

Fixpoint split_path (cur : list Z) (l : list Z) : list (list Z) :=
  match l with
  | [] => if decide (cur = []) then [] else [take 14 cur]
  | c :: l =>
      if c =? 47 then if decide (cur = []) then split_path [] l else take 14 cur :: split_path [] l
      else split_path (cur ++ [c]) l
  end.

Definition dir_lookup (s : posix) (n : Z) (name : list Z) : option Z :=
  match p_nodes s !! n with
  | Some (Dir es) => snd <$> (snd <$> list_find (λ e, e.1 = name) es)
  | _ => None
  end.

Definition start_of (s : posix) (path : list Z) : Z := if decide (hd_error path = Some 47) then 1 else p_cwd s.

Fixpoint walk (s : posix) (n : Z) (cs : list (list Z)) : option Z :=
  match cs with
  | [] => Some n
  | c :: cs => m ← dir_lookup s n c; walk s m cs
  end.

Definition resolve (s : posix) (path : list Z) : option Z := walk s (start_of s path) (split_path [] path).

(** The directory a path ends in, and the last name. *)
Definition parent_of (s : posix) (path : list Z) : option (Z * list Z) :=
  let cs := split_path [] path in
  name ← last cs;
  d ← walk s (start_of s path) (take (length cs - 1) cs);
  match p_nodes s !! d with Some (Dir _) => Some (d, name) | _ => None end.

Definition is_dir (s : posix) (n : Z) : bool := match p_nodes s !! n with Some (Dir _) => true | _ => false end.
Definition fresh_key {A} (m : gmap Z A) : Z := 1 + map_fold (λ k _ r, Z.max k r) 0 m.

Definition add_entry (d : Z) (name : list Z) (n : Z) (s : posix) : posix :=
  s <| p_nodes ::= alter (λ x, match x with Dir es => Dir (es ++ [(name, n)]) | Reg b => Reg b end) d |>.
Definition del_entry (d : Z) (name : list Z) (s : posix) : posix :=
  s <| p_nodes ::= alter (λ x, match x with Dir es => Dir (filter (λ e, e.1 ≠ name) es) | Reg b => Reg b end) d |>.

(** ** The calls *)

Definition fails {A} (a : A) : M posix A := mret a.

(** A new file or directory, or an existing file if [dir] is false. *)
Definition create (path : list Z) (dir : bool) : M posix (option Z) := λ s,
  match parent_of s path with
  | None => Ok None s
  | Some (d, name) =>
      match dir_lookup s d name with
      | Some n => Ok (if negb dir && negb (is_dir s n) then Some n else None) s
      | None =>
          let n := fresh_key (p_nodes s) in
          let x := if dir then Dir [(chars ".", n); (chars "..", d)] else Reg [] in
          Ok (Some n) (add_entry d name n (s <| p_nodes ::= <[n := x]> |>))
      end
  end.

(** The lowest free descriptor. *)
Definition new_fd (o : ofile) : M posix Z := λ s,
  match list_find (λ fd, p_fds s !! fd = None) (Z.of_nat <$> seq 0 16) with
  | None => Ok (-1) s
  | Some (_, fd) =>
      let k := fresh_key (p_files s) in
      Ok fd (s <| p_files ::= <[k := o]> |> <| p_fds ::= <[fd := k]> |>)
  end.

Definition px_open (path : list Z) (mode : Z) : M posix Z :=
  n ← (if Z.testbit mode 9 then create path false else λ s, Ok (resolve s path) s);
  match n with
  | None => mret (-1)
  | Some n =>
      d ← mgets (λ s, is_dir s n);
      if d && negb (mode =? 0) then mret (-1)
      else new_fd (mk_ofile (Inode n) 0 (negb (Z.testbit mode 0)) (Z.testbit mode 0 || Z.testbit mode 1))
  end.

Definition file_at (s : posix) (fd : Z) : option (Z * ofile) := k ← p_fds s !! fd; o ← p_files s !! k; Some (k, o).

(** The bytes of a directory: 16 for each entry. *)
Definition dir_bytes (es : list (list Z * Z)) : list Z :=
  mjoin ((λ e, le_bytes 2 e.2 ++ take 14 (e.1 ++ replicate 14 0)) <$> es).

Definition px_read (fd n : Z) : M posix (Z * list Z) := λ s,
  match file_at s fd with
  | Some (k, o) =>
      if negb (o_read o) || (n <? 0) then Ok (-1, []) s else
      match o_obj o with
      | Inode i =>
          let b := match p_nodes s !! i with Some (Reg b) => b | Some (Dir es) => dir_bytes es | None => [] end in
          let l := take (Z.to_nat n) (drop (Z.to_nat (o_off o)) b) in
          let r := Z.of_nat (length l) in
          Ok (r, l) (s <| p_files ::= <[k := mk_ofile (Inode i) (o_off o + r) true (o_write o)]> |>)
      | Pipe p =>
          let b := default [] (p_pipes s !! p) in
          let l := take (Z.to_nat n) b in
          Ok (Z.of_nat (length l), l) (s <| p_pipes ::= <[p := drop (Z.to_nat n) b]> |>)
      | Cons => Ok (0, []) s
      end
  | None => Ok (-1, []) s
  end.

Definition px_write (fd : Z) (l : list Z) : M posix Z := λ s,
  let r := Z.of_nat (length l) in
  match file_at s fd with
  | Some (k, o) =>
      if negb (o_write o) then Ok (-1) s else
      match o_obj o with
      | Inode i =>
          Ok r (s <| p_nodes ::= alter (λ x, match x with Reg b => Reg (splice (Z.to_nat (o_off o)) l b) | Dir es => Dir es end) i |>
                  <| p_files ::= <[k := mk_ofile (Inode i) (o_off o + r) (o_read o) true]> |>)
      | Pipe p => Ok r (s <| p_pipes ::= alter (λ b, b ++ l) p |>)
      | Cons => Ok r (s <| p_out ::= λ b, b ++ l |>)
      end
  | None => Ok (-1) s
  end.

Definition px_close (fd : Z) : M posix Z := λ s,
  match p_fds s !! fd with Some _ => Ok 0 (s <| p_fds ::= delete fd |>) | None => Ok (-1) s end.

Definition px_mkdir (path : list Z) : M posix Z := n ← create path true; mret (if n is Some _ then 0 else -1).

Definition px_chdir (path : list Z) : M posix Z := λ s,
  match resolve s path with
  | Some n => if is_dir s n then Ok 0 (s <| p_cwd := n |>) else Ok (-1) s
  | None => Ok (-1) s
  end.

Definition px_link (old new : list Z) : M posix Z := λ s,
  match resolve s old, parent_of s new with
  | Some n, Some (d, name) =>
      if is_dir s n then Ok (-1) s else
      match dir_lookup s d name with Some _ => Ok (-1) s | None => Ok 0 (add_entry d name n s) end
  | _, _ => Ok (-1) s
  end.

Definition px_unlink (path : list Z) : M posix Z := λ s,
  match parent_of s path with
  | Some (d, name) =>
      if decide (name = chars ".") then Ok (-1) s else if decide (name = chars "..") then Ok (-1) s else
      match dir_lookup s d name with
      | None => Ok (-1) s
      | Some n =>
          match p_nodes s !! n with
          | Some (Dir (_ :: _ :: _ :: _)) => Ok (-1) s
          | _ => Ok 0 (del_entry d name s)
          end
      end
  | None => Ok (-1) s
  end.

Definition px_pipe : M posix (Z * Z * Z) :=
  p ← mgets (λ s, fresh_key (p_pipes s));
  mmod (λ s, s <| p_pipes ::= <[p := []]> |>) ;;
  fd0 ← new_fd (mk_ofile (Pipe p) 0 true false);
  fd1 ← new_fd (mk_ofile (Pipe p) 0 false true);
  mret (if (fd0 <? 0) || (fd1 <? 0) then -1 else 0, fd0, fd1).

Definition NPROC : nat := 64.

(** The child runs to its end, or for ever; [init], the shell and the process that
    runs take three of the system's processes. *)
Definition px_fork (child : M posix unit) : M posix Z := λ s,
  if bool_decide (NPROC - 3 ≤ length (p_exited s) + length (p_spinning s))%nat then Ok (-1) s else
  let pid := p_next s in
  let back s' := s' <| p_fds := p_fds s |> <| p_cwd := p_cwd s |> in
  match child (s <| p_next := pid + 1 |> <| p_exited := [] |> <| p_spinning := [] |>) with
  | Stop OutOfFuel s' => Ok pid (back s' <| p_exited := p_exited s |> <| p_spinning := p_spinning s ++ [pid] |>)
  | Stop Exited s' | Ok _ s' => Ok pid (back s' <| p_exited := p_exited s ++ [pid] |> <| p_spinning := p_spinning s |>)
  | Stop r s' => Stop r s'
  end.

Definition px_wait : M posix Z := λ s,
  match p_exited s with
  | [] => match p_spinning s with [] => Ok (-1) s | _ => Stop Waiting s end
  | pid :: l => Ok pid (s <| p_exited := l |>)
  end.

Definition px_kill (pid : Z) : M posix Z := λ s,
  if decide (pid ∈ p_spinning s)
  then Ok 0 (s <| p_spinning ::= filter (λ x, x ≠ pid) |> <| p_exited ::= λ l, l ++ [pid] |>) else Ok (-1) s.

(** The one program is echo; more than a page of arguments is refused. *)
Definition px_exec (path : list Z) (argv : list (list Z)) : M posix Z := λ s,
  match resolve s path with
  | Some _ =>
      if decide (4096 < length (mjoin argv))%nat then Ok (-1) s
      else Stop Exited (s <| p_out ::= λ b, b ++ mjoin ((λ a, a ++ [32]) <$> tail argv) |>)
  | None => Ok (-1) s
  end.

#[export] Instance posix_unix : Unix posix := {
  u_fork := px_fork; u_wait := px_wait; u_pipe := px_pipe; u_read := px_read; u_write := px_write;
  u_kill := px_kill; u_exec := px_exec; u_fstat _ := fails (-1, (0, 0, 0, 0)); u_chdir := px_chdir;
  u_dup _ := fails (-1); u_sleep _ := mret 0; u_open := px_open; u_mknod _ _ _ := fails (-1);
  u_unlink := px_unlink; u_link := px_link; u_mkdir := px_mkdir; u_close := px_close
}.

(** A root with three files, and the console as descriptors 0 to 2. *)
Definition posix0 : posix :=
  mk_posix {[ 1 := Dir [(chars ".", 1); (chars "..", 1); (chars "README", 2); (chars "echo", 3); (chars "cat", 4)];
              2 := Reg (chars "xv6"); 3 := Reg [1]; 4 := Reg [2] ]}
    {[ 1 := mk_ofile Cons 0 true true ]} ∅ {[ 0 := 1; 1 := 1; 2 := 1 ]} 1 [] [] 3 [].

(** The test ends, and what it prints ends with the line [s]. *)
Definition prints (t : Usertests.T (S := posix) unit) (s : string) : bool :=
  match t (posix0, replicate (Z.to_nat 8192) 0) with
  | Ok _ (x, _) => bool_decide (drop (length (p_out x) - length (nl s)) (p_out x) = nl s)
  | Stop _ _ => false
  end.

Import Usertests.

(** The tests that end in a line of their own say that all is well. *)
Lemma tests_pass :
  Forall (λ x, prints x.1 x.2 = true)
    [(iputtest, "iput test ok"); (exitiputtest, "exitiput test ok"); (openiputtest, "openiput test ok");
     (opentest, "open test ok"); (createtest, "many creates, followed by unlink; ok"); (dirtest, "mkdir test ok");
     (exitwait, "exitwait ok"); (preempt, "preempt ok"); (createdelete, "createdelete ok"); (unlinkread, "unlinkread ok");
     (linktest, "linktest ok"); (linkunlink, "linkunlink ok"); (subdir, "subdir ok"); (fourteen, "fourteen ok");
     (rmdot, "rmdot ok"); (dirfile, "dir vs file OK"); (iref, "empty file name OK"); (forktest, "fork test OK");
     (writetest, "small file test ok"); (pipe1 100, "pipe1 ok"); (fourfiles 20, "fourfiles ok");
     (concreate 200, "concreate ok"); (bigwrite, "bigwrite ok"); (bigfile 100, "bigfile test ok")]%string.
Proof. repeat (apply Forall_cons; split; [vm_compute; reflexivity|]). apply Forall_nil. exact I. Qed.
