(* ===== verification/Umalloc.v ===== *)
(** * umalloc.c: the user-level memory allocator

    Kernighan and Ritchie's allocator.  Memory is addressed in units of
    [sizeof(Header)] bytes; a header is the pair of its [ptr], the unit address
    of the next free block, and its [size], in units with the header.  The free
    blocks form a circular list ordered by address, which the static header
    [base] is part of.  [sbrk] is the system call. *)

From S2P Require Import Prelude.

Record header := mk_header { h_ptr : Z; h_size : Z }.
#[export] Instance eta_header : Settable header := λ r, mk_header (h_ptr r) (h_size r).

(** The allocator's memory: the header at each unit, [base], [freep] (0 is the
    null pointer) and the end of the heap, in units. *)
Record heap := mk_heap {
  hmem : gmap Z header;
  h_base : Z;
  freep : Z;
  brk : Z
}.
#[export] Instance eta_heap : Settable heap := λ r,
  mk_heap (hmem r) (h_base r) (freep r) (brk r).

Abbreviation H := (M heap) (only parsing).

Definition hget (p : Z) : H header := λ s, Ok (default (mk_header 0 0) (hmem s !! p)) s.
Definition hput (p : Z) (f : header → header) : H unit := λ s,
  Ok tt (s <| hmem ::= λ m, <[p := f (default (mk_header 0 0) (m !! p))]> m |>).
Definition get_freep : H Z := mgets freep.
Definition set_freep (p : Z) : H unit := mmod (λ s, s <| freep := p |>).

(** [for(p = freep; !(bp > p && bp < p->s.ptr); p = p->s.ptr) if(p >= p->s.ptr
    && (bp > p || bp < p->s.ptr)) break;] *)
Fixpoint free_find (fuel : nat) (bp p : Z) : H Z :=
  h ← hget p;
  let q := h_ptr h in
  if (bp >? p) && (bp <? q) then mret p
  else if (p >=? q) && ((bp >? p) || (bp <? q)) then mret p
  else match fuel with
       | O => mstop OutOfFuel
       | S f => free_find f bp q
       end.

(** [fuel] bounds the number of blocks of the list. *)
Definition free (fuel : nat) (ap : Z) : H unit :=
  let bp := ap - 1 in
  p ← get_freep;
  p ← free_find fuel bp p;
  hb ← hget bp;
  hp ← hget p;
  let q := h_ptr hp in
  (if bp + h_size hb =? q then
     hq ← hget q;
     hput bp (λ h, h <| h_size ::= λ n, u32 (n + h_size hq) |>) ;;
     hq ← hget q;
     hput bp (λ h, h <| h_ptr := h_ptr hq |>)
   else hput bp (λ h, h <| h_ptr := q |>)) ;;
  hp ← hget p;
  (if p + h_size hp =? bp then
     hb ← hget bp;
     hput p (λ h, h <| h_size ::= λ n, u32 (n + h_size hb) |>) ;;
     hb ← hget bp;
     hput p (λ h, h <| h_ptr := h_ptr hb |>)
   else hput p (λ h, h <| h_ptr := bp |>)) ;;
  set_freep p.

Section malloc.
  (** [sbrk(n)]: the old end of the heap, or -1; [n] is in units. *)
  Context (sbrk : Z → H Z).

(** [None] is the null pointer. *)
Definition morecore (fuel : nat) (nu : Z) : H (option Z) :=
  let nu := if nu <? 4096 then 4096 else nu in
  p ← sbrk nu;
  if p =? -1 then mret None else
  hput p (λ h, h <| h_size := nu |>) ;;
  free fuel (p + 1) ;;
  r ← get_freep;
  mret (Some r).

(** The [for] loop of [malloc] at block [p], whose predecessor is [prevp]. *)
Fixpoint malloc_loop (fuel : nat) (nunits prevp p : Z) : H (option Z) :=
  h ← hget p;
  if h_size h >=? nunits then
    r ← (if h_size h =? nunits then
           hput prevp (λ x, x <| h_ptr := h_ptr h |>) ;; mret p
         else
           hput p (λ x, x <| h_size ::= λ n, u32 (n - nunits) |>) ;;
           h ← hget p;
           let p := p + h_size h in
           hput p (λ x, x <| h_size := nunits |>) ;;
           mret p);
    set_freep prevp ;;
    mret (Some (r + 1))
  else
    match fuel with
    | O => mstop OutOfFuel
    | S f =>
        fp ← get_freep;
        if p =? fp then
          r ← morecore fuel nunits;
          match r with
          | None => mret None
          | Some p => h ← hget p; malloc_loop f nunits p (h_ptr h)
          end
        else malloc_loop f nunits p (h_ptr h)
    end.

(** [nunits = (nbytes + sizeof(Header) - 1)/sizeof(Header) + 1]. *)
Definition units (nbytes : Z) : Z := u32 ((nbytes + 16 - 1) / 16 + 1).

Definition malloc (fuel : nat) (nbytes : Z) : H (option Z) :=
  let nunits := units nbytes in
  fp ← get_freep;
  prevp ← (if fp =? 0 then
             base ← mgets h_base;
             hput base (λ h, h <| h_ptr := base |>) ;;
             set_freep base ;;
             hput base (λ h, h <| h_size := 0 |>) ;;
             mret base
           else mret fp);
  h ← hget prevp;
  malloc_loop fuel nunits prevp (h_ptr h).
End malloc.
