(* ===== verification/MallocSpec.v ===== *)
(** * umalloc.c: the allocator hands out disjoint blocks

    [heap_ok] describes the circular free list by the list of its blocks in
    the order of their addresses, and the blocks given out by the map from
    their headers to their sizes.  Free blocks and blocks given out are
    disjoint, and no two free blocks are adjacent.  [malloc] and [free] keep it. *)

From stdpp Require Import sorting.
From S2P Require Import Prelude Umalloc.

(** ** The free list *)

(** Blocks [cs], each with its address and size, chained from [p] to [q]. *)
Fixpoint chained (m : gmap Z header) (p : Z) (cs : list (Z * Z)) (q : Z) : Prop :=
  match cs with
  | [] => p = q
  | x :: cs => p = x.1 ∧ ∃ r, m !! p = Some (mk_header r x.2) ∧ chained m r cs q
  end.

Lemma chained_app m p a b q : chained m p (a ++ b) q ↔ ∃ r, chained m p a r ∧ chained m r b q.
Proof.
  revert p. induction a as [|x a IH]; intros p; cbn [app chained].
  - split; [intros H; by exists p|]. by intros (r & -> & H).
  - split.
    + intros (Hp & r & Hr & H). apply IH in H as (r' & H1 & H2). exists r'. split; [|done]. split; [done|]. by exists r.
    + intros (r & (Hp & r' & Hr & H1) & H2). split; [done|]. exists r'. split; [done|]. apply IH. by exists r.
Qed.

Lemma chained_frame m m' p cs q : (∀ x, x ∈ cs → m' !! x.1 = m !! x.1) → chained m p cs q → chained m' p cs q.
Proof.
  revert p. induction cs as [|x cs IH]; intros p Hf; cbn [chained]; [done|]. intros (Hp & r & Hr & H). split; [done|].
  exists r. split; [rewrite Hp, Hf by set_solver; by rewrite <- Hp|]. apply IH; [set_solver|done].
Qed.

(** The address of block [i]; behind the last one comes [q]. *)
Definition adr (cs : list (Z * Z)) (q : Z) (i : nat) : Z := default q (fst <$> cs !! i).

Lemma chained_lookup m p cs q i x :
  chained m p cs q → cs !! i = Some x → m !! x.1 = Some (mk_header (adr cs q (S i)) x.2).
Proof.
  revert p i. induction cs as [|y cs IH]; intros p i; [done|]. intros (-> & r & Hr & H) Hi. destruct i as [|i].
  - injection Hi as ->. rewrite Hr. do 2 f_equal. unfold adr. cbn. destruct cs as [|z cs]; [exact H|]. by destruct H as [-> _].
  - by apply (IH r i H).
Qed.

Lemma chained_head m p cs q : chained m p cs q → p = adr cs q 0.
Proof. destruct cs as [|x cs]; cbn; [done|]. by intros [-> _]. Qed.

(** A free block, and another that comes after it and is not adjacent. *)
Definition gap (x y : Z * Z) : Prop := x.1 + x.2 < y.1.

Record heap_ok (s : heap) (fl : list (Z * Z)) (A : gmap Z Z) : Prop := {
  hp_seg : chained (hmem s) (h_base s) fl (h_base s);
  hp_first : ∃ l, fl = (h_base s, 0) :: l ∧ Forall (λ x, 0 < x.2) l;
  hp_order : StronglySorted gap fl;
  hp_freep : freep s ∈ fst <$> fl;
  hp_base : 0 < h_base s;
  hp_brk : h_base s < brk s < 2 ^ 32;
  hp_free x : x ∈ fl → x.1 + x.2 ≤ brk s;
  hp_alloc h k : A !! h = Some k →
    0 < k ∧ h_base s < h ∧ h + k ≤ brk s ∧ h_size <$> hmem s !! h = Some k;
  hp_disj h k x : A !! h = Some k → x ∈ fl → x.1 + x.2 ≤ h ∨ h + k ≤ x.1;
  hp_apart h k h' k' : A !! h = Some k → A !! h' = Some k' → h ≠ h' → h + k ≤ h' ∨ h' + k' ≤ h
}.

Lemma hp_sizes s fl A x : heap_ok s fl A → x ∈ fl → 0 ≤ x.2.
Proof.
  intros Hok Hx. destruct (hp_first _ _ _ Hok) as (l & -> & Hl). apply elem_of_cons in Hx as [->|Hx]; [done|].
  rewrite Forall_forall in Hl. specialize (Hl x Hx). lia.
Qed.

Lemma hp_base_le s fl A x : heap_ok s fl A → x ∈ fl → h_base s ≤ x.1.
Proof.
  intros Hok Hx. destruct (hp_first _ _ _ Hok) as (l & -> & Hl). apply elem_of_cons in Hx as [->|Hx]; [done|].
  pose proof (hp_order _ _ _ Hok) as Ho. inversion Ho as [|? ? _ Hall]; subst. rewrite Forall_forall in Hall.
  specialize (Hall x Hx). unfold gap in Hall. cbn in Hall. lia.
Qed.

(** Later blocks have higher addresses. *)
Lemma hp_lt s fl A i j x y : heap_ok s fl A → fl !! i = Some x → fl !! j = Some y → (i < j)%nat → gap x y.
Proof.
  intros Hok Hi Hj Hlt. apply (StronglySorted_app_1_elem_of gap (take j fl) (drop j fl)).
  - rewrite take_drop. apply Hok.
  - apply list_elem_of_lookup_2 with i. by rewrite lookup_take_lt.
  - apply list_elem_of_lookup_2 with 0%nat. by rewrite lookup_drop, Nat.add_0_r.
Qed.

Lemma hget_at s fl A i x :
  heap_ok s fl A → fl !! i = Some x → hget x.1 s = Ok (mk_header (adr fl (h_base s) (S i)) x.2) s.
Proof. intros Hok Hi. unfold hget. by rewrite (chained_lookup _ _ _ _ _ _ (hp_seg _ _ _ Hok) Hi). Qed.

Lemma adr_wrap s fl A : heap_ok s fl A → adr fl (h_base s) (length fl) = adr fl (h_base s) 0.
Proof.
  intros Hok. unfold adr. rewrite lookup_ge_None_2 by done. by destruct (hp_first _ _ _ Hok) as (l & -> & _).
Qed.

(** ** [free] *)

(** The block before address [bp]. *)
Lemma pred_exists s fl A bp :
  heap_ok s fl A → h_base s < bp → (∀ x, x ∈ fl → x.1 ≠ bp) →
  ∃ t x, fl !! t = Some x ∧ x.1 < bp ∧ (∀ y, fl !! S t = Some y → bp < y.1).
Proof.
  intros Hok Hbp Hne. destruct (hp_first _ _ _ Hok) as (l & E & _).
  assert (Hx0 : fl !! 0%nat = Some (h_base s, 0)) by by rewrite E.
  assert (H : ∀ n i x, (length fl - i ≤ n)%nat → fl !! i = Some x → x.1 < bp →
    ∃ t x, fl !! t = Some x ∧ x.1 < bp ∧ (∀ y, fl !! S t = Some y → bp < y.1)).
  { induction n as [|n IH]; intros i x Hn Hi Hx; [apply lookup_lt_Some in Hi; lia|].
    destruct (fl !! S i) as [y|] eqn:Ey; [|exists i, x; split_and!; [done|done|by rewrite Ey]].
    destruct (decide (bp < y.1)); [exists i, x; split_and!; [done|done|rewrite Ey; by intros ? [= <-]]|].
    apply (IH (S i) y); [lia|done|]. assert (y.1 ≠ bp) by (apply Hne; by eapply list_elem_of_lookup_2). lia. }
  apply (H (length fl) 0%nat (h_base s, 0)); [lia|done|done].
Qed.

Section find.
  Context (s : heap) (fl : list (Z * Z)) (A : gmap Z Z) (bp : Z) (t : nat) (x : Z * Z).
  Context (Hok : heap_ok s fl A) (Hbase : h_base s < bp).
  Context (Ht : fl !! t = Some x) (Hx : x.1 < bp) (Hnext : ∀ y, fl !! S t = Some y → bp < y.1).

Lemma find_here fuel : free_find fuel bp x.1 s = Ok x.1 s.
Proof using All.
  destruct fuel as [|fuel]; cbn [free_find]; (erewrite bind_ok; [|by eapply hget_at]); cbn [h_ptr]; unfold adr;
    destruct (fl !! S t) as [y|] eqn:Ey; cbn [fmap option_fmap option_map default from_option id].
  1, 3: specialize (Hnext y eq_refl); rewrite (proj2 (Z.gtb_lt _ _)), (proj2 (Z.ltb_lt _ _)) by lia; done.
  all: rewrite (proj2 (Z.ltb_ge bp (h_base s))), andb_false_r by lia;
    pose proof (hp_base_le _ _ _ _ Hok (list_elem_of_lookup_2 _ _ _ Ht));
    rewrite Z.geb_leb, (proj2 (Z.leb_le _ _)), (proj2 (Z.gtb_lt _ _)) by lia; done.
Qed.

Lemma find_skip fuel i y :
  fl !! i = Some y → i ≠ t → free_find (S fuel) bp y.1 s = free_find fuel bp (adr fl (h_base s) (S i)) s.
Proof using All.
  intros Hi Hne. cbn [free_find]. erewrite bind_ok; [|by eapply hget_at]. cbn [h_ptr].
  destruct (decide (i < t)%nat) as [Hlt|Hge].
  - destruct (fl !! S i) as [z|] eqn:Ez; [|apply lookup_ge_None in Ez; apply lookup_lt_Some in Ht; lia].
    unfold adr. rewrite Ez. cbn [fmap option_fmap option_map default from_option id].
    pose proof (hp_lt _ _ _ _ _ _ _ Hok Hi Ez ltac:(lia)) as G1. unfold gap in G1.
    pose proof (hp_sizes _ _ _ _ Hok (list_elem_of_lookup_2 _ _ _ Hi)).
    assert (z.1 ≤ x.1).
    { destruct (decide (S i = t)) as [E|]; [rewrite E, Ht in Ez; by injection Ez as ->|].
      pose proof (hp_lt _ _ _ _ _ _ _ Hok Ez Ht ltac:(lia)) as G2. unfold gap in G2.
      pose proof (hp_sizes _ _ _ _ Hok (list_elem_of_lookup_2 _ _ _ Ez)). lia. }
    rewrite (proj2 (Z.ltb_ge bp z.1)), andb_false_r by lia. rewrite Z.geb_leb, (proj2 (Z.leb_gt _ _)) by lia. done.
  - assert (Hy : bp < y.1).
    { destruct (fl !! S t) as [z|] eqn:Ez; [|apply lookup_ge_None in Ez; apply lookup_lt_Some in Hi; lia].
      specialize (Hnext z eq_refl). destruct (decide (i = S t)) as [E|]; [rewrite E, Ez in Hi; by injection Hi as <-|].
      pose proof (hp_lt _ _ _ _ _ _ _ Hok Ez Hi ltac:(lia)) as G2. unfold gap in G2.
      pose proof (hp_sizes _ _ _ _ Hok (list_elem_of_lookup_2 _ _ _ Ez)). lia. }
    rewrite Z.gtb_ltb, (proj2 (Z.ltb_ge y.1 bp)) by lia. cbn [andb orb].
    unfold adr. destruct (fl !! S i) as [z|] eqn:Ez; cbn [fmap option_fmap option_map default from_option id].
    + pose proof (hp_lt _ _ _ _ _ _ _ Hok Hi Ez ltac:(lia)) as G1. unfold gap in G1.
      pose proof (hp_sizes _ _ _ _ Hok (list_elem_of_lookup_2 _ _ _ Hi)).
      rewrite Z.geb_leb, (proj2 (Z.leb_gt _ _)) by lia. done.
    + rewrite (proj2 (Z.ltb_ge bp (h_base s))), andb_false_r by lia. done.
Qed.

(** From any block before it, and then from any block. *)
Lemma find_up n fuel i : (i + n = t)%nat → free_find (n + fuel) bp (adr fl (h_base s) i) s = Ok x.1 s.
Proof using All.
  revert i. induction n as [|n IH]; intros i Hi.
  - replace i with t by lia. unfold adr. rewrite Ht. apply find_here.
  - destruct (lookup_lt_is_Some_2 fl i) as [y Hy]; [apply lookup_lt_Some in Ht; lia|].
    replace (adr fl (h_base s) i) with y.1 by (unfold adr; by rewrite Hy). cbn [Nat.add].
    rewrite (find_skip _ i y Hy) by lia. apply IH. lia.
Qed.

Lemma find_wrap n fuel i :
  (t < i)%nat → (i + n = length fl)%nat → free_find (n + (t + fuel)) bp (adr fl (h_base s) i) s = Ok x.1 s.
Proof using All.
  revert i. induction n as [|n IH]; intros i Hti Hi.
  - replace i with (length fl) by lia. rewrite (adr_wrap _ _ _ Hok). exact (find_up t fuel 0 eq_refl).
  - destruct (lookup_lt_is_Some_2 fl i) as [y Hy]; [lia|].
    replace (adr fl (h_base s) i) with y.1 by (unfold adr; by rewrite Hy). cbn [Nat.add].
    rewrite (find_skip _ i y Hy) by lia. apply IH; lia.
Qed.

Lemma find_ok fuel : (length fl ≤ fuel)%nat → free_find fuel bp (freep s) s = Ok x.1 s.
Proof using All.
  intros Hfuel. destruct (proj1 (list_elem_of_fmap _ _ _) (hp_freep _ _ _ Hok)) as (y & -> & Hy).
  apply list_elem_of_lookup in Hy as [i Hi]. pose proof (lookup_lt_Some _ _ _ Hi). pose proof (lookup_lt_Some _ _ _ Ht).
  replace y.1 with (adr fl (h_base s) i) by (unfold adr; by rewrite Hi).
  destruct (decide (i ≤ t)%nat).
  - replace fuel with ((t - i) + (fuel - (t - i)))%nat by lia. apply find_up. lia.
  - replace fuel with ((length fl - i) + (t + (fuel - (length fl - i) - t)))%nat by lia. apply find_wrap; lia.
Qed.
End find.

Lemma hget_eq p h s : hmem s !! p = Some h → hget p s = Ok h s.
Proof. intros E. unfold hget. by rewrite E. Qed.

Lemma hput_any p f s :
  hput p f s = Ok tt (s <| hmem := <[p := f (default (mk_header 0 0) (hmem s !! p))]> (hmem s) |>).
Proof. by destruct s. Qed.

Lemma hput_eq p f h s : hmem s !! p = Some h → hput p f s = Ok tt (s <| hmem := <[p := f h]> (hmem s) |>).
Proof.
  intros E. unfold hput. f_equal. destruct s as [m b fp k]. cbn in E. usetf. cbn [hmem]. by rewrite E.
Qed.

Definition with_mem (m : gmap Z header) (s : heap) : heap := s <| hmem := m |>.

(** The block freed, once joined with the block after it. *)
Definition join_up (m : gmap Z header) (bp n q : Z) : Z * Z :=
  if bp + n =? q then (u32 (n + default 0 (h_size <$> m !! q)), default 0 (h_ptr <$> m !! q)) else (n, q).

(** The memory [free] leaves: [bp] after [x], both joined if they are adjacent. *)
Definition freed_mem (m : gmap Z header) (bp : Z) (x : Z * Z) (n r : Z) : gmap Z header :=
  if x.1 + x.2 =? bp then <[x.1 := mk_header r (u32 (x.2 + n))]> (<[bp := mk_header r n]> m)
  else <[x.1 := mk_header bp x.2]> (<[bp := mk_header r n]> m).

Lemma free_run fuel ap s hb x q :
  let bp := ap - 1 in
  free_find fuel bp (freep s) s = Ok x.1 s → hmem s !! bp = Some hb → hmem s !! x.1 = Some (mk_header q x.2) →
  x.1 ≠ bp → q ≠ bp → (bp + h_size hb = q → is_Some (hmem s !! q)) →
  let '(n, r) := join_up (hmem s) bp (h_size hb) q in
  free fuel ap s = Ok tt (s <| hmem := freed_mem (hmem s) bp x n r |> <| freep := x.1 |>).
Proof.
  intros bp Hfind Hb Hx Hne Hq Hup. unfold free. fold bp. erewrite bind_ok; [|done]. erewrite bind_ok by exact Hfind.
  erewrite bind_ok by (by apply hget_eq). erewrite bind_ok by (by apply hget_eq). cbn [h_ptr].
  unfold join_up. set (nr := if bp + h_size hb =? q then _ else _).
  assert (H1 : (if bp + h_size hb =? q then
       hq ← hget q; hput bp (λ h, h <| h_size ::= λ n, u32 (n + h_size hq) |>) ;;
       hq ← hget q; hput bp (λ h, h <| h_ptr := h_ptr hq |>)
     else hput bp (λ h, h <| h_ptr := q |>)) s = Ok tt (with_mem (<[bp := mk_header nr.2 nr.1]> (hmem s)) s)).
  { unfold nr. destruct (Z.eqb_spec (bp + h_size hb) q) as [E|E]; unfold with_mem.
    - destruct (Hup E) as [hq Hhq]. rewrite Hhq. cbn [fmap option_fmap option_map default from_option id].
      erewrite bind_ok by (by apply hget_eq). erewrite bind_ok by (by apply hput_eq).
      erewrite bind_ok; [|apply hget_eq; rsimpl; by rewrite lookup_insert_ne]. rsimpl.
      erewrite hput_eq; [|rsimpl; by apply lookup_insert_eq]. rsimpl. rewrite insert_insert_eq.
      f_equal; destruct s, hb; by usetf.
    - erewrite hput_eq by done. f_equal; destruct s, hb; by usetf. }
  erewrite bind_ok by exact H1. destruct nr as [n r] eqn:Enr. cbn [fst snd] in *.
  erewrite bind_ok; [|apply hget_eq; unfold with_mem; rsimpl; by rewrite lookup_insert_ne]. cbn [h_size].
  unfold freed_mem, with_mem. destruct (x.1 + x.2 =? bp).
  - rewrite bind_assoc. erewrite bind_ok; [|apply hget_eq; rsimpl; by apply lookup_insert_eq].
    rewrite bind_assoc. erewrite bind_ok; [|apply hput_eq; rsimpl; by rewrite lookup_insert_ne].
    rewrite bind_assoc. erewrite bind_ok; [|apply hget_eq; rsimpl; rewrite lookup_insert_ne by done; by apply lookup_insert_eq].
    erewrite bind_ok; [|apply hput_eq; rsimpl; by apply lookup_insert_eq].
    rsimpl. rewrite insert_insert_eq. unfold set_freep, mmod. f_equal; destruct s; by usetf.
  - erewrite bind_ok; [|apply hput_eq; rsimpl; by rewrite lookup_insert_ne].
    unfold set_freep, mmod. f_equal; destruct s; by usetf.
Qed.

(** [bp], of [n] units, put after [x] in the list. *)
Definition join_down (x : Z * Z) (bp n : Z) (f2 : list (Z * Z)) : list (Z * Z) :=
  if x.1 + x.2 =? bp then (x.1, x.2 + n) :: f2 else x :: (bp, n) :: f2.

Lemma chained_freed m f1 x f2 f2' bp n r b :
  chained m b (f1 ++ x :: f2) b → chained m r f2' b →
  (∀ y, y ∈ f1 → y.1 ≠ bp ∧ y.1 ≠ x.1) → (∀ y, y ∈ f2' → y.1 ≠ bp ∧ y.1 ≠ x.1) → x.1 ≠ bp →
  0 ≤ x.2 + n < 2 ^ 32 →
  chained (freed_mem m bp x n r) b (f1 ++ join_down x bp n f2') b.
Proof.
  intros Hseg Hr H1 H2 Hne Hn. apply chained_app in Hseg as (p & S1 & S2). destruct S2 as [-> _].
  assert (Hfr : ∀ y : Z, y ≠ bp → y ≠ x.1 → freed_mem m bp x n r !! y = m !! y).
  { intros y E1 E2. unfold freed_mem. destruct (_ =? _); by rewrite !lookup_insert_ne. }
  apply chained_app. exists x.1. split.
  { eapply chained_frame; [|exact S1]. intros y Hy. by apply Hfr; apply H1. }
  assert (S2' : chained (freed_mem m bp x n r) r f2' b).
  { eapply chained_frame; [|exact Hr]. intros y Hy. by apply Hfr; apply H2. }
  unfold join_down, freed_mem in *. destruct (x.1 + x.2 =? bp); cbn [chained fst snd].
  - split; [done|]. exists r. split; [|done]. rewrite lookup_insert_eq. by rewrite u32_small.
  - split; [done|]. exists bp. split; [by rewrite lookup_insert_eq|]. split; [done|]. exists r.
    split; [|done]. rewrite lookup_insert_ne by done. by rewrite lookup_insert_eq.
Qed.

(** The list with a block put in is in order again. *)
Lemma order_joined f1 x f2 bp n :
  StronglySorted gap (f1 ++ [x]) → StronglySorted gap f2 → (∀ y, y ∈ f1 ++ [x] → ∀ z, z ∈ f2 → gap y z) →
  x.1 + x.2 ≤ bp → (∀ z, z ∈ f2 → bp + n < z.1) → 0 ≤ x.2 → 0 ≤ n →
  StronglySorted gap (f1 ++ join_down x bp n f2).
Proof.
  intros O1 O2 O12 Hx Hn Hx2 Hn2. apply StronglySorted_app in O1 as (Hlt & O1 & _).
  assert (Hf1 : ∀ y, y ∈ f1 → y.1 + y.2 < x.1) by (intros y Hy; apply (Hlt y x); [done|set_solver]).
  apply StronglySorted_app. unfold join_down. destruct (Z.eqb_spec (x.1 + x.2) bp) as [E|E].
  - split_and!; [|done|].
    + intros y z Hy [->|Hz]%elem_of_cons; [unfold gap; cbn; by apply Hf1|]. apply O12; set_solver.
    + apply StronglySorted_cons. split; [|done]. apply Forall_forall. intros z Hz. unfold gap. cbn [fst snd].
      specialize (Hn z Hz). lia.
  - split_and!; [|done|].
    + intros y z Hy [->|[->|Hz]%elem_of_cons]%elem_of_cons; [by apply Hf1| |apply O12; set_solver].
      specialize (Hf1 y Hy). unfold gap. cbn. lia.
    + apply StronglySorted_cons. split; [apply Forall_cons; split; [unfold gap; cbn; lia|]|].
      * apply Forall_forall. intros z Hz. apply O12; set_solver.
      * apply StronglySorted_cons. split; [|done]. apply Forall_forall. intros z Hz. by apply Hn.
Qed.

Lemma elem_joined y f1 x bp n f2 :
  y ∈ f1 ++ join_down x bp n f2 → y ∈ f1 ∨ y ∈ f2 ∨ y = x ∨ y = (bp, n) ∨ (x.1 + x.2 = bp ∧ y = (x.1, x.2 + n)).
Proof. unfold join_down. destruct (Z.eqb_spec (x.1 + x.2) bp); set_solver. Qed.

Lemma hp_first_only s fl A x : heap_ok s fl A → x ∈ fl → x = (h_base s, 0) ∨ (h_base s < x.1 ∧ 0 < x.2).
Proof.
  intros Hok Hx. destruct (hp_first _ _ _ Hok) as (l & E & Hl). rewrite E in Hx.
  apply elem_of_cons in Hx as [->|Hx]; [by left|right]. rewrite Forall_forall in Hl. split; [|by apply Hl].
  pose proof (hp_order _ _ _ Hok) as Ho. rewrite E in Ho. apply StronglySorted_cons in Ho as [Hall _].
  rewrite Forall_forall in Hall. specialize (Hall x Hx). unfold gap in Hall. cbn in Hall. lia.
Qed.

(** A header in use is not the header of a free block. *)
Lemma hp_alloc_ne s fl A h k x : heap_ok s fl A → A !! h = Some k → x ∈ fl → x.1 ≠ h.
Proof.
  intros Hok Hh Hx E. destruct (hp_alloc _ _ _ Hok h k Hh) as (Hk & Hb & _).
  destruct (hp_disj _ _ _ Hok h k x Hh Hx), (hp_first_only _ _ _ x Hok Hx) as [->|[? ?]]; cbn in *; lia.
Qed.

Lemma joined_ok s A f1 x f2 f2' bp n r A' :
  heap_ok s (f1 ++ x :: f2) A → (∀ y, y ∈ f2' → y ∈ f2) → StronglySorted gap f2' → chained (hmem s) r f2' (h_base s) →
  x.1 + x.2 ≤ bp → h_base s < bp → x.1 ≠ bp → 0 < n → bp + n ≤ brk s → (∀ z, z ∈ f2' → bp + n < z.1) →
  (∀ h k, A' !! h = Some k → A !! h = Some k ∧ h ≠ bp ∧ (bp + n ≤ h ∨ h + k ≤ bp)) →
  heap_ok (s <| hmem := freed_mem (hmem s) bp x n r |> <| freep := x.1 |>) (f1 ++ join_down x bp n f2') A'.
Proof.
  intros Hok Hsub O2 Hr Hx Hbase Hne Hn Hbrk Hf2 HA. set (fl := f1 ++ x :: f2) in *.
  assert (Hxin : x ∈ fl) by (unfold fl; clear; set_solver). pose proof (hp_sizes _ _ _ _ Hok Hxin) as Hx2.
  pose proof (hp_brk _ _ _ Hok) as Hb. pose proof (hp_base _ _ _ Hok) as Hb0.
  pose proof (hp_base_le _ _ _ _ Hok Hxin) as Hbx.
  pose proof (hp_order _ _ _ Hok) as Ho. unfold fl in Ho. replace (f1 ++ x :: f2) with ((f1 ++ [x]) ++ f2) in Ho by (by rewrite <- app_assoc).
  apply StronglySorted_app in Ho as (O12 & O1 & _). pose proof (proj1 (StronglySorted_app _ _ _) O1) as (O1x & _).
  assert (Hf1 : ∀ y, y ∈ f1 → y.1 + y.2 < x.1 ∧ 0 ≤ y.2).
  { intros y Hy. split; [apply (O1x y x); [done|clear; set_solver]|]. apply (hp_sizes _ _ _ _ Hok). unfold fl. clear -Hy. set_solver. }
  split; rsimpl.
  - apply (chained_freed _ f1 x f2); try done; [apply Hok|..|lia].
    + intros y Hy. destruct (Hf1 y Hy). lia.
    + intros y Hy. specialize (Hf2 y Hy). lia.
  - destruct (hp_first _ _ _ Hok) as (l & E & Hl). rewrite Forall_forall in Hl. destruct f1 as [|y f1]; unfold fl in E; cbn [app] in E.
    + injection E as -> ->. unfold join_down. cbn [fst snd] in *. rewrite Z.add_0_r, (proj2 (Z.eqb_neq _ _)) by lia.
      eexists. split; [done|]. apply Forall_cons. split; [done|]. apply Forall_forall. intros z Hz. exact (Hl z (Hsub z Hz)).
    + injection E as -> <-. eexists. split; [done|]. apply Forall_forall. intros z Hz.
      assert (Hxl : 0 < x.2) by (apply Hl; clear; set_solver).
      apply elem_joined in Hz as [Hz|[Hz|[->|[->|[_ ->]]]]]; cbn [snd]; try (done || lia);
        apply Hl; [|apply Hsub in Hz]; clear -Hz; set_solver.
  - apply order_joined; try done; try lia. intros y Hy z Hz. exact (O12 y z Hy (Hsub z Hz)).
  - rewrite fmap_app. unfold join_down. clear. destruct (_ =? _); cbn [fmap list_fmap fst]; set_solver.
  - done.
  - done.
  - intros y [Hy|[Hy|[->|[->|[Ex ->]]]]]%elem_joined; cbn [fst snd]; try lia; apply (hp_free _ _ _ Hok);
      [|apply Hsub in Hy]; unfold fl; clear -Hy; set_solver.
  - intros h k Hh. destruct (HA h k Hh) as (Hh' & Hhb & Hd). destruct (hp_alloc _ _ _ Hok h k Hh') as (A1 & A2 & A3 & A4).
    split_and!; try done. rewrite <- A4. f_equal. pose proof (hp_alloc_ne _ _ _ _ _ _ Hok Hh' Hxin).
    unfold freed_mem. destruct (_ =? _); by rewrite !lookup_insert_ne.
  - intros h k y Hh Hy. destruct (HA h k Hh) as (Hh' & Hhb & Hd). destruct (hp_alloc _ _ _ Hok h k Hh') as (A1 & A2 & A3 & A4).
    pose proof (hp_disj _ _ _ Hok h k x Hh' Hxin) as Dx.
    apply elem_joined in Hy as [Hy|[Hy|[->|[->|[Ex ->]]]]]; cbn [fst snd]; try lia;
      apply (hp_disj _ _ _ Hok h k y Hh'); [|apply Hsub in Hy]; unfold fl; clear -Hy; set_solver.
  - intros h k h' k' Hh Hh'. apply (hp_apart _ _ _ Hok); by apply HA.
Qed.

Definition units_of (fl : list (Z * Z)) : Z := foldr (λ x z, x.2 + z) 0 fl.

Lemma units_cons x l : units_of (x :: l) = x.2 + units_of l.
Proof. done. Qed.

Lemma units_app a b : units_of (a ++ b) = units_of a + units_of b.
Proof. induction a as [|x a IH]; [done|]. cbn [app]. rewrite !units_cons, IH. lia. Qed.

Lemma units_joined f1 x bp n f2 : units_of (f1 ++ join_down x bp n f2) = units_of (f1 ++ x :: f2) + n.
Proof. rewrite !units_app. unfold join_down. destruct (_ =? _); rewrite !units_cons; cbn [snd]; lia. Qed.

(** Where a block that is disjoint from the free ones goes. *)
Lemma free_place fuel s fl A bp n :
  heap_ok s fl A → (length fl ≤ fuel)%nat → h_base s < bp → 0 < n →
  (∀ x, x ∈ fl → x.1 + x.2 ≤ bp ∨ bp + n ≤ x.1) →
  ∃ f1 x f2, fl = f1 ++ x :: f2 ∧ free_find fuel bp (freep s) s = Ok x.1 s ∧ x.1 < bp ∧ x.1 + x.2 ≤ bp ∧
    (∀ y, y ∈ f2 → bp + n ≤ y.1) ∧ hmem s !! x.1 = Some (mk_header (adr f2 (h_base s) 0) x.2).
Proof.
  intros Hok Hfuel Hbase Hn Hdisj. assert (Hne : ∀ y, y ∈ fl → y.1 ≠ bp).
  { intros y Hy E. destruct (Hdisj y Hy), (hp_first_only _ _ _ y Hok Hy) as [->|[? ?]]; cbn in *; lia. }
  destruct (pred_exists s fl A bp Hok Hbase Hne) as (t & x & Ht & Hx & Hnext).
  pose proof (list_elem_of_lookup_2 _ _ _ Ht) as Hxin. pose proof (hp_sizes _ _ _ _ Hok Hxin) as Hx2.
  exists (take t fl), x, (drop (S t) fl). split_and!; [symmetry; by apply take_drop_middle| |done| |..].
  - by apply (find_ok s fl A bp t x).
  - destruct (Hdisj x Hxin); lia.
  - intros y Hy. pose proof Hy as Hy'. apply list_elem_of_lookup in Hy as [i Hi]. rewrite lookup_drop in Hi.
    assert (bp < y.1); [|destruct (Hdisj y (list_elem_of_lookup_2 _ _ _ Hi)); [|done];
      pose proof (hp_sizes _ _ _ _ Hok (list_elem_of_lookup_2 _ _ _ Hi)); lia].
    destruct i as [|i]; [rewrite Nat.add_0_r in Hi; by apply Hnext|].
    destruct (lookup_lt_is_Some_2 fl (S t)) as [z Hz]; [apply lookup_lt_Some in Hi; lia|].
    pose proof (hp_lt _ _ _ _ _ _ _ Hok Hz Hi ltac:(lia)) as G. unfold gap in G. specialize (Hnext z Hz).
    pose proof (hp_sizes _ _ _ _ Hok (list_elem_of_lookup_2 _ _ _ Hz)). lia.
  - rewrite (chained_lookup _ _ _ _ _ _ (hp_seg _ _ _ Hok) Ht). do 2 f_equal. unfold adr. by rewrite lookup_drop, Nat.add_0_r.
Qed.

Lemma freed_mem_else m bp x n r u : u ≠ bp → u ≠ x.1 → freed_mem m bp x n r !! u = m !! u.
Proof. intros H1 H2. unfold freed_mem. destruct (_ =? _); by rewrite !lookup_insert_ne. Qed.

(** [free] once the place is found, [n'] units from [bp] on being joined. *)
Lemma free_with fuel s A A' bp n f1 x f2 f2' n' r :
  let fl := f1 ++ x :: f2 in
  heap_ok s fl A → h_base s < bp → 0 < n ≤ n' → bp + n' ≤ brk s →
  h_size <$> hmem s !! bp = Some n → free_find fuel bp (freep s) s = Ok x.1 s → x.1 < bp → x.1 + x.2 ≤ bp →
  (∀ y, y ∈ f2 → bp + n ≤ y.1) → hmem s !! x.1 = Some (mk_header (adr f2 (h_base s) 0) x.2) →
  join_up (hmem s) bp n (adr f2 (h_base s) 0) = (n', r) → chained (hmem s) r f2' (h_base s) →
  (∀ y, y ∈ f2' → y ∈ f2 ∧ bp + n' < y.1) → StronglySorted gap f2' → (length f2' ≤ length f2)%nat →
  (∀ h k, A' !! h = Some k → A !! h = Some k ∧ h ≠ bp ∧ (bp + n' ≤ h ∨ h + k ≤ bp)) →
  units_of f2' + n' = units_of f2 + n →
  ∃ s' fl', free fuel (bp + 1) s = Ok tt s' ∧ heap_ok s' fl' A' ∧ (length fl' ≤ S (length fl))%nat ∧
    units_of fl' = units_of fl + n ∧ brk s' = brk s ∧ h_base s' = h_base s ∧
    (∀ u, u ∉ fst <$> fl → u ≠ bp → hmem s' !! u = hmem s !! u) ∧ ∃ y, y ∈ fl' ∧ n ≤ y.2.
Proof.
  intros fl Hok Hbase Hn Hbrk Hsize Hfind Hx Hx2 Hf2 Hmx Hj Hr Hf2' O2 Hl HA Hun.
  destruct (hmem s !! bp) as [hb|] eqn:Ehb; [|done]. injection Hsize as Hsz.
  pose proof (free_run fuel (bp + 1) s hb x (adr f2 (h_base s) 0)) as Hrun.
  cbn zeta in Hrun. rewrite Z.add_simpl_r, Hsz, Hj in Hrun.
  exists (s <| hmem := freed_mem (hmem s) bp x n' r |> <| freep := x.1 |>), (f1 ++ join_down x bp n' f2').
  assert (Hq : adr f2 (h_base s) 0 ≠ bp).
  { unfold adr. destruct f2 as [|y f2]; cbn; [lia|]. specialize (Hf2 y ltac:(clear; set_solver)). lia. }
  assert (Hxin : x ∈ fl) by (unfold fl; clear; set_solver). pose proof (hp_sizes _ _ _ _ Hok Hxin).
  split_and!; rsimpl; try done.
  - apply Hrun; try done; [lia|]. intros E. unfold adr in *. destruct f2 as [|y f2]; cbn in *; [lia|].
    pose proof (hp_seg _ _ _ Hok) as H1. apply chained_app in H1 as (p & _ & _ & r' & _ & -> & r'' & Hy & _). by eexists.
  - eapply (joined_ok s A f1 x f2); try done; [intros y Hy; by apply Hf2'|lia|lia|intros y Hy; by apply Hf2'].
  - unfold fl. rewrite !length_app. unfold join_down. destruct (_ =? _); cbn [length]; lia.
  - rewrite units_joined. unfold fl. rewrite !units_app, !units_cons. lia.
  - intros u H1 H2. apply freed_mem_else; [done|]. intros ->. apply H1. unfold fl. rewrite fmap_app. clear.
    cbn [fmap list_fmap]. set_solver.
  - unfold join_down. destruct (_ =? _); [exists (x.1, x.2 + n')|exists (bp, n')]; (split; [clear; set_solver|cbn; lia]).
Qed.

(** The block [bp] of [n] units, not in use any more, goes to the free list. *)
Lemma free_at fuel s fl A A' bp n :
  heap_ok s fl A → (length fl ≤ fuel)%nat → h_base s < bp → 0 < n → bp + n ≤ brk s →
  h_size <$> hmem s !! bp = Some n → (∀ x, x ∈ fl → x.1 + x.2 ≤ bp ∨ bp + n ≤ x.1) →
  (∀ h k, A' !! h = Some k → A !! h = Some k ∧ h ≠ bp ∧ (bp + n ≤ h ∨ h + k ≤ bp)) →
  ∃ s' fl', free fuel (bp + 1) s = Ok tt s' ∧ heap_ok s' fl' A' ∧ (length fl' ≤ S (length fl))%nat ∧
    units_of fl' = units_of fl + n ∧ brk s' = brk s ∧ h_base s' = h_base s ∧
    (∀ u, u ∉ fst <$> fl → u ≠ bp → hmem s' !! u = hmem s !! u) ∧ ∃ y, y ∈ fl' ∧ n ≤ y.2.
Proof.
  intros Hok Hfuel Hbase Hn Hbrk Hsize Hdisj HA.
  destruct (free_place fuel s fl A bp n Hok Hfuel Hbase Hn Hdisj) as (f1 & x & f2 & -> & Hfind & Hx & Hx2 & Hf2 & Hmx).
  assert (Hseg : chained (hmem s) (adr f2 (h_base s) 0) f2 (h_base s)).
  { pose proof (hp_seg _ _ _ Hok) as H. apply chained_app in H as (p & _ & _ & r & Hr & H). by rewrite <- (chained_head _ _ _ _ H). }
  pose proof (hp_order _ _ _ Hok) as Ho. apply StronglySorted_app in Ho as (_ & _ & [_ O2]%StronglySorted_cons).
  pose proof (hp_brk _ _ _ Hok). pose proof (hp_base _ _ _ Hok).
  destruct (Z.eqb_spec (bp + n) (adr f2 (h_base s) 0)) as [Eup|Eup].
  - destruct f2 as [|y f3]; [unfold adr in Eup; cbn in Eup; lia|]. change (adr (y :: f3) (h_base s) 0) with y.1 in *.
    destruct Hseg as (_ & r & Hy & Hseg). apply StronglySorted_cons in O2 as [Hall O3]. rewrite Forall_forall in Hall.
    assert (Hyin : y ∈ f1 ++ x :: y :: f3) by (clear; set_solver). pose proof (hp_free _ _ _ Hok y Hyin).
    pose proof (hp_sizes _ _ _ _ Hok Hyin).
    apply (free_with fuel s A A' bp n f1 x (y :: f3) f3 (n + y.2) r); try done; try lia.
    + unfold join_up. change (adr (y :: f3) (h_base s) 0) with y.1. rewrite (proj2 (Z.eqb_eq _ _) Eup), Hy. cbn.
      rewrite u32_small by lia. done.
    + intros z Hz. split; [clear -Hz; set_solver|]. specialize (Hall z Hz). unfold gap in Hall. lia.
    + cbn [length]. lia.
    + intros h k Hh. destruct (HA h k Hh) as (Hh' & Hhb & Hd). split_and!; try done.
      destruct (hp_alloc _ _ _ Hok h k Hh') as (A1 & _). pose proof (hp_disj _ _ _ Hok h k y Hh' Hyin). lia.
    + rewrite units_cons. lia.
  - apply (free_with fuel s A A' bp n f1 x f2 f2 n (adr f2 (h_base s) 0)); try done.
    { unfold join_up. by rewrite (proj2 (Z.eqb_neq _ _) Eup). }
    intros y Hy. split; [done|]. destruct f2 as [|z f2]; [by apply not_elem_of_nil in Hy|]. unfold adr in Eup. cbn in Eup.
    specialize (Hf2 z ltac:(clear; set_solver)). apply elem_of_cons in Hy as [->|Hy]; [lia|].
    apply StronglySorted_cons in O2 as [Hall _]. rewrite Forall_forall in Hall. specialize (Hall y Hy). unfold gap in Hall.
    pose proof (hp_sizes _ _ _ z Hok ltac:(clear; set_solver)). lia.
Qed.

(** ** [malloc] *)

(** The blocks from the one after [freep] round to it. *)
Lemma rotation s fl A :
  heap_ok s fl A →
  ∃ f1 x f2, fl = f1 ++ x :: f2 ∧ x.1 = freep s ∧ ∃ p, hmem s !! freep s = Some (mk_header p x.2) ∧
    chained (hmem s) p (f2 ++ f1 ++ [x]) p.
Proof.
  intros Hok. destruct (proj1 (list_elem_of_fmap _ _ _) (hp_freep _ _ _ Hok)) as (x & Ex & Hx).
  apply list_elem_of_split in Hx as (f1 & f2 & ->). exists f1, x, f2. split_and!; [done|done|].
  pose proof (hp_seg _ _ _ Hok) as H. apply chained_app in H as (r & S1 & -> & p & Hp & S2).
  exists p. rewrite Ex. split; [done|]. apply chained_app. exists (h_base s). split; [done|].
  apply chained_app. exists x.1. split; [done|]. split; [done|]. by exists p.
Qed.

Lemma addr_inj s fl A x y : heap_ok s fl A → x ∈ fl → y ∈ fl → x.1 = y.1 → x = y.
Proof.
  intros Hok [i Hi]%list_elem_of_lookup [j Hj]%list_elem_of_lookup E.
  pose proof (hp_sizes _ _ _ _ Hok (list_elem_of_lookup_2 _ _ _ Hi)).
  pose proof (hp_sizes _ _ _ _ Hok (list_elem_of_lookup_2 _ _ _ Hj)).
  destruct (Nat.lt_trichotomy i j) as [Hlt|[->|Hlt]]; [|congruence|].
  - pose proof (hp_lt _ _ _ _ _ _ _ Hok Hi Hj Hlt) as G. unfold gap in G. lia.
  - pose proof (hp_lt _ _ _ _ _ _ _ Hok Hj Hi Hlt) as G. unfold gap in G. lia.
Qed.

(** A block is chained from one block only. *)
Lemma ptr_inj s fl A x y h h' :
  heap_ok s fl A → x ∈ fl → y ∈ fl → hmem s !! x.1 = Some h → hmem s !! y.1 = Some h' → h_ptr h = h_ptr h' → x = y.
Proof.
  intros Hok [i Hi]%list_elem_of_lookup [j Hj]%list_elem_of_lookup Hx Hy E.
  rewrite (chained_lookup _ _ _ _ _ _ (hp_seg _ _ _ Hok) Hi) in Hx. rewrite (chained_lookup _ _ _ _ _ _ (hp_seg _ _ _ Hok) Hj) in Hy.
  injection Hx as <-. injection Hy as <-. cbn [h_ptr] in E. unfold adr in E.
  assert (Hb : ∀ k z, fl !! S k = Some z → h_base s < z.1).
  { intros k z Hz. destruct (hp_first _ _ _ Hok) as (l & El & _).
    pose proof (hp_lt _ _ _ 0 (S k) (h_base s, 0) z Hok ltac:(by rewrite El) Hz ltac:(lia)) as G. unfold gap in G. cbn in G. lia. }
  destruct (fl !! S i) as [a|] eqn:Ea, (fl !! S j) as [b|] eqn:Eb; cbn in E.
  - assert (a = b) as -> by (eapply addr_inj; [exact Hok|by eapply list_elem_of_lookup_2..|done]).
    destruct (Nat.lt_trichotomy i j) as [Hlt|[->|Hlt]]; [|congruence|].
    + pose proof (hp_lt _ _ _ _ _ _ _ Hok Ea Eb ltac:(lia)) as G. unfold gap in G.
      pose proof (hp_sizes _ _ _ _ Hok (list_elem_of_lookup_2 _ _ _ Ea)). lia.
    + pose proof (hp_lt _ _ _ _ _ _ _ Hok Eb Ea ltac:(lia)) as G. unfold gap in G.
      pose proof (hp_sizes _ _ _ _ Hok (list_elem_of_lookup_2 _ _ _ Ea)). lia.
  - specialize (Hb _ _ Ea). lia.
  - specialize (Hb _ _ Eb). lia.
  - apply lookup_ge_None in Ea, Eb. pose proof (lookup_lt_Some _ _ _ Hi). pose proof (lookup_lt_Some _ _ _ Hj).
    assert (i = j) as -> by lia. congruence.
Qed.

(** A part [a] of the free block [x] is given out. *)
Lemma taken_ok s fl A fl' m' fp a nu x :
  heap_ok s fl A → chained m' (h_base s) fl' (h_base s) →
  (∃ l, fl' = (h_base s, 0) :: l ∧ Forall (λ x, 0 < x.2) l) → StronglySorted gap fl' → fp ∈ fst <$> fl' →
  (∀ z, z ∈ fl' → ∃ w, w ∈ fl ∧ z.1 = w.1 ∧ z.2 ≤ w.2) → (∀ z, z ∈ fl' → z.1 + z.2 ≤ a ∨ a + nu ≤ z.1) →
  x ∈ fl → x.1 ≤ a → a + nu ≤ x.1 + x.2 → 0 < nu → h_size <$> m' !! a = Some nu →
  (∀ u, u ≠ a → u ∉ fst <$> fl → m' !! u = hmem s !! u) →
  heap_ok (s <| hmem := m' |> <| freep := fp |>) fl' (<[a := nu]> A) ∧ A !! a = None.
Proof.
  intros Hok Hseg Hfirst Hord Hfp Hsub Hda Hx Hxa Hax Hnu Hsz Hm.
  destruct (hp_first_only _ _ _ x Hok Hx) as [->|[Hbx Hx2]]; [cbn in *; lia|].
  assert (HAa : ∀ h k, A !! h = Some k → h + k ≤ a ∨ a + nu ≤ h).
  { intros h k Hh. destruct (hp_alloc _ _ _ Hok h k Hh) as (? & _). destruct (hp_disj _ _ _ Hok h k x Hh Hx); lia. }
  assert (HA : A !! a = None).
  { destruct (A !! a) as [k|] eqn:E; [|done]. destruct (hp_alloc _ _ _ Hok a k E) as (? & _). destruct (HAa a k E); lia. }
  split; [|done]. split; rsimpl; try done; try apply Hok.
  - intros z Hz. destruct (Hsub z Hz) as (w & Hw & E1 & E2). pose proof (hp_free _ _ _ Hok w Hw). lia.
  - intros h k [[<- <-]|[Hne Hh]]%lookup_insert_Some.
    + split_and!; [done|lia| |done]. pose proof (hp_free _ _ _ Hok x Hx). lia.
    + destruct (hp_alloc _ _ _ Hok h k Hh) as (? & ? & ? & <-). split_and!; try done. f_equal. apply Hm; [done|].
      intros (w & -> & Hw)%list_elem_of_fmap. by apply (hp_alloc_ne _ _ _ _ _ _ Hok Hh Hw).
  - intros h k z [[<- <-]|[Hne Hh]]%lookup_insert_Some Hz; [by apply Hda|].
    destruct (Hsub z Hz) as (w & Hw & E1 & E2). destruct (hp_disj _ _ _ Hok h k w Hh Hw); lia.
  - intros h k h' k' [[<- <-]|[Hne Hh]]%lookup_insert_Some [[<- <-]|[Hne' Hh']]%lookup_insert_Some Hd; [done|..].
    + destruct (HAa _ _ Hh'); lia.
    + destruct (HAa _ _ Hh); lia.
    + by apply (hp_apart _ _ _ Hok).
Qed.

(** [sbrk]: it fails and changes nothing, or the memory from [p] on is added. *)
Class Sbrk (sbrk : Z → M heap Z) : Prop :=
  sbrk_ok n s : 0 < n →
    sbrk n s = Ok (-1) s ∨ ∃ p, brk s ≤ p ∧ p + n < 2 ^ 32 ∧ sbrk n s = Ok p (s <| brk := p + n |>).

(** A unit of the memory of a block in use, its header apart. *)
Definition in_use (A : gmap Z Z) (u : Z) : Prop := ∃ a k, A !! a = Some k ∧ a < u < a + k.

Section malloc.
  Context (sbrk : Z → M heap Z).

(** The loop goes over blocks that are too small. *)
Lemma malloc_walk c f nu prevp p q s :
  chained (hmem s) p c q → (∀ x, x ∈ c → x.2 < nu ∧ x.1 ≠ freep s) →
  malloc_loop sbrk (length c + f) nu prevp p s =
    malloc_loop sbrk f nu (default prevp (fst <$> last c)) q s.
Proof.
  revert prevp p. induction c as [|x c IH]; intros prevp p Hs Hc; [by rewrite Hs|].
  destruct Hs as (-> & r & Hr & Hs). destruct (Hc x ltac:(clear; set_solver)) as [Hx Hne]. cbn [length Nat.add malloc_loop].
  erewrite bind_ok by (by apply hget_eq). cbn [h_size h_ptr]. rewrite Z.geb_leb, (proj2 (Z.leb_gt _ _)) by lia.
  erewrite bind_ok; [|done]. rewrite (proj2 (Z.eqb_neq _ _)) by done. rewrite IH.
  - f_equal. rewrite last_cons. by destruct (last c).
  - done.
  - intros y Hy. apply Hc. set_solver.
Qed.

(** A block that is large enough is given out whole, or its end is. *)
Lemma malloc_whole fuel s (y x : Z * Z) q nu :
  hmem s !! y.1 = Some (mk_header x.1 y.2) → hmem s !! x.1 = Some (mk_header q nu) →
  malloc_loop sbrk fuel nu y.1 x.1 s =
    Ok (Some (x.1 + 1)) (s <| hmem := <[y.1 := mk_header q y.2]> (hmem s) |> <| freep := y.1 |>).
Proof.
  intros Hy Hx. destruct fuel; cbn [malloc_loop]; (erewrite bind_ok by (by apply hget_eq)); cbn [h_size h_ptr];
    rewrite Z.geb_leb, Z.leb_refl, Z.eqb_refl, bind_assoc; (erewrite bind_ok by (by apply hput_eq));
    unfold set_freep, mmod; cbn [h_ptr h_size]; f_equal; destruct s; by usetf.
Qed.

Definition split_mem (m : gmap Z header) (x : Z * Z) (q nu : Z) : gmap Z header :=
  <[x.1 + (x.2 - nu) := mk_header (default 0 (h_ptr <$> m !! (x.1 + (x.2 - nu)))) nu]> (<[x.1 := mk_header q (x.2 - nu)]> m).

Lemma malloc_split fuel s prevp (x : Z * Z) q nu :
  hmem s !! x.1 = Some (mk_header q x.2) → 0 < nu < x.2 → x.2 < 2 ^ 32 →
  malloc_loop sbrk fuel nu prevp x.1 s =
    Ok (Some (x.1 + (x.2 - nu) + 1)) (s <| hmem := split_mem (hmem s) x q nu |> <| freep := prevp |>).
Proof.
  intros Hx Hnu Hb. assert (H1 : hput x.1 (λ h, h <| h_size ::= λ n, u32 (n - nu) |>) s =
    Ok tt (s <| hmem := <[x.1 := mk_header q (x.2 - nu)]> (hmem s) |>)).
  { rewrite (hput_eq _ _ _ _ Hx). cbv beta. replace (x.2 - nu) with (u32 (x.2 - nu)) by (apply u32_small; lia). by usetf. }
  assert (H2 : hput (x.1 + (x.2 - nu)) (λ h, h <| h_size := nu |>) (s <| hmem := <[x.1 := mk_header q (x.2 - nu)]> (hmem s) |>) =
    Ok tt (s <| hmem := split_mem (hmem s) x q nu |>)).
  { rewrite hput_any. rsimpl. rewrite lookup_insert_ne by lia. unfold split_mem. f_equal. destruct s as [m b fp k]. usetf. cbn [hmem].
    do 2 f_equal. by destruct (m !! _) as [[]|]. }
  destruct fuel; cbn [malloc_loop]; (erewrite bind_ok by (by apply hget_eq)); cbn [h_size h_ptr];
    rewrite Z.geb_leb, (proj2 (Z.leb_le _ _)), (proj2 (Z.eqb_neq _ _)), bind_assoc by lia; (erewrite bind_ok by exact H1);
    rewrite bind_assoc; (erewrite bind_ok; [|apply hget_eq; rsimpl; by apply lookup_insert_eq]); cbn [h_size];
    rewrite bind_assoc; (erewrite bind_ok by exact H2); done.
Qed.

Lemma take_whole s A f1 y x f2 nu :
  let fl := f1 ++ y :: x :: f2 in
  heap_ok s fl A → 0 < nu → x.2 = nu →
  ∃ q, hmem s !! y.1 = Some (mk_header x.1 y.2) ∧ hmem s !! x.1 = Some (mk_header q nu) ∧
    heap_ok (s <| hmem := <[y.1 := mk_header q y.2]> (hmem s) |> <| freep := y.1 |>) (f1 ++ y :: f2) (<[x.1 := nu]> A) ∧
    A !! x.1 = None.
Proof.
  intros fl Hok Hnu Ex. assert (Hx : x ∈ fl) by (unfold fl; clear; set_solver).
  pose proof (hp_seg _ _ _ Hok) as Hs. unfold fl in Hs. apply chained_app in Hs as (p & S1 & -> & r & Hmy & -> & q & Hmx & S2).
  exists q. rewrite Ex in Hmx. split; [done|]. split; [done|].
  pose proof (hp_order _ _ _ Hok) as Ho. unfold fl in Ho.
  pose proof Ho as (O12 & O1 & O2)%StronglySorted_app. apply StronglySorted_cons in O2 as [Hy2 [Hx2 O2]%StronglySorted_cons].
  rewrite Forall_forall in Hy2, Hx2.
  assert (Hsub : ∀ z, z ∈ f1 ++ y :: f2 → z ∈ fl) by (unfold fl; clear; set_solver).
  assert (Hyx : gap y x) by (apply Hy2; clear; set_solver). unfold gap in Hyx.
  assert (Hy0 : 0 ≤ y.2) by (apply (hp_sizes _ _ _ _ Hok); unfold fl; clear; set_solver).
  apply (taken_ok s fl A _ _ _ _ _ x); try done.
  - apply chained_app. exists y.1. split.
    + eapply chained_frame; [|exact S1]. intros z Hz. apply lookup_insert_ne. assert (G : gap z y) by (apply O12; [done|clear; set_solver]).
      unfold gap in G. pose proof (hp_sizes _ _ _ z Hok (Hsub z ltac:(clear -Hz; set_solver))). lia.
    + split; [done|]. exists q. split; [by rewrite lookup_insert_eq|]. eapply chained_frame; [|exact S2].
      intros z Hz. apply lookup_insert_ne. assert (G : gap y z) by (apply Hy2; clear -Hz; set_solver). unfold gap in G. lia.
  - destruct (hp_first _ _ _ Hok) as (l & E & Hl). unfold fl in E. destruct f1 as [|w f1]; injection E as -> <-.
    + exists f2. split; [done|]. by apply Forall_cons in Hl as [_ Hl].
    + eexists. split; [done|]. rewrite Forall_forall in Hl |- *. intros z Hz. apply Hl. clear -Hz. set_solver.
  - apply StronglySorted_app. split_and!; [|done|].
    + intros a b Ha Hb. apply O12; [done|]. clear -Hb. set_solver.
    + apply StronglySorted_cons. split; [|done]. apply Forall_forall. intros z Hz. apply Hy2. clear -Hz. set_solver.
  - rewrite fmap_app. clear. cbn [fmap list_fmap]. set_solver.
  - intros z Hz. exists z. split_and!; [by apply Hsub|done|done].
  - intros z Hz. apply elem_of_app in Hz as [Hz|[->|Hz]%elem_of_cons].
    + assert (G : gap z x) by (apply O12; [done|clear; set_solver]). unfold gap in G. lia.
    + lia.
    + specialize (Hx2 z Hz). unfold gap in Hx2. lia.
  - lia.
  - rewrite lookup_insert_ne by lia. by rewrite Hmx.
  - intros u _ Hu. apply lookup_insert_ne. intros <-. apply Hu. unfold fl. rewrite fmap_app. clear. cbn [fmap list_fmap]. set_solver.
Qed.

Lemma take_split s A f1 y x f2 nu :
  let fl := f1 ++ y :: x :: f2 in
  heap_ok s fl A → 0 < nu < x.2 →
  ∃ q, hmem s !! x.1 = Some (mk_header q x.2) ∧
    heap_ok (s <| hmem := split_mem (hmem s) x q nu |> <| freep := y.1 |>) (f1 ++ y :: (x.1, x.2 - nu) :: f2)
      (<[x.1 + (x.2 - nu) := nu]> A) ∧
    A !! (x.1 + (x.2 - nu)) = None.
Proof.
  intros fl Hok Hnu. assert (Hx : x ∈ fl) by (unfold fl; clear; set_solver).
  pose proof (hp_seg _ _ _ Hok) as Hs. unfold fl in Hs.
  replace (f1 ++ y :: x :: f2) with ((f1 ++ [y]) ++ x :: f2) in Hs by (by rewrite <- app_assoc).
  apply chained_app in Hs as (p & S1 & -> & q & Hmx & S2). exists q. split; [done|].
  pose proof (hp_order _ _ _ Hok) as Ho. unfold fl in Ho.
  replace (f1 ++ y :: x :: f2) with ((f1 ++ [y]) ++ x :: f2) in Ho by (by rewrite <- app_assoc).
  apply StronglySorted_app in Ho as (O12 & O1 & [Hx2 O2]%StronglySorted_cons). rewrite Forall_forall in Hx2.
  assert (Hlo : ∀ z, z ∈ f1 ++ [y] → z.1 + z.2 < x.1 ∧ 0 ≤ z.2).
  { intros z Hz. split; [apply (O12 z x Hz); clear; set_solver|]. apply (hp_sizes _ _ _ _ Hok). unfold fl. clear -Hz. set_solver. }
  assert (Hhi : ∀ z, z ∈ f2 → x.1 + x.2 < z.1) by exact Hx2.
  assert (Hfr : ∀ u, u ≠ x.1 → u ≠ x.1 + (x.2 - nu) → split_mem (hmem s) x q nu !! u = hmem s !! u).
  { intros u H1 H2. unfold split_mem. by rewrite !lookup_insert_ne. }
  replace (f1 ++ y :: (x.1, x.2 - nu) :: f2) with ((f1 ++ [y]) ++ (x.1, x.2 - nu) :: f2) by (by rewrite <- app_assoc).
  apply (taken_ok s fl A _ _ _ _ _ x); try done.
  - apply chained_app. exists x.1. split.
    + eapply chained_frame; [|exact S1]. intros z Hz. destruct (Hlo z Hz). apply Hfr; lia.
    + split; [done|]. exists q. split; [unfold split_mem; rewrite lookup_insert_ne by lia; by rewrite lookup_insert_eq|].
      eapply chained_frame; [|exact S2]. intros z Hz. specialize (Hhi z Hz). apply Hfr; lia.
  - destruct (hp_first _ _ _ Hok) as (l & E & Hl). rewrite Forall_forall in Hl. unfold fl in E.
    destruct f1 as [|w f1]; injection E as -> <-; (eexists; split; [done|]); apply Forall_forall; cbn [app]; intros z Hz.
    + apply elem_of_cons in Hz as [->|Hz]; [cbn; lia|]. apply Hl. clear -Hz. set_solver.
    + destruct (decide (z = (x.1, x.2 - nu))) as [->|Hne]; [cbn; lia|]. apply Hl. clear -Hz Hne. set_solver.
  - apply StronglySorted_app. split_and!; [|done|].
    + intros a b Ha [->|Hb]%elem_of_cons; [unfold gap; cbn; by apply Hlo|]. apply O12; [done|]. clear -Hb. set_solver.
    + apply StronglySorted_cons. split; [|done]. apply Forall_forall. intros z Hz. specialize (Hhi z Hz). unfold gap. cbn. lia.
  - rewrite !fmap_app. clear. cbn [fmap list_fmap]. set_solver.
  - intros z [Hz|[->|Hz]%elem_of_cons]%elem_of_app.
    + exists z. split_and!; [unfold fl; clear -Hz; set_solver|done|done].
    + exists x. split_and!; [done|done|cbn; lia].
    + exists z. split_and!; [unfold fl; clear -Hz; set_solver|done|done].
  - intros z [Hz|[->|Hz]%elem_of_cons]%elem_of_app; [destruct (Hlo z Hz)|cbn|specialize (Hhi z Hz)]; lia.
  - lia.
  - lia.
  - lia.
  - unfold split_mem. by rewrite lookup_insert_eq.
  - intros u Hu Hin. apply Hfr; [|done]. intros ->. apply Hin. by apply list_elem_of_fmap_2.
Qed.

Lemma malloc_take fuel s A f1 y x f2 nu :
  let fl := f1 ++ y :: x :: f2 in
  heap_ok s fl A → 0 < nu ≤ x.2 →
  ∃ a s' fl', malloc_loop sbrk fuel nu y.1 x.1 s = Ok (Some (a + 1)) s' ∧ heap_ok s' fl' (<[a := nu]> A) ∧
    A !! a = None ∧ units_of fl' = units_of fl - nu ∧ (length fl' ≤ length fl)%nat ∧ brk s' = brk s ∧ h_base s' = h_base s ∧
    (∀ u, u ∉ fst <$> fl → u ≠ a → hmem s' !! u = hmem s !! u).
Proof.
  intros fl Hok Hnu. destruct (decide (x.2 = nu)) as [Ex|Ex].
  - destruct (take_whole s A f1 y x f2 nu Hok) as (q & Hy & Hx & Hok' & HA); [lia|done|].
    eexists x.1, _, _. split_and!; [by apply malloc_whole|exact Hok'|done|..].
    + unfold fl. rewrite !units_app, !units_cons. lia.
    + unfold fl. rewrite !length_app. cbn [length]. lia.
    + done.
    + done.
    + intros u Hu _. rsimpl. apply lookup_insert_ne. intros <-. apply Hu. unfold fl. rewrite fmap_app. clear. cbn [fmap list_fmap]. set_solver.
  - destruct (take_split s A f1 y x f2 nu Hok) as (q & Hx & Hok' & HA); [lia|].
    assert (Hin : x ∈ fl) by (unfold fl; clear; set_solver).
    pose proof (hp_free _ _ _ Hok x Hin). pose proof (hp_brk _ _ _ Hok). pose proof (hp_base _ _ _ Hok). pose proof (hp_base_le _ _ _ x Hok Hin).
    eexists _, _, _. split_and!; [apply malloc_split; [done|lia|lia]|exact Hok'|done|..].
    + unfold fl. rewrite !units_app, !units_cons. cbn [snd]. lia.
    + unfold fl. rewrite !length_app. cbn [length]. lia.
    + done.
    + done.
    + intros u Hu Ha. rsimpl. unfold split_mem. rewrite !lookup_insert_ne; [done|intros <-; apply Hu; by apply list_elem_of_fmap_2|done].
Qed.

(** The first block that is large enough, and where it is in the list. *)
Lemma first_fit (P : Z * Z → Prop) `{!∀ x, Decision (P x)} cs x :
  x ∈ cs → P x → ∃ c1 y c2, cs = c1 ++ y :: c2 ∧ P y ∧ ∀ z, z ∈ c1 → ¬ P z.
Proof.
  induction cs as [|z cs IH]; [by intros ?%not_elem_of_nil|]. intros Hx Hp.
  destruct (decide (P z)) as [Hz|Hz]; [exists [], z, cs; split_and!; [done|done|by intros ? ?%not_elem_of_nil]|].
  apply elem_of_cons in Hx as [->|Hx]; [done|]. destruct (IH Hx Hp) as (c1 & y & c2 & -> & Hy & H1).
  exists (z :: c1), y, c2. split_and!; [done|done|]. intros u [->|Hu]%elem_of_cons; [done|by apply H1].
Qed.

(** The block the list has before a block that is not [base]. *)
Lemma before s fl A x :
  heap_ok s fl A → x ∈ fl → 0 < x.2 →
  ∃ f1 y f2, fl = f1 ++ y :: x :: f2 ∧ hmem s !! y.1 = Some (mk_header x.1 y.2).
Proof.
  intros Hok Hx Hx2. apply list_elem_of_split in Hx as (f & f2 & E). destruct f as [|y f1 _] using rev_ind.
  { destruct (hp_first _ _ _ Hok) as (l & El & _). rewrite E in El. cbn in El. injection El as -> _. cbn in Hx2. lia. }
  exists f1, y, f2. assert (E' : fl = f1 ++ y :: x :: f2) by (rewrite E; by rewrite <- app_assoc). split; [done|].
  pose proof (hp_seg _ _ _ Hok) as Hs. rewrite E' in Hs. apply chained_app in Hs as (p & S1 & -> & r & Hmy & -> & _). done.
Qed.

Lemma rot_ne s A g1 w g2 u : heap_ok s (g1 ++ w :: g2) A → u ∈ g2 ++ g1 → u.1 ≠ w.1.
Proof.
  intros Hok Hu E. pose proof (hp_order _ _ _ Hok) as Ho. apply StronglySorted_app in Ho as (O12 & _ & [Hw _]%StronglySorted_cons).
  rewrite Forall_forall in Hw. pose proof (hp_sizes _ _ _ u Hok ltac:(clear -Hu; set_solver)).
  pose proof (hp_sizes _ _ _ w Hok ltac:(clear; set_solver)).
  apply elem_of_app in Hu as [Hu|Hu]; [specialize (Hw u Hu); unfold gap in Hw; lia|].
  assert (G : gap u w) by (apply O12; [done|clear; set_solver]). unfold gap in G. lia.
Qed.

(** From [freep] round, the loop comes to a block that is large enough. *)
Lemma scan_big fuel s fl A nu x h :
  heap_ok s fl A → 0 < nu → x ∈ fl → nu ≤ x.2 → (length fl ≤ fuel)%nat → hmem s !! freep s = Some h →
  ∃ f f1 y z f2, malloc_loop sbrk fuel nu (freep s) (h_ptr h) s = malloc_loop sbrk f nu y.1 z.1 s ∧
    fl = f1 ++ y :: z :: f2 ∧ nu ≤ z.2.
Proof.
  intros Hok Hnu Hx Hle Hfuel Hh. destruct (rotation s fl A Hok) as (g1 & w & g2 & Efl & Ew & p & Hp & Hs).
  rewrite Hp in Hh. injection Hh as <-. cbn [h_ptr].
  assert (Hcs : ∀ z, z ∈ g2 ++ g1 ++ [w] ↔ z ∈ fl) by (rewrite Efl; clear; set_solver).
  destruct (first_fit (λ z, nu ≤ z.2) _ x (proj2 (Hcs x) Hx) Hle) as (c1 & z & c2 & Ec & Hz & Hc1).
  assert (Hlen : (length c1 < length fl)%nat).
  { apply (f_equal length) in Ec. rewrite !length_app in Ec. rewrite Efl, length_app. cbn [length] in *. lia. }
  rewrite Ec in Hs, Hcs. apply chained_app in Hs as (r & S1 & -> & r' & Hmz & S2).
  assert (Hzin : z ∈ fl) by (apply Hcs; clear; set_solver).
  destruct (before s fl A z Hok Hzin ltac:(lia)) as (f1 & y & f2 & E & Hy).
  assert (Hsmall : ∀ u, u ∈ c1 → u.2 < nu ∧ u.1 ≠ freep s).
  { intros u Hu. split; [specialize (Hc1 u Hu); lia|]. rewrite <- Ew. intros Eu.
    assert (u ∈ g2 ++ g1).
    { destruct c2 as [|v c2 _] using rev_ind; [|].
      - rewrite app_assoc in Ec. apply app_inj_tail in Ec as [-> _]. done.
      - rewrite app_assoc, app_comm_cons, (app_assoc c1) in Ec. apply app_inj_tail in Ec as [-> _]. clear -Hu. set_solver. }
    subst fl. by apply (rot_ne s A g1 w g2 u). }
  exists (fuel - length c1)%nat, f1, y, z, f2. split_and!; [|done|done].
  replace fuel with (length c1 + (fuel - length c1))%nat at 1 by lia. rewrite (malloc_walk c1 _ _ _ _ _ s S1 Hsmall). f_equal.
  assert (Hprev : ∃ v k, v ∈ fl ∧ v.1 = default (freep s) (fst <$> last c1) ∧ hmem s !! v.1 = Some (mk_header z.1 k)).
  { destruct c1 as [|v c1 _] using rev_ind.
    - cbn in S1. exists w, w.2. split_and!; [rewrite Efl; clear; set_solver|done|]. rewrite Ew, Hp. by rewrite S1.
    - exists v, v.2. rewrite last_snoc. split_and!; [apply Hcs; clear; set_solver|done|].
      apply chained_app in S1 as (a & _ & -> & b & Hb & <-). done. }
  destruct Hprev as (v & k & Hv & <- & Hvm). f_equal.
  eapply (ptr_inj s fl A v y); [done|done|rewrite E; clear; set_solver|done|done|done].
Qed.

Lemma scan_ok fuel s fl A nu x h :
  heap_ok s fl A → 0 < nu → x ∈ fl → nu ≤ x.2 → (length fl ≤ fuel)%nat → hmem s !! freep s = Some h →
  ∃ a s' fl', malloc_loop sbrk fuel nu (freep s) (h_ptr h) s = Ok (Some (a + 1)) s' ∧ heap_ok s' fl' (<[a := nu]> A) ∧
    A !! a = None ∧ units_of fl' = units_of fl - nu ∧ (length fl' ≤ length fl)%nat ∧ brk s' = brk s ∧ h_base s' = h_base s ∧
    (∀ u, u ∉ fst <$> fl → u ≠ a → hmem s' !! u = hmem s !! u).
Proof.
  intros Hok Hnu Hx Hle Hfuel Hh. destruct (scan_big fuel s fl A nu x h) as (f & f1 & y & z & f2 & -> & E & Hz); try done.
  subst fl. by apply malloc_take.
Qed.

(** If no block is, it comes back to [freep] and asks for more memory. *)
Lemma scan_small fuel s fl A nu h :
  heap_ok s fl A → (∀ x, x ∈ fl → x.2 < nu) → hmem s !! freep s = Some h →
  malloc_loop sbrk (length fl + fuel) nu (freep s) (h_ptr h) s =
    (r ← morecore sbrk (S fuel) nu;
     match r with
     | None => mret None
     | Some p => h ← hget p; malloc_loop sbrk fuel nu p (h_ptr h)
     end) s.
Proof.
  intros Hok Hs Hh. destruct (rotation s fl A Hok) as (g1 & w & g2 & -> & Ew & p & Hp & Hseg).
  rewrite Hp in Hh. injection Hh as <-. cbn [h_ptr].
  rewrite app_assoc in Hseg. apply chained_app in Hseg as (r & S1 & -> & q & Hq & _).
  replace (length (g1 ++ w :: g2) + fuel)%nat with (length (g2 ++ g1) + S fuel)%nat by (rewrite !length_app; cbn [length]; lia).
  rewrite (malloc_walk (g2 ++ g1) _ _ _ _ _ s S1).
  - cbn [malloc_loop]. erewrite bind_ok by (by apply hget_eq). cbn [h_size].
    rewrite Z.geb_leb, (proj2 (Z.leb_gt _ _)) by (apply Hs; clear; set_solver).
    erewrite bind_ok; [|done]. rewrite (proj2 (Z.eqb_eq _ _)) by done. done.
  - intros u Hu. split; [apply Hs; clear -Hu; set_solver|]. rewrite <- Ew. by apply (rot_ne s A g1 w g2).
Qed.

(** More memory at the end of the heap changes no block. *)
Lemma heap_grown s fl A p n h :
  heap_ok s fl A → brk s ≤ p → 0 < n → p + n < 2 ^ 32 →
  heap_ok (s <| brk := p + n |> <| hmem := <[p := h]> (hmem s) |>) fl A.
Proof.
  intros Hok Hp Hn Hb. pose proof (hp_brk _ _ _ Hok) as Hbrk. pose proof (hp_base _ _ _ Hok).
  split; rsimpl; try apply Hok.
  - eapply chained_frame; [|apply Hok]. intros x Hx. apply lookup_insert_ne.
    pose proof (hp_free _ _ _ Hok x Hx). destruct (hp_first_only _ _ _ x Hok Hx) as [->|[? ?]]; cbn in *; lia.
  - lia.
  - intros x Hx. pose proof (hp_free _ _ _ Hok x Hx). lia.
  - intros a k Ha. destruct (hp_alloc _ _ _ Hok a k Ha) as (? & ? & ? & <-). split_and!; [done|done|lia|].
    f_equal. apply lookup_insert_ne. lia.
Qed.

Context `{!Sbrk sbrk}.

Lemma morecore_ok fuel s fl A nu :
  heap_ok s fl A → 0 < nu → (length fl ≤ fuel)%nat →
  (sbrk (Z.max 4096 nu) s = Ok (-1) s ∧ morecore sbrk fuel nu s = Ok None s) ∨
  ∃ s' fl' y, morecore sbrk fuel nu s = Ok (Some (freep s')) s' ∧ heap_ok s' fl' A ∧ (length fl' ≤ S (length fl))%nat ∧
    h_base s' = h_base s ∧ (∀ u, u ∉ fst <$> fl → u < brk s → hmem s' !! u = hmem s !! u) ∧ brk s ≤ brk s' ∧
    y ∈ fl' ∧ nu ≤ y.2.
Proof.
  intros Hok Hnu Hfuel. unfold morecore. set (n := if nu <? 4096 then 4096 else nu).
  assert (En : n = Z.max 4096 nu) by (unfold n; destruct (Z.ltb_spec nu 4096); lia). rewrite <- En.
  pose proof (hp_brk _ _ _ Hok) as Hbrk. pose proof (hp_base _ _ _ Hok).
  destruct (sbrk_ok n s ltac:(lia)) as [E|(p & Hp & Hpn & E)]; [left|right]; (erewrite bind_ok by exact E).
  { done. }
  rewrite (proj2 (Z.eqb_neq p (-1))) by lia. erewrite bind_ok by (apply hput_any). rsimpl.
  set (h := (default _ _) <| h_size := n |>).
  destruct (free_at fuel (s <| brk := p + n |> <| hmem := <[p := h]> (hmem s) |>) fl A A p n) as
    (s' & fl' & Hf & Hok' & Hl & _ & Hb' & Hbase & Hm & y & Hy & Hyn); rsimpl; try done; try lia.
  { apply heap_grown; done || lia. }
  { by rewrite lookup_insert_eq. }
  { intros x Hx. pose proof (hp_free _ _ _ Hok x Hx). lia. }
  { intros a k Ha. destruct (hp_alloc _ _ _ Hok a k Ha) as (? & ? & ? & _). split_and!; [done|lia|lia]. }
  exists s', fl', y. rsimpl_in_all. erewrite bind_ok by exact Hf. split_and!; try done; try lia.
  intros u H1 H2. rewrite Hm by (done || lia). apply lookup_insert_ne. lia.
Qed.

Lemma in_use_free s fl A u : heap_ok s fl A → in_use A u → (u ∉ fst <$> fl) ∧ u < brk s.
Proof.
  intros Hok (a & k & Ha & Hu). destruct (hp_alloc _ _ _ Hok a k Ha) as (? & ? & ? & _). split; [|lia].
  intros (x & -> & Hx)%list_elem_of_fmap. pose proof (hp_sizes _ _ _ x Hok Hx). destruct (hp_disj _ _ _ Hok a k x Ha Hx); lia.
Qed.

Lemma in_use_new s fl A u a k : heap_ok s fl (<[a := k]> A) → A !! a = None → in_use A u → u ≠ a.
Proof.
  intros Hok Ha (b & n & Hb & Hu) ->. assert (b ≠ a) by congruence.
  destruct (hp_apart _ _ _ Hok b n a k) as [|]; rewrite ?lookup_insert_eq, ?lookup_insert_ne by done; try done;
    destruct (hp_alloc _ _ _ Hok a k) as (? & _); rewrite ?lookup_insert_eq; done || lia.
Qed.

(** The loop, with the call of [morecore] if no block is large enough. *)
Lemma malloc_loop_ok fuel s fl A nu h :
  heap_ok s fl A → 0 < nu → (2 * length fl + 2 ≤ fuel)%nat → hmem s !! freep s = Some h →
  (malloc_loop sbrk fuel nu (freep s) (h_ptr h) s = Ok None s ∧ sbrk (Z.max 4096 nu) s = Ok (-1) s ∧ ∀ x, x ∈ fl → x.2 < nu) ∨
  ∃ a s' fl', malloc_loop sbrk fuel nu (freep s) (h_ptr h) s = Ok (Some (a + 1)) s' ∧ heap_ok s' fl' (<[a := nu]> A) ∧
    A !! a = None ∧ (length fl' ≤ S (length fl))%nat ∧ h_base s' = h_base s ∧ brk s ≤ brk s' ∧
    (∀ u, in_use A u → hmem s' !! u = hmem s !! u).
Proof.
  intros Hok Hnu Hfuel Hh. pose proof (hp_brk _ _ _ Hok) as Hbrk.
  destruct (decide (Exists (λ x : Z * Z, (nu ≤ x.2)) fl)) as [(x & Hx & Hle)%list.Exists_exists|Hsmall]; [right|].
  { destruct (scan_ok fuel s fl A nu x h) as (a & s' & fl' & E & Hok' & HA & _ & Hl & Hb & Hbase & Hm); try done; [lia|].
    exists a, s', fl'. split_and!; try done; [lia|lia|]. intros u Hu. apply Hm; [by eapply in_use_free|by eapply in_use_new]. }
  assert (Hs : ∀ x, x ∈ fl → x.2 < nu).
  { intros x Hx. destruct (decide (x.2 < nu)); [done|]. exfalso. apply Hsmall. apply list.Exists_exists. exists x. split; [done|lia]. }
  replace fuel with (length fl + (fuel - length fl))%nat by lia. rewrite (scan_small _ s fl A nu h Hok Hs Hh).
  destruct (morecore_ok (S (fuel - length fl)) s fl A nu) as [[Hr E]|(s1 & fl1 & y & E & Hok1 & Hl1 & Hb1 & Hm1 & Hbrk1 & Hy & Hny)];
    try done; [lia|left|right]; (erewrite bind_ok by exact E); [done|].
  destruct (rotation s1 fl1 A Hok1) as (_ & w & _ & _ & _ & p & Hp & _). erewrite bind_ok by (by apply hget_eq).
  destruct (scan_ok (fuel - length fl) s1 fl1 A nu y (mk_header p w.2)) as (a & s' & fl' & E' & Hok' & HA & _ & Hl & Hb & Hbase & Hm);
    try done; [lia|].
  exists a, s', fl'. split_and!; [done|done|done|lia|congruence|lia|]. intros u Hu.
  destruct (in_use_free s1 fl1 A u Hok1 Hu) as [F1 _]. destruct (in_use_free s fl A u Hok Hu) as [F2 F3].
  rewrite Hm, Hm1; try done. by eapply in_use_new.
Qed.

Lemma units_pos nbytes : 0 ≤ nbytes < 2 ^ 32 → 0 < units nbytes ∧ nbytes ≤ 16 * (units nbytes - 1).
Proof. intros Hn. unfold units. pose proof (Z.div_mod (nbytes + 16 - 1) 16). pose proof (Z.mod_pos_bound (nbytes + 16 - 1) 16).
  set (q := (nbytes + 16 - 1) / 16) in *. rewrite u32_small; lia. Qed.

(** What [malloc] starts from: nothing was allocated yet. *)
Definition heap_fresh (s : heap) : Prop := freep s = 0 ∧ 0 < h_base s < brk s ∧ brk s < 2 ^ 32.

Definition started (s : heap) : heap :=
  s <| hmem := <[h_base s := mk_header (h_base s) 0]> (hmem s) |> <| freep := h_base s |>.

Lemma malloc_first fuel nbytes s : heap_fresh s → malloc sbrk fuel nbytes s = malloc sbrk fuel nbytes (started s).
Proof using.
  intros (Hf & Hb & _). unfold malloc. erewrite bind_ok by done. symmetry. erewrite bind_ok by done. symmetry.
  unfold started. rsimpl. rewrite Hf, Z.eqb_refl, (proj2 (Z.eqb_neq _ _)) by lia.
  rewrite bind_assoc. erewrite bind_ok by done. rewrite bind_assoc. erewrite bind_ok by (apply hput_any).
  rewrite bind_assoc. erewrite bind_ok by done. rewrite bind_assoc. erewrite bind_ok by (apply hput_any).
  rsimpl. rewrite lookup_insert_eq. cbn [default from_option id]. by rewrite insert_insert_eq.
Qed.

Lemma started_ok s : heap_fresh s → heap_ok (started s) [(h_base s, 0)] ∅.
Proof using.
  intros (Hf & Hb & Hk). unfold started. split; rsimpl; try done; try lia.
  - split; [done|]. eexists. by rewrite lookup_insert_eq.
  - by exists [].
  - apply StronglySorted_cons. split; [done|constructor].
  - clear. cbn [fmap list_fmap fst]. set_solver.
  - intros x ->%list_elem_of_singleton. cbn. lia.
Qed.

Lemma malloc_ok fuel s fl A nbytes :
  heap_ok s fl A → 0 ≤ nbytes < 2 ^ 32 → (2 * length fl + 2 ≤ fuel)%nat →
  (malloc sbrk fuel nbytes s = Ok None s ∧ sbrk (Z.max 4096 (units nbytes)) s = Ok (-1) s) ∨
  ∃ a s' fl', malloc sbrk fuel nbytes s = Ok (Some (a + 1)) s' ∧ heap_ok s' fl' (<[a := units nbytes]> A) ∧
    A !! a = None ∧ (length fl' ≤ S (length fl))%nat ∧ h_base s' = h_base s ∧ brk s ≤ brk s' ∧
    (∀ u, in_use A u → hmem s' !! u = hmem s !! u).
Proof using All.
  intros Hok Hn Hfuel. destruct (units_pos nbytes Hn) as [Hnu _].
  destruct (rotation s fl A Hok) as (g1 & w & g2 & E & Ew & p & Hp & _).
  assert (Hf0 : freep s ≠ 0).
  { rewrite <- Ew. pose proof (hp_base _ _ _ Hok). pose proof (hp_base_le _ _ _ w Hok ltac:(rewrite E; clear; set_solver)). lia. }
  unfold malloc. erewrite bind_ok by done. rewrite (proj2 (Z.eqb_neq _ _)) by done. erewrite bind_ok by done.
  erewrite bind_ok by (by apply hget_eq).
  destruct (malloc_loop_ok fuel s fl A (units nbytes) (mk_header p w.2)) as [(H1 & H2 & _)|H1]; try done; [by left|by right].
Qed.

(** ** A program that calls [malloc] and [free] *)

(** What a program may do: get a block, free a block it has, write a unit of a
    block it has.  [A] has the blocks in use and their sizes, [W] what the
    program wrote to them, [n] counts the operations. *)
Inductive program (fuel : nat) : nat → heap → gmap Z Z → gmap Z header → Prop :=
  | u_start s : heap_fresh s → program fuel 0 s ∅ ∅
  | u_malloc n s A W nbytes r s' :
      program fuel n s A W → 0 ≤ nbytes < 2 ^ 32 → malloc sbrk fuel nbytes s = Ok r s' →
      program fuel (S n) s' (match r with Some p => <[p - 1 := units nbytes]> A | None => A end) W
  | u_free n s A W p k s' :
      program fuel n s A W → A !! (p - 1) = Some k → free fuel p s = Ok tt s' →
      program fuel (S n) s' (delete (p - 1) A) (filter (λ '(u, _), ¬ (p - 1 < u < p - 1 + k)) W)
  | u_write n s A W u h :
      program fuel n s A W → in_use A u →
      program fuel (S n) (s <| hmem := <[u := h]> (hmem s) |>) A (<[u := h]> W).

(** The heap after [n] operations. *)
Definition program_ok (n : nat) (s : heap) (A : gmap Z Z) (W : gmap Z header) : Prop :=
  (heap_fresh s ∧ A = ∅ ∨ ∃ fl, heap_ok s fl A ∧ (length fl ≤ S n)%nat) ∧
  (∀ u h, W !! u = Some h → in_use A u ∧ hmem s !! u = Some h).

Lemma in_use_insert A a k u : A !! a = None → in_use A u → in_use (<[a := k]> A) u.
Proof using. intros Ha (b & n & Hb & Hu). exists b, n. rewrite lookup_insert_ne by congruence. done. Qed.

Lemma program_state n s A W : program_ok n s A W → ∃ fl t, heap_ok t fl A ∧ (length fl ≤ S n)%nat ∧
  (∀ fuel nbytes, malloc sbrk fuel nbytes s = malloc sbrk fuel nbytes t) ∧ brk t = brk s ∧
  (∀ u h, W !! u = Some h → in_use A u ∧ hmem t !! u = Some h).
Proof using.
  intros [[[Hf ->]|(fl & Hok & Hl)] HW].
  - exists [(h_base s, 0)], (started s). split_and!; [by apply started_ok|cbn; lia|intros; by apply malloc_first|done|].
    intros u h Hu. destruct (HW u h Hu) as [(a & k & Ha & _) _]. by rewrite lookup_empty in Ha.
  - by exists fl, s.
Qed.

Lemma program_malloc fuel n s A W nbytes :
  program_ok n s A W → 0 ≤ nbytes < 2 ^ 32 → (2 * n + 4 ≤ fuel)%nat →
  ∃ r s', malloc sbrk fuel nbytes s = Ok r s' ∧
    program_ok (S n) s' (match r with Some p => <[p - 1 := units nbytes]> A | None => A end) W ∧
    match r with
    | Some p => A !! (p - 1) = None
    | None => ∃ t, brk t = brk s ∧ sbrk (Z.max 4096 (units nbytes)) t = Ok (-1) t
    end.
Proof using All.
  intros Hu Hn Hfuel. destruct (program_state n s A W Hu) as (fl & t & Hok & Hl & Hm & Hb & HW). rewrite Hm.
  destruct (malloc_ok fuel t fl A nbytes Hok Hn) as [[E Hs]|(a & s' & fl' & E & Hok' & Ha & Hl' & _ & _ & Hmem)]; [lia|..].
  - exists None, t. split_and!; [done| |by exists t]. split; [|done]. right. exists fl. split; [done|lia].
  - exists (Some (a + 1)), s'. rewrite Z.add_simpl_r. split_and!; [done| |done]. split.
    + right. exists fl'. split; [done|lia].
    + intros u h Hh. destruct (HW u h Hh) as [Hi Hh']. split; [by apply in_use_insert|]. by rewrite Hmem.
Qed.

Lemma program_free fuel n s A W p k :
  program_ok n s A W → A !! (p - 1) = Some k → (n + 1 ≤ fuel)%nat →
  ∃ s' fl', free fuel p s = Ok tt s' ∧ heap_ok s' fl' (delete (p - 1) A) ∧
    program_ok (S n) s' (delete (p - 1) A) (filter (λ '(u, _), ¬ (p - 1 < u < p - 1 + k)) W).
Proof using.
  intros [[[_ ->]|(fl & Hok & Hl)] HW] Hp Hfuel; [by rewrite lookup_empty in Hp|].
  destruct (hp_alloc _ _ _ Hok _ _ Hp) as (Hk & Hb & Hkb & Hsz).
  destruct (free_at fuel s fl A (delete (p - 1) A) (p - 1) k) as (s' & fl' & E & Hok' & Hl' & _ & _ & _ & Hm & _); try done; [lia|..].
  { intros x Hx. by apply (hp_disj _ _ _ Hok). }
  { intros h n' [Hne Hh]%lookup_delete_Some. split_and!; try done. destruct (hp_apart _ _ _ Hok _ _ _ _ Hp Hh Hne); lia. }
  rewrite Z.sub_add in E. exists s', fl'. split; [done|]. split; [done|]. split; [right; exists fl'; split; [done|lia]|].
  intros u h [Hh Hnot]%map_lookup_filter_Some. destruct (HW u h Hh) as [Hi Hh'].
  assert (Hi' : in_use (delete (p - 1) A) u).
  { destruct Hi as (a & m & Ha & Hau). exists a, m. split; [|done]. rewrite lookup_delete_ne; [done|]. intros <-.
    rewrite Hp in Ha. injection Ha as <-. by apply Hnot. }
  split; [done|]. rewrite Hm; [done|by eapply in_use_free|]. intros ->.
  destruct Hi' as (a & m & [Hne Ha]%lookup_delete_Some & Hau). destruct (hp_apart _ _ _ Hok _ _ _ _ Hp Ha Hne); lia.
Qed.

Lemma program_write n s A W u h : program_ok n s A W → in_use A u → program_ok (S n) (s <| hmem := <[u := h]> (hmem s) |>) A (<[u := h]> W).
Proof using.
  intros [[[_ ->]|(fl & Hok & Hl)] HW] Hu; [destruct Hu as (a & k & Ha & _); by rewrite lookup_empty in Ha|].
  split; rsimpl.
  - right. exists fl. split; [|lia]. destruct (in_use_free _ _ _ _ Hok Hu) as [Hf _]. destruct Hu as (b & n' & Hb & Hu).
    split; rsimpl; try apply Hok.
    + eapply chained_frame; [|apply Hok]. intros x Hx. apply lookup_insert_ne. intros ->. apply Hf. by apply list_elem_of_fmap_2.
    + intros a k Ha. destruct (hp_alloc _ _ _ Hok a k Ha) as (? & ? & ? & <-). split_and!; try done. f_equal. apply lookup_insert_ne.
      intros ->. assert (Hne : b ≠ a) by lia. destruct (hp_apart _ _ _ Hok b n' a k Hb Ha Hne); lia.
  - intros v g [[<- <-]|[Hne Hv]]%lookup_insert_Some; [by rewrite lookup_insert_eq|]. rewrite lookup_insert_ne by done. by apply HW.
Qed.

Lemma program_holds fuel n s A W : program fuel n s A W → (2 * n + 4 ≤ fuel)%nat → program_ok n s A W.
Proof using All.
  induction 1 as [s Hs|n s A W nb r s' _ IH Hn E|n s A W p k s' _ IH Hp E|n s A W u h _ IH Hu]; intros Hfuel.
  - split; [by left|]. intros u h Hu. by rewrite lookup_empty in Hu.
  - destruct (program_malloc fuel n s A W nb) as (r' & s1 & E' & H1 & _); [apply IH; lia|done|lia|].
    rewrite E in E'. by injection E' as <- <-.
  - destruct (program_free fuel n s A W p k) as (s1 & fl & E' & _ & H1); [apply IH; lia|done|lia|]. rewrite E in E'. by injection E' as <-.
  - apply program_write; [apply IH; lia|done].
Qed.

(** C28: umalloc.c as a program sees it.  Whatever sequence of [malloc], [free] of
    blocks it has and writes to the memory of its blocks a program makes: the free
    list stays circular, ordered by address and without two adjacent blocks, the
    blocks in use are disjoint from one another and from the free ones; every unit
    a program wrote to a block it still has keeps what was written; every further
    [malloc] returns, either a new block apart from those in use, with room for
    the bytes asked for, or null, and null only if [sbrk] refused the memory; and
    every [free] of a block in use returns. *)
Theorem malloc_free fuel n s A W :
  program fuel n s A W → (2 * n + 4 ≤ fuel)%nat →
  (A ≠ ∅ → ∃ fl, heap_ok s fl A) ∧
  (∀ u h, W !! u = Some h → in_use A u ∧ hmem s !! u = Some h) ∧
  (∀ nbytes, 0 ≤ nbytes < 2 ^ 32 → ∃ r s', malloc sbrk fuel nbytes s = Ok r s' ∧
    match r with
    | Some p => A !! (p - 1) = None ∧ nbytes ≤ 16 * (units nbytes - 1) ∧
        ∃ fl, heap_ok s' fl (<[p - 1 := units nbytes]> A)
    | None => ∃ t, brk t = brk s ∧ sbrk (Z.max 4096 (units nbytes)) t = Ok (-1) t
    end) ∧
  (∀ p k, A !! (p - 1) = Some k → ∃ s' fl, free fuel p s = Ok tt s' ∧ heap_ok s' fl (delete (p - 1) A)).
Proof using All.
  intros Hu Hfuel. pose proof (program_holds fuel n s A W Hu Hfuel) as Hused. split_and!.
  - intros HA. destruct Hused as [[[_ ->]|(fl & Hok & _)] _]; [done|by exists fl].
  - apply Hused.
  - intros nb Hn. destruct (program_malloc fuel n s A W nb Hused Hn Hfuel) as (r & s' & E & Hok & Hr). exists r, s'. split; [done|].
    destruct r as [p|]; [|done]. destruct (units_pos nb Hn) as [_ Hroom]. split_and!; [done|done|].
    destruct Hok as [[[_ E0]|(fl & Hok & _)] _]; [by apply insert_non_empty in E0|by exists fl].
  - intros p k Hp. destruct (program_free fuel n s A W p k Hused Hp ltac:(lia)) as (s' & fl & E & Hok & _). by exists s', fl.
Qed.
End malloc.

(** ** A run *)

(** A process that can grow to 2^20 units. *)
Definition sbrk_to (n : Z) : M heap Z := λ s,
  if brk s + n <? 2 ^ 20 then Ok (brk s) (s <| brk := brk s + n |>) else Ok (-1) s.

#[export] Instance sbrk_to_ok : Sbrk sbrk_to.
Proof.
  intros n s Hn. unfold sbrk_to. destruct (Z.ltb_spec (brk s + n) (2 ^ 20)); [right|by left].
  exists (brk s). split_and!; [done|lia|done].
Qed.

Definition state_of {A} (r : res heap A) : heap := match r with Ok _ s | Stop _ s => s end.

Definition heap0 : heap := mk_heap ∅ 64 0 256.
Definition heap1 : heap := state_of (malloc sbrk_to 20 100 heap0).
Definition heap2 : heap := state_of (malloc sbrk_to 20 (2 ^ 16) heap1).
Definition heap3 : heap := heap2 <| hmem := <[4346 := mk_header 7 7]> (hmem heap2) |>.
Definition heap4 : heap := state_of (free 20 4353 heap3).

Definition kept : gmap Z header := filter (λ '(u, _), ¬ (4353 - 1 < u < 4353 - 1 + 4097)) {[ 4346 := mk_header 7 7 ]}.

Lemma run4 : program sbrk_to 20 4 heap4 (delete (4353 - 1) (<[4353 - 1 := units (2 ^ 16)]> (<[4345 - 1 := units 100]> ∅))) kept.
Proof.
  apply u_free with heap3; [|done|vm_compute; reflexivity].
  apply (u_write sbrk_to 20 2 heap2 _ ∅ 4346 (mk_header 7 7)); [|exists 4344, 8; split; [done|lia]].
  apply (u_malloc sbrk_to 20 1 heap1 _ ∅ (2 ^ 16) (Some 4353)); [|lia|vm_compute; reflexivity].
  apply (u_malloc sbrk_to 20 0 heap0 ∅ ∅ 100 (Some 4345)); [|lia|vm_compute; reflexivity].
  constructor. split_and!; done.
Qed.

(** Two blocks, the second one beyond what [morecore] asks for at least; what was
    written to the first is there after the second is freed. *)
Lemma malloc_free_witness : hmem heap4 !! 4346 = Some (mk_header 7 7) ∧ ∃ r s', malloc sbrk_to 20 4000 heap4 = Ok r s'.
Proof.
  destruct (malloc_free sbrk_to 20 4 heap4 _ kept run4) as (_ & HW & HM & _); [lia|]. split.
  - apply HW. vm_compute. reflexivity.
  - destruct (HM 4000) as (r & s' & E & _); [lia|]. by exists r, s'.
Defined.
