(* ===== verification/Sh.v ===== *)
(** * sh.c: the shell

    The parser works on the command line [buf] with a position in it as its
    state (the monad [M nat]); a token is the pair of positions where it begins
    and ends, as the source's pairs of pointers [argv], [eargv].  The shell's
    [panic] is the stop [Panicked].  [nulterminate] writes a zero behind every
    token; [runcmd] executes a command against the system-call interface. *)

From S2P Require Import Prelude Ulib.

Definition MAXARGS : nat := 10.

(** ** Commands *)

Abbreviation tok := (nat * nat)%type (only parsing).

Inductive cmd :=
  | EXEC (argv : list tok)
  | REDIR (c : cmd) (file : tok) (mode fd : Z)
  | PIPE (left right : cmd)
  | LIST (left right : cmd)
  | BACK (c : cmd).

(** ** Tokens *)

Definition whitespace : list Z := [32; 9; 13; 10; 11].
Definition symbols : list Z := chars "<|>&;()".

(** [strchr(s, c) != 0]. *)
Definition isin (s : list Z) (c : Z) : bool := bool_decide (is_Some (Ulib.strchr s c)).

(** The length of the longest prefix of [l] whose bytes satisfy [f]. *)
Fixpoint span (f : Z → bool) (l : list Z) : nat :=
  match l with
  | [] => 0
  | c :: l => if f c then S (span f l) else 0
  end.

(** [while(s < es && strchr(whitespace, *s)) s++;] *)
Definition skip_ws (buf : list Z) (s : nat) : nat :=
  (s + span (isin whitespace) (drop s buf))%nat.

(** [*s]; the byte behind the end is the terminator. *)
Definition at_ (buf : list Z) (s : nat) : Z := default 0 (buf !! s).

(** The token at [*ps]: its kind, its bounds, and the new position. *)
Definition gettoken_at (buf : list Z) (s : nat) : Z * tok * nat :=
  let q := skip_ws buf s in
  let c := at_ buf q in
  let '(ret, eq) :=
    if c =? 0 then (0, q)
    else if isin (chars "|();&<") c then (c, S q)
    else if c =? 62 then
      if at_ buf (S q) =? 62 then (43, S (S q)) else (62, S q)
    else
      (97, (q + span (λ b, negb (isin whitespace b) && negb (isin symbols b)) (drop q buf))%nat) in
  (ret, (q, eq), skip_ws buf eq).

(** ** The parser *)

Abbreviation P := (M nat) (only parsing).

Section parser.
  Context (buf : list Z).

Definition gettoken : P (Z * tok) := λ s,
  let '(ret, t, s') := gettoken_at buf s in Ok (ret, t) s'.

Definition peek (toks : list Z) : P bool := λ s,
  let s := skip_ws buf s in
  Ok (negb (at_ buf s =? 0) && isin toks (at_ buf s)) s.

(** [O_RDONLY] and [O_WRONLY|O_CREATE] of fcntl.h. *)
Definition RD : Z := 0.
Definition WRCREATE : Z := 0x201.

(** [while(peek(ps, es, "<>"))], [fuel] redirections at most. *)
Fixpoint parseredirs (fuel : nat) (c : cmd) : P cmd :=
  more ← peek (chars "<>");
  if negb more then mret c else
  match fuel with
  | O => mstop OutOfFuel
  | S fuel =>
      '(t, _) ← gettoken;
      '(k, file) ← gettoken;
      if negb (k =? 97) then mstop (Panicked "missing file for redirection") else
      parseredirs fuel
        (if t =? 60 then REDIR c file RD 0
         else if (t =? 62) || (t =? 43) then REDIR c file WRCREATE 1
         else c)
  end.

(** [parseexec] fills the [execcmd] it made first while the redirections wrap
    it; [wrap redirs argv] is the command for the redirections so far. *)
Fixpoint set_argv (argv : list tok) (c : cmd) : cmd :=
  match c with
  | EXEC _ => EXEC argv
  | REDIR c file mode fd => REDIR (set_argv argv c) file mode fd
  | _ => c
  end.

(** The loop over the words; [ret] is the command built so far, around an
    [execcmd] without arguments. *)
Fixpoint parsewords (fuel : nat) (argv : list tok) (ret : cmd) : P cmd :=
  fin ← peek (chars "|)&;");
  if (fin : bool) then mret (set_argv argv ret) else
  match fuel with
  | O => mstop OutOfFuel
  | S fuel =>
      '(k, w) ← gettoken;
      if k =? 0 then mret (set_argv argv ret)
      else if negb (k =? 97) then mstop (Panicked "syntax")
      else
        let argv := argv ++ [w] in
        if decide (MAXARGS ≤ length argv)%nat then mstop (Panicked "too many args") else
        ret ← parseredirs fuel ret;
        parsewords fuel argv ret
  end.

(** [while(peek(ps, es, "&")) { gettoken(ps, es, 0, 0); cmd = backcmd(cmd); }] *)
Fixpoint parseback (fuel : nat) (c : cmd) : P cmd :=
  more ← peek (chars "&");
  if negb more then mret c else
  match fuel with
  | O => mstop OutOfFuel
  | S fuel => gettoken ;; parseback fuel (BACK c)
  end.

Fixpoint parseline (fuel : nat) : P cmd :=
  match fuel with
  | O => mstop OutOfFuel
  | S fuel =>
      c ← parsepipe fuel;
      c ← parseback fuel c;
      more ← peek (chars ";");
      if (more : bool) then
        gettoken ;;
        r ← parseline fuel;
        mret (LIST c r)
      else mret c
  end
with parsepipe (fuel : nat) : P cmd :=
  match fuel with
  | O => mstop OutOfFuel
  | S fuel =>
      c ← parseexec fuel;
      more ← peek (chars "|");
      if (more : bool) then
        gettoken ;;
        r ← parsepipe fuel;
        mret (PIPE c r)
      else mret c
  end
with parseblock (fuel : nat) : P cmd :=
  match fuel with
  | O => mstop OutOfFuel
  | S fuel =>
      ok ← peek (chars "(");
      if negb ok then mstop (Panicked "parseblock") else
      gettoken ;;
      c ← parseline fuel;
      ok ← peek (chars ")");
      if negb ok then mstop (Panicked "syntax - missing )") else
      gettoken ;;
      parseredirs fuel c
  end
with parseexec (fuel : nat) : P cmd :=
  match fuel with
  | O => mstop OutOfFuel
  | S fuel =>
      block ← peek (chars "(");
      if (block : bool) then parseblock fuel else
      ret ← parseredirs fuel (EXEC []);
      parsewords fuel [] ret
  end.

(** [parsecmd] before [nulterminate]; every call consumes input or descends to
    the next of the four levels, so [4 * (length + 2)] calls are enough. *)
Definition parse_fuel : nat := (4 * (length buf + 2))%nat.

Definition parse : res nat cmd :=
  (c ← parseline parse_fuel;
   peek [] ;;
   s ← mget;
   if decide (s = length buf) then mret c else mstop (Panicked "syntax")) 0%nat.
End parser.

(** The positions where [nulterminate] writes a zero, in its order. *)
Fixpoint nulterminate (c : cmd) (buf : list Z) : list Z :=
  match c with
  | EXEC argv => foldl (λ b t, <[snd t := 0]> b) buf argv
  | REDIR c file _ _ => <[snd file := 0]> (nulterminate c buf)
  | PIPE l r => nulterminate r (nulterminate l buf)
  | LIST l r => nulterminate r (nulterminate l buf)
  | BACK c => nulterminate c buf
  end.

(** The string a token's pointer denotes. *)
Definition word (buf : list Z) (t : tok) : list Z := Ulib.cbytes (drop (fst t) buf).

(** ** Running commands *)

Section run.
  Context {S : Type} `{U : Unix S}.
Import Printf.

Definition panic {A} (s : string) : M S A :=
  printf 2 (chars "%s" ++ [10]) [AStr (Some (chars s))] ;; u_exit.

Definition fork1 (child : M S unit) : M S Z :=
  pid ← u_fork child;
  if pid =? -1 then panic "fork" else mret pid.

(** [buf] is the command line after [nulterminate]; the command never returns. *)
Fixpoint runcmd (buf : list Z) (c : cmd) : M S unit :=
  match c with
  | EXEC argv =>
      match argv with
      | [] => u_exit
      | a :: _ =>
          u_exec (word buf a) (word buf <$> argv) ;;
          printf 2 (chars "exec %s failed" ++ [10]) [AStr (Some (word buf a))] ;;
          u_exit
      end
  | REDIR c file mode fd =>
      u_close fd ;;
      r ← u_open (word buf file) mode;
      if r <? 0 then
        printf 2 (chars "open %s failed" ++ [10]) [AStr (Some (word buf file))] ;;
        u_exit
      else runcmd buf c
  | LIST l r =>
      fork1 (runcmd buf l) ;;
      u_wait ;;
      runcmd buf r
  | PIPE l r =>
      '(e, p0, p1) ← u_pipe;
      if e <? 0 then panic "pipe" else
      fork1 (u_close 1 ;; u_dup p1 ;; u_close p0 ;; u_close p1 ;; runcmd buf l) ;;
      fork1 (u_close 0 ;; u_dup p0 ;; u_close p0 ;; u_close p1 ;; runcmd buf r) ;;
      u_close p0 ;;
      u_close p1 ;;
      u_wait ;;
      u_wait ;;
      u_exit
  | BACK c =>
      fork1 (runcmd buf c) ;;
      u_exit
  end.

(** The command line with its terminator, parsed in the child. *)
Definition run_line (line : list Z) : M S unit :=
  match parse line with
  | Ok c _ => runcmd (nulterminate c (line ++ [0])) c
  | Stop (Panicked msg) _ => panic msg
  | Stop r _ => mstop r
  end.

(** [None] at the end of the input. *)
Definition getcmd : M S (option (list Z)) :=
  printf 2 (chars "$ ") [] ;;
  buf ← Ulib.gets 100;
  let buf := Ulib.cbytes buf in
  mret (if decide (buf = []) then None else Some buf).

(** [while((fd = open("console", O_RDWR)) >= 0)], [fuel] times at most. *)
Fixpoint open_console (fuel : nat) : M S unit :=
  fd ← u_open (chars "console") 2;
  if fd >=? 0 then
    if fd >=? 3 then u_close fd ;; mret tt
    else match fuel with
         | O => mstop OutOfFuel
         | Datatypes.S fuel => open_console fuel
         end
  else mret tt.

(** [chars "cd "] is the prefix of a change of directory. *)
Definition run_input (buf : list Z) : M S unit :=
  if decide (take 3 buf = chars "cd ") then
    let dir := drop 3 (take (length buf - 1) buf) in
    r ← u_chdir dir;
    if r <? 0 then printf 2 (chars "cannot cd %s" ++ [10]) [AStr (Some dir)] else mret tt
  else
    fork1 (run_line buf) ;;
    u_wait ;;
    mret tt.

Fixpoint sh_loop (fuel : nat) : M S unit :=
  c ← getcmd;
  match c with
  | None => u_exit
  | Some buf =>
      match fuel with
      | O => mstop OutOfFuel
      | Datatypes.S fuel => run_input buf ;; sh_loop fuel
      end
  end.

Definition sh_main (fuel : nat) : M S unit :=
  open_console 3 ;;
  sh_loop fuel.
End run.
