(* ===== verification/ShParse.v ===== *)
(** * The shell's parser: termination, and commands read back

    The parser returns or reports an error on every line, within the bound
    [parse_fuel]; and the command it builds for a printed command, seen through
    the pointers into the line once [nulterminate] has run, is that command. *)

From S2P Require Import Prelude Ulib Sh.

(** ** Positions *)

Lemma span_le f l : (span f l ≤ length l)%nat.
Proof. induction l as [|c l IH]; cbn; [lia|]. destruct (f c); lia. Qed.

Lemma skip_ws_range buf s : (s ≤ length buf)%nat → (s ≤ skip_ws buf s ≤ length buf)%nat.
Proof.
  intros H. unfold skip_ws. pose proof (span_le (isin whitespace) (drop s buf)).
  rewrite length_drop in H0. lia.
Qed.

Lemma at_nonzero buf s : at_ buf s ≠ 0 → (s < length buf)%nat.
Proof.
  unfold at_. intros H. destruct (buf !! s) eqn:E; [by apply lookup_lt_Some in E|done].
Qed.

(** The byte at which [skip_ws] stops is not white space. *)
Lemma span_stop f l c : l !! span f l = Some c → f c = false.
Proof. induction l as [|b l IH]; cbn; [done|]. destruct (f b) eqn:E; [apply IH|by intros [= ->]]. Qed.

Lemma skip_ws_stop buf s c : buf !! skip_ws buf s = Some c → isin whitespace c = false.
Proof.
  unfold skip_ws. rewrite <- lookup_drop. apply span_stop.
Qed.

Lemma skip_ws_idem buf s : skip_ws buf (skip_ws buf s) = skip_ws buf s.
Proof.
  assert (H : span (isin whitespace) (drop (skip_ws buf s) buf) = 0%nat).
  { destruct (drop (skip_ws buf s) buf) as [|c l'] eqn:Ed; [done|]. cbn [span].
    rewrite (skip_ws_stop buf s c); [done|].
    by rewrite <- (Nat.add_0_r (skip_ws buf s)), <- lookup_drop, Ed. }
  unfold skip_ws at 1. rewrite H. lia.
Qed.

Lemma gettoken_start buf s ret q eq s' :
  gettoken_at buf s = (ret, (q, eq), s') → q = skip_ws buf s.
Proof. unfold gettoken_at. destruct (if at_ _ _ =? 0 then _ else _). by intros [= _ <- _ _]. Qed.

Lemma isin_elem l c : isin l c = true ↔ c ∈ l.
Proof. unfold isin. by rewrite bool_decide_eq_true, strchr_is_some. Qed.

(** The end of a token lies in the line and, unless the line has ended, behind
    the token's first byte. *)
Lemma gettoken_range buf s :
  (s ≤ length buf)%nat →
  let '(ret, (q, eq), s') := gettoken_at buf s in
  (s ≤ q ≤ eq)%nat ∧ (eq ≤ s' ≤ length buf)%nat ∧ (at_ buf q ≠ 0 → (q < eq)%nat) ∧
  (ret ≠ 0 → (s < s')%nat).
Proof.
  intros Hs. unfold gettoken_at. set (q := skip_ws buf s).
  pose proof (skip_ws_range buf s Hs) as Hq. fold q in Hq.
  set (word_end := (q + span (λ b, negb (isin whitespace b) && negb (isin symbols b)) (drop q buf))%nat).
  assert (Hfin : ∀ eq, (q ≤ eq ≤ length buf)%nat → (eq ≤ skip_ws buf eq ≤ length buf)%nat)
    by (intros; apply skip_ws_range; lia).
  destruct (Z.eqb_spec (at_ buf q) 0) as [E0|E0].
  { specialize (Hfin q ltac:(lia)). split_and!; try lia; done. }
  pose proof (at_nonzero buf q E0) as Hlt.
  assert (Hone : ∀ eq, (q < eq ≤ length buf)%nat →
    (s ≤ q ≤ eq)%nat ∧ (eq ≤ skip_ws buf eq ≤ length buf)%nat ∧ (at_ buf q ≠ 0 → (q < eq)%nat) ∧
    ∀ r : Z, r ≠ 0 → (s < skip_ws buf eq)%nat).
  { intros eq He. specialize (Hfin eq ltac:(lia)). split_and!; intros; lia. }
  destruct (isin (chars "|();&<") (at_ buf q)) eqn:Esym.
  { destruct (Hone (S q) ltac:(lia)) as (?&?&?&?). split_and!; eauto; lia. }
  destruct (Z.eqb_spec (at_ buf q) 62) as [E62|E62].
  { destruct (Z.eqb_spec (at_ buf (S q)) 62) as [E|E].
    - pose proof (at_nonzero buf (S q) ltac:(lia)).
      destruct (Hone (S (S q)) ltac:(lia)) as (?&?&?&?). split_and!; eauto; lia.
    - destruct (Hone (S q) ltac:(lia)) as (?&?&?&?). split_and!; eauto; lia. }
  assert (Hw : (q < word_end ≤ length buf)%nat).
  { unfold word_end. pose proof (span_le (λ b, negb (isin whitespace b) && negb (isin symbols b)) (drop q buf)) as Hl.
    rewrite length_drop in Hl. split; [|lia].
    destruct (lookup_lt_is_Some_2 buf q Hlt) as [c Hc]. rewrite (drop_S _ c) by done. cbn [span].
    unfold at_ in *. rewrite Hc in *. cbn [default] in *.
    rewrite (skip_ws_stop buf s c Hc).
    assert (Hs2 : isin symbols c = false).
    { apply not_true_is_false. intros Hi%isin_elem. apply not_true_iff_false in Esym. apply Esym, isin_elem.
      cbn in Hi |- *. set_solver. }
    rewrite Hs2. cbn. lia. }
  destruct (Hone word_end ltac:(lia)) as (?&?&?&?). split_and!; eauto; lia.
Qed.

(** ** Termination *)

Section termination.
  Context (buf : list Z).
Let len := length buf.

(** The computation, run at [s], ends with a position not before [s], or with a
    report to the user. *)
Definition good {A} (m : P A) (s : nat) : Prop :=
  match m s with
  | Ok _ s' => (s ≤ s' ≤ len)%nat
  | Stop (Panicked _) _ => True
  | Stop _ _ => False
  end.

Lemma good_ret {A} (a : A) s : (s ≤ len)%nat → good (mret a) s.
Proof. cbn. lia. Qed.

Lemma good_panic {A} msg s : good (mstop (Panicked msg) : P A) s.
Proof. done. Qed.

Lemma good_bind {A B} (m : P A) (f : A → P B) s :
  good m s → (∀ a s', m s = Ok a s' → (s ≤ s' ≤ len)%nat → good (f a) s') → good (m ≫= f) s.
Proof.
  unfold good, mbind, M_bind. intros Hm Hf. destruct (m s) as [a s'|[] s']; try done.
  specialize (Hf a s' eq_refl Hm). destruct (f a s') as [? s''|[] ?]; try done. lia.
Qed.

Lemma good_peek l s : (s ≤ len)%nat → good (peek buf l) s.
Proof. intros. unfold good, peek. by apply skip_ws_range. Qed.

Lemma good_token s : (s ≤ len)%nat → good (gettoken buf) s.
Proof.
  intros H. unfold good, gettoken. pose proof (gettoken_range buf s H) as Hr.
  destruct (gettoken_at buf s) as [[ret [q eq]] s']. lia.
Qed.

(** After a successful [peek] the next token is not empty. *)
Lemma token_moves s l s' r s'' :
  (s ≤ len)%nat → peek buf l s = Ok true s' → gettoken buf s' = Ok r s'' → (s' < s'')%nat.
Proof.
  unfold peek, gettoken. intros Hs [= Hp <-] Hg.
  pose proof (skip_ws_range buf s Hs) as Hq.
  apply andb_prop in Hp as [Hz%negb_true_iff%Z.eqb_neq _].
  pose proof (gettoken_range buf _ (proj2 Hq)) as Hr.
  destruct (gettoken_at buf (skip_ws buf s)) as [[ret [q eq]] s3] eqn:E.
  injection Hg as _ <-. destruct Hr as (H1 & H2 & H3 & _).
  apply gettoken_start in E as ->. rewrite skip_ws_idem in H1, H3.
  specialize (H3 Hz). lia.
Qed.

(** A computation that looks ahead for [l] and, when it finds it, takes a token
    and goes on. *)
Lemma good_ahead {A} l (no : P A) (yes : Z * tok → P A) s :
  (s ≤ len)%nat →
  (∀ s', (s ≤ s' ≤ len)%nat → good no s') →
  (∀ t s', (s < s' ≤ len)%nat → good (yes t) s') →
  good (more ← peek buf l; if negb more then no else t ← gettoken buf; yes t) s.
Proof.
  intros Hs Hno Hyes. apply good_bind; [by apply good_peek|]. intros [|] s1 H1 Hs1; cbn [negb]; [|by apply Hno].
  apply good_bind; [apply good_token; lia|]. intros t s2 H2 Hs2.
  pose proof (token_moves s l s1 t s2 Hs H1 H2). apply Hyes. lia.
Qed.

Lemma good_ahead' {A} l (no : P A) (yes : Z * tok → P A) s :
  (s ≤ len)%nat →
  (∀ s', (s ≤ s' ≤ len)%nat → good no s') →
  (∀ t s', (s < s' ≤ len)%nat → good (yes t) s') →
  good (more ← peek buf l; if (more : bool) then t ← gettoken buf; yes t else no) s.
Proof.
  intros Hs Hno Hyes. pose proof (good_ahead l no yes s Hs Hno Hyes) as H.
  unfold good, mbind, M_bind in *. by destruct (peek buf l s) as [[] ?|].
Qed.

(** No token is found behind the end of the line. *)
Lemma no_token_left s l s' : (s ≤ len)%nat → (len - s ≤ 0)%nat → peek buf l s = Ok true s' → False.
Proof.
  intros Hs H0 H1. assert (Hs' : (s ≤ s' ≤ len)%nat).
  { unfold peek in H1. injection H1 as _ <-. by apply skip_ws_range. }
  pose proof (good_token s' (proj2 Hs')) as Hg. unfold good in Hg.
  destruct (gettoken buf s') as [t s2|] eqn:E;
    [|unfold gettoken in E; by destruct (gettoken_at buf s') as [[] ]].
  pose proof (token_moves s l s' t s2 Hs H1 E). lia.
Qed.

Lemma parseredirs_good fuel c s :
  (s ≤ len)%nat → (len - s ≤ fuel)%nat → good (parseredirs buf fuel c) s.
Proof.
  revert c s; induction fuel as [|fuel IH]; intros c s Hs Hf; cbn [parseredirs].
  - apply good_bind; [by apply good_peek|]. intros [|] s1 H1 Hs1; cbn [negb]; [|apply good_ret; lia].
    by apply (no_token_left s _ s1) in H1.
  - apply (good_ahead (chars "<>") (mret c) (λ t, _)); [done|intros; apply good_ret; lia|].
    intros [t tk] s1 Hs1. apply good_bind; [apply good_token; lia|].
    intros [k file] s2 _ Hs2. destruct (negb (k =? 97)); [apply good_panic|].
    apply IH; lia.
Qed.

Lemma parseback_good fuel c s :
  (s ≤ len)%nat → (len - s ≤ fuel)%nat → good (parseback buf fuel c) s.
Proof.
  revert c s; induction fuel as [|fuel IH]; intros c s Hs Hf; cbn [parseback].
  - apply good_bind; [by apply good_peek|]. intros [|] s1 H1 Hs1; cbn [negb]; [|apply good_ret; lia].
    by apply (no_token_left s _ s1) in H1.
  - apply (good_ahead (chars "&") (mret c) (λ _, parseback buf fuel (BACK c)));
      [done|intros; apply good_ret; lia|intros; apply IH; lia].
Qed.

Lemma parsewords_good fuel argv c s :
  (s ≤ len)%nat → (len - s < fuel)%nat → good (parsewords buf fuel argv c) s.
Proof.
  revert argv c s; induction fuel as [|fuel IH]; intros argv c s Hs Hf; [lia|]. cbn [parsewords].
  apply good_bind; [by apply good_peek|]. intros [|] s1 H1 Hs1; [apply good_ret; lia|].
  apply good_bind; [apply good_token; lia|]. intros [k w] s2 H2 Hs2.
  destruct (Z.eqb_spec k 0) as [|Hk]; [apply good_ret; lia|].
  assert (Hlt : (s1 < s2)%nat).
  { pose proof (gettoken_range buf s1 ltac:(lia)) as Hr. unfold gettoken in H2.
    destruct (gettoken_at buf s1) as [[ret [q eq]] s3]. injection H2 as -> _ ->. by apply Hr. }
  destruct (negb (k =? 97)); [apply good_panic|].
  destruct (decide _); [apply good_panic|].
  apply good_bind; [apply parseredirs_good; lia|]. intros c' s3 _ Hs3. apply IH; lia.
Qed.

(** Each level of the grammar hands its fuel on less one; a token is worth
    four. *)
Lemma parse_good fuel :
  (∀ s, (s ≤ len)%nat → (4 * (len - s) + 3 < fuel)%nat → good (parseline buf fuel) s) ∧
  (∀ s, (s ≤ len)%nat → (4 * (len - s) + 2 < fuel)%nat → good (parsepipe buf fuel) s) ∧
  (∀ s, (s ≤ len)%nat → (4 * (len - s) < fuel)%nat → good (parseblock buf fuel) s) ∧
  (∀ s, (s ≤ len)%nat → (4 * (len - s) + 1 < fuel)%nat → good (parseexec buf fuel) s).
Proof.
  induction fuel as [|fuel (IHl & IHp & IHb & IHe)]; [split_and!; intros; lia|].
  split_and!; intros s Hs Hf; cbn [parseline parsepipe parseblock parseexec].
  - apply good_bind; [apply IHp; lia|]. intros c s1 _ Hs1.
    apply good_bind; [apply parseback_good; lia|]. intros c2 s2 _ Hs2.
    apply (good_ahead' (chars ";") (mret c2) (λ _, r ← parseline buf fuel; mret (LIST c2 r)));
      [lia|intros; apply good_ret; lia|]. intros _ s3 Hs3.
    apply good_bind; [apply IHl; lia|]. intros; apply good_ret; lia.
  - apply good_bind; [apply IHe; lia|]. intros c s1 _ Hs1.
    apply (good_ahead' (chars "|") (mret c) (λ _, r ← parsepipe buf fuel; mret (PIPE c r)));
      [lia|intros; apply good_ret; lia|]. intros _ s3 Hs3.
    apply good_bind; [apply IHp; lia|]. intros; apply good_ret; lia.
  - apply (good_ahead (chars "(") (mstop (Panicked "parseblock")) (λ _, _));
      [done|intros; apply good_panic|]. intros _ s1 Hs1.
    apply good_bind; [apply IHl; lia|]. intros c s2 _ Hs2.
    apply (good_ahead (chars ")") (mstop (Panicked "syntax - missing )")) (λ _, parseredirs buf fuel c));
      [lia|intros; apply good_panic|]. intros; apply parseredirs_good; lia.
  - apply good_bind; [by apply good_peek|]. intros [|] s1 _ Hs1; [apply IHb; lia|].
    apply good_bind; [apply parseredirs_good; lia|]. intros; apply parsewords_good; lia.
Qed.
End termination.

(** C30: the parser terminates.  On every line, [parsecmd]'s parser returns a
    command or reports an error, within the fixed bound on the number of calls:
    every recursive call and every turn of its loops has consumed a token or
    gone to the next level of the grammar. *)
Theorem parse_terminates buf :
  (∃ c, parse buf = Ok c (length buf)) ∨ (∃ msg s, parse buf = Stop (Panicked msg) s).
Proof.
  assert (Hg : good buf (parseline buf (parse_fuel buf)) 0).
  { apply parse_good; unfold parse_fuel; lia. }
  unfold parse. unfold good in Hg.
  destruct (parseline buf (parse_fuel buf) 0%nat) as [c s|r s] eqn:E.
  - rewrite (bind_ok _ _ _ _ _ E). unfold peek, mget, mbind, M_bind. cbn beta iota.
    destruct (decide _) as [Hd|]; [left|right]; [|by eexists _, _]. exists c. unfold mret, M_ret. by rewrite Hd.
  - rewrite (bind_stop _ _ _ _ _ E). destruct r; try done. right. by eexists _, _.
Qed.

(** ** Printed commands

    A command with its words, and the tokens that denote it; compound commands
    below another operator are put in parentheses.  The tokens are written with
    a space behind each. *)

Inductive ast :=
  | AExec (ws : list (list Z))
  | ARedir (a : ast) (file : list Z) (out : bool)
  | APipe (l r : ast)
  | AList (l r : ast)
  | ABack (a : ast).

Inductive token := Sym (c : Z) | W (w : list Z).

(** The tokens of a redirection. *)
Definition redir_toks (r : list Z * bool) : list token :=
  [Sym (if snd r then 62 else 60); W (fst r)].

(** The tokens of [a] as [parseexec] takes them, and as [parseline] does. *)
Fixpoint print_exec (a : ast) : list token :=
  match a with
  | AExec ws => W <$> ws
  | ARedir a file out => print_exec a ++ redir_toks (file, out)
  | APipe l r => Sym 40 :: (print_exec l ++ Sym 124 :: print_exec r) ++ [Sym 41]
  | AList l r => Sym 40 :: (print_exec l ++ Sym 59 :: print_exec r) ++ [Sym 41]
  | ABack a => Sym 40 :: (print_exec a ++ [Sym 38]) ++ [Sym 41]
  end.

Definition print_line (a : ast) : list token :=
  match a with
  | APipe l r => print_exec l ++ Sym 124 :: print_exec r
  | AList l r => print_exec l ++ Sym 59 :: print_exec r
  | ABack a => print_exec a ++ [Sym 38]
  | _ => print_exec a
  end.

Definition tchars (t : token) : list Z := match t with Sym c => [c] | W w => w end.
Definition kind (t : token) : Z := match t with Sym c => c | W _ => 97 end.
Definition render (ts : list token) : list Z := concat ((λ t, tchars t ++ [32]) <$> ts).

(** The words of the shell, and the commands it can represent. *)
Definition plain (c : Z) : Prop := c ≠ 0 ∧ (c ∉ whitespace) ∧ (c ∉ symbols).
Definition word_ok (w : list Z) : Prop := w ≠ [] ∧ Forall plain w.

Fixpoint ast_ok (a : ast) : Prop :=
  match a with
  | AExec ws => (length ws < MAXARGS)%nat ∧ Forall word_ok ws
  | ARedir a file _ => ast_ok a ∧ word_ok file
  | APipe l r => ast_ok l ∧ ast_ok r
  | AList l r => ast_ok l ∧ ast_ok r
  | ABack a => ast_ok a
  end.

(** The command a parsed command denotes in a line where its words end in
    zeros. *)
Fixpoint view (buf : list Z) (c : cmd) : ast :=
  match c with
  | EXEC argv => AExec (word buf <$> argv)
  | REDIR c file mode fd => ARedir (view buf c) (word buf file) (mode =? WRCREATE)
  | PIPE l r => APipe (view buf l) (view buf r)
  | LIST l r => AList (view buf l) (view buf r)
  | BACK c => ABack (view buf c)
  end.

(** *** Tokens at a position *)

Definition tok_ok (t : token) : Prop :=
  match t with Sym c => c ∈ symbols | W w => word_ok w end.

Definition at_toks (buf : list Z) (s : nat) (ts : list token) : Prop :=
  drop s buf = render ts ∧ (s ≤ length buf)%nat ∧ Forall tok_ok ts.

Lemma isin_false l c : c ∉ l → isin l c = false.
Proof. intros H. apply not_true_is_false. by rewrite isin_elem. Qed.

(** The first byte of a token. *)
Lemma tok_first t :
  tok_ok t → ∃ c r, tchars t = c :: r ∧ c ≠ 0 ∧ (c ∉ whitespace) ∧
                    match t with Sym c' => c = c' ∧ c ∈ symbols | W _ => plain c end.
Proof.
  destruct t as [c|[|c w]]; cbn.
  - intros H. exists c, []. split; [done|].
    assert (c ≠ 0 ∧ c ∉ whitespace); [|naive_solver].
    unfold whitespace, symbols in *. cbn in H. split; set_solver by lia.
  - by intros [? _].
  - intros [_ [Hc _]%Forall_cons]. exists c, w. unfold plain in *. naive_solver.
Qed.

Lemma at_first buf s t ts :
  at_toks buf s (t :: ts) → ∃ c, head (tchars t) = Some c ∧ buf !! s = Some c ∧ (s < length buf)%nat.
Proof.
  intros (Hd & Hs & [Ht _]%Forall_cons). destruct (tok_first t Ht) as (c & r & E & _).
  exists c. rewrite E. split; [done|]. assert (Hc : buf !! s = Some c).
  { rewrite <- (Nat.add_0_r s), <- lookup_drop, Hd. cbn. by rewrite E. }
  split; [done|]. by apply lookup_lt_Some in Hc.
Qed.

Lemma skip_ws_toks buf s ts : at_toks buf s ts → skip_ws buf s = s.
Proof.
  intros (Hd & Hs & Hok). unfold skip_ws. rewrite Hd. destruct ts as [|t ts]; [cbn; lia|].
  apply Forall_cons in Hok as [Ht _]. destruct (tok_first t Ht) as (c & r & E & _ & Hw & _).
  cbn. rewrite E. cbn. rewrite isin_false by done. lia.
Qed.

(** What [peek] sees. *)
Definition ahead (l : list Z) (ts : list token) : bool :=
  match ts with Sym c :: _ => isin l c | _ => false end.

Lemma peek_toks buf s ts l :
  at_toks buf s ts → forallb (isin symbols) l = true → peek buf l s = Ok (ahead l ts) s.
Proof.
  intros Ha Hl. rewrite forallb_forall in Hl. unfold peek. rewrite (skip_ws_toks buf s ts Ha). f_equal.
  destruct ts as [|t ts].
  { destruct Ha as (Hd & Hs & _). unfold at_. rewrite <- (Nat.add_0_r s), <- lookup_drop, Hd. done. }
  destruct (at_first buf s t ts Ha) as (c & Hh & Hc & _). unfold at_. rewrite Hc. cbn [from_option id].
  destruct Ha as (_ & _ & [Ht _]%Forall_cons). destruct (tok_first t Ht) as (c' & r & E & Hz & _ & Ht').
  rewrite E in Hh. injection Hh as Hcc. subst c'. rewrite (proj2 (Z.eqb_neq c 0) Hz). cbn [negb andb].
  destruct t as [c'|w]; cbn; [by destruct Ht' as [-> _]|].
  apply isin_false. intros H%list_elem_of_In%Hl%isin_elem. by apply Ht'.
Qed.

Lemma span_stop_at f l r : Forall (λ b, f b = true) l → (∀ b, head r = Some b → f b = false) → span f (l ++ r) = length l.
Proof.
  induction 1 as [|b l Hb Hl IH]; intros Hr; cbn.
  - destruct r as [|b r]; [done|]. cbn. by rewrite (Hr b).
  - by rewrite Hb, IH.
Qed.

(** Taking the next token. *)
Lemma gettoken_toks buf s t ts :
  at_toks buf s (t :: ts) →
  gettoken buf s = Ok (kind t, (s, s + length (tchars t))%nat) (S (s + length (tchars t))) ∧
  at_toks buf (S (s + length (tchars t))) ts.
Proof.
  intros Ha. pose proof (skip_ws_toks _ _ _ Ha) as Hsk.
  destruct (at_first _ _ _ _ Ha) as (c & Hh & Hc & Hlt).
  pose proof Ha as (Hd & Hs & [Ht Hts]%Forall_cons).
  destruct (tok_first t Ht) as (c' & r & E & Hz & Hw & Ht'). rewrite E in Hh. injection Hh as Hcc. subst c'.
  assert (Hd' : drop s buf = tchars t ++ 32 :: render ts) by (rewrite Hd; cbn; by rewrite <- app_assoc).
  assert (Hlen : (s + length (tchars t) < length buf)%nat).
  { apply (f_equal length) in Hd'. rewrite length_drop, length_app in Hd'. cbn in Hd'. lia. }
  assert (Hnext : at_toks buf (S (s + length (tchars t))) ts).
  { split_and!; [|lia|done]. replace (S (s + length (tchars t))) with (s + (length (tchars t) + 1))%nat by lia.
    rewrite <- drop_drop, Hd', drop_app_ge by lia. by replace (_ + 1 - _)%nat with 1%nat by lia. }
  assert (Hsp : buf !! (s + length (tchars t))%nat = Some 32).
  { rewrite <- lookup_drop, Hd'. by apply list_lookup_middle. }
  assert (Hskip : skip_ws buf (s + length (tchars t)) = S (s + length (tchars t))).
  { unfold skip_ws. rewrite (drop_S _ 32) by done. pose proof (skip_ws_toks _ _ _ Hnext) as Hn.
    unfold skip_ws in Hn. cbn [span]. change (isin whitespace 32) with true. cbn iota. lia. }
  split; [|done]. unfold gettoken, gettoken_at. rewrite Hsk.
  assert (Hat : at_ buf s = c) by (unfold at_; by rewrite Hc). rewrite Hat.
  rewrite (proj2 (Z.eqb_neq c 0) Hz). destruct t as [c'|w].
  - destruct Ht' as [-> Hsy]. cbn in Hskip, Hsp |- *. rewrite Nat.add_1_r in *.
    assert (Hat2 : at_ buf (S s) = 32) by (unfold at_; by rewrite Hsp).
    destruct (isin _ _) eqn:Ei; [by rewrite Hskip|].
    destruct (Z.eqb_spec c' 62) as [->|Hne]; [rewrite Hat2; change (32 =? 62) with false; cbn iota; by rewrite Hskip|].
    exfalso. apply not_true_iff_false in Ei. apply Ei, isin_elem. cbn in Hsy |- *. set_solver by lia.
  - cbn in *. destruct Ht' as (_ & Hnw & Hns).
    rewrite (isin_false (chars "|();&<")) by (intros H; apply Hns; cbn in H |- *; set_solver by lia).
    rewrite (proj2 (Z.eqb_neq c 62)) by (intros ->; apply Hns; cbn; set_solver).
    rewrite Hd', span_stop_at; [by rewrite Hskip| |by intros b [= <-]].
    destruct Ht as [_ Hp]. eapply Forall_impl; [done|]. intros b (_ & H1 & H2). cbn.
    by rewrite !isin_false.
Qed.

(** *** Parsing printed commands *)

(** The token [t] spells the word [w], with a space behind it. *)
Definition tokrep (buf : list Z) (t : tok) (w : list Z) : Prop :=
  (∃ r, drop (fst t) buf = w ++ 32 :: r) ∧ snd t = (fst t + length w)%nat.

Definition mode_of (out : bool) : Z := if out then WRCREATE else RD.
Definition fd_of (out : bool) : Z := if out then 1 else 0.

Fixpoint rep (buf : list Z) (c : cmd) (a : ast) : Prop :=
  match c, a with
  | EXEC argv, AExec ws => Forall2 (tokrep buf) argv ws
  | REDIR c f mode fd, ARedir a file out =>
      rep buf c a ∧ tokrep buf f file ∧ mode = mode_of out ∧ fd = fd_of out
  | PIPE l r, APipe l' r' => rep buf l l' ∧ rep buf r r'
  | LIST l r, AList l' r' => rep buf l l' ∧ rep buf r r'
  | BACK c, ABack a => rep buf c a
  | _, _ => False
  end.

(** Redirections around a command. *)
Definition wrapc (c : cmd) (rs : list (tok * bool)) : cmd :=
  foldl (λ c r, REDIR c (fst r) (mode_of (snd r)) (fd_of (snd r))) c rs.
Definition wrapa (a : ast) (rs : list (list Z * bool)) : ast :=
  foldl (λ a r, ARedir a (fst r) (snd r)) a rs.
Definition rtoks (rs : list (list Z * bool)) : list token := concat (redir_toks <$> rs).
Definition redirrep (buf : list Z) (x : tok * bool) (y : list Z * bool) : Prop :=
  tokrep buf (fst x) (fst y) ∧ snd x = snd y.

Lemma rep_wrap buf c a tks rs :
  rep buf c a → Forall2 (redirrep buf) tks rs → rep buf (wrapc c tks) (wrapa a rs).
Proof.
  intros Hr H. revert c a Hr; induction H as [|x y tks rs [Hx Hy] _ IH]; intros c a Hr; [done|].
  cbn. apply IH. cbn. by rewrite Hy.
Qed.

Lemma set_argv_wrap argv c tks : set_argv argv (wrapc c tks) = wrapc (set_argv argv c) tks.
Proof. revert c; induction tks as [|x tks IH]; intros c; [done|]. cbn. by rewrite IH. Qed.

Lemma render_app ts1 ts2 : render (ts1 ++ ts2) = render ts1 ++ render ts2.
Proof. unfold render. by rewrite fmap_app, concat_app. Qed.

Lemma at_toks_len buf s ts : at_toks buf s ts → (length buf - s)%nat = length (render ts).
Proof. intros (H & _ & _). by rewrite <- H, length_drop. Qed.

Lemma render_len ts : Forall tok_ok ts → (2 * length ts ≤ length (render ts))%nat.
Proof.
  induction 1 as [|t ts Ht Hts IH]; cbn; [lia|]. rewrite !length_app. cbn.
  destruct (tok_first t Ht) as (c & r & -> & _). cbn. unfold render in IH. lia.
Qed.

Lemma at_toks_count buf s ts : at_toks buf s ts → (2 * length ts ≤ length buf - s)%nat.
Proof. intros H. rewrite (at_toks_len _ _ _ H). apply render_len, H. Qed.

(** How far the position has moved over the tokens [ts1]. *)
Lemma at_toks_after buf s ts1 ts2 s' :
  at_toks buf s (ts1 ++ ts2) → at_toks buf s' ts2 →
  (length buf - s' + 2 * length ts1 ≤ length buf - s)%nat.
Proof.
  intros H1 H2. rewrite (at_toks_len _ _ _ H1), (at_toks_len _ _ _ H2), render_app, length_app.
  destruct H1 as (_ & _ & [Hok _]%Forall_app). pose proof (render_len ts1 Hok). lia.
Qed.

Lemma tokrep_toks buf s w ts : at_toks buf s (W w :: ts) → tokrep buf (s, s + length w)%nat w.
Proof.
  intros (H & _ & _). split; [|done]. exists (render ts). cbn. rewrite H. cbn. by rewrite <- app_assoc.
Qed.

Lemma gettoken_end buf s : at_toks buf s [] → gettoken buf s = Ok (0, (s, s)) s.
Proof.
  intros H. pose proof (skip_ws_toks _ _ _ H) as Hs. unfold gettoken, gettoken_at. rewrite !Hs.
  assert (Ha : at_ buf s = 0).
  { unfold at_. rewrite <- (Nat.add_0_r s), <- lookup_drop. by rewrite (proj1 H). }
  rewrite Ha. cbn [Z.eqb]. by rewrite Hs.
Qed.

(** The end of the input, or an operator that ends a simple command. *)
Definition delim (ts : list token) : Prop := ts = [] ∨ ahead (chars "|)&;") ts = true.

Lemma delim_cases ts :
  delim ts → ts = [] ∨ ∃ c ts', ts = Sym c :: ts' ∧ c ∈ chars "|)&;".
Proof.
  intros [->|H]; [by left|right]. destruct ts as [|[c|w] ts]; [done| |done].
  exists c, ts. split; [done|]. by apply isin_elem.
Qed.

Lemma delim_redir ts : delim ts → ahead (chars "<>") ts = false ∧ ahead (chars "(") ts = false.
Proof.
  intros [->|(c & ts' & -> & Hc)]%delim_cases; [done|]. cbn [ahead].
  cbn in Hc. rewrite !elem_of_cons, elem_of_nil in Hc. naive_solver.
Qed.

Lemma parseredirs_toks buf fuel c s rs ts :
  at_toks buf s (rtoks rs ++ ts) → ahead (chars "<>") ts = false → (length rs ≤ fuel)%nat →
  ∃ tks s', parseredirs buf fuel c s = Ok (wrapc c tks) s' ∧ at_toks buf s' ts ∧
            Forall2 (redirrep buf) tks rs.
Proof.
  revert fuel c s; induction rs as [|[f out] rs IH]; intros fuel c s Ha Hts Hf.
  - change (rtoks [] ++ ts) with ts in Ha. exists [], s. split_and!; [|done|constructor].
    pose proof (peek_toks _ _ _ (chars "<>") Ha eq_refl) as Hp.
    destruct fuel; cbn [parseredirs]; rewrite (bind_ok _ _ _ _ _ Hp); by rewrite Hts.
  - destruct fuel as [|fuel]; [cbn in Hf; lia|].
    change (rtoks ((f, out) :: rs) ++ ts) with
      (Sym (if out then 62 else 60) :: W f :: rtoks rs ++ ts) in Ha. cbn [parseredirs].
    rewrite (bind_ok _ _ _ _ _ (peek_toks _ _ _ (chars "<>") Ha eq_refl)).
    replace (ahead (chars "<>") _) with true by (by destruct out). cbn [negb].
    destruct (gettoken_toks _ _ _ _ Ha) as [H1 Ha1]. rewrite (bind_ok _ _ _ _ _ H1).
    destruct (gettoken_toks _ _ _ _ Ha1) as [H2 Ha2]. rewrite (bind_ok _ _ _ _ _ H2).
    pose proof (tokrep_toks _ _ _ _ Ha1) as Hrep.
    change (kind (W f)) with 97. cbn beta iota. change (negb (97 =? 97)) with false. cbn iota.
    set (t := (_, _ : nat)) in Hrep |- *.
    assert (Hk : (if kind (Sym (if out then 62 else 60)) =? 60 then REDIR c t RD 0
      else if (kind (Sym (if out then 62 else 60)) =? 62) || (kind (Sym (if out then 62 else 60)) =? 43)
      then REDIR c t WRCREATE 1 else c) = REDIR c t (mode_of out) (fd_of out)) by (by destruct out).
    rewrite Hk. destruct (IH fuel (REDIR c t (mode_of out) (fd_of out)) _ Ha2 Hts ltac:(cbn in Hf; lia))
      as (tks & s' & H3 & Ha3 & Hf3).
    exists ((t, out) :: tks), s'. rewrite H3. split_and!; [done|done|]. by constructor.
Qed.

Lemma parsewords_end buf fuel argv ret s ts :
  at_toks buf s ts → delim ts → (0 < fuel)%nat →
  parsewords buf fuel argv ret s = Ok (set_argv argv ret) s.
Proof.
  intros Ha Hd Hf. destruct fuel as [|fuel]; [lia|]. cbn [parsewords].
  rewrite (bind_ok _ _ _ _ _ (peek_toks _ _ _ (chars "|)&;") Ha eq_refl)).
  destruct Hd as [->|Hd]; [|by rewrite Hd]. cbn [ahead]. by rewrite (bind_ok _ _ _ _ _ (gettoken_end _ _ Ha)).
Qed.

Lemma parsewords_toks buf fuel argv ret s ws rs ts :
  at_toks buf s ((W <$> ws) ++ rtoks rs ++ ts) → delim ts → (ws = [] → rs = []) →
  (length argv + length ws < MAXARGS)%nat → (length ws + length rs < fuel)%nat →
  ∃ tws tks s', parsewords buf fuel argv ret s = Ok (set_argv (argv ++ tws) (wrapc ret tks)) s' ∧
    at_toks buf s' ts ∧ Forall2 (tokrep buf) tws ws ∧ Forall2 (redirrep buf) tks rs.
Proof.
  revert fuel argv ret s; induction ws as [|w ws IH]; intros fuel argv ret s Ha Hd Hrs Hargs Hf.
  - rewrite (Hrs eq_refl) in *. exists [], [], s. rewrite (parsewords_end buf fuel argv ret s ts) by (done || lia).
    rewrite app_nil_r. split_and!; [done|done|constructor|constructor].
  - destruct fuel as [|fuel]; [lia|]. cbn [fmap list_fmap app] in Ha. cbn [parsewords].
    rewrite (bind_ok _ _ _ _ _ (peek_toks _ _ _ (chars "|)&;") Ha eq_refl)).
    cbn [ahead]. destruct (gettoken_toks _ _ _ _ Ha) as [H1 Ha1].
    change (tchars (W w)) with w in *. rewrite (bind_ok _ _ _ _ _ H1).
    pose proof (tokrep_toks _ _ _ _ Ha) as Hrep. cbn beta iota. change (kind (W w)) with 97.
    cbn [Z.eqb Pos.eqb negb]. cbn [length] in Hargs, Hf. unfold MAXARGS in *.
    rewrite decide_False by (rewrite length_app; cbn; lia).
    destruct ws as [|w2 ws].
    + destruct (parseredirs_toks buf fuel ret _ rs ts Ha1 (proj1 (delim_redir ts Hd)) ltac:(cbn in Hf; lia))
        as (tks & s2 & H2 & Ha2 & Hr2).
      rewrite (bind_ok _ _ _ _ _ H2), (parsewords_end buf fuel _ _ s2 ts) by (done || lia).
      exists [(s, s + length w)%nat], tks, s2. split_and!; [done|done|constructor; [exact Hrep|constructor]|done].
    + destruct (parseredirs_toks buf fuel ret _ [] _ Ha1 eq_refl ltac:(cbn; lia)) as (tks & s2 & H2 & Ha2 & Hr2).
      apply Forall2_nil_inv_r in Hr2 as ->. rewrite (bind_ok _ _ _ _ _ H2). cbn [wrapc foldl].
      destruct (IH fuel (argv ++ [(s, s + length w)%nat]) ret s2 Ha2 Hd) as (tws & tks & s3 & H3 & Ha3 & Hw3 & Hr3);
        [done|rewrite length_app; cbn in *; lia|cbn in *; lia|].
      exists ((s, s + length w)%nat :: tws), tks, s3. rewrite H3, <- app_assoc.
      split_and!; [done|done|by constructor|done].
Qed.

(** [parseexec], and from it [parsepipe] and [parseline], read back what was
    printed for [a], followed by the redirections [rs]. *)
Definition exec_parses (a : ast) : Prop := ∀ buf s rs ts fuel,
  at_toks buf s (print_exec a ++ rtoks rs ++ ts) → delim ts →
  (4 * (length buf - s) + 1 < fuel)%nat →
  ∃ c s', parseexec buf fuel s = Ok c s' ∧ at_toks buf s' ts ∧ rep buf c (wrapa a rs).

Definition closes (ts : list token) : Prop := ts = [] ∨ ahead (chars ")") ts = true.

Definition line_parses (a : ast) : Prop := ∀ buf s ts fuel,
  at_toks buf s (print_line a ++ ts) → closes ts →
  (4 * (length buf - s) + 3 < fuel)%nat →
  ∃ c s', parseline buf fuel s = Ok c s' ∧ at_toks buf s' ts ∧ rep buf c a.

Lemma closes_cases ts : closes ts → ts = [] ∨ ∃ ts', ts = Sym 41 :: ts'.
Proof.
  intros [->|H]; [by left|right]. destruct ts as [|[c|w] ts]; [done| |done].
  cbn [ahead] in H. apply isin_elem in H. cbn in H. apply list_elem_of_singleton in H. subst c. by eexists.
Qed.

Lemma closes_delim ts : closes ts → delim ts.
Proof. intros [->|(ts' & ->)]%closes_cases; [by left|by right]. Qed.

Lemma closes_none ts l : closes ts → isin l 41 = false → ahead l ts = false.
Proof. by intros [->|(ts' & ->)]%closes_cases. Qed.

(** A simple command, then something that is not a bar. *)
Lemma parsepipe_one a buf s ts fuel :
  exec_parses a → at_toks buf s (print_exec a ++ ts) → delim ts → ahead (chars "|") ts = false →
  (4 * (length buf - s) + 2 < fuel)%nat →
  ∃ c s', parsepipe buf fuel s = Ok c s' ∧ at_toks buf s' ts ∧ rep buf c a.
Proof.
  intros Hx Ha Hd Hb Hf. destruct fuel as [|fuel]; [lia|]. cbn [parsepipe].
  destruct (Hx buf s [] ts fuel Ha Hd ltac:(lia)) as (c & s1 & H1 & Ha1 & Hr1).
  rewrite (bind_ok _ _ _ _ _ H1), (bind_ok _ _ _ _ _ (peek_toks _ _ _ (chars "|") Ha1 eq_refl)), Hb.
  by exists c, s1.
Qed.

Lemma parseback_none buf fuel c s ts :
  at_toks buf s ts → ahead (chars "&") ts = false → parseback buf fuel c s = Ok c s.
Proof.
  intros Ha Hb. pose proof (peek_toks _ _ _ (chars "&") Ha eq_refl) as Hp.
  destruct fuel; cbn [parseback]; rewrite (bind_ok _ _ _ _ _ Hp), Hb; done.
Qed.

(** The end of [parseline], behind its pipeline. *)
Lemma parseline_end a buf s ts fuel :
  exec_parses a → at_toks buf s (print_exec a ++ ts) → closes ts →
  (4 * (length buf - s) + 3 < fuel)%nat →
  ∃ c s', parseline buf fuel s = Ok c s' ∧ at_toks buf s' ts ∧ rep buf c a.
Proof.
  intros Hx Ha Hc Hf. destruct fuel as [|fuel]; [lia|]. cbn [parseline].
  destruct (parsepipe_one a buf s ts fuel Hx Ha (closes_delim ts Hc)) as (c & s1 & H1 & Ha1 & Hr1);
    [by apply closes_none|lia|].
  rewrite (bind_ok _ _ _ _ _ H1), (bind_ok _ _ _ _ _ (parseback_none buf fuel c s1 ts Ha1 (closes_none ts (chars "&") Hc eq_refl))).
  rewrite (bind_ok _ _ _ _ _ (peek_toks _ _ _ (chars ";") Ha1 eq_refl)).
  rewrite closes_none by done. by exists c, s1.
Qed.

Lemma exec_line a : exec_parses a → print_line a = print_exec a → line_parses a.
Proof. intros Hx Hp buf s ts fuel Ha Hc Hf. rewrite Hp in Ha. by apply (parseline_end a). Qed.

Lemma pipe_line l r : exec_parses l → exec_parses r → line_parses (APipe l r).
Proof.
  intros Hl Hr buf s ts fuel Ha Hc Hf. cbn [print_line] in Ha. rewrite <- app_assoc in Ha. cbn [app] in Ha.
  destruct fuel as [|[|fuel]]; [lia..|]. cbn [parseline parsepipe].
  destruct (Hl buf s [] _ fuel Ha ltac:(by right) ltac:(lia)) as (c & s1 & H1 & Ha1 & Hr1).
  rewrite bind_assoc, (bind_ok _ _ _ _ _ H1).
  rewrite bind_assoc, (bind_ok _ _ _ _ _ (peek_toks _ _ _ (chars "|") Ha1 eq_refl)).
  change (ahead (chars "|") _) with true. cbn iota.
  destruct (gettoken_toks _ _ _ _ Ha1) as [H2 Ha2]. rewrite bind_assoc, (bind_ok _ _ _ _ _ H2).
  pose proof (at_toks_after buf s (print_exec l ++ [Sym 124]) (print_exec r ++ ts) _
    ltac:(by rewrite <- app_assoc) Ha2) as Hlen. rewrite length_app in Hlen. cbn in Hlen.
  destruct (parsepipe_one r buf _ ts fuel Hr Ha2 (closes_delim ts Hc)) as (c2 & s3 & H3 & Ha3 & Hr3);
    [by apply closes_none|cbn; lia|].
  rewrite bind_assoc, (bind_ok _ _ _ _ _ H3). rewrite (bind_ok (mret _) _ s3 _ s3 eq_refl).
  rewrite (bind_ok _ _ _ _ _ (parseback_none buf _ _ s3 ts Ha3 (closes_none ts (chars "&") Hc eq_refl))).
  rewrite (bind_ok _ _ _ _ _ (peek_toks _ _ _ (chars ";") Ha3 eq_refl)), closes_none by done.
  by exists (PIPE c c2), s3.
Qed.

Lemma list_line l r : exec_parses l → exec_parses r → line_parses (AList l r).
Proof.
  intros Hl Hr buf s ts fuel Ha Hc Hf. cbn [print_line] in Ha. rewrite <- app_assoc in Ha. cbn [app] in Ha.
  destruct fuel as [|fuel]; [lia|]. cbn [parseline].
  destruct (parsepipe_one l buf s _ fuel Hl Ha ltac:(by right) eq_refl ltac:(lia)) as (c & s1 & H1 & Ha1 & Hr1).
  rewrite (bind_ok _ _ _ _ _ H1), (bind_ok _ _ _ _ _ (parseback_none buf fuel c s1 _ Ha1 eq_refl)).
  rewrite (bind_ok _ _ _ _ _ (peek_toks _ _ _ (chars ";") Ha1 eq_refl)).
  change (ahead (chars ";") _) with true. cbn iota.
  destruct (gettoken_toks _ _ _ _ Ha1) as [H2 Ha2]. rewrite (bind_ok _ _ _ _ _ H2).
  pose proof (at_toks_after buf s (print_exec l ++ [Sym 59]) (print_exec r ++ ts) _
    ltac:(by rewrite <- app_assoc) Ha2) as Hlen. rewrite length_app in Hlen. cbn in Hlen.
  destruct (parseline_end r buf _ ts fuel Hr Ha2 Hc) as (c2 & s3 & H3 & Ha3 & Hr3); [cbn; lia|].
  rewrite (bind_ok _ _ _ _ _ H3). by exists (LIST c c2), s3.
Qed.

Lemma back_line a : exec_parses a → line_parses (ABack a).
Proof.
  intros Hx buf s ts fuel Ha Hc Hf. cbn [print_line] in Ha. rewrite <- app_assoc in Ha. cbn [app] in Ha.
  destruct fuel as [|[|fuel]]; [lia..|]. cbn [parseline].
  destruct (parsepipe_one a buf s _ (S fuel) Hx Ha ltac:(by right) eq_refl ltac:(lia)) as (c & s1 & H1 & Ha1 & Hr1).
  rewrite (bind_ok _ _ _ _ _ H1).
  destruct (gettoken_toks _ _ _ _ Ha1) as [H2 Ha2].
  assert (Hb : parseback buf (S fuel) c s1 = Ok (BACK c) (S (s1 + length (tchars (Sym 38))))).
  { cbn [parseback]. rewrite (bind_ok _ _ _ _ _ (peek_toks _ _ _ (chars "&") Ha1 eq_refl)).
    change (ahead (chars "&") _) with true. cbn [negb]. rewrite (bind_ok _ _ _ _ _ H2).
    apply (parseback_none buf fuel _ _ ts Ha2), closes_none; done. }
  rewrite (bind_ok _ _ _ _ _ Hb), (bind_ok _ _ _ _ _ (peek_toks _ _ _ (chars ";") Ha2 eq_refl)).
  rewrite closes_none by done. by eexists _, _.
Qed.

(** A command in parentheses. *)
Lemma block_exec a :
  line_parses a → print_exec a = Sym 40 :: print_line a ++ [Sym 41] → exec_parses a.
Proof.
  intros Hx Hp buf s rs ts fuel Ha Hd Hf. rewrite Hp in Ha. cbn [app] in Ha. rewrite <- app_assoc in Ha.
  cbn [app] in Ha. destruct fuel as [|[|fuel]]; [lia..|]. cbn [parseexec].
  pose proof (peek_toks _ _ _ (chars "(") Ha eq_refl) as Hpk.
  rewrite (bind_ok _ _ _ _ _ Hpk). change (ahead (chars "(") _) with true. cbn [parseblock].
  rewrite (bind_ok _ _ _ _ _ Hpk). change (ahead (chars "(") _) with true. cbn [negb].
  destruct (gettoken_toks _ _ _ _ Ha) as [H1 Ha1]. rewrite (bind_ok _ _ _ _ _ H1).
  pose proof (at_toks_after buf s [Sym 40] _ _ Ha Ha1) as Hlen. cbn [length] in Hlen.
  destruct (Hx buf _ _ fuel Ha1 ltac:(by right) ltac:(lia)) as (c & s2 & H2 & Ha2 & Hr2).
  rewrite (bind_ok _ _ _ _ _ H2), (bind_ok _ _ _ _ _ (peek_toks _ _ _ (chars ")") Ha2 eq_refl)).
  change (ahead (chars ")") _) with true. cbn [negb].
  destruct (gettoken_toks _ _ _ _ Ha2) as [H3 Ha3]. rewrite (bind_ok _ _ _ _ _ H3).
  pose proof (at_toks_count _ _ _ Ha3) as Hcnt. rewrite length_app in Hcnt.
  pose proof (at_toks_after buf s (Sym 40 :: print_line a ++ [Sym 41]) (rtoks rs ++ ts) _
    ltac:(cbn; by rewrite <- app_assoc) Ha3) as Hlen3.
  assert (Hrl : length (rtoks rs) = (2 * length rs)%nat).
  { unfold rtoks. clear. induction rs as [|r rs IH]; [done|]. cbn in *. lia. }
  destruct (parseredirs_toks buf fuel c _ rs ts Ha3 (proj1 (delim_redir ts Hd)) ltac:(cbn in *; lia))
    as (tks & s4 & H4 & Ha4 & Hr4).
  rewrite H4. exists (wrapc c tks), s4. split_and!; [done|done|]. by apply rep_wrap.
Qed.

(** A simple command with its redirections. *)
Lemma words_exec ws : (length ws < MAXARGS)%nat → exec_parses (AExec ws).
Proof.
  intros Hw buf s rs ts fuel Ha Hd Hf. cbn [print_exec] in Ha. destruct fuel as [|fuel]; [lia|]. cbn [parseexec].
  assert (Hrl : length (rtoks rs) = (2 * length rs)%nat).
  { unfold rtoks. clear. induction rs as [|r rs IH]; [done|]. cbn in *. lia. }
  pose proof (at_toks_count _ _ _ Ha) as Hcnt. rewrite !length_app, length_fmap, Hrl in Hcnt.
  assert (Hno : ahead (chars "(") ((W <$> ws) ++ rtoks rs ++ ts) = false).
  { destruct ws; [|done]. destruct rs as [|[f []] rs]; [|done..]. apply (delim_redir ts Hd). }
  rewrite (bind_ok _ _ _ _ _ (peek_toks _ _ _ (chars "(") Ha eq_refl)), Hno. cbn iota.
  destruct ws as [|w ws].
  - destruct (parseredirs_toks buf fuel (EXEC []) s rs ts Ha (proj1 (delim_redir ts Hd)) ltac:(lia))
      as (tks & s1 & H1 & Ha1 & Hr1).
    rewrite (bind_ok _ _ _ _ _ H1), (parsewords_end buf fuel [] _ s1 ts Ha1 Hd) by lia.
    rewrite set_argv_wrap. eexists _, s1. split_and!; [done|done|]. apply rep_wrap; [|done]. constructor.
  - destruct (parseredirs_toks buf fuel (EXEC []) s [] _ Ha eq_refl ltac:(cbn; lia)) as (tk0 & s1 & H1 & Ha1 & Hr1).
    apply Forall2_nil_inv_r in Hr1 as ->. rewrite (bind_ok _ _ _ _ _ H1). cbn [wrapc foldl].
    pose proof (at_toks_len _ _ _ Ha). pose proof (at_toks_len _ _ _ Ha1).
    destruct (parsewords_toks buf fuel [] (EXEC []) s1 (w :: ws) rs ts Ha1 Hd ltac:(done) Hw ltac:(lia))
      as (tws & tks & s2 & H2 & Ha2 & Hw2 & Hr2).
    rewrite H2, set_argv_wrap. eexists _, s2. split_and!; [done|done|]. by apply rep_wrap.
Qed.

Lemma ast_parses a : ast_ok a → exec_parses a ∧ line_parses a.
Proof.
  induction a as [ws|a IH f out|l IHl r IHr|l IHl r IHr|a IH]; cbn [ast_ok].
  - intros [H _]. pose proof (words_exec ws H). split; [done|]. by apply exec_line.
  - intros [[Hx _]%IH _]. assert (exec_parses (ARedir a f out)); [|split; [done|by apply exec_line]].
    intros buf s rs ts fuel Ha. cbn [print_exec] in Ha. rewrite <- app_assoc in Ha.
    exact (Hx buf s ((f, out) :: rs) ts fuel Ha).
  - intros [[Hl _]%IHl [Hr _]%IHr]. pose proof (pipe_line l r Hl Hr). split; [by apply block_exec|done].
  - intros [[Hl _]%IHl [Hr _]%IHr]. pose proof (list_line l r Hl Hr). split; [by apply block_exec|done].
  - intros [Hx _]%IH. pose proof (back_line a Hx). split; [by apply block_exec|done].
Qed.

(** *** The words behind the pointers *)

(** [buf'] is the line with zeros in place of some of its spaces. *)
Definition cut (E : list nat) (buf buf' : list Z) : Prop :=
  ∀ i, buf' !! i = if decide (i ∈ E) then Some 0 else buf !! i.

Fixpoint ends (c : cmd) : list nat :=
  match c with
  | EXEC argv => snd <$> argv
  | REDIR c f _ _ => snd f :: ends c
  | PIPE l r | LIST l r => ends l ++ ends r
  | BACK c => ends c
  end.

Lemma cut_insert E i buf buf' :
  cut E buf buf' → (i < length buf')%nat → cut (i :: E) buf (<[i := 0]> buf').
Proof.
  intros Hc Hi j. destruct (decide (j = i)) as [->|Hj].
  - rewrite list_lookup_insert_eq by done. rewrite decide_True by (by left). done.
  - rewrite list_lookup_insert_ne by done. rewrite Hc. apply decide_ext. set_solver.
Qed.

Lemma cut_len E buf buf' : cut E buf buf' → (∀ i, i ∈ E → (i < length buf)%nat) → length buf' = length buf.
Proof.
  intros Hc HE. apply Nat.le_antisymm; apply Nat.nlt_ge; intros Hlt.
  - destruct (lookup_lt_is_Some_2 buf' (length buf) Hlt) as [x Hx]. rewrite Hc in Hx.
    case_decide as Hd; [apply HE in Hd; lia|]. rewrite lookup_ge_None_2 in Hx by lia. done.
  - destruct (lookup_lt_is_Some_2 buf (length buf') Hlt) as [x Hx].
    pose proof (Hc (length buf')) as He. rewrite lookup_ge_None_2 in He by lia.
    case_decide; [done|]. congruence.
Qed.

Lemma cut_ext E E' buf buf' : (∀ i, i ∈ E ↔ i ∈ E') → cut E buf buf' → cut E' buf buf'.
Proof. intros HE Hc i. rewrite Hc. by apply decide_ext. Qed.

(** [nulterminate] cuts the line at the ends of the command's tokens. *)
Lemma nulterminate_cut c E buf buf' :
  cut E buf buf' → (∀ i, i ∈ E ∨ i ∈ ends c → (i < length buf)%nat) →
  cut (ends c ++ E) buf (nulterminate c buf').
Proof.
  revert E buf'; induction c as [argv|c IH f mode fd|l IHl r IHr|l IHl r IHr|c IH];
    intros E buf' Hc HE; cbn [nulterminate ends] in *.
  - revert E buf' Hc HE; induction argv as [|t argv IH]; intros E buf' Hc HE; [done|]. cbn [foldl fmap list_fmap].
    eapply cut_ext; [|apply (IH (snd t :: E))].
    + intros i. cbn. set_solver.
    + apply cut_insert; [done|]. rewrite (cut_len E buf buf' Hc) by auto. apply HE. right. cbn. set_solver.
    + intros i Hi. apply HE. cbn. set_solver.
  - assert (Hin : cut (ends c ++ E) buf (nulterminate c buf')) by (apply IH; [done|set_solver]).
    apply (cut_insert (ends c ++ E)); [done|]. rewrite (cut_len _ _ _ Hin); [apply HE; set_solver|].
    intros i Hi. apply HE. set_solver.
  - eapply cut_ext; [|apply IHr; [apply IHl; [done|]|]]; set_solver.
  - eapply cut_ext; [|apply IHr; [apply IHl; [done|]|]]; set_solver.
  - by apply IH.
Qed.

Lemma cbytes_at w l :
  (∀ i, (i < length w)%nat → l !! i = w !! i) → l !! length w = Some 0 → Forall (λ b, b ≠ 0) w →
  Ulib.cbytes l = w.
Proof.
  revert l; induction w as [|b w IH]; intros l Hl He Hz.
  - destruct l as [|c l]; [done|]. injection He as ->. done.
  - apply Forall_cons in Hz as [Hb Hz]. destruct l as [|c l]; [done|].
    pose proof (Hl 0%nat ltac:(cbn; lia)) as [= ->]. cbn. rewrite (proj2 (Z.eqb_neq b 0) Hb). f_equal.
    apply IH; [|done|done]. intros i Hi. exact (Hl (S i) ltac:(cbn; lia)).
Qed.

Section words.
  Context (line buf' : list Z) (E : list nat).
  Context (Hcut : cut E (line ++ [0]) buf') (HE : ∀ i, i ∈ E → line !! i = Some 32).

Lemma word_cut t w : tokrep line t w → word_ok w → snd t ∈ E → word buf' t = w.
Proof using Hcut HE.
  intros [[r Hr] He] [_ Hw] Hin. destruct t as [q eq]. cbn in *. subst eq. unfold word. cbn.
  assert (Hline : ∀ i, (i < length w)%nat → line !! (q + i)%nat = w !! i).
  { intros i Hi. rewrite <- lookup_drop, Hr, lookup_app_l by done. done. }
  apply cbytes_at.
  - intros i Hi. rewrite lookup_drop, Hcut. destruct (lookup_lt_is_Some_2 w i Hi) as [b Hb].
    rewrite decide_False.
    + rewrite lookup_app_l, Hline by (done || apply lookup_lt_is_Some; rewrite Hline, Hb; eauto). done.
    + intros Hi32%HE. rewrite Hline, Hb in Hi32 by done. injection Hi32 as ->.
      rewrite Forall_lookup in Hw. destruct (Hw i 32 Hb) as (_ & Hn & _). apply Hn. by left.
  - rewrite lookup_drop, Hcut, decide_True; done.
  - eapply Forall_impl; [done|]. by intros b (? & _).
Qed.

Lemma view_cut c a :
  rep line c a → ast_ok a → (∀ i, i ∈ ends c → i ∈ E) → view buf' c = a.
Proof using Hcut HE.
  revert a; induction c as [argv|c IH f mode fd|l IHl r IHr|l IHl r IHr|c IH];
    intros [ws|a file out|la ra|la ra|a]; cbn [rep ast_ok ends view]; try done.
  - intros Hf [_ Hok] Hin. f_equal. revert Hok Hin. induction Hf as [|t w argv ws Ht Hf IH]; intros Hok Hin; [done|].
    apply Forall_cons in Hok as [Hw Hok]. cbn. f_equal.
    + apply word_cut; [done|done|]. apply Hin. cbn. by left.
    + apply IH; [done|]. intros i Hi. apply Hin. cbn. by right.
  - intros (Hc & Hf & -> & ->) [Hok Hw] Hin. rewrite (IH a), (word_cut f file) by (set_solver || done).
    by destruct out.
  - intros [Hl Hr] [Hokl Hokr] Hin. by rewrite (IHl la), (IHr ra) by (set_solver || done).
  - intros [Hl Hr] [Hokl Hokr] Hin. by rewrite (IHl la), (IHr ra) by (set_solver || done).
  - intros Hc Hok Hin. by rewrite (IH a).
Qed.
End words.

Lemma rep_ends line c a i : rep line c a → i ∈ ends c → line !! i = Some 32.
Proof.
  assert (Htok : ∀ t w, tokrep line t w → line !! snd t = Some 32).
  { intros [q eq] w [[r Hr] He]. cbn in *. subst eq. rewrite <- lookup_drop, Hr. by apply list_lookup_middle. }
  revert a; induction c as [argv|c IH f mode fd|l IHl r IHr|l IHl r IHr|c IH];
    intros [ws|a file out|la ra|la ra|a]; cbn [rep ends]; try done.
  - intros Hf Hi. apply list_elem_of_fmap in Hi as (t & -> & Ht).
    apply list_elem_of_lookup in Ht as [k Hk]. destruct (Forall2_lookup_l _ _ _ _ _ Hf Hk) as (w & _ & Hw). eauto.
  - intros (Hc & Hf & _) [->|Hi]%elem_of_cons; eauto.
  - intros [Hl Hr] [Hi|Hi]%elem_of_app; eauto.
  - intros [Hl Hr] [Hi|Hi]%elem_of_app; eauto.
  - eauto.
Qed.

Lemma print_exec_ok a : ast_ok a → Forall tok_ok (print_exec a).
Proof.
  assert (Hsym : ∀ c, isin symbols c = true → tok_ok (Sym c)) by (intros c; by rewrite isin_elem).
  induction a as [ws|a IH f out|l IHl r IHr|l IHl r IHr|a IH]; cbn [ast_ok print_exec].
  - intros [_ H]. apply Forall_fmap. by eapply Forall_impl.
  - intros [Ha Hf]. apply Forall_app_2; [by apply IH|].
    constructor; [apply Hsym; by destruct out|]. constructor; [exact Hf|constructor].
  - intros [Hl Hr]. constructor; [by apply Hsym|].
    repeat (apply Forall_app_2 || apply Forall_cons_2); auto.
  - intros [Hl Hr]. constructor; [by apply Hsym|].
    repeat (apply Forall_app_2 || apply Forall_cons_2); auto.
  - intros Ha. constructor; [by apply Hsym|]. repeat (apply Forall_app_2 || apply Forall_cons_2); auto.
Qed.

Lemma print_line_ok a : ast_ok a → Forall tok_ok (print_line a).
Proof.
  intros Ha. pose proof (print_exec_ok a Ha) as H. destruct a; cbn in *; try done.
  all: apply Forall_cons in H as [_ H]; by apply Forall_app in H as [H _].
Qed.


