(* ===== verification/Mkfs.v ===== *)
(** * mkfs.c: building the file system image

    The image is the list of its blocks; a write behind the end extends it, as
    the host's file system does.  The files to put in are given with their
    names and contents.  A failed [assert] or host call is the stop
    [Panicked].  The host is little-endian. *)

From S2P Require Import Prelude Kernel Bytes Log Inode Ulib.

Definition NINODES : Z := 200.
Definition nbitmap : Z := FSSIZE / (BSIZE * 8) + 1.
Definition ninodeblocks : Z := NINODES / IPB + 1.
Definition nlog : Z := LOGSIZE.
Definition nmeta : Z := 2 + nlog + ninodeblocks + nbitmap.
Definition nblocks : Z := FSSIZE - nmeta.

Module Mkfs.

Record state := mk_state {
  img : list block;
  sb : superblock;
  freeinode : Z;
  freeblock : Z
}.
#[export] Instance eta_state : Settable state := λ r,
  mk_state (img r) (sb r) (freeinode r) (freeblock r).

Abbreviation F := (M state) (only parsing).

Definition assert_ (b : bool) : F unit := if b then mret tt else mstop (Panicked "assert").

(** Conversion to Intel byte order: the bytes stored, read as the host does. *)
Definition xshort (x : Z) : Z := le_val (le_bytes 2 x).
Definition xint (x : Z) : Z := le_val (le_bytes 4 x).

(** ** Sectors *)

Definition wsect (sec : Z) (buf : block) : F unit :=
  mmod (λ s, s <| img ::= λ l,
    <[Z.to_nat sec := buf]> (l ++ replicate (Z.to_nat sec + 1 - length l) zero_block) |>).

Definition rsect (sec : Z) : F block :=
  l ← mgets img;
  match l !! Z.to_nat sec with
  | Some b => mret b
  | None => mstop (Panicked "read")
  end.

(** ** Inodes *)

(** The in-memory [struct dinode] is the kernel's [inode] record, of which only
    the fields of a [dinode] are used. *)
Definition zero_din : inode := zero_inode.

(** The 64 bytes at offset [o] of a block, as a [struct dinode]. *)
Definition dinode_at (o : nat) (d : block) : inode :=
  zero_din <| i_type := di_type o d |> <| i_major := di_major o d |> <| i_minor := di_minor o d |>
    <| i_nlink := di_nlink o d |> <| i_size := di_size o d |> <| i_addrs := di_addrs o d |>.

Definition winode (inum : Z) (ip : inode) : F unit :=
  s ← mgets sb;
  let bn := IBLOCK inum s in
  buf ← rsect bn;
  wsect bn (put_dinode (dip_off inum) ip buf).

Definition rinode (inum : Z) : F inode :=
  s ← mgets sb;
  buf ← rsect (IBLOCK inum s);
  mret (dinode_at (dip_off inum) buf).

Definition ialloc (type : Z) : F Z :=
  inum ← mgets freeinode;
  mmod (λ s, s <| freeinode := u32 (inum + 1) |>) ;;
  winode inum
    (zero_din <| i_type := s16 (xshort type) |> <| i_nlink := s16 (xshort 1) |>
              <| i_size := xint 0 |>) ;;
  mret inum.

(** The bit map block with the first [used] bits set. *)
Definition bitmap (used : nat) : block :=
  foldl (λ buf i, alter (λ x, Z.lor x (Z.shiftl 1 (Z.of_nat i mod 8))) (Nat.div i 8) buf)
    zero_block (seq 0 used).

Definition balloc (used : Z) : F unit :=
  assert_ (used <? BSIZE * 8) ;;
  s ← mgets sb;
  wsect (sb_bmapstart s) (bitmap (Z.to_nat used)).

(** [freeblock++]. *)
Definition next_block : F Z :=
  b ← mgets freeblock;
  mmod (λ s, s <| freeblock := u32 (b + 1) |>) ;;
  mret b.

(** [if(xint(din.addrs[k]) == 0) din.addrs[k] = xint(freeblock++);] *)
Definition addr_of (din : inode) (k : nat) : F (inode * Z) :=
  let a := default 0 (i_addrs din !! k) in
  if xint a =? 0 then
    b ← next_block;
    let din := din <| i_addrs ::= <[k := xint b]> |> in
    mret (din, xint (xint b))
  else mret (din, xint a).

(** The block of file block [fbn], allocated when it is missing. *)
Definition fblock (din : inode) (fbn : Z) : F (inode * Z) :=
  if fbn <? NDIRECT then addr_of din (Z.to_nat fbn)
  else
    '(din, ind) ← addr_of din (Z.to_nat NDIRECT);
    indirect ← rsect ind;
    let o := Z.to_nat (4 * (fbn - NDIRECT)) in
    if get 4 o indirect =? 0 then
      b ← next_block;
      let indirect := put 4 o (xint b) indirect in
      wsect ind indirect ;;
      mret (din, xint (get 4 o indirect))
    else mret (din, xint (get 4 o indirect)).

(** The loop of [iappend] on the bytes [p] still to append. *)
Fixpoint iappend_loop (fuel : nat) (din : inode) (off : Z) (p : list Z) : F (inode * Z) :=
  match p with
  | [] => mret (din, off)
  | _ =>
      match fuel with
      | O => mstop OutOfFuel
      | S fuel =>
          let fbn := off / BSIZE in
          assert_ (fbn <? MAXFILE) ;;
          '(din, x) ← fblock din fbn;
          let n1 := Z.min (Z.of_nat (length p)) ((fbn + 1) * BSIZE - off) in
          buf ← rsect x;
          wsect x (splice (Z.to_nat (off - fbn * BSIZE)) (take (Z.to_nat n1) p) buf) ;;
          iappend_loop fuel din (u32 (off + n1)) (drop (Z.to_nat n1) p)
      end
  end.

Definition iappend (inum : Z) (p : list Z) : F unit :=
  din ← rinode inum;
  '(din, off) ← iappend_loop (length p) din (xint (i_size din)) p;
  winode inum (din <| i_size := xint off |>).

(** ** The program *)

Definition the_sb : superblock :=
  mk_superblock (xint FSSIZE) (xint nblocks) (xint NINODES) (xint nlog) (xint 2) (xint (2 + nlog))
    (xint (2 + nlog + ninodeblocks)).

(** The bytes of the super block. *)
Definition sb_bytes (s : superblock) : list Z :=
  le_bytes 4 (sb_size s) ++ le_bytes 4 (sb_nblocks s) ++ le_bytes 4 (sb_ninodes s) ++
  le_bytes 4 (sb_nlog s) ++ le_bytes 4 (sb_logstart s) ++ le_bytes 4 (sb_inodestart s) ++
  le_bytes 4 (sb_bmapstart s).

(** A directory entry: [strncpy] pads the name with zeros and cuts it at
    [DIRSIZ] bytes. *)
Definition dirent (inum : Z) (name : list Z) : list Z :=
  le_bytes 2 (xshort inum) ++ take 14 (name ++ replicate 14 0).

(** [while((cc = read(fd, buf, sizeof(buf))) > 0) iappend(inum, buf, cc);] *)
Fixpoint append_all (fuel : nat) (inum : Z) (content : list Z) : F unit :=
  match content with
  | [] => mret tt
  | _ =>
      match fuel with
      | O => mstop OutOfFuel
      | S fuel =>
          iappend inum (take (Z.to_nat BSIZE) content) ;;
          append_all fuel inum (drop (Z.to_nat BSIZE) content)
      end
  end.

(** One file of the command line; a leading underscore is dropped. *)
Definition add_file (rootino : Z) (f : list Z * list Z) : F unit :=
  let '(argv, content) := f in
  assert_ (bool_decide (Ulib.strchr argv 47 = None)) ;;
  let name := match argv with 95 :: name => name | _ => argv end in
  inum ← ialloc T_FILE;
  iappend rootino (dirent inum name) ;;
  append_all (length content) inum content.

Definition main (files : list (list Z * list Z)) : F unit :=
  mmod (λ s, s <| sb := the_sb |>) ;;
  mmod (λ s, s <| freeblock := nmeta |>) ;;
  iterM (λ i, wsect (Z.of_nat i) zero_block) (seq 0 (Z.to_nat FSSIZE)) ;;
  s ← mgets sb;
  wsect 1 (splice 0 (sb_bytes s) zero_block) ;;
  rootino ← ialloc T_DIR;
  assert_ (rootino =? ROOTINO) ;;
  iappend rootino (dirent rootino (chars ".")) ;;
  iappend rootino (dirent rootino (chars "..")) ;;
  iterM (add_file rootino) files ;;
  din ← rinode rootino;
  let off := xint (i_size din) in
  let off := (off / BSIZE + 1) * BSIZE in
  winode rootino (din <| i_size := xint off |>) ;;
  fb ← mgets freeblock;
  balloc fb.

(** The image mkfs writes; its file starts empty. *)
Definition mkfs (files : list (list Z * list Z)) : res state unit :=
  main files (mk_state [] the_sb 1 0).
End Mkfs.
