(* ===== verification/MkfsFile.v ===== *)
(** * mkfs.c: the blocks of a file under construction

    [mfile V x P l fb] says that the slots of inode [x] in use are those of
    [P], that they name distinct data blocks below the next free one [fb], and
    that these hold the bytes [l] followed by zeros.  A file of [n] bytes uses
    the slots [needs n], which are [nblk n] blocks.  [iappend] extends [l] and
    takes just the blocks the new bytes need. *)

From S2P Require Import Prelude Kernel Bytes Disk Bcache Log LogSpec Inode FsTx Fs FsFile FsWrite FsContents FsDir Mkfs.
Import Mkfs.

(** ** The blocks of a file under construction *)

(** Slot [j] is in use in a file of [n] bytes. *)
Definition needs (n j : nat) : bool :=
  bool_decide (512 * (if decide (j < 13)%nat then j else j - 1) < n)%nat.

(** The number of blocks of a file of [n] bytes. *)
Definition nblk (n : nat) : Z :=
  (Z.of_nat n + 511) / 512 + (if 6144 <? Z.of_nat n then 1 else 0).

#[global] Arguments needs : simpl never.
#[global] Arguments nblk : simpl never.

(** The slots of [x] in use are those of [P], in distinct data blocks below
    [fb]; they hold [l], followed by zeros. *)
Record mfile (V : list block) (x : inode) (P : nat → bool) (l : list Z) (fb : Z) : Prop := {
  mf_len : length (i_addrs x) = 13%nat;
  mf_word : Forall (λ a, 0 ≤ a < 2 ^ 32) (i_addrs x);
  mf_slot j : (j < nslots)%nat → slot V x j ≠ 0 ↔ P j = true;
  mf_data j : (j < nslots)%nat → slot V x j ≠ 0 → nmeta ≤ slot V x j < fb;
  mf_inj j j' : (j < nslots)%nat → (j' < nslots)%nat → slot V x j ≠ 0 → slot V x j = slot V x j' → j = j';
  mf_byte p : Z.of_nat p < MAXFILE * BSIZE → slot V x (fslot (p / 512)) ≠ 0 → fbyte V x p = Some (default 0 (l !! p))
}.

(** What a step of mkfs on file [x] leaves alone. *)
Record mstep (V : list block) (x : inode) (fb : Z) (V' : list block) (x' : inode) (fb' : Z) : Prop := {
  ms_len : length V' = length V;
  ms_blk : Forall blk V → Forall blk V';
  ms_inode : x' = x <| i_addrs := i_addrs x' |>;
  ms_own j : (j < nslots)%nat → slot V' x' j = slot V x j ∨ fb ≤ slot V' x' j;
  ms_frame b : 0 ≤ b < fb → (∀ j, (j < nslots)%nat → slot V x j ≠ 0 → slot V x j ≠ b) →
    V' !! Z.to_nat b = V !! Z.to_nat b;
  ms_high b : fb' ≤ b → V' !! Z.to_nat b = V !! Z.to_nat b;
  ms_fb : fb ≤ fb'
}.

Lemma mstep_refl V x fb : mstep V x fb V x fb.
Proof. split; try done; [destruct x; by usetf|auto]. Qed.

Lemma mstep_trans V1 x1 f1 V2 x2 f2 V3 x3 f3 :
  0 < f1 → mstep V1 x1 f1 V2 x2 f2 → mstep V2 x2 f2 V3 x3 f3 → mstep V1 x1 f1 V3 x3 f3.
Proof.
  intros Hpos [L1 B1 I1 O1 F1 H1 X1] [L2 B2 I2 O2 F2 H2 X2]. split; try lia; [auto|rewrite I2, I1; by usetf|..].
  - intros j Hj. destruct (O2 j Hj), (O1 j Hj); lia.
  - intros b Hb Hn. rewrite F2; [by apply F1|lia|]. intros j Hj Hne. destruct (O1 j Hj) as [E|E]; [|lia].
    rewrite E in *. auto.
  - intros b Hb. rewrite H2 by done. apply H1. lia.
Qed.

(** Another file, none of whose blocks is touched. *)
Lemma slot_frame V V' x :
  (slot V x 12 ≠ 0 → V' !! Z.to_nat (slot V x 12) = V !! Z.to_nat (slot V x 12)) →
  ∀ j, slot V' x j = slot V x j.
Proof.
  intros H j. destruct (decide (j < 13)%nat); [by rewrite !slot_addr|].
  rewrite (slot_entry V' x j), (slot_entry V x j) by lia. replace (slot V' x 12) with (slot V x 12) by (by rewrite !slot_addr by lia).
  destruct (Z.eqb_spec (slot V x 12) 0); [done|]. by rewrite H.
Qed.

Lemma mfile_frame V V' x P l fb fb' :
  mfile V x P l fb → fb ≤ fb' →
  (∀ j, (j < nslots)%nat → slot V x j ≠ 0 → V' !! Z.to_nat (slot V x j) = V !! Z.to_nat (slot V x j)) →
  mfile V' x P l fb'.
Proof.
  intros [H1 H2 H3 H4 H5 H6] Hfb H.
  assert (Hs : ∀ j, slot V' x j = slot V x j) by (apply slot_frame, H; unfold nslots; lia).
  split; try done; intros *; rewrite ?Hs; auto.
  - intros Hj Hne. specialize (H4 _ Hj Hne). lia.
  - intros Hp Hne. rewrite <- H6 by done. unfold fbyte. rewrite Hs.
    destruct (slot V x (fslot (p / 512)) =? 0) eqn:E; [done|]. rewrite H; [done| |done].
    by apply fblock_lt.
Qed.

Lemma mfile_ext V x P Q l fb :
  (∀ j, (j < nslots)%nat → P j = Q j) → mfile V x P l fb → mfile V x Q l fb.
Proof. intros E [H1 H2 H3 H4 H5 H6]. split; try done. intros j Hj. rewrite <- E by done. auto. Qed.

Definition also (j : nat) (P : nat → bool) (i : nat) : bool := bool_decide (i = j) || P i.

(** A zeroed block joins the file in slot [j]. *)
Lemma mfile_grow V V' x x' P l fb j :
  mfile V x P l fb → (j < nslots)%nat → P j = false → nmeta ≤ fb < 2 ^ 31 →
  length (i_addrs x') = 13%nat → Forall (λ a, 0 ≤ a < 2 ^ 32) (i_addrs x') →
  (∀ i, (i < nslots)%nat → slot V' x' i = if decide (i = j) then fb else slot V x i) →
  (∀ b, 0 ≤ b → b ≠ slot V x 12 → V' !! Z.to_nat b = V !! Z.to_nat b) →
  V !! Z.to_nat fb = Some zero_block → (j = 12 ∨ ∃ q, j = fslot q ∧ length l ≤ 512 * q)%nat →
  mfile V' x' (also j P) l (fb + 1).
Proof.
  intros [H1 H2 H3 H4 H5 H6] Hj HP Hfb Hlen Hw Hs Hoth Hz Hq.
  assert (Hpos : 0 < nmeta) by done.
  assert (H0 : slot V x j = 0).
  { destruct (decide (slot V x j = 0)) as [|N]; [done|]. apply H3 in N; [|done]. congruence. }
  split; try done.
  - intros i Hi. rewrite Hs by done. unfold also. case_decide as E.
    + rewrite bool_decide_true by done. split; [done|lia].
    + rewrite bool_decide_false by done. by apply H3.
  - intros i Hi. rewrite Hs by done. case_decide; [lia|]. intros Hne. specialize (H4 i Hi Hne). lia.
  - intros i i' Hi Hi'. rewrite !Hs by done.
    assert (Hlt : ∀ k, (k < nslots)%nat → slot V x k ≠ fb).
    { intros k Hk E. destruct (decide (slot V x k = 0)); [lia|]. specialize (H4 k Hk ltac:(done)). lia. }
    repeat case_decide; subst; try done; intros N E; [by destruct (Hlt i')|by destruct (Hlt i)|by apply H5].
  - intros p Hp. pose proof (fblock_lt p Hp) as Hk. unfold fbyte. rewrite Hs by done.
    case_decide as E.
    + intros _. rewrite (proj2 (Z.eqb_neq fb 0)) by lia. rewrite Hoth, Hz; cbn [mbind option_bind]; [|lia|].
      2: { intros E2. destruct (decide (slot V x 12 = 0)); [lia|].
           specialize (H4 12%nat ltac:(unfold nslots; lia) ltac:(done)). lia. }
      rewrite (lookup_ge_None_2 l p); cbn [default from_option]; [|destruct Hq as [->|(q & -> & Hq)]].
      * unfold zero_block. apply lookup_replicate_2. change (Z.to_nat BSIZE) with 512%nat.
        apply Nat.mod_upper_bound. lia.
      * exfalso. revert E. unfold fslot. case_decide; lia.
      * apply fslot_inj in E. pose proof (Nat.Div0.mul_div_le p 512). subst q. lia.
    + intros Hne. rewrite Hoth; [by apply (H6 p)|specialize (H4 _ Hk Hne); lia|].
      intros E2. specialize (H5 _ 12%nat Hk ltac:(unfold nslots; lia) Hne E2).
      revert H5. unfold fslot. case_decide; lia.
Qed.

Lemma mfile_unused V x P l fb j :
  mfile V x P l fb → (j < nslots)%nat → P j = false → slot V x j = 0.
Proof.
  intros Hf Hj HP. destruct (decide (slot V x j = 0)) as [|N]; [done|].
  apply (mf_slot _ _ _ _ _ Hf) in N; [|done]. congruence.
Qed.

(** A direct block, or the indirect block. *)
Lemma slot_set_addr V x j b :
  length (i_addrs x) = 13%nat → (j < 13)%nat → 0 < b → slot V x j = 0 →
  V !! Z.to_nat b = Some zero_block →
  ∀ i, slot V (x <| i_addrs ::= <[j := b]> |>) i = if decide (i = j) then b else slot V x i.
Proof.
  intros Hlen Hj Hb H0 Hz.
  assert (Hlow : ∀ i, (i < 13)%nat →
    slot V (x <| i_addrs ::= <[j := b]> |>) i = if decide (i = j) then b else slot V x i).
  { intros i Hi. rewrite !slot_addr by done. rsimpl. destruct (decide (i = j)) as [->|N].
    - by rewrite list_lookup_insert_eq by lia.
    - by rewrite list_lookup_insert_ne by done. }
  intros i. destruct (decide (i < 13)%nat) as [Hi|Hi]; [by apply Hlow|].
  rewrite (slot_entry _ _ i), (slot_entry V x i), Hlow by lia. rewrite (decide_False (P := i = j)) by lia.
  destruct (decide (12 = j)%nat) as [<-|]; [|done].
  rewrite H0, Hz, get_zero_block. cbn. by destruct (b =? 0).
Qed.

Lemma mfile_addr V x P l fb j :
  mfile V x P l fb → (j < 13)%nat → P j = false → nmeta ≤ fb < 2 ^ 31 →
  V !! Z.to_nat fb = Some zero_block → (j = 12 ∨ length l ≤ 512 * j)%nat →
  let x' := x <| i_addrs ::= <[j := fb]> |> in
  mfile V x' (also j P) l (fb + 1) ∧ slot V x' j = fb ∧ mstep V x fb V x' (fb + 1).
Proof.
  intros Hf Hj HP Hfb Hz Hq x'. assert (Hpos : 0 < nmeta) by done.
  assert (Hjn : (j < nslots)%nat) by (unfold nslots; lia).
  pose proof (slot_set_addr V x j fb (mf_len _ _ _ _ _ Hf) Hj ltac:(lia) (mfile_unused _ _ _ _ _ _ Hf Hjn HP) Hz)
    as Hs. fold x' in Hs. split_and!.
  - apply (mfile_grow V V x x' P l fb j); try done.
    + unfold x'. rsimpl. rewrite length_insert. apply Hf.
    + unfold x'. rsimpl. apply Forall_insert; [apply Hf|lia].
    + destruct Hq as [->|Hq]; [by left|]. destruct (decide (j = 12)%nat); [by left|right].
      exists j. unfold fslot. rewrite decide_True by lia. done.
  - by rewrite Hs, decide_True.
  - split; try done; [|lia].
    intros i Hi. rewrite Hs. case_decide; [right; lia|by left].
Qed.

(** An entry of the indirect block. *)
Lemma slot_set_entry V x j b d :
  let a := slot V x 12 in
  0 < a → V !! Z.to_nat a = Some d → blk d → (13 ≤ j < nslots)%nat → 0 ≤ b < 2 ^ 31 →
  ∀ i, (i < nslots)%nat → slot (<[Z.to_nat a := put 4 (4 * (j - 13)) b d]> V) x i =
    if decide (i = j) then b else slot V x i.
Proof.
  intros a Ha Hd Hblk Hj Hb i Hi. unfold nslots in *. pose proof (length_block d Hblk).
  destruct (decide (i < 13)%nat) as [H13|H13]; [rewrite decide_False by lia; by rewrite !slot_addr|].
  rewrite (slot_entry _ x i), (slot_entry V x i) by lia.
  replace (slot (<[Z.to_nat a := _]> V) x 12) with a by (unfold a; by rewrite !slot_addr by lia).
  fold a. rewrite (proj2 (Z.eqb_neq a 0)), list_lookup_insert_eq, Hd by (try lia; by eapply lookup_lt_Some).
  case_decide as E; [subst i; rewrite get_put by lia; apply Z.mod_small; change (256 ^ Z.of_nat 4) with (2 ^ 32); lia|].
  rewrite get_put_ne by lia. done.
Qed.

Lemma mfile_entry V x P l fb j d :
  mfile V x P l fb → (13 ≤ j < nslots)%nat → P 12%nat = true → P j = false → nmeta ≤ fb < 2 ^ 31 →
  V !! Z.to_nat (slot V x 12) = Some d → blk d →
  V !! Z.to_nat fb = Some zero_block → (length l ≤ 512 * (j - 1))%nat →
  let V' := <[Z.to_nat (slot V x 12) := put 4 (4 * (j - 13)) fb d]> V in
  mfile V' x (also j P) l (fb + 1) ∧ slot V' x j = fb ∧ mstep V x fb V' x (fb + 1).
Proof.
  intros Hf Hj H12 HP Hfb Hd Hblk Hz Hq V'. assert (Hpos : 0 < nmeta) by done.
  assert (Hn : (12 < nslots)%nat) by (unfold nslots; lia). pose proof (length_block d Hblk).
  assert (Ha : slot V x 12 ≠ 0) by (by apply (mf_slot _ _ _ _ _ Hf)).
  pose proof (mf_data _ _ _ _ _ Hf 12%nat Hn Ha) as Har.
  pose proof (slot_set_entry V x j fb d ltac:(lia) Hd Hblk Hj ltac:(lia)) as Hs. fold V' in Hs. split_and!.
  - apply (mfile_grow V V' x x P l fb j); try done; [lia|apply Hf|apply Hf|..].
    + intros b Hb Hne. apply list_lookup_insert_ne. lia.
    + right. exists (j - 1)%nat. unfold fslot. rewrite decide_False by lia. split; [lia|done].
  - rewrite Hs, decide_True by (done || lia). done.
  - split; [apply length_insert| |destruct x; by usetf|..|lia].
    + intros HV. apply Forall_insert; [done|]. split; [rewrite length_put; [apply Hblk|unfold nslots in *; lia]|].
      apply put_bytes, Hblk.
    + intros i Hi. rewrite Hs by done. case_decide; [right; lia|by left].
    + intros b Hb Hne. apply list_lookup_insert_ne. specialize (Hne _ Hn Ha). lia.
    + intros b Hb. apply list_lookup_insert_ne. lia.
Qed.

(** Bytes are added within a block. *)
Lemma mfile_write V x P l fb s d :
  let k := (length l / 512)%nat in let a := slot V x (fslot k) in
  mfile V x P l fb → Z.of_nat (length l) < MAXFILE * BSIZE → P (fslot k) = true →
  V !! Z.to_nat a = Some d → blk d → Forall is_byte s → (length l mod 512 + length s ≤ 512)%nat →
  let V' := <[Z.to_nat a := splice (length l mod 512) s d]> V in
  mfile V' x P (l ++ s) fb ∧ mstep V x fb V' x fb.
Proof.
  intros k a Hf Hmax HP Hd Hblk Hsb Hfit V'. assert (Hpos : 0 < nmeta) by done.
  pose proof (fblock_lt _ Hmax) as Hk. fold k in Hk. pose proof (length_block d Hblk).
  assert (Ha : a ≠ 0) by (by apply (mf_slot _ _ _ _ _ Hf)).
  pose proof (mf_data _ _ _ _ _ Hf _ Hk Ha) as Har. fold a in Har.
  assert (Hother : ∀ j, (j < nslots)%nat → slot V x j ≠ 0 → j ≠ fslot k →
    V' !! Z.to_nat (slot V x j) = V !! Z.to_nat (slot V x j)).
  { intros j Hj Hj0 Hne. apply list_lookup_insert_ne. intros E. apply Hne. symmetry.
    pose proof (mf_data _ _ _ _ _ Hf j Hj Hj0). apply (mf_inj _ _ _ _ _ Hf); try done. fold a. lia. }
  assert (Hs : ∀ j, slot V' x j = slot V x j).
  { apply slot_frame. intros N. apply Hother; [unfold nslots; lia|done|]. unfold fslot. case_decide; lia. }
  destruct Hf as [H1 H2 H3 H4 H5 H6]. split.
  - split; try done; intros *; rewrite ?Hs; auto. intros Hp Hne. unfold fbyte. rewrite Hs.
    rewrite (proj2 (Z.eqb_neq _ 0)) by done. specialize (H6 p Hp Hne). unfold fbyte in H6.
    rewrite (proj2 (Z.eqb_neq _ 0)) in H6 by done. pose proof (Nat.div_mod_eq p 512). pose proof (Nat.div_mod_eq (length l) 512).
    pose proof (Nat.mod_upper_bound p 512 ltac:(lia)). pose proof (Nat.mod_upper_bound (length l) 512 ltac:(lia)).
    destruct (decide (p / 512 = k)%nat) as [E|E].
    + rewrite E in *. fold a in H6 |- *. unfold V'. rewrite list_lookup_insert_eq by (by eapply lookup_lt_Some).
      rewrite Hd in H6. cbn [mbind option_bind] in *. rewrite lookup_splice by lia.
      rewrite lookup_app. fold k in H7. case_decide as C1.
      * rewrite (lookup_ge_None_2 l p) by lia.
        replace (p - length l)%nat with (p mod 512 - length l mod 512)%nat by lia.
        destruct (lookup_lt_is_Some_2 s (p mod 512 - length l mod 512)) as [v Hv]; [lia|]. by rewrite Hv.
      * rewrite H6. case_match eqn:Em; [done|]. apply lookup_ge_None in Em.
        rewrite (lookup_ge_None_2 s) by lia. done.
    + rewrite Hother; [|by apply fblock_lt|done|]. 2: { intros E2%fslot_inj. done. }
      rewrite H6. f_equal. rewrite lookup_app. case_match eqn:Em; [done|].
      destruct (s !! (p - length l)%nat) eqn:Es; [|done]. apply lookup_lt_Some in Es. exfalso. apply E.
      apply lookup_ge_None in Em. symmetry. apply (Nat.div_unique _ _ _ (p - 512 * k)); fold k in H7; lia.
  - split; [apply length_insert| |destruct x; by usetf|..|lia].
    + intros HV. apply Forall_insert; [done|]. split; [rewrite length_splice; [apply Hblk|lia]|].
      apply splice_bytes; [done|apply Hblk].
    + intros j Hj. left. apply Hs.
    + intros b Hb Hne. apply list_lookup_insert_ne. specialize (Hne _ Hk Ha). fold a in Hne. lia.
    + intros b Hb. apply list_lookup_insert_ne. lia.
Qed.

Lemma needs_in n j : (n mod 512 ≠ 0)%nat → needs (n + 1) j = needs n j.
Proof.
  intros Hn. unfold needs. apply bool_decide_ext. pose proof (Nat.div_mod_eq n 512).
  set (i := if decide (j < 13)%nat then j else (j - 1)%nat).
  split; [|lia]. intros H1. destruct (decide (512 * i = n)%nat) as [E|]; [|lia].
  exfalso. apply Hn. rewrite <- E, Nat.mul_comm. apply Nat.Div0.mod_mul.
Qed.

Lemma needs_edge q j : q ≠ 12%nat → needs (512 * q + 1) j = also (fslot q) (needs (512 * q)) j.
Proof.
  intros Hq. unfold needs, also, fslot. apply eq_true_iff_eq. rewrite orb_true_iff, !bool_decide_eq_true.
  repeat case_decide; lia.
Qed.

Lemma needs_indirect j : needs (512 * 12 + 1) j = also 13 (also 12 (needs (512 * 12))) j.
Proof.
  unfold needs, also. apply eq_true_iff_eq. rewrite !orb_true_iff, !bool_decide_eq_true.
  case_decide; lia.
Qed.

Lemma needs_self q : needs (512 * q) (fslot q) = false.
Proof. apply bool_decide_eq_false. unfold fslot. repeat case_decide; lia. Qed.

Lemma nblk_in n : (n mod 512 ≠ 0)%nat → nblk (n + 1) = nblk n.
Proof.
  intros Hn. unfold nblk. pose proof (Nat.div_mod_eq n 512). pose proof (Nat.mod_upper_bound n 512 ltac:(lia)).
  f_equal.
  - replace ((Z.of_nat (n + 1) + 511) / 512) with (Z.of_nat (n / 512) + 1).
    2: { apply (Z.div_unique_pos _ _ _ (Z.of_nat (n mod 512))); lia. }
    apply (Z.div_unique_pos _ _ _ (Z.of_nat (n mod 512) - 1)); lia.
  - assert (n ≠ 512 * 12)%nat by (intros ->; by apply Hn).
    destruct (Z.ltb_spec 6144 (Z.of_nat n)), (Z.ltb_spec 6144 (Z.of_nat (n + 1))); lia.
Qed.

Lemma nblk_edge q : nblk (512 * q + 1) = nblk (512 * q) + (if decide (q = 12)%nat then 2 else 1).
Proof.
  unfold nblk.
  replace ((Z.of_nat (512 * q + 1) + 511) / 512) with (Z.of_nat q + 1) by (apply (Z.div_unique_pos _ _ _ 0); lia).
  replace ((Z.of_nat (512 * q) + 511) / 512) with (Z.of_nat q) by (apply (Z.div_unique_pos _ _ _ 511); lia).
  destruct (Z.ltb_spec 6144 (Z.of_nat (512 * q))), (Z.ltb_spec 6144 (Z.of_nat (512 * q + 1))); case_decide; lia.
Qed.

(** ** The calls *)

Lemma xint_small x : 0 ≤ x < 2 ^ 32 → xint x = x.
Proof. intros H. unfold xint. by rewrite le_val_bytes_small. Qed.

Lemma rsect_ok b d s : img s !! Z.to_nat b = Some d → rsect b s = Ok d s.
Proof. intros H. unfold rsect. erewrite bind_ok; [|done]. by rewrite H. Qed.

Lemma wsect_ok b d s :
  (Z.to_nat b < length (img s))%nat → wsect b d s = Ok tt (s <| img ::= <[Z.to_nat b := d]> |>).
Proof.
  intros H. destruct s as [i sb0 fi fb]. cbn in H.
  change (Ok tt (mk_state (<[Z.to_nat b := d]> (i ++ replicate (Z.to_nat b + 1 - length i) zero_block)) sb0 fi fb) =
    Ok tt (mk_state (<[Z.to_nat b := d]> i) sb0 fi fb)).
  replace (Z.to_nat b + 1 - length i)%nat with 0%nat by lia. cbn [replicate]. by rewrite app_nil_r.
Qed.

Lemma next_block_ok s :
  0 ≤ freeblock s < 2 ^ 31 → next_block s = Ok (freeblock s) (s <| freeblock := freeblock s + 1 |>).
Proof.
  intros H. unfold next_block. erewrite bind_ok; [|done]. rewrite u32_small by lia. done.
Qed.

Lemma addr_of_there V x P l fb j s :
  mfile V x P l fb → (j < 13)%nat → P j = true → addr_of x j s = Ok (x, slot V x j) s.
Proof.
  intros Hf Hj HP. assert (Hjn : (j < nslots)%nat) by (unfold nslots; lia).
  assert (Ha : slot V x j ≠ 0) by (by apply (mf_slot _ _ _ _ _ Hf)).
  unfold addr_of. rewrite slot_addr in Ha |- * by done.
  destruct (lookup_lt_is_Some_2 (i_addrs x) j) as [a Hx]; [by rewrite (mf_len _ _ _ _ _ Hf)|].
  rewrite Hx in Ha |- *. cbn [default from_option id] in Ha |- *.
  pose proof (proj1 (Forall_lookup _ _) (mf_word _ _ _ _ _ Hf) _ _ Hx) as Hw. cbn in Hw.
  rewrite xint_small, (proj2 (Z.eqb_neq a 0)) by done. done.
Qed.

Lemma addr_of_new x P l j s :
  mfile (img s) x P l (freeblock s) → (j < 13)%nat → P j = false → 0 ≤ freeblock s < 2 ^ 31 →
  addr_of x j s = Ok (x <| i_addrs ::= <[j := freeblock s]> |>, freeblock s)
    (s <| freeblock := freeblock s + 1 |>).
Proof.
  intros Hf Hj HP Hfb. assert (Hjn : (j < nslots)%nat) by (unfold nslots; lia).
  pose proof (mfile_unused _ _ _ _ _ _ Hf Hjn HP) as Ha. unfold addr_of. rewrite slot_addr in Ha by done.
  rewrite Ha, xint_small by lia. cbn [Z.eqb]. erewrite bind_ok; [|by apply next_block_ok].
  rewrite !xint_small by lia. done.
Qed.

(** The image has its full size, and its free blocks are zero. *)
Record image (s : state) : Prop := {
  im_len : Z.of_nat (length (img s)) = FSSIZE;
  im_blk : Forall blk (img s);
  im_sb : sb s = the_sb;
  im_fb : nmeta ≤ freeblock s ≤ FSSIZE;
  im_zero b : freeblock s ≤ b < FSSIZE → img s !! Z.to_nat b = Some zero_block
}.

Record fstep (s : state) (x : inode) (s' : state) (x' : inode) : Prop := {
  fp_step : mstep (img s) x (freeblock s) (img s') x' (freeblock s');
  fp_sb : sb s' = sb s;
  fp_inode : freeinode s' = freeinode s
}.

Lemma fstep_refl s x : fstep s x s x.
Proof. split; try done. apply mstep_refl. Qed.

Lemma fstep_trans s1 x1 s2 x2 s3 x3 :
  image s1 → fstep s1 x1 s2 x2 → fstep s2 x2 s3 x3 → fstep s1 x1 s3 x3.
Proof.
  intros Him [H1 H2 H3] [G1 G2 G3]. split; try congruence. eapply mstep_trans; try done.
  destruct (im_fb _ Him). assert (0 < nmeta) by done. lia.
Qed.

Lemma image_step s x s' x' : image s → fstep s x s' x' → freeblock s' ≤ FSSIZE → image s'.
Proof.
  intros [H1 H2 H3 H4 H5] [G1 G2 G3] Hle. destruct G1. split; [congruence|auto|congruence|lia|].
  intros b Hb. rewrite ms_high0 by lia. apply H5. lia.
Qed.

(** Slot [j < 13] is allocated. *)
Lemma grow_addr_ok s x P l j :
  image s → mfile (img s) x P l (freeblock s) → (j < 13)%nat → P j = false → freeblock s < FSSIZE →
  (j = 12 ∨ length l ≤ 512 * j)%nat →
  ∃ s' x', addr_of x j s = Ok (x', slot (img s') x' j) s' ∧ mfile (img s') x' (also j P) l (freeblock s') ∧
    fstep s x s' x' ∧ freeblock s' = freeblock s + 1.
Proof.
  intros Him Hf Hj HP Hlt Hq. destruct (im_fb _ Him). assert (0 < nmeta) by done. assert (FSSIZE < 2 ^ 31) by done.
  destruct (mfile_addr (img s) x P l (freeblock s) j) as (G1 & G2 & G3); try done; [lia|by apply Him|].
  exists (s <| freeblock := freeblock s + 1 |>), (x <| i_addrs ::= <[j := freeblock s]> |>).
  split_and!; [|exact G1|split; [exact G3|done..]|done].
  erewrite addr_of_new by (done || lia). rsimpl. by rewrite G2.
Qed.

(** Entry [k] of the indirect block is allocated. *)
Lemma grow_entry_ok s x P l q ind :
  image s → mfile (img s) x P l (freeblock s) → (12 ≤ q < 140)%nat → P 12%nat = true → P (S q) = false →
  freeblock s < FSSIZE → (length l ≤ 512 * q)%nat → ind = slot (img s) x 12 →
  ∃ s', (indirect ← rsect ind;
    let o := Z.to_nat (4 * (Z.of_nat q - NDIRECT)) in
    if get 4 o indirect =? 0 then
      b ← next_block;
      let indirect := put 4 o (xint b) indirect in
      wsect ind indirect ;;
      mret (x, xint (get 4 o indirect))
    else mret (x, xint (get 4 o indirect))) s = Ok (x, slot (img s') x (S q)) s' ∧
    mfile (img s') x (also (S q) P) l (freeblock s') ∧ fstep s x s' x ∧ freeblock s' = freeblock s + 1.
Proof.
  intros Him Hf Hq H12 HP Hlt Hl ->. destruct (im_fb _ Him). assert (0 < nmeta) by done. assert (FSSIZE < 2 ^ 31) by done.
  assert (Hn : (12 < nslots)%nat) by (unfold nslots; lia). assert (Hqn : (S q < nslots)%nat) by (unfold nslots; lia).
  assert (Ha : slot (img s) x 12 ≠ 0) by (by apply (mf_slot _ _ _ _ _ Hf)).
  pose proof (mf_data _ _ _ _ _ Hf 12%nat Hn Ha) as Har. pose proof (im_len _ Him).
  destruct (lookup_lt_is_Some_2 (img s) (Z.to_nat (slot (img s) x 12))) as [d Hd]; [lia|].
  pose proof (proj1 (Forall_lookup _ _) (im_blk _ Him) _ _ Hd) as Hblk. pose proof (length_block d Hblk).
  destruct (mfile_entry (img s) x P l (freeblock s) (S q) d) as (G1 & G2 & G3); try (done || lia); [apply Him; lia|].
  change NDIRECT with 12. replace (Z.to_nat (4 * (Z.of_nat q - 12))) with (4 * (S q - 13))%nat by lia.
  erewrite bind_ok; [|by apply rsect_ok]. cbn zeta.
  assert (E0 : get 4 (4 * (S q - 13)) d = 0).
  { pose proof (mfile_unused _ _ _ _ _ _ Hf Hqn HP) as E. rewrite slot_entry in E by lia.
    rewrite (proj2 (Z.eqb_neq _ 0) Ha), Hd in E. done. }
  rewrite E0. cbn [Z.eqb]. erewrite bind_ok; [|apply next_block_ok; lia]. rewrite (xint_small (freeblock s)) by lia.
  erewrite bind_ok; [|apply wsect_ok; rsimpl; lia].
  set (V' := <[Z.to_nat (slot (img s) x 12) := put 4 (4 * (S q - 13)) (freeblock s) d]> (img s)) in *.
  exists (s <| img := V' |> <| freeblock := freeblock s + 1 |>).
  split_and!; [|exact G1|split; [exact G3|done..]|done].
  rewrite get_put by lia. rewrite Z.mod_small by (change (256 ^ Z.of_nat 4) with (2 ^ 32); lia).
  rewrite xint_small by lia. rsimpl. by rewrite G2.
Qed.

(** The block is there. *)
Lemma fblock_there s x P l fb q :
  Forall blk (img s) → fb ≤ Z.of_nat (length (img s)) →
  mfile (img s) x P l fb → (q < 140)%nat → P (fslot q) = true →
  fblock x (Z.of_nat q) s = Ok (x, slot (img s) x (fslot q)) s.
Proof.
  intros HB Hfb Hf Hq HP. assert (Hpos : 0 < nmeta) by done. unfold fblock. change NDIRECT with 12.
  assert (Hqn : (fslot q < nslots)%nat) by (by apply fslot_lt).
  destruct (Z.ltb_spec (Z.of_nat q) 12) as [Hlt|Hge]; unfold fslot in *.
  - rewrite decide_True in * by lia. rewrite Nat2Z.id. apply (addr_of_there _ _ _ _ _ _ _ Hf); [lia|done].
  - rewrite decide_False in * by lia. assert (Hn : (12 < nslots)%nat) by (unfold nslots; lia).
    assert (Hs : slot (img s) x (S q) ≠ 0) by (by apply (mf_slot _ _ _ _ _ Hf)).
    assert (Ha : slot (img s) x 12 ≠ 0).
    { intros E. apply Hs. rewrite slot_entry by lia. by rewrite E. }
    change (Z.to_nat 12) with 12%nat. erewrite bind_ok.
    2: { apply (addr_of_there _ _ _ _ _ _ _ Hf); [lia|]. by apply (mf_slot _ _ _ _ _ Hf). }
    pose proof (mf_data _ _ _ _ _ Hf 12%nat Hn Ha) as Har.
    destruct (lookup_lt_is_Some_2 (img s) (Z.to_nat (slot (img s) x 12))) as [d Hd]; [lia|].
    cbn beta iota. erewrite bind_ok; [|by apply rsect_ok]. cbn zeta.
    pose proof (proj1 (Forall_lookup _ _) HB _ _ Hd) as Hblk. pose proof (length_block d Hblk).
    replace (Z.to_nat (4 * (Z.of_nat q - 12))) with (4 * (S q - 13))%nat by lia.
    rewrite (slot_entry _ _ (S q)) in Hs |- * by lia. rewrite (proj2 (Z.eqb_neq _ 0) Ha), Hd in Hs |- *.
    rewrite (proj2 (Z.eqb_neq _ 0) Hs), xint_small; [done|].
    change (2 ^ 32) with (256 ^ Z.of_nat 4). apply get_range; [apply Hblk|lia].
Qed.

(** The first byte of a new block. *)
Lemma fblock_new s x l q :
  image s → mfile (img s) x (needs (512 * q)) l (freeblock s) → (q < 140)%nat → (length l ≤ 512 * q)%nat →
  freeblock s + (nblk (512 * q + 1) - nblk (512 * q)) ≤ FSSIZE →
  ∃ s' x', fblock x (Z.of_nat q) s = Ok (x', slot (img s') x' (fslot q)) s' ∧
    mfile (img s') x' (needs (512 * q + 1)) l (freeblock s') ∧ fstep s x s' x' ∧
    freeblock s' = freeblock s + (nblk (512 * q + 1) - nblk (512 * q)).
Proof.
  intros Him Hf Hq Hl Hroom. rewrite nblk_edge in *. unfold fblock. change NDIRECT with 12.
  change (Z.to_nat 12) with 12%nat. pose proof (needs_self q) as HP.
  destruct (Z.ltb_spec (Z.of_nat q) 12) as [Hlt|Hge].
  { rewrite decide_False in * by lia. unfold fslot in *. rewrite decide_True in * by lia. rewrite Nat2Z.id.
    destruct (grow_addr_ok s x (needs (512 * q)) l q) as (s' & x' & E & Hf' & Hst & Hfb); try (done || lia).
    exists s', x'. split_and!; [done| |done|lia]. eapply mfile_ext; [|exact Hf'].
    intros j _. rewrite needs_edge by lia. unfold fslot. by rewrite decide_True by lia. }
  unfold fslot in *. rewrite decide_False in * by lia. destruct (decide (q = 12)%nat) as [Eq|Hne].
  - destruct (grow_addr_ok s x (needs (512 * q)) l 12) as (s1 & x1 & E1 & Hf1 & Hst1 & Hfb1);
      try (done || lia); [|].
    { apply bool_decide_eq_false. rewrite decide_True by lia. lia. }
    assert (Him1 : image s1) by (eapply image_step; [exact Him|exact Hst1|lia]).
    destruct (grow_entry_ok s1 x1 (also 12 (needs (512 * q))) l q (slot (img s1) x1 12))
      as (s2 & E2 & Hf2 & Hst2 & Hfb2); try (done || lia).
    { unfold also. by rewrite bool_decide_false by lia. }
    exists s2, x1. split_and!; [erewrite bind_ok by exact E1; exact E2| | |lia].
    + eapply mfile_ext; [|exact Hf2]. intros j _. subst q. symmetry. apply needs_indirect.
    + by eapply fstep_trans.
  - assert (H12 : needs (512 * q) 12 = true) by (apply bool_decide_eq_true; rewrite decide_True by lia; lia).
    destruct (grow_entry_ok s x (needs (512 * q)) l q (slot (img s) x 12)) as (s' & E & Hf' & Hst & Hfb);
      try (done || lia).
    exists s', x. split_and!; [|..|done|lia].
    + erewrite bind_ok; [|apply (addr_of_there _ _ _ _ _ _ _ Hf); [lia|done]]. exact E.
    + eapply mfile_ext; [|exact Hf']. intros j _. rewrite needs_edge by done. unfold fslot.
      by rewrite decide_False by lia.
Qed.

Lemma fblock_ok s x l :
  let n := length l in
  image s → mfile (img s) x (needs n) l (freeblock s) → Z.of_nat n < MAXFILE * BSIZE →
  freeblock s + (nblk (n + 1) - nblk n) ≤ FSSIZE →
  ∃ s' x', fblock x (Z.of_nat n / BSIZE) s = Ok (x', slot (img s') x' (fslot (n / 512))) s' ∧
    mfile (img s') x' (needs (n + 1)) l (freeblock s') ∧ fstep s x s' x' ∧
    freeblock s' = freeblock s + (nblk (n + 1) - nblk n).
Proof.
  intros n Him Hf Hmax Hroom. change BSIZE with (Z.of_nat 512). rewrite <- Nat2Z.inj_div.
  change (MAXFILE * BSIZE) with 71680 in Hmax.
  assert (Hq : (n / 512 < 140)%nat) by (apply Nat.Div0.div_lt_upper_bound; lia).
  pose proof (Nat.div_mod_eq n 512) as Hdm. destruct (decide (n mod 512 = 0)%nat) as [E|E].
  - rewrite E, Nat.add_0_r in Hdm. rewrite Hdm in Hf, Hroom. 
    destruct (fblock_new s x l (n / 512)) as (s' & x' & H1 & H2 & H3 & H4); try done; [lia|].
    rewrite <- Hdm in H2, H4. by exists s', x'.
  - pose proof (Nat.mod_upper_bound n 512 ltac:(lia)). rewrite nblk_in in * by done.
    exists s, x. split_and!; [|..|apply fstep_refl|lia].
    + apply (fblock_there s x (needs n) l (freeblock s)); try done; [apply Him|..].
      * rewrite (im_len _ Him). apply Him.
      * apply bool_decide_eq_true. unfold fslot. repeat case_decide; lia.
    + eapply mfile_ext; [|exact Hf]. intros j _. symmetry. by apply needs_in.
Qed.

Lemma needs_same n m j : (0 < m)%nat → (n mod 512 + m ≤ 512)%nat → needs (n + 1) j = needs (n + m) j.
Proof.
  intros Hm Hfit. unfold needs. apply bool_decide_ext. pose proof (Nat.div_mod_eq n 512).
  set (i := if decide (j < 13)%nat then j else (j - 1)%nat). lia.
Qed.

Lemma nblk_mono n m : (n ≤ m)%nat → nblk n ≤ nblk m.
Proof.
  intros H. unfold nblk. assert ((Z.of_nat n + 511) / 512 ≤ (Z.of_nat m + 511) / 512) by (apply Z.div_le_mono; lia).
  destruct (Z.ltb_spec 6144 (Z.of_nat n)), (Z.ltb_spec 6144 (Z.of_nat m)); lia.
Qed.

Lemma nblk_same n m : (0 < m)%nat → (n mod 512 + m ≤ 512)%nat → nblk (n + 1) = nblk (n + m).
Proof.
  intros Hm Hfit. pose proof (Nat.div_mod_eq n 512) as Hd. unfold nblk. f_equal.
  - replace ((Z.of_nat (n + 1) + 511) / 512) with (Z.of_nat (n / 512) + 1).
    2: { apply (Z.div_unique_pos _ _ _ (Z.of_nat (n mod 512))); lia. }
    apply (Z.div_unique_pos _ _ _ (Z.of_nat (n mod 512 + m - 1))); lia.
  - destruct (Z.ltb_spec 6144 (Z.of_nat (n + 1))), (Z.ltb_spec 6144 (Z.of_nat (n + m))); lia.
Qed.

Lemma assert_ok b s : b = true → assert_ b s = Ok tt s.
Proof. by intros ->. Qed.

(** One round of the loop of [iappend]. *)
Lemma append_round s x l p :
  let n := length l in let fbn := Z.of_nat n / BSIZE in
  let m := Nat.min (length p) (512 - n mod 512) in
  image s → mfile (img s) x (needs n) l (freeblock s) → (0 < length p)%nat → Forall is_byte p →
  Z.of_nat n < MAXFILE * BSIZE → freeblock s + (nblk (n + m) - nblk n) ≤ FSSIZE →
  ∃ s1 x1 a d s2, fblock x fbn s = Ok (x1, a) s1 ∧ rsect a s1 = Ok d s1 ∧
    wsect a (splice (n mod 512) (take m p) d) s1 = Ok tt s2 ∧
    mfile (img s2) x1 (needs (n + m)) (l ++ take m p) (freeblock s2) ∧ fstep s x s2 x1 ∧
    freeblock s2 = freeblock s + (nblk (n + m) - nblk n).
Proof.
  intros n fbn m Him Hf Hp Hb Hmax Hroom. assert (Hpos : 0 < nmeta) by done.
  pose proof (Nat.mod_upper_bound n 512 ltac:(lia)) as Hmod.
  assert (Hm : (0 < m)%nat) by lia. assert (Hfit : (n mod 512 + m ≤ 512)%nat) by lia.
  rewrite <- (nblk_same n m Hm Hfit) in *.
  destruct (fblock_ok s x l) as (s1 & x1 & E1 & Hf1 & Hst1 & Hfb1); try done. fold n in E1, Hf1, Hfb1.
  assert (Him1 : image s1) by (eapply image_step; [exact Him|exact Hst1|lia]).
  pose proof (fblock_lt n Hmax) as Hk. assert (HP : needs (n + 1) (fslot (n / 512)) = true).
  { apply bool_decide_eq_true. pose proof (Nat.div_mod_eq n 512). unfold fslot. repeat case_decide; lia. }
  pose proof (proj2 (mf_slot _ _ _ _ _ Hf1 _ Hk) HP) as Ha. pose proof (mf_data _ _ _ _ _ Hf1 _ Hk Ha) as Har.
  pose proof (im_len _ Him1) as Hlen. pose proof (im_fb _ Him1) as Hfb.
  set (a := slot (img s1) x1 (fslot (n / 512))) in *.
  destruct (lookup_lt_is_Some_2 (img s1) (Z.to_nat a)) as [d Hd]; [lia|].
  pose proof (proj1 (Forall_lookup _ _) (im_blk _ Him1) _ _ Hd) as Hblk.
  destruct (mfile_write (img s1) x1 (needs (n + 1)) l (freeblock s1) (take m p) d) as (G1 & G2); try done.
  { by apply Forall_take. }
  { rewrite length_take. fold n. lia. }
  exists s1, x1, a, d, (s1 <| img := <[Z.to_nat a := splice (n mod 512) (take m p) d]> (img s1) |>).
  split_and!; [done|by apply rsect_ok|rewrite wsect_ok by lia; done|..|done].
  - eapply mfile_ext; [|exact G1]. intros j _. by apply needs_same.
  - eapply fstep_trans; [exact Him|exact Hst1|]. split; [exact G2|done..].
Qed.

Lemma iappend_loop_ok fuel s x l p :
  image s → mfile (img s) x (needs (length l)) l (freeblock s) → Forall is_byte p → (length p ≤ fuel)%nat →
  Z.of_nat (length l + length p) ≤ MAXFILE * BSIZE →
  freeblock s + (nblk (length l + length p) - nblk (length l)) ≤ FSSIZE →
  ∃ s' x', iappend_loop fuel x (Z.of_nat (length l)) p s = Ok (x', Z.of_nat (length l + length p)) s' ∧
    mfile (img s') x' (needs (length l + length p)) (l ++ p) (freeblock s') ∧ fstep s x s' x' ∧
    freeblock s' = freeblock s + (nblk (length l + length p) - nblk (length l)).
Proof.
  revert s x l p. induction fuel as [|fuel IH]; intros s x l p Him Hf Hb Hfuel Hmax Hroom.
  all: destruct p as [|c p0]; [exists s, x; rewrite Nat.add_0_r, app_nil_r in *; split_and!; [done|done|apply fstep_refl|lia]|].
  { cbn in Hfuel. lia. }
  assert (Hp : (0 < length (c :: p0))%nat) by (cbn; lia). cbn [iappend_loop].
  set (p := c :: p0) in *. set (n := length l) in *. clearbody p.
  pose proof (Nat.mod_upper_bound n 512 ltac:(lia)) as Hmod. pose proof (Nat.div_mod_eq n 512) as Hdm.
  set (m := Nat.min (length p) (512 - n mod 512)).
  pose proof (nblk_mono (n + m) (n + length p) ltac:(lia)) as Hmono.
  destruct (append_round s x l p) as (s1 & x1 & a & d & s2 & E1 & E2 & E3 & Hf2 & Hst & Hfb2); try done.
  { fold n. lia. } { fold n m. lia. }
  fold n m in E1, E3, Hf2, Hfb2.
  assert (Hl : length (l ++ take m p) = (n + m)%nat) by (rewrite length_app, length_take; fold n; lia).
  assert (Hd : length (drop m p) = (length p - m)%nat) by apply length_drop.
  destruct (IH s2 x1 (l ++ take m p) (drop m p)) as (s' & x' & E4 & Hf' & Hst' & Hfb').
  { eapply image_step; [exact Him|exact Hst|lia]. }
  { by rewrite Hl. }
  { by apply Forall_drop. }
  { lia. } { rewrite Hl, Hd. lia. }
  { rewrite Hl, Hd. replace (n + m + (length p - m))%nat with (n + length p)%nat by lia. lia. }
  rewrite Hl, Hd, <- app_assoc, take_drop in *. replace (n + m + (length p - m))%nat with (n + length p)%nat in * by lia.
  assert (En : Z.of_nat n / BSIZE = Z.of_nat (n / 512)) by (change BSIZE with (Z.of_nat 512); by rewrite Nat2Z.inj_div).
  change (MAXFILE * BSIZE) with 71680 in Hmax. change BSIZE with 512 in *. change MAXFILE with 140.
  erewrite bind_ok; [|apply assert_ok, Z.ltb_lt; rewrite En; lia]. erewrite bind_ok by exact E1.
  cbn beta iota. erewrite bind_ok by exact E2.
  replace (Z.to_nat (Z.min (Z.of_nat (length p)) ((Z.of_nat n / 512 + 1) * 512 - Z.of_nat n))) with m by lia.
  replace (Z.to_nat (Z.of_nat n - Z.of_nat n / 512 * 512)) with (n mod 512)%nat by lia.
  erewrite bind_ok by exact E3.
  rewrite u32_small by lia.
  replace (Z.of_nat n + Z.min (Z.of_nat (length p)) ((Z.of_nat n / 512 + 1) * 512 - Z.of_nat n)) with (Z.of_nat (n + m)) by lia.
  exists s', x'. split_and!; [done|done|by eapply fstep_trans|lia].
Qed.
