(* ===== verification/MkfsSpec.v ===== *)
(** * mkfs.c: the image under construction

    [built s A] says that the image holds the files [A], file [k] of the list
    in inode [k + 1], each in blocks of its own below [freeblock], and that the
    other inodes and the blocks from [freeblock] on are free.  It holds of the
    zeroed image with its super block, and [ialloc], [iappend] and the loops
    of [main] over the files and their contents keep it. *)

From S2P Require Import Prelude Kernel Bytes Disk Bcache Log LogSpec Inode FsTx Fs FsFile FsWrite FsContents FsDir Ulib Mkfs MkfsFile.
Import Mkfs.

(** ** The inode table *)

(** The inode with number [n] on the image. *)
Definition dino (V : list block) (n : Z) : inode :=
  dinode_at (dip_off n) (default zero_block (V !! Z.to_nat (IBLOCK n the_sb))).

(** What a [struct dinode] keeps of an inode. *)
Definition on_disk (x : inode) : inode :=
  zero_din <| i_type := i_type x |> <| i_major := i_major x |> <| i_minor := i_minor x |>
    <| i_nlink := i_nlink x |> <| i_size := i_size x |> <| i_addrs := i_addrs x |>.

Lemma mkfs_iblock n : 0 ≤ n < NINODES → IBLOCK n the_sb = n / 8 + 32.
Proof.
  intros Hn. unfold IBLOCK. change IPB with 8. change (sb_inodestart the_sb) with 32. change NINODES with 200 in Hn.
  apply u32_small. pose proof (Z.div_pos n 8). assert (n / 8 < 25) by (apply Z.div_lt_upper_bound; lia). lia.
Qed.

Lemma IBLOCK_range n : 0 ≤ n < NINODES → 32 ≤ IBLOCK n the_sb < nmeta.
Proof.
  intros Hn. rewrite mkfs_iblock by done. change NINODES with 200 in Hn. change nmeta with 59.
  pose proof (Z.div_pos n 8). assert (n / 8 < 25) by (apply Z.div_lt_upper_bound; lia). lia.
Qed.

Lemma dip_off_le n : (dip_off n + 64 ≤ 512)%nat.
Proof. unfold dip_off. change IPB with 8. pose proof (Z.mod_pos_bound n 8). lia. Qed.

Lemma dip_off_apart n n' :
  0 ≤ n < NINODES → 0 ≤ n' < NINODES → n ≠ n' → IBLOCK n the_sb = IBLOCK n' the_sb →
  (dip_off n' + 64 ≤ dip_off n ∨ dip_off n + 64 ≤ dip_off n')%nat.
Proof.
  intros Hn Hn' Hne. rewrite !mkfs_iblock by done. unfold dip_off. change IPB with 8. intros E.
  pose proof (Z.div_mod n 8). pose proof (Z.div_mod n' 8).
  pose proof (Z.mod_pos_bound n 8). pose proof (Z.mod_pos_bound n' 8). lia.
Qed.

Lemma dinode_at_put o x d : fields_ok x → (o + 64 ≤ length d)%nat → dinode_at o (put_dinode o x d) = on_disk x.
Proof.
  intros Hx Hd. unfold dinode_at, on_disk. by destruct (dinode_fields o x d Hx Hd) as (-> & -> & -> & -> & -> & ->).
Qed.

Lemma dinode_at_else o o' x d :
  fields_ok x → (o + 64 ≤ length d)%nat → (o' + 64 ≤ o ∨ o + 64 ≤ o')%nat →
  dinode_at o' (put_dinode o x d) = dinode_at o' d.
Proof.
  intros Hx Hd Ho. unfold dinode_at, di_type, di_major, di_minor, di_nlink, di_size.
  rewrite !dinode_else by (done || lia).
  replace (di_addrs o' (put_dinode o x d)) with (di_addrs o' d); [done|]. unfold di_addrs. apply list_fmap_ext.
  intros i k Hi%lookup_seq. symmetry. apply dinode_else; [done|done|]. lia.
Qed.

(** The result of [winode]. *)
Record wrote (s : state) (n : Z) (x : inode) (s' : state) : Prop := {
  wr_len : length (img s') = length (img s);
  wr_blk : Forall blk (img s');
  wr_sb : sb s' = sb s;
  wr_next : freeinode s' = freeinode s;
  wr_fb : freeblock s' = freeblock s;
  wr_this : dino (img s') n = on_disk x;
  wr_else n' : 0 ≤ n' < NINODES → n' ≠ n → dino (img s') n' = dino (img s) n';
  wr_block b : 0 ≤ b → ~ (32 ≤ b < nmeta) → img s' !! Z.to_nat b = img s !! Z.to_nat b
}.

Lemma winode_ok s n x :
  image s → fields_ok x → 0 ≤ n < NINODES → ∃ s', winode n x s = Ok tt s' ∧ wrote s n x s'.
Proof.
  intros Him Hx Hn. pose proof (IBLOCK_range n Hn) as Hr. assert (nmeta < FSSIZE) by done.
  pose proof (im_len _ Him). pose proof (dip_off_le n).
  destruct (lookup_lt_is_Some_2 (img s) (Z.to_nat (IBLOCK n the_sb))) as [d Hd]; [lia|].
  pose proof (proj1 (Forall_lookup _ _) (im_blk _ Him) _ _ Hd) as Hblk. pose proof (length_block d Hblk) as Hl.
  unfold winode. erewrite bind_ok; [|done]. cbn zeta. rewrite (im_sb _ Him).
  erewrite bind_ok; [|by apply rsect_ok]. rewrite wsect_ok by lia.
  eexists. split; [done|]. split; rsimpl; try done.
  - apply length_insert.
  - apply Forall_insert; [apply Him|]. apply put_dinode_blk; [done|lia|done].
  - unfold dino. rewrite list_lookup_insert_eq by lia. cbn [default from_option id]. apply dinode_at_put; [done|lia].
  - intros n' Hn' Hne. unfold dino. destruct (decide (IBLOCK n the_sb = IBLOCK n' the_sb)) as [E|E].
    + rewrite <- E, list_lookup_insert_eq, Hd by lia. cbn [default from_option id].
      apply dinode_at_else; [done|lia|]. apply dip_off_apart; done.
    + rewrite list_lookup_insert_ne; [done|]. pose proof (IBLOCK_range n' Hn'). lia.
  - intros b Hb Hno. apply list_lookup_insert_ne. lia.
Qed.

Lemma rinode_ok s n : image s → 0 ≤ n < NINODES → rinode n s = Ok (dino (img s) n) s.
Proof.
  intros Him Hn. pose proof (IBLOCK_range n Hn) as Hr. assert (nmeta < FSSIZE) by done. pose proof (im_len _ Him).
  destruct (lookup_lt_is_Some_2 (img s) (Z.to_nat (IBLOCK n the_sb))) as [d Hd]; [lia|].
  unfold rinode. erewrite bind_ok; [|done]. cbn zeta. rewrite (im_sb _ Him).
  erewrite bind_ok; [|by apply rsect_ok]. unfold dino. by rewrite Hd.
Qed.

Lemma image_wrote s n x s' : image s → wrote s n x s' → image s'.
Proof.
  intros [H1 H2 H3 H4 H5] Hw. destruct Hw. assert (0 < nmeta) by done. split; [congruence|done|congruence|lia|].
  intros b Hb. rewrite wr_block0 by lia. apply H5. lia.
Qed.

(** ** The files of the image *)

Definition total (A : list (Z * list Z)) : Z := foldr (λ a z, nblk (length a.2) + z) 0 A.

Lemma total_cons a A : total (a :: A) = nblk (length a.2) + total A.
Proof. done. Qed.

Lemma total_insert A k t l l' :
  A !! k = Some (t, l) → total (<[k := (t, l')]> A) = total A + (nblk (length l') - nblk (length l)).
Proof.
  revert k. induction A as [|a A IH]; intros k Hk; [done|].
  destruct k as [|k].
  - injection Hk as ->. change (<[0%nat := (t, l')]> ((t, l) :: A)) with ((t, l') :: A). rewrite !total_cons. cbn [snd]. lia.
  - change (<[S k := (t, l')]> (a :: A)) with (a :: <[k := (t, l')]> A). rewrite !total_cons, (IH k) by done. lia.
Qed.

Lemma total_snoc A t : total (A ++ [(t, [])]) = total A.
Proof. induction A as [|a A IH]; [done|]. cbn [app]. by rewrite !total_cons, IH. Qed.

(** Inode [n] of the image is a file of type [t] with the bytes [l]. *)
Record holds (s : state) (n : Z) (t : Z) (l : list Z) : Prop := {
  ho_type : i_type (dino (img s) n) = t;
  ho_short : short t;
  ho_major : i_major (dino (img s) n) = 0;
  ho_minor : i_minor (dino (img s) n) = 0;
  ho_link : i_nlink (dino (img s) n) = 1;
  ho_size : i_size (dino (img s) n) = Z.of_nat (length l);
  ho_max : Z.of_nat (length l) ≤ MAXFILE * BSIZE;
  ho_bytes : Forall is_byte l;
  ho_file : mfile (img s) (dino (img s) n) (needs (length l)) l (freeblock s)
}.

Definition apart (V : list block) (x y : inode) : Prop := disjoint_files V x y ∧ disjoint_files V y x.

(** The image so far: inode [k + 1] is the file [A !! k], the other inodes are
    free, and the blocks from [freeblock] on are not used. *)
Record built (s : state) (A : list (Z * list Z)) : Prop := {
  bu_image : image s;
  bu_super : ∃ d, img s !! 1%nat = Some d ∧ sb_of d = the_sb;
  bu_log b : 2 ≤ b < 32 → img s !! Z.to_nat b = Some zero_block;
  bu_next : freeinode s = Z.of_nat (length A) + 1;
  bu_count : Z.of_nat (length A) < NINODES;
  bu_total : freeblock s = nmeta + total A;
  bu_holds k t l : A !! k = Some (t, l) → holds s (Z.of_nat k + 1) t l;
  bu_unused n : Z.of_nat (length A) < n < NINODES → i_type (dino (img s) n) = 0;
  bu_apart k k' : (k < length A)%nat → (k' < length A)%nat → k ≠ k' →
    apart (img s) (dino (img s) (Z.of_nat k + 1)) (dino (img s) (Z.of_nat k' + 1))
}.

(** The blocks before the data are left alone by a step on a file. *)
Lemma fstep_low s x s' x' P l b :
  image s → mfile (img s) x P l (freeblock s) → fstep s x s' x' → 0 ≤ b < nmeta →
  img s' !! Z.to_nat b = img s !! Z.to_nat b.
Proof.
  intros Him Hf [Hs _ _] Hb. pose proof (im_fb _ Him). apply (ms_frame _ _ _ _ _ _ Hs); [lia|].
  intros j Hj Hne. pose proof (mf_data _ _ _ _ _ Hf j Hj Hne). lia.
Qed.

Lemma fstep_dino s x s' x' P l n :
  image s → mfile (img s) x P l (freeblock s) → fstep s x s' x' → 0 ≤ n < NINODES →
  dino (img s') n = dino (img s) n.
Proof.
  intros Him Hf Hs Hn. unfold dino. erewrite fstep_low; try done. pose proof (IBLOCK_range n Hn). lia.
Qed.

Lemma mfile_same V x y P l fb : i_addrs x = i_addrs y → mfile V x P l fb → mfile V y P l fb.
Proof.
  intros E [H1 H2 H3 H4 H5 H6]. assert (Hs : ∀ j, slot V y j = slot V x j) by (intros j; unfold slot; by rewrite E).
  split; [congruence|congruence|..]; intros *; rewrite ?Hs; auto. unfold fbyte in *. rewrite Hs. auto.
Qed.

Lemma mfile_wrote s n x s' y P l fb :
  wrote s n x s' → mfile (img s) y P l fb →
  mfile (img s') y P l fb ∧ ∀ j, slot (img s') y j = slot (img s) y j.
Proof.
  intros Hw Hf. assert (0 < nmeta) by done.
  assert (E : ∀ j, (j < nslots)%nat → slot (img s) y j ≠ 0 →
    img s' !! Z.to_nat (slot (img s) y j) = img s !! Z.to_nat (slot (img s) y j)).
  { intros j Hj Hne. pose proof (mf_data _ _ _ _ _ Hf j Hj Hne). apply (wr_block _ _ _ _ Hw); lia. }
  split; [by eapply mfile_frame|]. apply slot_frame, E. unfold nslots. lia.
Qed.

(** What a step on file [x] does to another file. *)
Lemma fstep_other s x s1 x1 z P l P' l' :
  image s → mfile (img s) x P' l' (freeblock s) → mfile (img s) z P l (freeblock s) →
  apart (img s) x z → fstep s x s1 x1 →
  mfile (img s1) z P l (freeblock s1) ∧ apart (img s1) x1 z ∧ ∀ j, slot (img s1) z j = slot (img s) z j.
Proof.
  intros Him Hx Hz [D1 D2] [Hs _ _]. pose proof (im_fb _ Him). assert (0 < nmeta) by done.
  assert (E : ∀ j, (j < nslots)%nat → slot (img s) z j ≠ 0 →
    img s1 !! Z.to_nat (slot (img s) z j) = img s !! Z.to_nat (slot (img s) z j)).
  { intros j Hj Hne. pose proof (mf_data _ _ _ _ _ Hz j Hj Hne).
    apply (ms_frame _ _ _ _ _ _ Hs); [lia|]. intros j' Hj' Hne'. by apply D1. }
  assert (Hsl : ∀ j, slot (img s1) z j = slot (img s) z j) by (apply slot_frame, E; unfold nslots; lia).
  split_and!; [eapply mfile_frame; [exact Hz|apply (ms_fb _ _ _ _ _ _ Hs)|done]| |done].
  assert (Hlt : ∀ j, (j < nslots)%nat → slot (img s) z j < freeblock s).
  { intros j Hj. destruct (decide (slot (img s) z j = 0)) as [->|N]; [lia|].
    by apply (mf_data _ _ _ _ _ Hz). }
  split; intros j j' Hj Hj'; rewrite Hsl; intros N.
  - destruct (ms_own _ _ _ _ _ _ Hs j Hj) as [Ej|Ej]; [rewrite Ej in *; by apply D1|specialize (Hlt j' Hj'); lia].
  - destruct (ms_own _ _ _ _ _ _ Hs j' Hj') as [Ej|Ej]; [rewrite Ej in *; by apply D2|specialize (Hlt j Hj); lia].
Qed.

Lemma apart_slots V V' x y x' y' :
  (∀ j, slot V' x' j = slot V x j) → (∀ j, slot V' y' j = slot V y j) → apart V x y → apart V' x' y'.
Proof. intros Ex Ey [D1 D2]. split; intros j j'; rewrite Ex, Ey; auto. Qed.

(** Another file keeps its place in the table and its blocks. *)
Lemma holds_else s s' n t l :
  holds s n t l → dino (img s') n = dino (img s) n →
  mfile (img s') (dino (img s) n) (needs (length l)) l (freeblock s') → holds s' n t l.
Proof. intros [H1 H2 H3 H4 H5 H6 H7 H8 H9] E Hf. split; rewrite ?E; done. Qed.

(** The other fields stay. *)
Lemma holds_kept s n t l V fb x1 fb' :
  holds s n t l → mstep (img s) (dino (img s) n) fb V x1 fb' →
  i_type x1 = t ∧ i_major x1 = 0 ∧ i_minor x1 = 0 ∧ i_nlink x1 = 1.
Proof.
  intros [H1 H2 H3 H4 H5 _ _ _ _] Hst. rewrite (ms_inode _ _ _ _ _ _ Hst). rsimpl. by rewrite H1, H3, H4, H5.
Qed.

Section update.
  Context (s : state) (A : list (Z * list Z)) (k : nat) (t : Z) (l : list Z).
  Context (Hb : built s A) (Hk : A !! k = Some (t, l)).
  Abbreviation n := (Z.of_nat k + 1).
  Abbreviation x := (dino (img s) n).
  Context (s1 : state) (x1 : inode) (l' : list Z).
  Context (Hst : fstep s x s1 x1) (Hf1 : mfile (img s1) x1 (needs (length l')) l' (freeblock s1)).
  Context (Hby : Forall is_byte l') (Hmax : Z.of_nat (length l') ≤ MAXFILE * BSIZE).
  Context (s2 : state) (Hw : wrote s1 n (x1 <| i_size := Z.of_nat (length l') |>) s2).

Lemma update_this : holds s2 n t l'.
Proof using All.
  pose proof (bu_holds _ _ Hb k t l Hk) as Hx. pose proof (wr_this _ _ _ _ Hw) as E.
  destruct (mfile_wrote _ _ _ _ x1 _ _ _ Hw Hf1) as [Hf2 _]. pose proof (ho_short _ _ _ _ Hx).
  destruct (holds_kept _ _ _ _ _ _ _ _ Hx (fp_step _ _ _ _ Hst)) as (X1 & X2 & X3 & X4).
  split; rewrite ?E; unfold on_disk; rsimpl; try assumption; [done|].
  apply (mfile_same _ x1); [done|]. by rewrite (wr_fb _ _ _ _ Hw).
Qed.

Lemma update_this_slot j : slot (img s2) (dino (img s2) n) j = slot (img s1) x1 j.
Proof using Hf1 Hw.
  destruct (mfile_wrote _ _ _ _ x1 _ _ _ Hw Hf1) as [_ <-]. by rewrite (wr_this _ _ _ _ Hw).
Qed.

Lemma update_else k' t0 l0 :
  A !! k' = Some (t0, l0) → k' ≠ k →
  holds s2 (Z.of_nat k' + 1) t0 l0 ∧
  (∀ j, slot (img s2) (dino (img s2) (Z.of_nat k' + 1)) j = slot (img s) (dino (img s) (Z.of_nat k' + 1)) j) ∧
  apart (img s2) (dino (img s2) n) (dino (img s2) (Z.of_nat k' + 1)).
Proof using All.
  intros Hk' Hne. pose proof (bu_holds _ _ Hb k t l Hk) as Hx. pose proof (bu_holds _ _ Hb k' t0 l0 Hk') as Hz.
  pose proof (lookup_lt_Some _ _ _ Hk) as Hl. pose proof (lookup_lt_Some _ _ _ Hk') as Hl'.
  pose proof (bu_count _ _ Hb) as Hc. pose proof (bu_image _ _ Hb) as Him.
  pose proof (bu_apart _ _ Hb k k' Hl Hl' ltac:(done)) as Hap.
  destruct (fstep_other s x s1 x1 _ _ _ _ _ Him (ho_file _ _ _ _ Hx) (ho_file _ _ _ _ Hz) Hap Hst)
    as (Hz1 & Hap1 & Es1).
  destruct (mfile_wrote _ _ _ _ _ _ _ _ Hw Hz1) as [Hz2 Hsl].
  assert (E : dino (img s2) (Z.of_nat k' + 1) = dino (img s) (Z.of_nat k' + 1)).
  { rewrite (wr_else _ _ _ _ Hw) by lia. apply (fstep_dino s x s1 x1 _ _ _ Him (ho_file _ _ _ _ Hx) Hst). lia. }
  rewrite E. split_and!; [|intros j; by rewrite Hsl|].
  - apply (holds_else s); [done|done|]. by rewrite (wr_fb _ _ _ _ Hw).
  - eapply apart_slots; [apply update_this_slot|exact Hsl|done].
Qed.

Lemma update_apart k1 k2 :
  (k1 < length A)%nat → (k2 < length A)%nat → k1 ≠ k2 →
  apart (img s2) (dino (img s2) (Z.of_nat k1 + 1)) (dino (img s2) (Z.of_nat k2 + 1)).
Proof using All.
  intros H1 H2 Hne.
  destruct (lookup_lt_is_Some_2 A k1 H1) as [[t1 l1] E1], (lookup_lt_is_Some_2 A k2 H2) as [[t2 l2] E2].
  destruct (decide (k1 = k)) as [->|N1]; [by eapply update_else|].
  destruct (decide (k2 = k)) as [->|N2].
  { destruct (update_else k1 t1 l1 E1 N1) as (_ & _ & [? ?]). by split. }
  destruct (update_else k1 t1 l1 E1 N1) as (_ & Es1 & _), (update_else k2 t2 l2 E2 N2) as (_ & Es2 & _).
  by apply (apart_slots (img s) _ _ _ _ _ Es1 Es2), (bu_apart _ _ Hb).
Qed.

Lemma built_update :
  freeblock s1 = freeblock s + (nblk (length l') - nblk (length l)) → freeblock s1 ≤ FSSIZE →
  built s2 (<[k := (t, l')]> A).
Proof using All.
  intros Hfb Hle. pose proof (bu_image _ _ Hb) as Him. pose proof (bu_holds _ _ Hb k t l Hk) as Hx.
  assert (Hlow : ∀ b, 0 ≤ b < 32 → img s2 !! Z.to_nat b = img s !! Z.to_nat b).
  { intros b Hlt. rewrite (wr_block _ _ _ _ Hw) by lia. eapply fstep_low; [done|apply Hx|done|].
    change nmeta with 59. lia. }
  split; rewrite ?length_insert.
  - eapply image_wrote; [|exact Hw]. by eapply image_step.
  - destruct (bu_super _ _ Hb) as (d & Hd & E). exists d. split; [|done].
    pose proof (Hlow 1 ltac:(lia)) as H1. change (Z.to_nat 1) with 1%nat in H1. by rewrite H1.
  - intros b Hlt. rewrite Hlow by lia. by apply (bu_log _ _ Hb).
  - rewrite (wr_next _ _ _ _ Hw), (fp_inode _ _ _ _ Hst). apply Hb.
  - apply Hb.
  - rewrite (wr_fb _ _ _ _ Hw), Hfb, (bu_total _ _ Hb), (total_insert A k t l l' Hk). lia.
  - intros k' t0 l0 Hk'. destruct (decide (k' = k)) as [->|N].
    + rewrite list_lookup_insert_eq in Hk' by (by eapply lookup_lt_Some). injection Hk' as <- <-. apply update_this.
    + rewrite list_lookup_insert_ne in Hk' by done. by eapply update_else.
  - intros m Hm. pose proof (lookup_lt_Some _ _ _ Hk). rewrite (wr_else _ _ _ _ Hw) by lia.
    rewrite (fstep_dino s x s1 x1 _ _ _ Him (ho_file _ _ _ _ Hx) Hst) by lia. by apply (bu_unused _ _ Hb).
  - apply update_apart.
Qed.
End update.

(** ** [iappend] and [ialloc] *)

Lemma holds_fields s n t l V fb x1 P l' fb' sz :
  holds s n t l → mstep (img s) (dino (img s) n) fb V x1 fb' → mfile V x1 P l' fb' → 0 ≤ sz < 2 ^ 32 →
  fields_ok (x1 <| i_size := sz |>).
Proof.
  intros Hx Hst Hf Hsz. destruct (holds_kept _ _ _ _ _ _ _ _ Hx Hst) as (X1 & X2 & X3 & X4).
  split; rsimpl; rewrite ?X1, ?X2, ?X3, ?X4; try done; [apply Hx|apply Hf|apply Hf].
Qed.

Lemma iappend_ok s A k t l p :
  built s A → A !! k = Some (t, l) → Forall is_byte p →
  Z.of_nat (length (l ++ p)) ≤ MAXFILE * BSIZE → nmeta + total (<[k := (t, l ++ p)]> A) ≤ FSSIZE →
  ∃ s', iappend (Z.of_nat k + 1) p s = Ok tt s' ∧ built s' (<[k := (t, l ++ p)]> A).
Proof.
  intros Hb Hk Hp Hmax Hroom. pose proof (bu_holds _ _ Hb k t l Hk) as Hx. pose proof (bu_image _ _ Hb) as Him.
  assert (Hn : 0 ≤ Z.of_nat k + 1 < NINODES).
  { pose proof (lookup_lt_Some _ _ _ Hk). pose proof (bu_count _ _ Hb). lia. }
  assert (MAXFILE * BSIZE < 2 ^ 31) by done. pose proof (ho_max _ _ _ _ Hx).
  rewrite (total_insert A k t l _ Hk) in Hroom. pose proof (bu_total _ _ Hb) as Ht. rewrite length_app in Hmax, Hroom.
  destruct (iappend_loop_ok (length p) s (dino (img s) (Z.of_nat k + 1)) l p) as (s1 & x1 & E1 & Hf1 & Hst & Hfb);
    try (done || lia); [apply Hx|].
  assert (Him1 : image s1) by (eapply image_step; [exact Him|exact Hst|lia]).
  rewrite <- length_app in *.
  destruct (winode_ok s1 (Z.of_nat k + 1) (x1 <| i_size := Z.of_nat (length (l ++ p)) |>)) as (s2 & E2 & Hw); try done.
  { eapply holds_fields; [exact Hx|apply Hst|exact Hf1|lia]. }
  exists s2. split.
  - unfold iappend. erewrite bind_ok; [|by apply rinode_ok]. rewrite (ho_size _ _ _ _ Hx), xint_small by lia.
    erewrite bind_ok by exact E1. cbn beta iota. rewrite xint_small by lia. exact E2.
  - eapply built_update; try done; [|lia]. apply Forall_app_2; [apply Hx|done].
Qed.

Lemma fresh_slot V x j : i_addrs x = replicate 13 0 → slot V x j = 0.
Proof.
  intros E. assert (Hlow : ∀ i, (i < 13)%nat → slot V x i = 0).
  { intros i Hi. rewrite slot_addr, E by done. by rewrite lookup_replicate_2. }
  destruct (decide (j < 13)%nat); [by apply Hlow|]. rewrite slot_entry by lia. by rewrite Hlow by lia.
Qed.

Lemma fresh_mfile V x fb : i_addrs x = replicate 13 0 → mfile V x (needs 0) [] fb.
Proof.
  intros E. pose proof (λ j, fresh_slot V x j E) as H0. split; rewrite ?E; try done.
  - by apply Forall_replicate.
  - intros j _. rewrite H0. unfold needs. rewrite bool_decide_false by lia. done.
  - intros j _ []. apply H0.
  - intros j j' _ _ []. apply H0.
  - intros p _ []. apply H0.
Qed.

Definition fresh (t : Z) : inode := zero_din <| i_type := t |> <| i_nlink := 1 |> <| i_size := 0 |>.

Lemma fresh_fields t : t = T_DIR ∨ t = T_FILE → fields_ok (fresh t).
Proof. intros Ht. split; try done; [by destruct Ht; subst t|]. by apply Forall_replicate. Qed.

Section alloc.
  Context (s : state) (A : list (Z * list Z)) (t : Z).
  Context (Hb : built s A) (Hc : Z.of_nat (length A) + 1 < NINODES) (Ht : t = T_DIR ∨ t = T_FILE).
  Abbreviation n := (Z.of_nat (length A) + 1).
  Context (s2 : state) (Hw : wrote (s <| freeinode := n + 1 |>) n (fresh t) s2).

Lemma alloc_old k t0 l0 :
  A !! k = Some (t0, l0) → holds s2 (Z.of_nat k + 1) t0 l0 ∧
  ∀ j, slot (img s2) (dino (img s2) (Z.of_nat k + 1)) j = slot (img s) (dino (img s) (Z.of_nat k + 1)) j.
Proof using All.
  intros Hk. pose proof (bu_holds _ _ Hb k t0 l0 Hk) as Hx. pose proof (lookup_lt_Some _ _ _ Hk).
  assert (E : dino (img s2) (Z.of_nat k + 1) = dino (img s) (Z.of_nat k + 1)) by (apply Hw; lia).
  destruct (mfile_wrote _ n (fresh t) s2 _ _ _ _ Hw (ho_file _ _ _ _ Hx)) as [Hf2 Hsl].
  split; [|intros j; rewrite E; apply Hsl]. apply (holds_else s); [done|done|]. by rewrite (wr_fb _ _ _ _ Hw).
Qed.

Lemma alloc_new : holds s2 n t [] ∧ ∀ j, slot (img s2) (dino (img s2) n) j = 0.
Proof using All.
  pose proof (wr_this _ _ _ _ Hw) as E. split.
  - split; rewrite ?E; try done; [by destruct Ht; subst t|by apply fresh_mfile].
  - intros j. rewrite E. by apply fresh_slot.
Qed.

Lemma alloc_apart k k' :
  (k < length A)%nat → k' = length A → apart (img s2) (dino (img s2) (Z.of_nat k + 1)) (dino (img s2) (Z.of_nat k' + 1)).
Proof using All.
  intros Hk ->. destruct alloc_new as [_ H0]. split; intros j j' _ _; rewrite H0; [done|by intros []].
Qed.

Lemma built_alloc : built s2 (A ++ [(t, [])]).
Proof using All.
  pose proof (bu_image _ _ Hb) as Him. assert (0 < nmeta) by done.
  assert (Hlow : ∀ b, 0 ≤ b < 32 → img s2 !! Z.to_nat b = img s !! Z.to_nat b).
  { intros b Hlt. rewrite (wr_block _ _ _ _ Hw) by lia. done. }
  split; rewrite ?length_app, ?Nat2Z.inj_add; cbn [length].
  - eapply image_wrote; [|exact Hw]. destruct Him; by split.
  - destruct (bu_super _ _ Hb) as (d & Hd & E). exists d. split; [|done].
    pose proof (Hlow 1 ltac:(lia)) as H1. change (Z.to_nat 1) with 1%nat in H1. by rewrite H1.
  - intros b Hlt. rewrite Hlow by lia. by apply (bu_log _ _ Hb).
  - rewrite (wr_next _ _ _ _ Hw). rsimpl. lia.
  - lia.
  - rewrite (wr_fb _ _ _ _ Hw), total_snoc. apply Hb.
  - intros k t0 l0 [Hk|(Hk & Hk1)]%lookup_app_Some; [by apply alloc_old|].
    apply list_lookup_singleton_Some in Hk1 as [Ek [= <- <-]]. replace k with (length A) by lia. apply alloc_new.
  - intros m Hm. rewrite (wr_else _ _ _ _ Hw) by lia. apply (bu_unused _ _ Hb). lia.
  - intros k k' Hk Hk' Hne. destruct (decide (k = length A)) as [E|N].
    { destruct (alloc_apart k' k) as [? ?]; [lia|done|]. by split. }
    destruct (decide (k' = length A)) as [E|N']; [apply alloc_apart; [lia|done]|].
    destruct (lookup_lt_is_Some_2 A k ltac:(lia)) as [[t1 l1] E1], (lookup_lt_is_Some_2 A k' ltac:(lia)) as [[t2 l2] E2].
    destruct (alloc_old k t1 l1 E1) as [_ S1], (alloc_old k' t2 l2 E2) as [_ S2].
    apply (apart_slots (img s) _ _ _ _ _ S1 S2), (bu_apart _ _ Hb); [lia|lia|done].
Qed.
End alloc.

Lemma ialloc_ok s A t :
  built s A → Z.of_nat (length A) + 1 < NINODES → t = T_DIR ∨ t = T_FILE →
  ∃ s', ialloc t s = Ok (Z.of_nat (length A) + 1) s' ∧ built s' (A ++ [(t, [])]).
Proof.
  intros Hb Hc Ht. pose proof (bu_image _ _ Hb) as Him. assert (NINODES < 2 ^ 31) by done.
  set (n := Z.of_nat (length A) + 1) in *.
  destruct (winode_ok (s <| freeinode := n + 1 |>) n (fresh t)) as (s2 & E2 & Hw).
  { destruct Him; by split. } { by apply fresh_fields. } { lia. }
  exists s2. split; [|by apply (built_alloc s A t)].
  unfold ialloc. erewrite bind_ok; [|done]. erewrite bind_ok; [|done]. rewrite (bu_next _ _ Hb). fold n.
  rewrite u32_small by lia. replace (s16 (xshort t)) with t by (by destruct Ht; subst t).
  erewrite bind_ok by exact E2. done.
Qed.

Lemma append_all_ok fuel s A k t l c :
  built s A → A !! k = Some (t, l) → Forall is_byte c → (length c ≤ fuel)%nat →
  Z.of_nat (length (l ++ c)) ≤ MAXFILE * BSIZE → nmeta + total (<[k := (t, l ++ c)]> A) ≤ FSSIZE →
  ∃ s', append_all fuel (Z.of_nat k + 1) c s = Ok tt s' ∧ built s' (<[k := (t, l ++ c)]> A).
Proof.
  revert s A l c. induction fuel as [|fuel IH]; intros s A l c Hb Hk Hc Hfuel Hmax Hroom.
  all: destruct c as [|c0 c1]; [exists s; rewrite app_nil_r, list_insert_id by done; done|].
  { cbn in Hfuel. lia. }
  assert (Hlen : (0 < length (c0 :: c1))%nat) by (cbn; lia). cbn [append_all].
  set (c := c0 :: c1) in *. clearbody c. change (Z.to_nat BSIZE) with 512%nat.
  assert (Hsplit : l ++ c = (l ++ take 512 c) ++ drop 512 c) by (by rewrite <- app_assoc, take_drop).
  assert (Hle : (length (l ++ take 512 c) ≤ length (l ++ c))%nat) by (rewrite !length_app, length_take; lia).
  pose proof (nblk_mono _ _ Hle). rewrite (total_insert A k t l _ Hk) in Hroom.
  destruct (iappend_ok s A k t l (take 512 c)) as (s1 & E1 & Hb1); try done.
  { by apply Forall_take. } { lia. } { rewrite (total_insert A k t l _ Hk). lia. }
  set (A1 := <[k := (t, l ++ take 512 c)]> A) in *.
  assert (Hk1 : A1 !! k = Some (t, l ++ take 512 c)) by (apply list_lookup_insert_eq; by eapply lookup_lt_Some).
  destruct (IH s1 A1 (l ++ take 512 c) (drop 512 c)) as (s2 & E2 & Hb2); try done.
  { by apply Forall_drop. } { rewrite length_drop. lia. } { by rewrite <- Hsplit. }
  { rewrite <- Hsplit, (total_insert A1 k t _ _ Hk1). unfold A1. rewrite (total_insert A k t l _ Hk). lia. }
  exists s2. split; [erewrite bind_ok by exact E1; exact E2|].
  unfold A1 in Hb2. by rewrite list_insert_insert_eq, <- Hsplit in Hb2.
Qed.

(** ** The command line *)

Definition name_of (argv : list Z) : list Z := match argv with 95 :: name => name | _ => argv end.

(** The entries of the files, the first of which gets inode [n]. *)
Fixpoint dirents (n : Z) (files : list (list Z * list Z)) : list Z :=
  match files with
  | [] => []
  | f :: files => dirent n (name_of f.1) ++ dirents (n + 1) files
  end.

Definition root_dir (files : list (list Z * list Z)) : list Z :=
  dirent ROOTINO (chars ".") ++ dirent ROOTINO (chars "..") ++ dirents 2 files.

Definition byteb (b : Z) : bool := (0 <=? b) && (b <? 256).

Definition file_ok (f : list Z * list Z) : bool :=
  bool_decide (Ulib.strchr f.1 47 = None) && forallb byteb f.1 && forallb byteb f.2 &&
  (Z.of_nat (length f.2) <=? MAXFILE * BSIZE).

(** The files, in the order of their inodes. *)
Definition inodes_of (files : list (list Z * list Z)) : list (Z * list Z) :=
  (T_DIR, root_dir files) :: ((λ f, (T_FILE, f.2)) <$> files).

Lemma length_dirent n name : length (dirent n name) = 16%nat.
Proof. unfold dirent. rewrite length_app, length_le_bytes, length_take, length_app, length_replicate. lia. Qed.

Lemma length_dirents n files : length (dirents n files) = (16 * length files)%nat.
Proof.
  revert n. induction files as [|f files IH]; intros n; [done|]. cbn [dirents length].
  rewrite length_app, length_dirent, IH. lia.
Qed.

Lemma dirent_bytes n name : Forall is_byte name → Forall is_byte (dirent n name).
Proof.
  intros H. unfold dirent. apply Forall_app_2; [apply le_bytes_range|].
  apply Forall_take, Forall_app_2; [done|]. by apply Forall_replicate.
Qed.

Lemma forallb_bytes l : forallb byteb l = true → Forall is_byte l.
Proof.
  induction l as [|b l IH]; [constructor|]. cbn [forallb]. intros [H1 H2]%andb_true_iff. constructor; [|auto].
  unfold byteb in H1. apply andb_true_iff in H1 as [?%Z.leb_le ?%Z.ltb_lt]. done.
Qed.

Lemma file_ok_spec f :
  file_ok f = true → Ulib.strchr f.1 47 = None ∧ Forall is_byte (name_of f.1) ∧ Forall is_byte f.2 ∧
    Z.of_nat (length f.2) ≤ MAXFILE * BSIZE.
Proof.
  unfold file_ok. rewrite !andb_true_iff, bool_decide_eq_true, Z.leb_le.
  intros [[[H1 H2%forallb_bytes] H3%forallb_bytes] H4]. split_and!; try done.
  unfold name_of. destruct (f.1) as [|c l]; [done|]. apply Forall_cons in H2 as [Hc Hl].
  assert (Hcl : Forall is_byte (c :: l)) by by constructor.
  repeat match goal with |- Forall _ (match ?x with _ => _ end) => destruct x end; done.
Qed.

Lemma nblk_nonneg n : 0 ≤ nblk n.
Proof. unfold nblk. pose proof (Z.div_pos (Z.of_nat n + 511) 512). destruct (_ <? _); lia. Qed.

Lemma total_app A B : total (A ++ B) = total A + total B.
Proof. induction A as [|a A IH]; [done|]. cbn [app]. rewrite !total_cons. lia. Qed.

Lemma total_nonneg A : 0 ≤ total A.
Proof. induction A as [|a A IH]; [done|]. rewrite total_cons. pose proof (nblk_nonneg (length a.2)). lia. Qed.

(** One file: its inode, its entry in the root and its contents. *)
Lemma add_file_ok s R rest f :
  let de := dirent (Z.of_nat (length rest) + 2) (name_of f.1) in
  built s ((T_DIR, R) :: rest) → file_ok f = true → Z.of_nat (length rest) + 2 < NINODES →
  Z.of_nat (length R) + 16 ≤ MAXFILE * BSIZE →
  nmeta + total ((T_DIR, R ++ de) :: rest ++ [(T_FILE, f.2)]) ≤ FSSIZE →
  ∃ s', add_file ROOTINO f s = Ok tt s' ∧ built s' ((T_DIR, R ++ de) :: rest ++ [(T_FILE, f.2)]).
Proof.
  intros de Hb (H1 & H2 & H3 & H4)%file_ok_spec Hn HR Hroom. destruct f as [argv content]. cbn [fst snd] in *.
  assert (Hn' : Z.of_nat (length ((T_DIR, R) :: rest)) + 1 = Z.of_nat (length rest) + 2) by (cbn [length]; lia).
  destruct (ialloc_ok s ((T_DIR, R) :: rest) T_FILE) as (s1 & E1 & Hb1); [done|lia|by right|].
  rewrite Hn' in E1. cbn [app] in Hb1.
  assert (Hlt : total ((T_DIR, R ++ de) :: rest ++ [(T_FILE, [])]) ≤ total ((T_DIR, R ++ de) :: rest ++ [(T_FILE, content)])).
  { rewrite !total_cons, !total_app, !total_cons. cbn [snd length]. pose proof (nblk_mono 0 (length content)). lia. }
  destruct (iappend_ok s1 ((T_DIR, R) :: rest ++ [(T_FILE, [])]) 0 T_DIR R de) as (s2 & E2 & Hb2); try done.
  { by apply dirent_bytes. } { rewrite length_app. unfold de. rewrite length_dirent. lia. }
  { cbn [insert list_insert]. lia. }
  cbn [insert list_insert] in Hb2.
  assert (Eins : <[S (length rest) := (T_FILE, [] ++ content)]> (((T_DIR, R ++ de) :: rest) ++ [(T_FILE, [])]) =
    (T_DIR, R ++ de) :: rest ++ [(T_FILE, content)]).
  { rewrite (insert_app_r_alt (_ :: rest)) by done. cbn [length]. by rewrite Nat.sub_diag. }
  destruct (append_all_ok (length content) s2 _ (S (length rest)) T_FILE [] content Hb2) as (s3 & E3 & Hb3); try done.
  { change ((((T_DIR, R ++ de) :: rest) ++ [(T_FILE, [])]) !! S (length rest) = Some (T_FILE, [])).
    rewrite lookup_app_r by done. cbn [length]. by rewrite Nat.sub_diag. }
  { change (nmeta + total (<[S (length rest) := (T_FILE, [] ++ content)]> (((T_DIR, R ++ de) :: rest) ++ [(T_FILE, [])])) ≤ FSSIZE).
    by rewrite Eins. }
  exists s3. split; [|by rewrite <- Eins].
  unfold add_file. fold (name_of argv). erewrite bind_ok; [|by apply assert_ok, bool_decide_eq_true].
  cbn zeta. erewrite bind_ok by exact E1. change ROOTINO with (Z.of_nat 0 + 1). erewrite bind_ok by exact E2.
  replace (Z.of_nat (length rest) + 2) with (Z.of_nat (S (length rest)) + 1) by lia. exact E3.
Qed.

Lemma add_files_ok files s R rest :
  built s ((T_DIR, R) :: rest) → forallb file_ok files = true →
  Z.of_nat (length rest + length files) + 1 < NINODES →
  Z.of_nat (length R + 16 * length files) ≤ MAXFILE * BSIZE →
  let A := (T_DIR, R ++ dirents (Z.of_nat (length rest) + 2) files) :: rest ++ ((λ f, (T_FILE, f.2)) <$> files) in
  nmeta + total A ≤ FSSIZE →
  ∃ s', iterM (add_file ROOTINO) files s = Ok tt s' ∧ built s' A.
Proof.
  revert s R rest. induction files as [|f files IH]; intros s R rest Hb Hok Hn HR; cbn zeta.
  { intros _. exists s. split; [done|]. cbn. by rewrite !app_nil_r. }
  cbn [forallb] in Hok. apply andb_true_iff in Hok as [Hf Hok]. cbn [length] in *. cbn [dirents fmap list_fmap].
  set (de := dirent _ _). intros Hroom. rewrite app_assoc in Hroom |- *.
  set (g := λ f : list Z * list Z, (T_FILE, f.2)) in *.
  replace (rest ++ (T_FILE, f.2) :: (g <$> files)) with ((rest ++ [(T_FILE, f.2)]) ++ (g <$> files)) in * by (by rewrite <- app_assoc).
  assert (Hl : Z.of_nat (length rest) + 2 + 1 = Z.of_nat (length (rest ++ [(T_FILE, f.2)])) + 2)
    by (rewrite length_app; cbn [length]; lia).
  rewrite Hl in *.
  destruct (add_file_ok s R rest f) as (s1 & E1 & Hb1); try (done || lia).
  { fold de. rewrite total_cons in Hroom |- *. rewrite (total_app (rest ++ _)) in Hroom. cbn [snd] in Hroom |- *.
    pose proof (total_nonneg (g <$> files)).
    pose proof (nblk_mono (length (R ++ de)) (length ((R ++ de) ++ dirents (Z.of_nat (length (rest ++ [(T_FILE, f.2)])) + 2) files))
      ltac:(rewrite (length_app (R ++ de)); lia)). lia. }
  fold de in Hb1. destruct (IH s1 (R ++ de) (rest ++ [(T_FILE, f.2)])) as (s2 & E2 & Hb2); try done.
  { rewrite length_app. cbn [length]. lia. } { rewrite length_app. unfold de. rewrite length_dirent. lia. }
  exists s2. split; [|done]. cbn [iterM]. erewrite bind_ok by exact E1. exact E2.
Qed.

(** ** The empty image *)

Lemma zero_image m a s :
  img s = replicate a zero_block →
  iterM (λ i, wsect (Z.of_nat i) zero_block) (seq a m) s = Ok tt (s <| img := replicate (a + m) zero_block |>).
Proof.
  revert a s. induction m as [|m IH]; intros a s Hs.
  - rewrite Nat.add_0_r, <- Hs. by destruct s.
  - cbn [seq iterM]. unfold wsect at 1, mmod. cbn beta. erewrite bind_ok; [|done]. rewrite IH.
    + replace (a + S m)%nat with (S a + m)%nat by lia. by destruct s.
    + rsimpl. rewrite Hs, Nat2Z.id, length_replicate. replace (a + 1 - a)%nat with 1%nat by lia.
      rewrite <- replicate_add. apply list_eq. intros i.
      destruct (decide (i = a)) as [->|N]; [|rewrite list_lookup_insert_ne by done; by rewrite Nat.add_1_r].
      rewrite list_lookup_insert_eq by (rewrite length_replicate; lia). symmetry. apply lookup_replicate_2. lia.
Qed.

Lemma get_zero n k : get n k zero_block = 0.
Proof.
  unfold get, slice, zero_block. rewrite drop_replicate, take_replicate.
  generalize (n `min` (Z.to_nat BSIZE - k))%nat. intros m. induction m as [|m IH]; [done|]. cbn. by rewrite IH.
Qed.

Definition empty_image : state :=
  mk_state (<[1%nat := splice 0 (sb_bytes the_sb) zero_block]> (replicate (Z.to_nat FSSIZE) zero_block)) the_sb 1 nmeta.

Lemma zero_blk : blk zero_block.
Proof. split; [done|]. by apply Forall_replicate. Qed.

Lemma super_blk : blk (splice 0 (sb_bytes the_sb) zero_block) ∧ sb_of (splice 0 (sb_bytes the_sb) zero_block) = the_sb.
Proof.
  split; [|by vm_compute]. split; [by vm_compute|]. apply splice_bytes; [|apply zero_blk].
  apply forallb_bytes. by vm_compute.
Qed.

Lemma empty_lookup b : 0 ≤ b < FSSIZE → b ≠ 1 → img empty_image !! Z.to_nat b = Some zero_block.
Proof.
  intros Hb Hne. unfold empty_image. cbn [img]. rewrite list_lookup_insert_ne by lia. apply lookup_replicate_2. lia.
Qed.

Lemma built_empty : built empty_image [].
Proof.
  destruct super_blk as [Hsb Hof]. assert (Hl : length (img empty_image) = Z.to_nat FSSIZE).
  { unfold empty_image. cbn [img]. by rewrite length_insert, length_replicate. }
  assert (1 < nmeta) by done. assert (nmeta < FSSIZE) by done.
  split; try done.
  - split; try done.
    + apply Forall_insert; [|done]. apply Forall_replicate, zero_blk.
    + intros b Hb. apply empty_lookup; cbn in Hb; lia.
  - exists (splice 0 (sb_bytes the_sb) zero_block). split; [|done].
    apply list_lookup_insert_eq. rewrite length_replicate. lia.
  - intros b Hb. apply empty_lookup; [|lia]. change FSSIZE with 1000. lia.
  - intros n Hn. pose proof (IBLOCK_range n). unfold dino. rewrite empty_lookup by lia.
    cbn [default from_option id]. unfold dinode_at. rsimpl. unfold di_type. by rewrite get_zero.
  - intros k k' Hk. cbn in Hk. lia.
Qed.

(** ** The free map *)

Lemma bitmap_S n : bitmap (S n) = set_bit (bitmap n) (Z.of_nat n).
Proof.
  unfold bitmap. rewrite seq_S, foldl_app. cbn [foldl]. unfold set_bit. f_equal.
  change 8 with (Z.of_nat 8). rewrite <- Nat2Z.inj_div, Nat2Z.id. done.
Qed.

Lemma bitmap_blk n : blk (bitmap n).
Proof. induction n as [|n IH]; [apply zero_blk|]. rewrite bitmap_S. apply set_bit_blk; [done|lia]. Qed.

Lemma bitmap_bit n b : Z.of_nat n ≤ BPB → 0 ≤ b < BPB → bitb (bitmap n) b = (b <? Z.of_nat n).
Proof.
  intros Hn Hb. induction n as [|n IH].
  - unfold bitb, bitmap, zero_block. cbn [seq foldl]. destruct (_ !! _) eqn:E.
    + apply lookup_replicate in E as [-> _]. cbn. rewrite Z.bits_0. symmetry. apply Z.ltb_ge. lia.
    + cbn. rewrite Z.bits_0. symmetry. apply Z.ltb_ge. lia.
  - rewrite bitmap_S, set_bit_spec, IH; [|lia|apply bitmap_blk|lia|done].
    apply eq_true_iff_eq. rewrite orb_true_iff, bool_decide_eq_true, !Z.ltb_lt. lia.
Qed.
