(* ===== verification/MkfsImage.v ===== *)
(** * mkfs.c: the image mkfs writes is a file system

    For files that fit, mkfs runs to its end, and the image it leaves meets
    what the theorems on the kernel's file system ask of a disk: the layout,
    the free map, and the tree of directories.  The names of the command line
    lead to the files' contents. *)

From S2P Require Import Prelude Kernel Bytes Disk Bcache Log LogSpec Inode FsTx Fs FsFile FsWrite FsContents FsPath FsDir Ulib Mkfs MkfsFile MkfsSpec.
Import Mkfs.

(** ** The whole run *)

(** The files can be put in an image. *)
Definition fits (files : list (list Z * list Z)) : bool :=
  forallb file_ok files && (Z.of_nat (length files) + 1 <? NINODES) &&
  (nmeta + total (inodes_of files) <=? FSSIZE).

(** The size mkfs gives the root directory. *)
Definition root_size (files : list (list Z * list Z)) : Z :=
  (Z.of_nat (length (root_dir files)) / BSIZE + 1) * BSIZE.

Lemma fits_spec files :
  fits files = true → forallb file_ok files = true ∧ Z.of_nat (length files) + 1 < NINODES ∧
    nmeta + total (inodes_of files) ≤ FSSIZE.
Proof. unfold fits. rewrite !andb_true_iff, Z.ltb_lt, Z.leb_le. tauto. Qed.

Lemma length_root_dir files : length (root_dir files) = (16 * (2 + length files))%nat.
Proof. unfold root_dir. rewrite !length_app, !length_dirent, length_dirents. lia. Qed.

(** The rest of [main], once the root has its first two entries. *)
Definition main_rest (files : list (list Z * list Z)) (rootino : Z) : F unit :=
  iterM (add_file rootino) files ;;
  din ← rinode rootino;
  let off := xint (i_size din) in
  let off := (off / BSIZE + 1) * BSIZE in
  winode rootino (din <| i_size := xint off |>) ;;
  fb ← mgets freeblock;
  balloc fb.

Lemma main_start files :
  ∃ s, mkfs files = main_rest files ROOTINO s ∧
    built s [(T_DIR, dirent ROOTINO (chars ".") ++ dirent ROOTINO (chars ".."))].
Proof.
  unfold mkfs, main. erewrite bind_ok; [|done]. erewrite bind_ok; [|done].
  erewrite bind_ok; [|apply (zero_image _ 0); done]. erewrite bind_ok; [|done].
  erewrite bind_ok; [|apply wsect_ok; rsimpl; rewrite length_replicate; change FSSIZE with 1000; lia].
  match goal with |- ∃ s, _ ?u = _ ∧ _ => change u with empty_image end. assert (0 < NINODES - 1) by done.
  destruct (ialloc_ok empty_image [] T_DIR) as (s1 & E1 & Hb1); [apply built_empty|cbn [length]; lia|by left|].
  erewrite bind_ok by exact E1. erewrite bind_ok; [|by apply assert_ok]. cbn [app] in Hb1.
  destruct (iappend_ok s1 _ 0 T_DIR [] (dirent ROOTINO (chars ".")) Hb1) as (s2 & E2 & Hb2); try done.
  { apply dirent_bytes, forallb_bytes. by vm_compute. }
  destruct (iappend_ok s2 _ 0 T_DIR _ (dirent ROOTINO (chars "..")) Hb2 eq_refl) as (s3 & E3 & Hb3); try done.
  { apply dirent_bytes, forallb_bytes. by vm_compute. }
  exists s3. split; [|exact Hb3]. cbn [length]. change (Z.of_nat 0 + 1) with ROOTINO in *.
  erewrite bind_ok by exact E2. erewrite bind_ok by exact E3. done.
Qed.

Lemma mkfs_run files :
  fits files = true →
  ∃ s3 s4, built s3 (inodes_of files) ∧ wrote s3 ROOTINO ((dino (img s3) ROOTINO) <| i_size := root_size files |>) s4 ∧
    mkfs files = Ok tt (s4 <| img ::= <[58%nat := bitmap (Z.to_nat (freeblock s4))]> |>).
Proof.
  intros (Hok & Hn & Hroom)%fits_spec. destruct (main_start files) as (s & E & Hb). rewrite E.
  pose proof (length_root_dir files) as Hlen. change NINODES with 200 in Hn.
  destruct (add_files_ok files s _ [] Hb Hok) as (s3 & E3 & Hb3).
  { cbn [length]. change NINODES with 200. lia. }
  { rewrite length_app, !length_dirent. change (MAXFILE * BSIZE) with 71680. lia. }
  { cbn [app length]. rewrite <- app_assoc. exact Hroom. }
  cbn [app length] in Hb3. rewrite <- app_assoc in Hb3. change (built s3 (inodes_of files)) in Hb3.
  pose proof (bu_image _ _ Hb3) as Him. pose proof (bu_holds _ _ Hb3 0 _ _ eq_refl) as Hx.
  change (Z.of_nat 0 + 1) with ROOTINO in Hx. assert (HR : 0 ≤ ROOTINO < NINODES) by (split; reflexivity || discriminate).
  assert (Hsz : 0 ≤ root_size files < 2 ^ 31).
  { unfold root_size. change BSIZE with 512. pose proof (Z.div_pos (Z.of_nat (length (root_dir files))) 512).
    assert (Z.of_nat (length (root_dir files)) / 512 ≤ 7); [|lia]. apply Z.lt_succ_r, Z.div_lt_upper_bound; lia. }
  destruct (winode_ok s3 ROOTINO ((dino (img s3) ROOTINO) <| i_size := root_size files |>)) as (s4 & E4 & Hw); [exact Him| |exact HR|].
  { eapply holds_fields; [exact Hx|apply mstep_refl|apply Hx|lia]. }
  exists s3, s4. split_and!; [exact Hb3|exact Hw|]. unfold main_rest. erewrite bind_ok by exact E3.
  erewrite bind_ok; [|by apply rinode_ok]. rewrite (ho_size _ _ _ _ Hx). cbn zeta.
  rewrite (xint_small (Z.of_nat _)) by lia. fold (root_size files). rewrite xint_small by lia.
  erewrite bind_ok by exact E4. erewrite bind_ok; [|done]. unfold balloc.
  pose proof (image_wrote _ _ _ _ Him Hw) as Him4. pose proof (im_fb _ Him4). pose proof (im_len _ Him4).
  change FSSIZE with 1000 in *.
  erewrite bind_ok; [|apply assert_ok, Z.ltb_lt; change (BSIZE * 8) with 4096; lia].
  erewrite bind_ok; [|done]. rewrite (im_sb _ Him4). change (sb_bmapstart the_sb) with 58. rewrite wsect_ok by lia. done.
Qed.

(** ** The finished image *)

Definition fend (files : list (list Z * list Z)) : Z := nmeta + total (inodes_of files).

Record finished (V : list block) (files : list (list Z * list Z)) : Prop := {
  fn_len : Z.of_nat (length V) = FSSIZE;
  fn_blk : Forall blk V;
  fn_super : ∃ d, V !! 1%nat = Some d ∧ sb_of d = the_sb;
  fn_log b : 2 ≤ b < 32 → V !! Z.to_nat b = Some zero_block;
  fn_used b : 0 ≤ b < FSSIZE → used the_sb V b = (b <? fend files);
  fn_count : Z.of_nat (length files) + 1 < NINODES;
  fn_end : fend files ≤ FSSIZE;
  fn_inode k t l : inodes_of files !! k = Some (t, l) →
    let x := dino V (Z.of_nat k + 1) in
    i_type x = t ∧ i_nlink x = 1 ∧ i_size x = (if decide (k = 0%nat) then root_size files else Z.of_nat (length l)) ∧
    Forall is_byte l ∧ Z.of_nat (length l) ≤ MAXFILE * BSIZE ∧ mfile V x (needs (length l)) l (fend files);
  fn_unused n : Z.of_nat (length files) + 1 < n < NINODES → i_type (dino V n) = 0;
  fn_apart k k' : (k ≤ length files)%nat → (k' ≤ length files)%nat → k ≠ k' →
    apart V (dino V (Z.of_nat k + 1)) (dino V (Z.of_nat k' + 1))
}.

Section finish.
  Context (files : list (list Z * list Z)) (s3 s4 : state).
  Context (Hb : built s3 (inodes_of files)).
  Context (Hw : wrote s3 ROOTINO ((dino (img s3) ROOTINO) <| i_size := root_size files |>) s4).
  Abbreviation V := (<[58%nat := bitmap (Z.to_nat (freeblock s4))]> (img s4)).

Lemma length_inodes_of : length (inodes_of files) = S (length files).
Proof. unfold inodes_of. cbn [length]. by rewrite length_fmap. Qed.

Lemma finish_block b : 0 ≤ b → ~ (32 ≤ b < nmeta) → V !! Z.to_nat b = img s3 !! Z.to_nat b.
Proof using Hw.
  intros Hb0 Hno. rewrite list_lookup_insert_ne; [by apply (wr_block _ _ _ _ Hw)|]. change nmeta with 59 in Hno. lia.
Qed.

Lemma finish_dino n : 0 ≤ n < NINODES → dino V n = dino (img s4) n.
Proof.
  intros Hn. unfold dino. rewrite list_lookup_insert_ne; [done|]. rewrite mkfs_iblock by done.
  change NINODES with 200 in Hn. assert (n / 8 < 25) by (apply Z.div_lt_upper_bound; lia). pose proof (Z.div_pos n 8). lia.
Qed.

(** Only the size of the root changes. *)
Lemma finish_inode k :
  (k ≤ length files)%nat →
  let x := dino V (Z.of_nat k + 1) in let y := dino (img s3) (Z.of_nat k + 1) in
  i_type x = i_type y ∧ i_nlink x = i_nlink y ∧ i_addrs x = i_addrs y ∧
  i_size x = (if decide (k = 0%nat) then root_size files else i_size y).
Proof using All.
  intros Hk. pose proof (bu_count _ _ Hb) as Hc. rewrite length_inodes_of in Hc. cbn zeta.
  rewrite finish_dino by lia. case_decide as E.
  - subst k. change (Z.of_nat 0 + 1) with ROOTINO. rewrite (wr_this _ _ _ _ Hw). by unfold on_disk; rsimpl.
  - rewrite (wr_else _ _ _ _ Hw); [done|lia|]. unfold ROOTINO. lia.
Qed.

Lemma finish_mfile k t l :
  inodes_of files !! k = Some (t, l) →
  let x := dino V (Z.of_nat k + 1) in
  mfile V x (needs (length l)) l (fend files) ∧
  ∀ j, slot V x j = slot (img s3) (dino (img s3) (Z.of_nat k + 1)) j.
Proof using All.
  intros Hk x. pose proof (bu_holds _ _ Hb k t l Hk) as Hx. pose proof (lookup_lt_Some _ _ _ Hk) as Hlt.
  rewrite length_inodes_of in Hlt. destruct (finish_inode k ltac:(lia)) as (_ & _ & Ea & _). fold x in Ea.
  pose proof (ho_file _ _ _ _ Hx) as Hf. rewrite (bu_total _ _ Hb) in Hf. fold (fend files) in Hf.
  assert (Hfr : ∀ j, (j < nslots)%nat → slot (img s3) (dino (img s3) (Z.of_nat k + 1)) j ≠ 0 →
    V !! Z.to_nat (slot (img s3) (dino (img s3) (Z.of_nat k + 1)) j) =
    img s3 !! Z.to_nat (slot (img s3) (dino (img s3) (Z.of_nat k + 1)) j)).
  { intros j Hj Hne. pose proof (mf_data _ _ _ _ _ Hf j Hj Hne). assert (0 < nmeta) by reflexivity.
    apply finish_block; lia. }
  split.
  - apply (mfile_same _ (dino (img s3) (Z.of_nat k + 1))); [done|]. by eapply mfile_frame; [exact Hf|lia|].
  - intros j. rewrite <- (slot_frame (img s3) V _ (Hfr 12%nat ltac:(unfold nslots; lia)) j). unfold slot. by rewrite Ea.
Qed.

Lemma built_finished : finished V files.
Proof using All.
  pose proof (bu_image _ _ Hb) as Him. pose proof (image_wrote _ _ _ _ Him Hw) as Him4.
  pose proof (im_len _ Him4) as Hlen. pose proof (im_fb _ Him4) as Hfb. pose proof (bu_total _ _ Hb) as Ht.
  pose proof (bu_count _ _ Hb) as Hc. rewrite length_inodes_of in Hc. change FSSIZE with 1000 in *.
  rewrite <- (wr_fb _ _ _ _ Hw) in Ht. fold (fend files) in Ht. assert (Hm : nmeta = 59) by reflexivity.
  split.
  - by rewrite length_insert.
  - apply Forall_insert; [apply Him4|apply bitmap_blk].
  - destruct (bu_super _ _ Hb) as (d & Hd & E). exists d. split; [|done].
    pose proof (finish_block 1 ltac:(lia) ltac:(lia)) as H1. change (Z.to_nat 1) with 1%nat in H1. by rewrite H1.
  - intros b Hlt. rewrite finish_block by lia. by apply (bu_log _ _ Hb).
  - intros b Hlt. unfold used. replace (BBLOCK b the_sb) with 58.
    2: { unfold BBLOCK. change BPB with 4096. rewrite Z.div_small by (change FSSIZE with 1000 in Hlt; lia). reflexivity. }
    change FSSIZE with 1000 in Hlt.
    change (Z.to_nat 58) with 58%nat. rewrite list_lookup_insert_eq by lia. change BPB with 4096.
    rewrite Z.mod_small by lia. rewrite bitmap_bit by (change BPB with 4096; lia). rewrite Ht, Z2Nat.id by lia. done.
  - lia.
  - change FSSIZE with 1000. lia.
  - intros k t l Hk x. pose proof (bu_holds _ _ Hb k t l Hk) as Hx. pose proof (lookup_lt_Some _ _ _ Hk) as Hlt.
    rewrite length_inodes_of in Hlt. destruct (finish_inode k ltac:(lia)) as (E1 & E2 & _ & E4). fold x in E1, E2, E4.
    rewrite E1, E2, E4, (ho_type _ _ _ _ Hx), (ho_link _ _ _ _ Hx), (ho_size _ _ _ _ Hx).
    split_and!; [done|done|done|apply Hx|apply Hx|]. by eapply finish_mfile.
  - intros n Hn. rewrite finish_dino by lia. rewrite (wr_else _ _ _ _ Hw); [|lia|unfold ROOTINO; lia].
    apply (bu_unused _ _ Hb). rewrite length_inodes_of. lia.
  - intros k k' Hk Hk' Hne.
    destruct (lookup_lt_is_Some_2 (inodes_of files) k) as [[t l] E]; [rewrite length_inodes_of; lia|].
    destruct (lookup_lt_is_Some_2 (inodes_of files) k') as [[t' l'] E']; [rewrite length_inodes_of; lia|].
    destruct (finish_mfile k t l E) as [_ S1], (finish_mfile k' t' l' E') as [_ S2].
    apply (apart_slots (img s3) _ _ _ _ _ S1 S2), (bu_apart _ _ Hb); [rewrite length_inodes_of; lia..|done].
Qed.
End finish.

Lemma mkfs_finished files : fits files = true → ∃ s, mkfs files = Ok tt s ∧ finished (img s) files.
Proof.
  intros Hf. destruct (mkfs_run files Hf) as (s3 & s4 & Hb & Hw & E).
  eexists. split; [exact E|]. rsimpl. by eapply built_finished.
Qed.

(** ** The root directory *)

(** The entries of the root: numbers and names. *)
Definition root_entries (files : list (list Z * list Z)) : list (Z * list Z) :=
  (ROOTINO, chars ".") :: (ROOTINO, chars "..") :: imap (λ i f, (Z.of_nat i + 2, name_of f.1)) files.

Definition dirent_of (e : Z * list Z) : list Z := dirent e.1 e.2.

Lemma dirents_entries n files :
  dirents n files = mjoin (dirent_of <$> imap (λ i f, (Z.of_nat i + n, name_of f.1)) files).
Proof.
  revert n. induction files as [|f files IH]; intros n; [done|]. cbn [dirents imap fmap list_fmap mjoin list_join].
  f_equal. rewrite IH. do 2 f_equal. apply imap_ext. intros i x _. unfold compose. f_equal. lia.
Qed.

Lemma root_dir_entries files : root_dir files = mjoin (dirent_of <$> root_entries files).
Proof. unfold root_dir. by rewrite dirents_entries. Qed.

Lemma entry_join E tl k e : E !! k = Some e → entry (mjoin (dirent_of <$> E) ++ tl) k = dirent_of e.
Proof.
  revert k. induction E as [|e0 E IH]; intros k Hk; [done|]. cbn [fmap list_fmap mjoin list_join].
  rewrite <- app_assoc. unfold entry, slice. destruct k as [|k].
  - injection Hk as ->. rewrite Nat.mul_0_r, drop_0. apply take_app_length'. symmetry. apply length_dirent.
  - replace (16 * S k)%nat with (length (dirent_of e0) + 16 * k)%nat by (unfold dirent_of; rewrite length_dirent; lia).
    rewrite drop_app_add. by apply IH.
Qed.

Lemma dirent_inum n name : 0 ≤ n < 2 ^ 16 → de_inum (dirent n name) = n.
Proof.
  intros Hn. unfold de_inum, get, slice, dirent. rewrite drop_0, take_app_length' by (by rewrite length_le_bytes).
  unfold xshort. rewrite !(le_val_bytes_small 2 n); done.
Qed.

Lemma cut_take n s : cut n (take n s) = cut n s.
Proof.
  revert s. induction n as [|n IH]; intros [|c s]; try done. cbn [take cut]. destruct (c =? 0); [done|]. by rewrite IH.
Qed.

Lemma dirent_name n name : 0 ∉ name → cut 14 (de_name (dirent n name)) = take 14 name.
Proof.
  intros H0. unfold de_name, slice, dirent. rewrite drop_app_length' by (by rewrite length_le_bytes).
  rewrite !cut_take. change (replicate 14 0) with (0 :: replicate 13 0). by apply cut_app_zero.
Qed.

Lemma entry_zero l m k : (length l ≤ 16 * k)%nat → de_inum (entry (l ++ replicate m 0) k) = 0.
Proof.
  intros Hk. unfold de_inum, get, entry, slice. rewrite drop_app_ge by done. rewrite drop_replicate.
  rewrite drop_0, !take_replicate. generalize (2 `min` (16 `min` (m - (16 * k - length l))))%nat.
  intros n. induction n as [|n IH]; [done|]. cbn. by rewrite IH.
Qed.

Lemma find_first l name k j n :
  (j < n)%nat → de_inum (entry l (k + j)) ≠ 0 → cut 14 (de_name (entry l (k + j))) = name →
  (∀ i, (i < j)%nat → cut 14 (de_name (entry l (k + i))) ≠ name) →
  find_entry l name k n = Some (de_inum (entry l (k + j)), (k + j)%nat).
Proof.
  revert k j. induction n as [|n IH]; intros k j Hj Hi Hn Hbefore; [lia|]. cbn [find_entry].
  destruct j as [|j].
  - rewrite Nat.add_0_r in *. rewrite (proj2 (Z.eqb_neq _ 0) Hi), bool_decide_true by done. done.
  - rewrite (bool_decide_false (cut 14 (de_name (entry l k)) = name)).
    2: { specialize (Hbefore 0%nat ltac:(lia)). by rewrite Nat.add_0_r in Hbefore. }
    rewrite orb_true_r. replace (k + S j)%nat with (S k + j)%nat in * by lia. apply IH; [lia|done|done|].
    intros i Hlt. specialize (Hbefore (S i) ltac:(lia)). by replace (k + S i)%nat with (S k + i)%nat in Hbefore by lia.
Qed.

(** ** The image as the kernel reads it *)

Lemma file_contents V x l : file_is V x l → contents_of V x = l.
Proof.
  intros [H1 H2 H3]. unfold contents_of. rewrite H1, Nat2Z.id. apply list_eq. intros p. rewrite list_lookup_fmap.
  destruct (decide (p < length l)%nat) as [Hp|Hp].
  - rewrite lookup_seq_lt by done. cbn [fmap option_fmap option_map Nat.add]. rewrite H3 by done.
    destruct (lookup_lt_is_Some_2 l p Hp) as [b Hb]. by rewrite Hb.
  - rewrite lookup_seq_ge by lia. by rewrite lookup_ge_None_2 by lia.
Qed.

(** A file whose size may go beyond its bytes, within its blocks. *)
Lemma mfile_file_is V x l fb (n : nat) :
  mfile V x (needs (length l)) l fb → i_size x = Z.of_nat n → (length l ≤ n)%nat → Z.of_nat n ≤ MAXFILE * BSIZE →
  (∀ p, (p < n)%nat → 512 * (p / 512) < length l)%nat →
  file_is V x (l ++ replicate (n - length l) 0).
Proof.
  intros Hf Hsz Hle Hmax Hin. assert (Hlen : length (l ++ replicate (n - length l) 0) = n).
  { rewrite length_app, length_replicate. lia. }
  split; rewrite ?Hlen; [done|done|]. intros p Hp. specialize (Hin p Hp).
  rewrite (mf_byte _ _ _ _ _ Hf); [|lia|].
  - rewrite lookup_app. destruct (l !! p) as [b|] eqn:E; [done|]. apply lookup_ge_None in E.
    symmetry. apply lookup_replicate_2. lia.
  - apply (mf_slot _ _ _ _ _ Hf); [apply fblock_lt; lia|]. apply bool_decide_eq_true. unfold fslot. repeat case_decide; lia.
Qed.

Section finished.
  Context (V : list block) (files : list (list Z * list Z)) (Hfin : finished V files).

Lemma finished_inode n :
  0 ≤ n < NINODES →
  ∃ x, disk_inode the_sb V n = Some x ∧ i_dev x = ROOTDEV ∧ i_type x = i_type (dino V n) ∧
    i_nlink x = i_nlink (dino V n) ∧ i_size x = i_size (dino V n) ∧ i_addrs x = i_addrs (dino V n).
Proof using Hfin.
  intros Hn. pose proof (IBLOCK_range n Hn) as Hr. pose proof (fn_len _ _ Hfin) as Hl.
  assert (nmeta < FSSIZE) by reflexivity.
  destruct (lookup_lt_is_Some_2 V (Z.to_nat (IBLOCK n the_sb))) as [d Hd]; [lia|].
  unfold disk_inode, dino. rewrite Hd. eexists. split; [done|]. unfold load_dinode, dinode_at. by rsimpl.
Qed.

Lemma finished_ok k t l x :
  inodes_of files !! k = Some (t, l) → i_dev x = ROOTDEV → i_addrs x = i_addrs (dino V (Z.of_nat k + 1)) →
  inode_ok the_sb V x.
Proof using Hfin.
  intros Hk Hdev Ha. destruct (fn_inode _ _ Hfin k t l Hk) as (_ & _ & _ & _ & _ & Hf).
  set (y := dino V (Z.of_nat k + 1)) in *. clearbody y. pose proof (fn_end _ _ Hfin).
  assert (Hs : ∀ j, slot V x j = slot V y j) by (intros j; unfold slot; by rewrite Ha).
  assert (0 < nmeta) by reflexivity. split; [exact Hdev|rewrite Ha; apply Hf|..].
  - intros j Hj. rewrite Hs. intros Hne. pose proof (mf_data _ _ _ _ _ Hf j Hj Hne) as Hd.
    change (data_start the_sb) with nmeta. change (sb_size the_sb) with FSSIZE.
    split_and!; [lia|lia|lia|]. rewrite (fn_used _ _ Hfin) by lia. apply Z.ltb_lt. lia.
  - intros j j' Hj Hj'. rewrite !Hs. by apply (mf_inj _ _ _ _ _ Hf).
Qed.

(** A file of the command line. *)
Lemma finished_file k f x :
  files !! k = Some f → disk_inode the_sb V (Z.of_nat k + 2) = Some x →
  i_type x = T_FILE ∧ i_nlink x = 1 ∧ inode_ok the_sb V x ∧ file_is V x f.2.
Proof using Hfin.
  intros Hk Hx. pose proof (lookup_lt_Some _ _ _ Hk) as Hlt. pose proof (fn_count _ _ Hfin).
  replace (Z.of_nat k + 2) with (Z.of_nat (S k) + 1) in Hx by lia.
  destruct (finished_inode (Z.of_nat (S k) + 1)) as (y & Hy & Hdev & Ht & Hnl & Hsz & Ha); [lia|].
  rewrite Hx in Hy. injection Hy as <-.
  assert (HA : inodes_of files !! S k = Some (T_FILE, f.2)).
  { unfold inodes_of. cbn [lookup list_lookup]. change ((?g <$> files) !! k) with ((g <$> files) !! k).
    rewrite list_lookup_fmap, Hk. done. }
  destruct (fn_inode _ _ Hfin (S k) _ _ HA) as (F1 & F2 & F3 & F4 & F5 & F6). rewrite decide_False in F3 by lia.
  split_and!; [congruence|congruence|by eapply finished_ok|].
  apply (file_is_same V (dino V (Z.of_nat (S k) + 1))); [congruence|congruence|].
  pose proof (mfile_file_is _ _ _ _ (length f.2) F6 F3) as Hfi. rewrite Nat.sub_diag, app_nil_r in Hfi.
  apply Hfi; [done|done|]. intros p Hp. pose proof (Nat.Div0.mul_div_le p 512). lia.
Qed.

Lemma finished_root x :
  ((2 + length files) mod 32 ≠ 0)%nat → disk_inode the_sb V ROOTINO = Some x →
  i_type x = T_DIR ∧ i_nlink x = 1 ∧ inode_ok the_sb V x ∧
  ∃ m, file_is V x (root_dir files ++ replicate m 0) ∧ ((length (root_dir files) + m) mod 16 = 0)%nat.
Proof using Hfin.
  intros Hmod Hx. pose proof (fn_count _ _ Hfin) as Hc. change NINODES with 200 in Hc.
  destruct (finished_inode ROOTINO) as (y & Hy & Hdev & Ht & Hnl & Hsz & Ha); [split; first [reflexivity|discriminate]|].
  rewrite Hx in Hy. injection Hy as <-.
  destruct (fn_inode _ _ Hfin 0%nat _ _ eq_refl) as (F1 & F2 & F3 & F4 & F5 & F6).
  change (Z.of_nat 0 + 1) with ROOTINO in *. rewrite decide_True in F3 by reflexivity.
  split_and!; [congruence|congruence|by eapply (finished_ok 0)|].
  pose proof (length_root_dir files) as HL. set (m := (2 + length files)%nat) in *.
  pose proof (Nat.div_mod_eq m 32) as Hd. pose proof (Nat.mod_upper_bound m 32 ltac:(lia)).
  assert (HLd : Z.of_nat (length (root_dir files)) / 512 = Z.of_nat (m / 32)).
  { symmetry. apply (Z.div_unique_pos _ _ _ (Z.of_nat (16 * (m mod 32)))); lia. }
  set (n := ((m / 32 + 1) * 512)%nat).
  assert (Hn : i_size (dino V ROOTINO) = Z.of_nat n).
  { rewrite F3. unfold root_size. change BSIZE with 512. rewrite HLd. lia. }
  exists (n - length (root_dir files))%nat. split.
  - apply (file_is_same V (dino V ROOTINO)); [congruence|congruence|].
    apply (mfile_file_is _ _ _ _ n F6 Hn); [lia|change (MAXFILE * BSIZE) with 71680; lia|].
    intros p Hp. assert (p / 512 < m / 32 + 1)%nat by (apply Nat.Div0.div_lt_upper_bound; lia). lia.
  - replace (length (root_dir files) + (n - length (root_dir files)))%nat with ((m / 32 + 1) * 32 * 16)%nat by lia.
    apply Nat.Div0.mod_mul.
Qed.

(** The inodes in use are the root and the files. *)
Lemma finished_allocated n : allocated the_sb V n ↔ 1 ≤ n ≤ Z.of_nat (length files) + 1.
Proof using Hfin.
  pose proof (fn_count _ _ Hfin) as Hc. unfold allocated. change (sb_ninodes the_sb) with NINODES. split.
  - intros [Hn (x & Hx & Ht)]. destruct (decide (n ≤ Z.of_nat (length files) + 1)); [lia|]. exfalso. apply Ht.
    destruct (finished_inode n) as (y & Hy & _ & Ety & _); [lia|]. rewrite Hx in Hy. injection Hy as <-.
    rewrite Ety. apply (fn_unused _ _ Hfin). lia.
  - intros Hn. split; [lia|]. destruct (finished_inode n) as (x & Hx & _ & Et & _); [lia|]. exists x. split; [done|].
    destruct (lookup_lt_is_Some_2 (inodes_of files) (Z.to_nat (n - 1))) as [[t l] HA].
    { rewrite length_inodes_of. lia. }
    destruct (fn_inode _ _ Hfin _ _ _ HA) as (F1 & _).
    replace (Z.of_nat (Z.to_nat (n - 1)) + 1) with n in F1 by lia. rewrite Et, F1.
    assert (Hin : (t, l) ∈ inodes_of files) by (by eapply list_elem_of_lookup_2).
    unfold inodes_of in Hin. apply elem_of_cons in Hin as [[= -> _]|Hin]; [discriminate|].
    apply list_elem_of_fmap in Hin as (f & [= -> _] & _). discriminate.
Qed.

(** No block belongs to two files. *)
Lemma finished_disjoint n n' x x' :
  allocated the_sb V n → allocated the_sb V n' → n ≠ n' →
  disk_inode the_sb V n = Some x → disk_inode the_sb V n' = Some x' → disjoint_files V x x'.
Proof using Hfin.
  intros Hn%finished_allocated Hn'%finished_allocated Hne Hx Hx'. pose proof (fn_count _ _ Hfin) as Hc.
  destruct (finished_inode n) as (y & Hy & _ & _ & _ & _ & Ha); [lia|].
  destruct (finished_inode n') as (y' & Hy' & _ & _ & _ & _ & Ha'); [lia|].
  rewrite Hx in Hy. injection Hy as <-. rewrite Hx' in Hy'. injection Hy' as <-.
  destruct (fn_apart _ _ Hfin (Z.to_nat (n - 1)) (Z.to_nat (n' - 1))) as [D _]; [lia..|].
  replace (Z.of_nat (Z.to_nat (n - 1)) + 1) with n in D by lia.
  replace (Z.of_nat (Z.to_nat (n' - 1)) + 1) with n' in D by lia.
  intros j j' Hj Hj'. specialize (D j j' Hj Hj'). unfold slot in *. by rewrite Ha, Ha'.
Qed.

Lemma root_entry_inum k e :
  root_entries files !! k = Some e → 1 ≤ e.1 ≤ Z.of_nat (length files) + 1.
Proof.
  intros Hk. destruct k as [|[|k]]; cbn in Hk; [injection Hk as <-; cbn [fst]; unfold ROOTINO; lia..|].
  change (imap (λ i f, (Z.of_nat i + 2, name_of f.1)) files !! k = Some e) in Hk.
  rewrite list_lookup_imap in Hk. destruct (files !! k) as [f|] eqn:E; [|done]. injection Hk as <-.
  apply lookup_lt_Some in E. cbn. lia.
Qed.

Lemma length_root_entries : length (root_entries files) = (2 + length files)%nat.
Proof. unfold root_entries. cbn [length]. by rewrite length_imap. Qed.

Lemma root_entry m k :
  let c := root_dir files ++ replicate m 0 in
  match root_entries files !! k with
  | Some e => entry c k = dirent_of e ∧ de_inum (entry c k) = e.1
  | None => de_inum (entry c k) = 0
  end.
Proof using Hfin.
  intros c. pose proof (fn_count _ _ Hfin) as Hc. change NINODES with 200 in Hc.
  destruct (root_entries files !! k) as [e|] eqn:E.
  - assert (Ee : entry c k = dirent_of e) by (unfold c; rewrite root_dir_entries; by apply entry_join).
    split; [done|]. rewrite Ee. apply dirent_inum. pose proof (root_entry_inum k e E). lia.
  - apply entry_zero. apply lookup_ge_None in E. rewrite length_root_entries in E. rewrite length_root_dir. lia.
Qed.

Lemma finished_tree : ((2 + length files) mod 32 ≠ 0)%nat → tree_ok the_sb V.
Proof using Hfin.
  intros Hmod n x Hal Hx. pose proof (fn_count _ _ Hfin) as Hc. pose proof (proj1 (finished_allocated n) Hal) as Hn.
  destruct (decide (n = 1)) as [->|Hne].
  - destruct (finished_root x Hmod Hx) as (_ & Hnl & Hok & m & Hfi & Hm). rewrite Hnl. split; [done|]. intros _.
    rewrite (file_contents _ _ _ Hfi). split_and!; [done|done|by rewrite length_app, length_replicate|..].
    + apply Forall_app_2; [|by apply Forall_replicate]. by destruct (fn_inode _ _ Hfin 0%nat _ _ eq_refl) as (_ & _ & _ & ? & _).
    + intros k _ Hk. apply finished_allocated. pose proof (root_entry m k) as He. cbn zeta in He.
      destruct (root_entries files !! k) as [e|] eqn:E; [|done]. destruct He as [_ ->]. by eapply root_entry_inum.
  - destruct (lookup_lt_is_Some_2 files (Z.to_nat (n - 2))) as [f Hf]; [lia|].
    replace n with (Z.of_nat (Z.to_nat (n - 2)) + 2) in Hx by lia.
    destruct (finished_file _ f x Hf Hx) as (Ht & Hnl & _). rewrite Ht, Hnl. split; [done|]. intros E. discriminate.
Qed.
End finished.

(** ** Looking a file up *)

(** The names the root has, as [dirlookup] compares them. *)
Definition root_names (files : list (list Z * list Z)) : list (list Z) := (λ e, take 14 e.2) <$> root_entries files.

Definition no_nul (files : list (list Z * list Z)) : bool := forallb (λ f, bool_decide (0 ∉ name_of f.1)) files.

Lemma root_entry_nul files k e : no_nul files = true → root_entries files !! k = Some e → 0 ∉ e.2.
Proof.
  intros Hn Hk. destruct k as [|[|k]]; cbn in Hk.
  1, 2: injection Hk as <-; cbn [snd]; apply (bool_decide_unpack _); by vm_compute.
  change (imap (λ i f, (Z.of_nat i + 2, name_of f.1)) files !! k = Some e) in Hk.
  rewrite list_lookup_imap in Hk. destruct (files !! k) as [f|] eqn:E; [|done]. injection Hk as <-. cbn [snd].
  unfold no_nul in Hn. rewrite forallb_forall in Hn. specialize (Hn f).
  rewrite bool_decide_eq_true in Hn. apply Hn, list_elem_of_In. by eapply list_elem_of_lookup_2.
Qed.

Lemma walk_file V files k f :
  finished V files → ((2 + length files) mod 32 ≠ 0)%nat → no_nul files = true → NoDup (root_names files) →
  files !! k = Some f → walk the_sb V ROOTINO [take 14 (name_of f.1)] = Some (Z.of_nat k + 2).
Proof.
  intros Hfin Hmod Hnul Hnd Hk. cbn [walk].
  destruct (finished_inode V files Hfin ROOTINO) as (x & Hx & _); [split; first [reflexivity|discriminate]|].
  destruct (finished_root V files Hfin x Hmod Hx) as (Ht & _ & _ & m & Hfi & _).
  rewrite Hx. cbn [mbind option_bind]. rewrite Ht. cbn [Z.eqb T_DIR]. rewrite (file_contents _ _ _ Hfi).
  set (c := root_dir files ++ replicate m 0).
  assert (He : root_entries files !! S (S k) = Some (Z.of_nat k + 2, name_of f.1)).
  { change (imap (λ i f, (Z.of_nat i + 2, name_of f.1)) files !! k = Some (Z.of_nat k + 2, name_of f.1)).
    by rewrite list_lookup_imap, Hk. }
  assert (Hent : ∀ i e, root_entries files !! i = Some e → de_inum (entry c i) = e.1 ∧ cut 14 (de_name (entry c i)) = take 14 e.2).
  { intros i e Hi. pose proof (root_entry V files Hfin m i) as H. cbn zeta in H. fold c in H. rewrite Hi in H.
    destruct H as [E ->]. split; [done|]. rewrite E. apply dirent_name. by eapply root_entry_nul. }
  destruct (Hent _ _ He) as [Ei En]. cbn [fst snd] in Ei, En.
  unfold dir_find. rewrite (find_first c _ 0 (S (S k))); cbn [Nat.add]; rewrite ?Ei, ?En; [done|..].
  - unfold c. rewrite length_app, length_root_dir. apply lookup_lt_Some in Hk. apply Nat.div_le_lower_bound; lia.
  - lia.
  - done.
  - intros i Hi E. destruct (lookup_lt_is_Some_2 (root_entries files) i) as [e Hie].
    { apply lookup_lt_Some in He. lia. }
    destruct (Hent _ _ Hie) as [_ En']. rewrite En' in E.
    assert (i = S (S k)); [|lia]. eapply NoDup_lookup; [exact Hnd|..].
    + unfold root_names. rewrite list_lookup_fmap, Hie. done.
    + unfold root_names. rewrite list_lookup_fmap, He. cbn. by rewrite E.
Qed.

(** ** The theorems *)

(** C18: for files that fit, mkfs succeeds and its image is a file system as
    the kernel's theorems ask for it: of [FSSIZE] blocks, with the super block
    in place, an empty log, a free map that marks just the blocks up to the
    last one used, and a tree in which every inode in use is linked, the root
    is a well-formed directory whose entries name inodes in use, and no block
    belongs to two files.  The root must not end at the end of a block. *)
Theorem mkfs_tree files :
  fits files = true → ((2 + length files) mod 32 ≠ 0)%nat →
  ∃ s, mkfs files = Ok tt s ∧
    let V := img s in
    Forall blk V ∧ geometry (sb_logstart the_sb) (sb_nlog the_sb) (length V) ∧
    layout (sb_logstart the_sb) (sb_nlog the_sb) the_sb (length V) ∧
    meta_ok the_sb V ∧ tree_ok the_sb V ∧
    (∀ b, sb_logstart the_sb ≤ b < sb_inodestart the_sb → V !! Z.to_nat b = Some zero_block) ∧
    (∀ b, 0 ≤ b < FSSIZE → used the_sb V b = (b <? fend files)) ∧
    (∀ n n' x x', allocated the_sb V n → allocated the_sb V n' → n ≠ n' →
       disk_inode the_sb V n = Some x → disk_inode the_sb V n' = Some x' → disjoint_files V x x').
Proof.
  intros Hfit Hmod. destruct (mkfs_finished files Hfit) as (s & E & Hfin). exists s. split; [done|].
  pose proof (fn_len _ _ Hfin) as Hl. change FSSIZE with 1000 in Hl. cbn zeta. split_and!.
  - apply Hfin.
  - rewrite <- (Nat2Z.id (length (img s))), Hl. split; vm_compute; repeat split; discriminate.
  - rewrite <- (Nat2Z.id (length (img s))), Hl. split; vm_compute; repeat split; discriminate.
  - split; [|apply Hfin]. intros b Hb. change (data_start the_sb) with nmeta in Hb.
    rewrite (fn_used _ _ Hfin) by (change nmeta with 59 in Hb; change FSSIZE with 1000; lia).
    apply Z.ltb_lt. unfold fend. pose proof (total_nonneg (inodes_of files)). lia.
  - by eapply finished_tree.
  - apply (fn_log _ _ Hfin).
  - apply (fn_used _ _ Hfin).
  - apply (finished_disjoint _ _ Hfin).
Qed.


Definition demo_files : list (list Z * list Z) :=
  [(chars "README", chars "xv6"); (chars "_cat", replicate 700 7); (chars "_ls", [])].

Lemma mkfs_tree_witness :
  ∃ s, mkfs demo_files = Ok tt s ∧ tree_ok the_sb (img s).
Proof.
  destruct (mkfs_tree demo_files) as (s & E & H).
  - vm_compute. reflexivity.
  - vm_compute. discriminate.
  - exists s. split; [exact E|apply H].
Defined.

